(* ===== verification/_CoqProject ===== *)
-Q . S2P
Prelude.v
GoStrings.v
GoPath.v
GoSort.v
GoErrors.v
GoDigits.v
Threads.v
Grpc.v
Base64.v
GoFloat.v
GoFloatFacts.v
Api.v
ProtoJson.v
Redact.v
Config.v
Duration.v
DurationFacts.v
GoFlag.v
Tabwriter.v
Retry.v
Policy.v
PolicyFacts.v
LogStore.v
IrodsfsConfig.v
Repository.v
PlainCodec.v
LogStoreFacts.v
RepositoryFacts.v
Durable.v
Runtime.v
Command.v
CommandFacts.v
Manager.v
Metrics.v
Logic.v
Invariant.v
Rules.v
ManagerSafe.v
Scenario.v
Concurrency.v
Restart.v
Traces.v
ManagerTraces.v
Streams.v
Delivery.v
Server.v
Rest.v
RestFacts.v
RestQueries.v
Mux.v
Client.v
ClientFacts.v
ClientCalls.v
PidFile.v
PidFileFacts.v
Total.v
Lifecycle.v
Service.v
ServiceFacts.v
Commands.v
Startup.v
Examples.v
ExamplesFacts.v
