(* ===== verification/Prelude.v ===== *)
(** * irodsfsd: a verification library

    irodsfsd is a daemon that mounts iRODS collections (through irodsfs),
    WebDAV servers (davfs2) and NFS exports for its clients.  A request comes
    in over gRPC or REST, is checked against the daemon's policy, recorded in
    a database and carried out by a child process that the daemon supervises:
    it retries with a growing delay, times out, unmounts, and reconciles the
    database with the host's mount table.  This library models that program
    from its Go sources under src/ and proves what makes it correct.

    ** The parts and the files that model them

    - Go itself.  [GoStrings] (strings, strconv, fmt), [GoDigits] (decimal
      numbers read back), [GoPath] (path/filepath), [GoSort] (sort),
      [GoErrors] (errors and errors.Is), [Grpc] (status codes), [Base64],
      [GoFloat] (float64 arithmetic and math.Pow on the Standard Library's
      IEEE model), [GoFloatFacts] (when that arithmetic is exact),
      [Threads] (small concurrent programs and an ownership logic for them),
      [GoFlag] (the flag package), [Tabwriter] (text/tabwriter).
    - [Api]: the messages of service/api/daemon.pb.go as records; a pointer
      field is an [option].  [Redact]: redactMountInfo, collectMountSecrets
      and clientType.  [ProtoJson]: which records protojson can encode.
    - [Config]: commons/config.go, constant.go and endpoint.go.  [Duration]:
      commons/duration.go with Go's own formatting and parsing of durations;
      [DurationFacts].  [Retry]:
      maxAttempts, computeRetryDelay and the classification of failures.
    - [Policy]: validateMountConfig and all it calls, validateMountID, the
      checks of executables and of fuse.conf, isMountPoint, over a file system
      with symbolic links.  [PolicyFacts]: what the policy guarantees.
    - [IrodsfsConfig]: service/mount_config.go.  [Command]:
      service/mount_command.go.  [CommandFacts]: what reaches a command line.
    - [Repository]: service/store, every operation a transaction on a
      key-value map with faults and conflicts; [RepositoryFacts] relates it to
      an abstract map of records.  [Durable]: what every record of a database
      keeps, whatever operations run on it.  [PlainCodec]: a concrete codec.
    - [LogStore]: service/logstore; [LogStoreFacts].
    - [Runtime]: the shared world of the manager (its entries, the registry,
      channels, processes, timers, the database, subscribers), the
      environment of an action, goroutine programs and the scheduler.
      [Manager]: service/mount_manager.go, every operation and goroutine body.
      [Metrics]: the collector of service/metrics.go.
    - [Logic], [Invariant], [Rules], [ManagerSafe]: a rely-guarantee logic,
      the invariant of the manager, rules for the actions, and the safety of
      every goroutine.  [Concurrency]: the theorems for all interleavings.
      [Restart]: any number of daemons, each killed at some moment, one after
      the other on one database.
    - [Traces], [ManagerTraces]: the order of effects within a goroutine,
      whatever the others do.  [Streams]: the handler of event streams
      (WatchMountEvents of service/server.go).  [Delivery]: what reaches a
      subscriber.  [Total], [Lifecycle]: goroutines that are left to run come
      to their end.  [Scenario]: concrete runs.
    - [Server]: service/server.go over the interface mountOperations.
      [Rest]: service/rest.go.  [RestFacts], [RestQueries]: what clients of
      the REST API may rely on.  [Mux]: the routes of the HTTP server
      (service/service.go, service/web) and net/http.ServeMux.
    - [Service]: service/service.go, store.Open and Close, the working
      directories of commons/config.go and the daemon of cmd/main.go, around
      a whole running manager.  [ServiceFacts]: startup and shutdown.
    - [Client]: client/client.go.  [ClientFacts]: what applications that share
      a client may rely on.  [ClientCalls]: how its calls end.  [Examples]:
      the commands of client_examples.  [ExamplesFacts]: these commands from
      their command lines to the handlers of the daemon.
    - [PidFile]: cmd/commons/pid_file.go.  [PidFileFacts].  [Commands]: how a
      command gets its configuration (cmd/commons/args.go, commons/config.go)
      and the commands status and stop of cmd/main.go.  [Startup]: the commands
      start and run, the background process, the writers of the daemon's log
      (commons/config.go), the version and the formatter of log entries.

    ** How state and concurrency are modelled

    A pointer to a managedMount is an index into the heap of entries of
    [World]; the registry maps mount IDs to such indices.  A goroutine is a
    [prog], a tree of atomic actions; an action reads and changes the world
    and may block or panic.  A critical section of a mutex is one action; the
    operation mutex of an entry, which is held across calls, is a field of
    the entry.  The answers of the system (time, random numbers, errors,
    files, the ready case of a select, the iteration order of a map, faults
    of the database) come from the [env] of the action and are arbitrary.
    [run] executes a list of scheduling choices: any interleaving is such a
    list.  Calls to the outside, published events and snapshots are logged in
    [w_history].

    The client library, the PID file and the service are programs of
    [Threads] over worlds of their own, with [pool_run] as their scheduler.
    The world of the service contains the [system] of the manager: a method
    the service calls is a thread it starts there and waits for, a request of
    a client is a sequence of such calls, and the manager's own goroutines
    advance between any two actions of the service.  That the manager inside
    is in a state reachable by [run] is part of the invariant of the service,
    so the theorems of [Concurrency] and [ManagerTraces] apply to it.

    ** What is shown

    - For every interleaving, whether the daemon restores its mounts first or
      not (Concurrency): no panic; a consistent registry; no credential in
      any reply or event; a record before any process; the bound on attempts.
    - For every sequence of crashes and restarts (Restart): the next daemon
      can restore what the last one left, with the same guarantees.
    - For every goroutine in every interleaving (ManagerTraces): Unmount
      records its intent first; data of attached mounts is kept; superseded
      goroutines are harmless.  A stream forwards its subscription (Streams).
    - For every subscriber in every interleaving (Delivery): events arrive in
      the order they were published, each once, and none is missing as long
      as the buffer has room.
    - Liveness (Lifecycle): on a system that is well, a mount request that is
      left to run leads to a mounted mount, and an unmount request to its
      removal from the registry and the database.
    - The daemon (ServiceFacts): whatever clients and signals do, nothing is
      served before the mounts are restored, and the database of a service
      that was started closes after every call has ended, the reconciliation
      has stopped and the manager's Shutdown has returned.
    - The client (ClientFacts, ClientCalls): no connection or flag is lost in
      any interleaving; every call ends, with an operation timeout also when
      the server never answers; a mount is sent at most twice.
    - Client, network and daemon together (ExamplesFacts): a mount command
      that exits with 0 has printed the ID of a mount that the daemon
      recorded and started; an unmount command that exits with 0 has had its
      mount tombstoned, its data removed and its removal announced; commands
      leave no connection open; listings are printed as aligned tables.
    - Daemons on one host (PidFileFacts): one per PID file, which keeps its
      content and its place while the daemon serves.
    - Commands: a command that gets past its flags works on a valid
      configuration, and so does a foreground daemon, with its data in the
      working directory and at its default endpoint too; the stop command ends; the parent of a background daemon
      is told once, and truly, how the start went (Startup).
    - Durations of the configuration read back as written, and a number with
      a unit means that many units (DurationFacts).
    - The repository refines a map, faults included; the schema check.
    - The policy: allowed roots, reserved paths, mount IDs.
    - Command lines: credentials only on standard input; allow_other as it
      reaches the client; redaction; the lines of the davfs2 file; read-only
      mounts.
    - Logs: whole lines, no secrets, bounded queries, reading back what was
      written since the last rotation.
    - REST: what 202, 400 and 404 mean; no credentials in responses; sorted
      and filtered listings; bounded log queries; state filters read back.
    - Routes (Mux): no conflict at startup, one destination for every request,
      and locations lead back to their mounts.

    ** Bounds and fuel

    Runs of the manager are bounded by [limit], 2^64 - 2 scheduling steps,
    because the generation of an entry is a 64-bit counter that steps may
    advance: below that number it cannot wrap.  The same holds of the numbers
    of subscriptions in [Delivery], for 2^64 - 1 steps.  [canonicalize_fuel] gets one
    step per byte of the path, since each round goes to the parent directory;
    [write_loop] one per byte of the buffer, since each round consumes a
    newline; [conflict_retry] the program's own maxConflictRetries.
    [reconnect_loop] gets 66 rounds: its delays double up to a minute and the
    context ends after an hour, and [reconnect_rounds_suffice] shows that the
    rounds never run out.  Loops without a bound in the program (the polling
    of waitForMount, the periodic reconciliation) have no fuel: each round is
    a goroutine that starts the next one.  The loop of WatchMountEvents has a
    number of rounds in its thread, [TWatch], and stands still after them;
    all theorems hold for every number, and [more_rounds] shows that more
    rounds only add to what a handler may do.  [default_backoff] evaluates
    attempts up to 1000, far beyond the configured five.

    ** What is not in the repository

    Third-party code is a parameter with laws from its documentation: the
    error library ([ErrorLib]), the record and log codecs ([RecordCodec],
    [LogCodec]; protojson encodes what is [encodable]: valid UTF-8, times and
    durations in range), lumberjack ([Lumberjack], which may rotate its file
    before any write), net/url ([UrlLib], and [unix_url_law] for unix URLs), irodsfs's configuration package
    ([IrodsfsLib]), gRPC and protojson ([GrpcLib], [RestLib], [served]), the JSON and
    YAML decoders ([ConfigLib], [JsonLib]), go-daemonizer ([startup]).  Every
    theorem with such a law has an instance that satisfies it.  TrimSpace and case mapping are modelled on
    ASCII.

    ** What is not modelled

    Left out because they only forward to libraries: the Prometheus registry
    with its buckets and its handler, Cobra's table of commands and its
    parsing of flags, go-daemonizer, logrus, the content of the web page and
    the generated bindings. *)

From Stdlib Require Export ZArith Lia Ascii.
From stdpp Require Export base tactics option list strings pretty gmap.

#[global] Open Scope Z_scope.
#[global] Arguments String.append !_ _ / : simpl nomatch.

(** ** Results of fallible Go functions

    A Go function that returns [(T, error)] becomes a function into
    [result E T]; a function that returns only [error] becomes a function
    into [option E], [None] being Go's [nil]. *)

Inductive result (E A : Type) : Type :=
| Ok (a : A)
| Err (e : E).
Arguments Ok {E A} a.
Arguments Err {E A} e.

Definition is_Ok {E A} (r : result E A) : bool :=
  match r with Ok _ => true | Err _ => false end.

Definition result_bind {E A B} (r : result E A) (k : A -> result E B) : result E B :=
  match r with
  | Ok a => k a
  | Err e => Err e
  end.

Declare Scope go_scope.
Delimit Scope go_scope with go.
Notation "'let?' x ':=' r 'in' k" := (result_bind r (fun x => k))
  (at level 10, x pattern, r at level 100, k at level 200) : go_scope.
(** [err? c else k]: the idiom [if err := c; err != nil { return err }; k]. *)
Notation "'err?' c 'else' k" := (match c with Some e => Some e | None => k end)
  (at level 10, c at level 100, k at level 200) : go_scope.
#[global] Open Scope go_scope.

(** ** Automation *)

Create HintDb go.
Create Rewrite HintDb go_rw.
#[export] Hint Extern 1 (_ = _) => reflexivity : go.

(** Case analysis on the scrutinee of every [match]/[if] of the goal or of
    a hypothesis, recording the equation. *)
Ltac case_go :=
  match goal with
  | |- context [match ?x with _ => _ end] =>
      let E := fresh "E" in destruct x eqn:E; simpl in *; try discriminate
  end.
Ltac case_go_in H :=
  match type of H with
  | context [match ?x with _ => _ end] =>
      let E := fresh "E" in destruct x eqn:E; simpl in *; try discriminate
  end.

(** Turns boolean string, character and integer tests into propositions. *)
Ltac bools :=
  repeat match goal with
  | H : _ && _ = true |- _ => apply andb_true_iff in H; destruct H
  | H : _ || _ = false |- _ => apply orb_false_iff in H; destruct H
  | H : negb _ = true |- _ => apply negb_true_iff in H
  | H : negb _ = false |- _ => apply negb_false_iff in H
  | H : String.eqb _ _ = true |- _ => apply String.eqb_eq in H
  | H : String.eqb _ _ = false |- _ => apply String.eqb_neq in H
  | H : Ascii.eqb _ _ = true |- _ => apply Ascii.eqb_eq in H
  | H : Ascii.eqb _ _ = false |- _ => apply Ascii.eqb_neq in H
  | H : (_ =? _)%Z = true |- _ => apply Z.eqb_eq in H
  | H : (_ =? _)%Z = false |- _ => apply Z.eqb_neq in H
  | H : (_ <? _)%Z = true |- _ => apply Z.ltb_lt in H
  | H : (_ <? _)%Z = false |- _ => apply Z.ltb_ge in H
  | H : (_ <=? _)%Z = true |- _ => apply Z.leb_le in H
  | H : (_ <=? _)%Z = false |- _ => apply Z.leb_gt in H
  end.

(** ** Machine integers *)

Definition two32 : Z := 4294967296.
Definition two63 : Z := 9223372036854775808.
Definition two64 : Z := 18446744073709551616.

(** Go's wrap-around at the width of [int32], [int64] and [uint64]. *)
Definition wrap_i32 (z : Z) : Z := (z + 2147483648) mod two32 - 2147483648.
Definition wrap_i64 (z : Z) : Z := (z + two63) mod two64 - two63.
Definition wrap_u64 (z : Z) : Z := z mod two64.

Lemma wrap_i32_id z : -2147483648 <= z < 2147483648 -> wrap_i32 z = z.
Proof. intros H. unfold wrap_i32, two32. rewrite Z.mod_small; lia. Qed.

Lemma wrap_i64_id z : - two63 <= z < two63 -> wrap_i64 z = z.
Proof. unfold wrap_i64, two63, two64. intros H. rewrite Z.mod_small; lia. Qed.

Lemma wrap_u64_id z : 0 <= z < two64 -> wrap_u64 z = z.
Proof. intros H. unfold wrap_u64. by rewrite Z.mod_small. Qed.

(** A [uint64] counter never equals its successor: one increment is enough
    to make every older observation of it stale. *)
Lemma wrap_u64_succ_ne z : wrap_u64 (z + 1) <> z.
Proof.
  unfold wrap_u64, two64. intros H.
  pose proof (Z.mod_pos_bound (z + 1) 18446744073709551616 ltac:(lia)).
  rewrite H in H0. destruct (Z.eq_dec z 18446744073709551615) as [->|].
  - vm_compute in H. discriminate.
  - rewrite Z.mod_small in H; lia.
Qed.

(** ** Lists *)

Lemma forallb_Forall {A} (f : A -> bool) (P : A -> Prop) l :
  (forall x, f x = true <-> P x) -> forallb f l = true <-> Forall P l.
Proof.
  intros Hf. rewrite forallb_forall, List.Forall_forall.
  split; intros H x Hx; apply Hf, H, Hx.
Qed.

Lemma existsb_eqb_elem (s : string) (l : list string) :
  existsb (String.eqb s) l = true <-> s ∈ l.
Proof.
  rewrite existsb_exists, list_elem_of_In. split.
  - intros (x & Hx & He). apply String.eqb_eq in He. by subst.
  - intros H. exists s. split; [done|]. apply String.eqb_refl.
Qed.
