(* ===== verification/GoStrings.v ===== *)
(** * The part of Go's [strings], [bytes], [fmt] and [strconv] the daemon uses

    Go strings are byte sequences; so is [String.string].  [TrimSpace],
    [Fields], [ToUpper] and [ToLower] are modelled on ASCII: a byte at or
    above 0x80 is never a space and has no case.  [Quote] (the verb %q)
    keeps bytes at or above 0x80 as they are, which is what Go does with
    printable UTF-8. *)

From S2P Require Import Prelude.

(** ** Characters *)

Definition ch_slash : ascii := "/"%char.
Definition ch_newline : ascii := "010"%char.
Definition ch_tab : ascii := "009"%char.
Definition ch_cr : ascii := "013"%char.
Definition ch_quote : ascii := "034"%char.
Definition ch_backslash : ascii := "092"%char.

Definition str1 (c : ascii) : string := String c EmptyString.

Definition code (c : ascii) : Z := Z.of_N (N_of_ascii c).

Definition is_ascii (c : ascii) : bool := code c <? 128.

Definition in_range (lo hi : ascii) (c : ascii) : bool :=
  (code lo <=? code c) && (code c <=? code hi).

(** unicode.IsSpace on ASCII: tab, newline, vertical tab, form feed,
    carriage return and blank. *)
Definition is_space (c : ascii) : bool :=
  (code c =? 32) || ((9 <=? code c) && (code c <=? 13)).

Definition is_digit (c : ascii) : bool := in_range "0"%char "9"%char c.

Definition upper_ascii (c : ascii) : ascii :=
  if in_range "a"%char "z"%char c then ascii_of_N (N_of_ascii c - 32) else c.
Definition lower_ascii (c : ascii) : ascii :=
  if in_range "A"%char "Z"%char c then ascii_of_N (N_of_ascii c + 32) else c.

(** ** Strings as character sequences *)

Fixpoint string_map (f : ascii -> ascii) (s : string) : string :=
  match s with
  | EmptyString => EmptyString
  | String c s' => String (f c) (string_map f s')
  end.

Fixpoint string_forallb (f : ascii -> bool) (s : string) : bool :=
  match s with
  | EmptyString => true
  | String c s' => f c && string_forallb f s'
  end.

Definition string_existsb (f : ascii -> bool) (s : string) : bool :=
  negb (string_forallb (fun c => negb (f c)) s).

Definition ToUpper (s : string) : string := string_map upper_ascii s.
Definition ToLower (s : string) : string := string_map lower_ascii s.

(** strings.HasPrefix(s, prefix) *)
Definition HasPrefix (s prefix : string) : bool := String.prefix prefix s.

Fixpoint drop_string (n : nat) (s : string) : string :=
  match n, s with
  | O, _ => s
  | S n', String _ s' => drop_string n' s'
  | S _, EmptyString => EmptyString
  end.

(** strings.TrimPrefix(s, prefix) *)
Definition TrimPrefix (s prefix : string) : string :=
  if HasPrefix s prefix then drop_string (String.length prefix) s else s.

Fixpoint TrimLeftFunc (f : ascii -> bool) (s : string) : string :=
  match s with
  | EmptyString => EmptyString
  | String c s' => if f c then TrimLeftFunc f s' else s
  end.

Fixpoint TrimRightFunc (f : ascii -> bool) (s : string) : string :=
  match s with
  | EmptyString => EmptyString
  | String c s' =>
      match TrimRightFunc f s' with
      | EmptyString => if f c then EmptyString else String c EmptyString
      | t => String c t
      end
  end.

Definition TrimSpace (s : string) : string :=
  TrimLeftFunc is_space (TrimRightFunc is_space s).

(** strings.Contains(s, substr) *)
Fixpoint Contains (s substr : string) : bool :=
  HasPrefix s substr ||
  match s with
  | EmptyString => false
  | String _ s' => Contains s' substr
  end.

(** strings.ContainsAny(s, chars) *)
Definition ContainsAny (s chars : string) : bool :=
  string_existsb (fun c => string_existsb (Ascii.eqb c) chars) s.

(** strings.Split(s, sep) for a one-byte separator. *)
Fixpoint Split (sep : ascii) (s : string) : list string :=
  match s with
  | EmptyString => [EmptyString]
  | String c s' =>
      if Ascii.eqb c sep then EmptyString :: Split sep s'
      else match Split sep s' with
           | [] => [str1 c]
           | w :: ws => String c w :: ws
           end
  end.

(** strings.Join(elems, sep) *)
Fixpoint Join (sep : string) (l : list string) : string :=
  match l with
  | [] => EmptyString
  | [x] => x
  | x :: l' => x +:+ sep +:+ Join sep l'
  end.

(** strings.Fields(s): the maximal runs of non-space bytes. *)
Fixpoint fields_aux (word : string) (s : string) : list string :=
  match s with
  | EmptyString => if String.eqb word EmptyString then [] else [word]
  | String c s' =>
      if is_space c
      then (if String.eqb word EmptyString then [] else [word]) ++ fields_aux EmptyString s'
      else fields_aux (word +:+ str1 c) s'
  end.
Definition Fields (s : string) : list string := fields_aux EmptyString s.

(** strings.ReplaceAll(s, old, new) for a non-empty [old]: leftmost,
    non-overlapping occurrences.  [skip] counts the bytes of an occurrence
    already replaced. *)
Fixpoint replace_aux (old new : string) (skip : nat) (s : string) : string :=
  match s with
  | EmptyString => EmptyString
  | String c s' =>
      match skip with
      | S k => replace_aux old new k s'
      | O => if HasPrefix s old
             then new +:+ replace_aux old new (String.length old - 1) s'
             else String c (replace_aux old new O s')
      end
  end.
Definition ReplaceAll (s old new : string) : string := replace_aux old new O s.

(** strings.NewReplacer(pairs...).Replace(s): at each position the first
    pair whose key matches there is applied. *)
Fixpoint replacer_match (pairs : list (string * string)) (s : string) : option (string * string) :=
  match pairs with
  | [] => None
  | (old, new) :: rest => if HasPrefix s old then Some (old, new) else replacer_match rest s
  end.
Fixpoint replacer_aux (pairs : list (string * string)) (skip : nat) (s : string) : string :=
  match s with
  | EmptyString => EmptyString
  | String c s' =>
      match skip with
      | S k => replacer_aux pairs k s'
      | O => match replacer_match pairs s with
             | Some (old, new) => new +:+ replacer_aux pairs (String.length old - 1) s'
             | None => String c (replacer_aux pairs O s')
             end
      end
  end.
Definition Replacer (pairs : list (string * string)) (s : string) : string := replacer_aux pairs O s.

(** ** Formatting *)

Definition hex_digit (n : N) : ascii :=
  if (n <? 10)%N then ascii_of_N (48 + n) else ascii_of_N (87 + n).

Definition quote_char (c : ascii) : string :=
  let n := code c in
  if n =? 34 then String ch_backslash (str1 ch_quote)
  else if n =? 92 then String ch_backslash (str1 ch_backslash)
  else if n =? 7 then "\a" else if n =? 8 then "\b" else if n =? 12 then "\f"
  else if n =? 10 then "\n" else if n =? 13 then "\r" else if n =? 9 then "\t"
  else if n =? 11 then "\v"
  else if (n <? 32) || (n =? 127)
  then "\x" +:+ String (hex_digit (N_of_ascii c / 16)) (str1 (hex_digit (N_of_ascii c mod 16)))
  else str1 c.

Fixpoint quote_body (s : string) : string :=
  match s with
  | EmptyString => EmptyString
  | String c s' => quote_char c +:+ quote_body s'
  end.

(** The verb %q. *)
Definition Quote (s : string) : string := String ch_quote (quote_body s +:+ str1 ch_quote).

(** The verb %d. *)
Definition Itoa (z : Z) : string := pretty z.

(** strconv.Atoi / ParseInt(s, 10, _) on an optional sign and digits; [None]
    is a syntax or a range error for the given bounds. *)
Fixpoint digits_value (acc : Z) (s : string) : option Z :=
  match s with
  | EmptyString => Some acc
  | String c s' => if is_digit c then digits_value (acc * 10 + (code c - 48)) s' else None
  end.
Definition parse_int (lo hi : Z) (s : string) : option Z :=
  let v := match s with
           | EmptyString => None
           | String c s' =>
               if Ascii.eqb c "-"%char then
                 (if String.eqb s' EmptyString then None else Z.opp <$> digits_value 0 s')
               else if Ascii.eqb c "+"%char then
                 (if String.eqb s' EmptyString then None else digits_value 0 s')
               else digits_value 0 s
           end in
  match v with
  | Some z => if (lo <=? z) && (z <=? hi) then Some z else None
  | None => None
  end.
Definition Atoi (s : string) : option Z := parse_int (- two63) (two63 - 1) s.

(** ** Facts *)

Lemma string_app_nil_r (s : string) : s +:+ EmptyString = s.
Proof. induction s; simpl; [done | by f_equal]. Qed.

Lemma string_app_assoc (a b c : string) : a +:+ b +:+ c = (a +:+ b) +:+ c.
Proof. induction a; simpl; [done | by f_equal]. Qed.

Lemma string_app_nil_inv (a b : string) : a +:+ b = EmptyString -> a = EmptyString /\ b = EmptyString.
Proof. destruct a; simpl; [done | discriminate]. Qed.

Lemma string_length_app (a b : string) :
  String.length (a +:+ b) = (String.length a + String.length b)%nat.
Proof. induction a; simpl; [done | by f_equal]. Qed.

Lemma string_forallb_app f (a b : string) :
  string_forallb f (a +:+ b) = string_forallb f a && string_forallb f b.
Proof. induction a; simpl; [done|]. by rewrite IHa, andb_assoc. Qed.

Lemma HasPrefix_spec (s p : string) : HasPrefix s p = true <-> exists t, s = p +:+ t.
Proof.
  unfold HasPrefix. revert s. induction p as [|c p IH]; intros s; simpl.
  - split; [by exists s|]. by destruct s.
  - destruct s as [|d s]; simpl; [split; [done|]; intros [t Ht]; discriminate|].
    destruct (ascii_dec c d) as [->|Hne].
    + rewrite IH. split; intros [t Ht]; exists t; congruence.
    + split; [done|]. intros [t Ht]. congruence.
Qed.

Lemma HasPrefix_app (p t : string) : HasPrefix (p +:+ t) p = true.
Proof. apply HasPrefix_spec. by exists t. Qed.

Lemma Split_nonempty sep s : Split sep s <> [].
Proof. destruct s; simpl; [done|]. repeat case_match; done. Qed.

(** No element of a split holds the separator. *)
Definition lacks (c : ascii) (s : string) : bool := string_forallb (fun d => negb (Ascii.eqb d c)) s.

Lemma Split_lacks sep s : Forall (fun w => lacks sep w = true) (Split sep s).
Proof.
  induction s as [|c s IH]; simpl; [by repeat constructor|].
  destruct (Ascii.eqb c sep) eqn:E; [by constructor|].
  destruct (Split sep s) as [|w ws]; [by repeat constructor; unfold lacks; simpl; rewrite E|].
  inversion_clear IH. constructor; [|done]. unfold lacks; simpl. by rewrite E.
Qed.

Lemma Join_Split sep s : Join (str1 sep) (Split sep s) = s.
Proof.
  induction s as [|c s IH]; simpl; [done|].
  destruct (Ascii.eqb c sep) eqn:E.
  - apply Ascii.eqb_eq in E as ->. pose proof (Split_nonempty sep s).
    destruct (Split sep s) eqn:Es; [done|]. simpl in *. by rewrite IH.
  - destruct (Split sep s) as [|w [|w' ws]]; simpl in *; [by rewrite <- IH | by rewrite <- IH |].
    by rewrite <- IH.
Qed.

Lemma Split_lacks_id sep s : lacks sep s = true -> Split sep s = [s].
Proof.
  unfold lacks. induction s as [|c s IH]; simpl; [done|]. intros H. bools.
  rewrite (proj2 (Ascii.eqb_neq _ _)) by done. by rewrite IH.
Qed.

Lemma Split_app_sep sep w s :
  lacks sep w = true -> Split sep (w +:+ String sep s) = w :: Split sep s.
Proof.
  unfold lacks. induction w as [|c w IH]; simpl; intros H.
  - by rewrite Ascii.eqb_refl.
  - bools. rewrite (proj2 (Ascii.eqb_neq _ _)) by done. by rewrite IH.
Qed.

Lemma Split_Join sep l :
  l <> [] -> Forall (fun w => lacks sep w = true) l -> Split sep (Join (str1 sep) l) = l.
Proof.
  intros Hne H. induction H as [|w l Hw Hl IH]; [done|]. destruct l as [|w' l].
  - simpl. by apply Split_lacks_id.
  - change (Join (str1 sep) (w :: w' :: l)) with (w +:+ String sep (Join (str1 sep) (w' :: l))).
    rewrite Split_app_sep by done. by rewrite IH.
Qed.

Lemma Join_cons sep x l : l <> [] -> Join sep (x :: l) = x +:+ sep +:+ Join sep l.
Proof. by destruct l. Qed.

Lemma ContainsAny_false s chars :
  ContainsAny s chars = false <->
  string_forallb (fun c => string_forallb (fun d => negb (Ascii.eqb c d)) chars) s = true.
Proof.
  unfold ContainsAny, string_existsb. rewrite negb_false_iff.
  induction s as [|c s IH]; simpl; [done|].
  rewrite !andb_true_iff, IH, negb_involutive. done.
Qed.
