(* ===== verification/GoPath.v ===== *)
(** * Go's [path/filepath] on Unix

    [Clean], [IsAbs], [Dir], [Base], [Join] and [Rel], written over the
    list of '/'-separated elements of a path, and the facts the path policy
    needs: a cleaned absolute path is "/" followed by elements none of which
    is empty, ".", ".." or holds a '/'. *)

From S2P Require Import Prelude GoStrings.

Definition dot : string := ".".
Definition dotdot : string := "..".
Definition sep : string := "/".

Definition elements (p : string) : list string := Split ch_slash p.

Definition IsAbs (p : string) : bool := HasPrefix p sep.

(** One element of a path against the elements already kept, innermost
    first. *)
Definition clean_step (rooted : bool) (acc : list string) (seg : string) : list string :=
  if String.eqb seg EmptyString || String.eqb seg dot then acc
  else if String.eqb seg dotdot then
    match acc with
    | [] => if rooted then [] else [dotdot]
    | x :: acc' => if String.eqb x dotdot then dotdot :: acc else acc'
    end
  else seg :: acc.

Definition norm (rooted : bool) (segs : list string) : list string :=
  rev (fold_left (clean_step rooted) segs []).

(** The absolute path with the given elements. *)
Definition apath (l : list string) : string := sep +:+ Join sep l.

Definition Clean (p : string) : string :=
  if IsAbs p then apath (norm true (elements p))
  else match norm false (elements p) with
       | [] => dot
       | l => Join sep l
       end.

(** The elements of the location an absolute path names. *)
Definition abs_elements (p : string) : list string := norm true (elements p).

Definition Dir (p : string) : string :=
  match removelast (elements p) with
  | [] => Clean EmptyString
  | l => Clean (Join sep l +:+ sep)
  end.

Definition Base (p : string) : string :=
  if String.eqb p EmptyString then dot
  else let p' := TrimRightFunc (Ascii.eqb ch_slash) p in
       if String.eqb p' EmptyString then sep
       else default dot (last (elements p')).

Fixpoint drop_empty (l : list string) : list string :=
  match l with
  | [] => []
  | x :: l' => if String.eqb x EmptyString then drop_empty l' else l
  end.

Definition PathJoin (l : list string) : string :=
  match drop_empty l with
  | [] => EmptyString
  | l' => Clean (Join sep l')
  end.

Fixpoint strip_common (base targ : list string) : list string * list string :=
  match base, targ with
  | b :: base', t :: targ' => if String.eqb b t then strip_common base' targ' else (base, targ)
  | _, _ => (base, targ)
  end.

(** The elements of a cleaned path; [Rel] treats "." as no element. *)
Definition clean_elements (p : string) : list string :=
  norm (IsAbs p) (elements p).

(** filepath.Rel; [None] is the error "can't make targ relative to base". *)
Definition Rel (basepath targpath : string) : option string :=
  if String.eqb (Clean targpath) (Clean basepath) then Some dot
  else if negb (Bool.eqb (IsAbs basepath) (IsAbs targpath)) then None
  else let '(b, t) := strip_common (clean_elements basepath) (clean_elements targpath) in
       match b with
       | [] => Some (Join sep t)
       | b1 :: _ =>
           if String.eqb b1 dotdot && negb (bool_decide (t = [])) then None
           else Some (Join sep (map (fun _ => dotdot) b ++ t))
       end.

(** ** Normal element lists *)

Definition seg_ok (s : string) : Prop :=
  s <> EmptyString /\ s <> dot /\ lacks ch_slash s = true.

Fixpoint acc_ok (rooted : bool) (acc : list string) : Prop :=
  match acc with
  | [] => True
  | x :: acc' =>
      seg_ok x /\ acc_ok rooted acc' /\
      (x = dotdot -> rooted = false /\ match acc' with [] => True | y :: _ => y = dotdot end)
  end.

(** [normal rooted l]: [l] is the element list of a cleaned path. *)
Definition normal (rooted : bool) (l : list string) : Prop := acc_ok rooted (rev l).

Lemma clean_step_ok rooted acc seg :
  lacks ch_slash seg = true -> acc_ok rooted acc -> acc_ok rooted (clean_step rooted acc seg).
Proof.
  intros Hl Hacc. unfold clean_step.
  destruct (String.eqb_spec seg EmptyString); [done|].
  destruct (String.eqb_spec seg dot); [done|]. simpl.
  destruct (String.eqb_spec seg dotdot) as [->|Hdd].
  - destruct acc as [|x acc]; [by destruct rooted|]. destruct (String.eqb_spec x dotdot) as [->|].
    + split; [done|]. split; [done|]. intros _. split; [|done]. by apply Hacc.
    + apply Hacc.
  - split; [done|]. split; [done|]. done.
Qed.

Lemma fold_clean_ok rooted segs acc :
  Forall (fun s => lacks ch_slash s = true) segs -> acc_ok rooted acc ->
  acc_ok rooted (fold_left (clean_step rooted) segs acc).
Proof.
  intros H. revert acc. induction H as [|s l Hs _ IH]; intros acc Hacc; simpl; [done|].
  apply IH. by apply clean_step_ok.
Qed.

Lemma norm_normal rooted p : normal rooted (norm rooted (elements p)).
Proof.
  unfold normal, norm. rewrite rev_involutive. apply fold_clean_ok; [apply Split_lacks | done].
Qed.

Lemma fold_clean_rev rooted acc :
  acc_ok rooted acc -> fold_left (clean_step rooted) (rev acc) [] = acc.
Proof.
  induction acc as [|x acc IH]; intros H; [done|]. destruct H as [(He & Hd & Hl) [Hacc Hdd]].
  simpl. rewrite fold_left_app, IH by done. simpl. unfold clean_step.
  rewrite (proj2 (String.eqb_neq _ _) He), (proj2 (String.eqb_neq _ _) Hd). simpl.
  destruct (String.eqb_spec x dotdot) as [->|]; [|done].
  destruct Hdd as [-> Hy]; [done|]. destruct acc as [|y acc]; [done|]. by subst.
Qed.

Lemma norm_id rooted l : normal rooted l -> norm rooted l = l.
Proof.
  unfold normal, norm. intros H. rewrite <- (rev_involutive l) at 1.
  rewrite fold_clean_rev by done. apply rev_involutive.
Qed.

Lemma acc_ok_seg rooted acc x : acc_ok rooted acc -> x ∈ acc -> seg_ok x.
Proof.
  induction acc as [|y acc IH]; intros H Hx; [by apply elem_of_nil in Hx|].
  apply elem_of_cons in Hx as [->|Hx]; [apply H | apply IH; [apply H | done]].
Qed.

Lemma acc_ok_rooted acc : acc_ok true acc -> dotdot ∉ acc.
Proof.
  induction acc as [|y acc IH]; intros H Hx; [by apply elem_of_nil in Hx|].
  apply elem_of_cons in Hx as [<-|Hx].
  - destruct H as (_ & _ & Hd). by destruct (Hd eq_refl).
  - by apply IH; [apply H|].
Qed.

Lemma normal_seg rooted l x : normal rooted l -> x ∈ l -> seg_ok x.
Proof.
  intros H Hx. eapply acc_ok_seg; [exact H|]. rewrite list_elem_of_In in *. by apply in_rev in Hx.
Qed.

Lemma normal_rooted l : normal true l -> dotdot ∉ l.
Proof.
  intros H Hx. eapply acc_ok_rooted; [exact H|]. rewrite list_elem_of_In in *. by apply in_rev in Hx.
Qed.

Lemma normal_true_iff l : normal true l <-> Forall (fun x => seg_ok x /\ x <> dotdot) l.
Proof.
  split.
  - intros H. apply Forall_forall. intros x Hx. split; [by eapply normal_seg|].
    intros ->. by eapply normal_rooted.
  - unfold normal. intros H. apply Forall_rev in H. revert H. generalize (rev l). clear l.
    intros l H. induction H as [|x l Hx Hl IH]; [done|].
    simpl. split; [apply Hx|]. split; [done|]. intros Hd. by destruct Hx.
Qed.

Lemma normal_lacks rooted l : normal rooted l -> Forall (fun w => lacks ch_slash w = true) l.
Proof.
  intros H. apply Forall_forall. intros x Hx. apply (normal_seg _ _ _ H Hx).
Qed.

(** ** Cleaned paths *)

Lemma IsAbs_apath l : IsAbs (apath l) = true.
Proof. apply HasPrefix_app. Qed.

Lemma norm_empty rooted l : norm rooted (EmptyString :: l) = norm rooted l.
Proof. done. Qed.

Lemma elements_apath l :
  l <> [] -> Forall (fun w => lacks ch_slash w = true) l -> elements (apath l) = EmptyString :: l.
Proof.
  intros Hne Hl. unfold elements, apath, sep. simpl.
  by rewrite (Split_Join ch_slash) by done.
Qed.

Lemma abs_elements_apath l : normal true l -> abs_elements (apath l) = l.
Proof.
  intros H. unfold abs_elements. destruct l as [|x l]; [done|].
  rewrite elements_apath by first [done | by eapply normal_lacks].
  by rewrite norm_empty, norm_id.
Qed.

Lemma abs_elements_normal p : normal true (abs_elements p).
Proof. apply norm_normal. Qed.
#[export] Hint Resolve abs_elements_normal : go.

Lemma Clean_abs p : IsAbs p = true -> Clean p = apath (abs_elements p).
Proof. intros H. unfold Clean. by rewrite H. Qed.

Lemma Clean_apath l : normal true l -> Clean (apath l) = apath l.
Proof. intros H. by rewrite Clean_abs, abs_elements_apath by first [done | apply IsAbs_apath]. Qed.

Lemma IsAbs_Clean p : IsAbs p = true -> IsAbs (Clean p) = true.
Proof. intros H. rewrite Clean_abs by done. apply IsAbs_apath. Qed.

Lemma abs_elements_Clean p : IsAbs p = true -> abs_elements (Clean p) = abs_elements p.
Proof. intros H. rewrite Clean_abs by done. apply abs_elements_apath, abs_elements_normal. Qed.

Lemma apath_inj l1 l2 : normal true l1 -> normal true l2 -> apath l1 = apath l2 -> l1 = l2.
Proof.
  intros H1 H2 H. rewrite <- (abs_elements_apath l1), <- (abs_elements_apath l2) by done.
  by rewrite H.
Qed.

Lemma IsAbs_Join_rel x l : seg_ok x -> IsAbs (Join sep (x :: l)) = false.
Proof.
  intros (Hne & _ & Hl). destruct (IsAbs _) eqn:E; [|done]. exfalso.
  apply HasPrefix_spec in E as [t Ht]. destruct x as [|c x]; [done|].
  assert (c = ch_slash) as ->. { destruct l; simpl in Ht; by injection Ht. }
  unfold lacks in Hl. simpl in Hl. discriminate.
Qed.

Lemma Clean_idem p : Clean (Clean p) = Clean p.
Proof.
  destruct (IsAbs p) eqn:E.
  - rewrite (Clean_abs p) by done. apply Clean_apath, abs_elements_normal.
  - unfold Clean at 2 3. rewrite E. pose proof (norm_normal false p) as Hn.
    destruct (norm false (elements p)) as [|x l] eqn:En; [done|].
    unfold Clean. rewrite IsAbs_Join_rel; [|eapply normal_seg; [exact Hn | left]].
    unfold elements. rewrite (Split_Join ch_slash) by first [done | by eapply normal_lacks].
    by rewrite norm_id.
Qed.

(** ** Parent directory and last element of a cleaned absolute path *)

Lemma removelast_cons_snoc {A} (y : A) l x : removelast (y :: l ++ [x]) = y :: l.
Proof. change (y :: l ++ [x]) with ((y :: l) ++ [x]). apply removelast_last. Qed.

Lemma norm_app_empty rooted l : norm rooted (l ++ [EmptyString]) = norm rooted l.
Proof. unfold norm. by rewrite fold_left_app. Qed.

Lemma normal_snoc_inv l x : normal true (l ++ [x]) -> normal true l /\ seg_ok x /\ x <> dotdot.
Proof.
  rewrite !normal_true_iff, Forall_app. intros [H1 H2]. split; [done|].
  by inversion H2.
Qed.

Lemma Join_snoc l x : l <> [] -> Join sep (l ++ [x]) = Join sep l +:+ sep +:+ x.
Proof.
  induction l as [|y l IH]; [done|]. intros _. destruct l as [|z l]; [done|].
  change ((y :: z :: l) ++ [x]) with (y :: (z :: l) ++ [x]).
  rewrite Join_cons by done. rewrite IH by done. rewrite (Join_cons _ y) by done.
  by rewrite !string_app_assoc.
Qed.

Lemma Dir_apath_snoc l x : normal true (l ++ [x]) -> Dir (apath (l ++ [x])) = apath l.
Proof.
  intros H. destruct (normal_snoc_inv _ _ H) as [Hl _]. unfold Dir.
  rewrite elements_apath by first [by eapply normal_lacks | by destruct l].
  rewrite removelast_cons_snoc. destruct l as [|y l]; [done|].
  replace (Join sep (EmptyString :: y :: l) +:+ sep) with (apath ((y :: l) ++ [EmptyString])).
  - rewrite Clean_abs by apply IsAbs_apath. f_equal. unfold abs_elements.
    rewrite elements_apath; [|done|].
    + by rewrite norm_empty, norm_app_empty, norm_id.
    + apply Forall_app. split; [by eapply normal_lacks | by repeat constructor].
  - unfold apath. rewrite Join_snoc by done. rewrite (Join_cons _ EmptyString) by done.
    by rewrite string_app_nil_r.
Qed.

Lemma Dir_root : Dir (apath []) = apath [].
Proof. done. Qed.

Lemma TrimRightFunc_id f s c :
  f c = false -> TrimRightFunc f (s +:+ str1 c) = s +:+ str1 c.
Proof.
  intros H. induction s as [|d s IH]; simpl; [by rewrite H|]. rewrite IH. by destruct s.
Qed.

Lemma string_snoc (s : string) : s <> EmptyString -> exists t c, s = t +:+ str1 c.
Proof.
  induction s as [|c s IH]; [done|]. intros _. destruct s as [|d s]; [by exists EmptyString, c|].
  destruct IH as (t & e & He); [done|]. exists (String c t), e. by rewrite He.
Qed.

Lemma apath_snoc l x : exists t, apath (l ++ [x]) = t +:+ x.
Proof.
  destruct l as [|y l]; [by exists sep|]. exists (sep +:+ Join sep (y :: l) +:+ sep).
  unfold apath. rewrite Join_snoc by done. by rewrite !string_app_assoc.
Qed.

Lemma Base_apath_snoc l x : normal true (l ++ [x]) -> Base (apath (l ++ [x])) = x.
Proof.
  intros H. destruct (normal_snoc_inv _ _ H) as (_ & (Hne & _ & Hlk) & _). unfold Base.
  destruct (String.eqb_spec (apath (l ++ [x])) EmptyString) as [E|_]; [done|].
  assert (TrimRightFunc (Ascii.eqb ch_slash) (apath (l ++ [x])) = apath (l ++ [x])) as ->.
  { destruct (apath_snoc l x) as [t ->]. destruct (string_snoc x Hne) as (u & c & ->).
    rewrite string_app_assoc. apply TrimRightFunc_id.
    unfold lacks in Hlk. rewrite string_forallb_app in Hlk. simpl in Hlk. bools.
    rewrite Ascii.eqb_sym. by apply Ascii.eqb_neq. }
  destruct (String.eqb_spec (apath (l ++ [x])) EmptyString) as [E|_]; [done|].
  rewrite elements_apath by first [by eapply normal_lacks | by destruct l].
  change (EmptyString :: l ++ [x]) with ((EmptyString :: l) ++ [x]). by rewrite last_snoc.
Qed.

(** Joining one proper element onto an absolute directory names the child of
    that directory. *)
Lemma Split_app_last u x :
  lacks ch_slash x = true -> Split ch_slash (u +:+ String ch_slash x) = Split ch_slash u ++ [x].
Proof.
  intros Hl. induction u as [|c u IH]; simpl; [by rewrite Split_lacks_id|].
  rewrite IH. destruct (Ascii.eqb c ch_slash); [done|].
  pose proof (Split_nonempty ch_slash u). by destruct (Split ch_slash u).
Qed.

Lemma PathJoin_child root x :
  IsAbs root = true -> seg_ok x -> x <> dotdot ->
  PathJoin [root; x] = apath (abs_elements root ++ [x]).
Proof.
  intros Hr (Hne & Hdot & Hl) Hdd. apply HasPrefix_spec in Hr as [t ->].
  change (PathJoin [sep +:+ t; x]) with (Clean (String ch_slash t +:+ String ch_slash x)).
  rewrite Clean_abs; [|by destruct t]. f_equal. unfold abs_elements, elements.
  rewrite Split_app_last by done. unfold norm. rewrite fold_left_app. simpl. unfold clean_step at 1.
  rewrite !(proj2 (String.eqb_neq _ _)) by done. done.
Qed.

(** ** [Rel] between absolute paths *)

Lemma strip_common_prefix b t :
  b `prefix_of` t -> exists r, strip_common b t = ([], r) /\ t = b ++ r.
Proof.
  intros [r ->]. exists r. split; [|done]. induction b as [|x b IH]; simpl; [by destruct r|].
  by rewrite String.eqb_refl.
Qed.

Lemma strip_common_not_prefix b t :
  ~ b `prefix_of` t -> exists x b' t', strip_common b t = (x :: b', t').
Proof.
  revert t. induction b as [|x b IH]; intros t H; [by destruct H; apply prefix_nil|].
  destruct t as [|y t]; [by exists x, b, []|]. simpl.
  destruct (String.eqb_spec x y) as [->|]; [|by exists x, b, (y :: t)].
  apply IH. intros Hp. apply H. by apply prefix_cons.
Qed.

Lemma strip_common_in b t b' t' x :
  strip_common b t = (b', t') -> x ∈ b' -> x ∈ b.
Proof.
  revert t. induction b as [|y b IH]; intros t H Hx; simpl in H.
  - injection H as <- <-. done.
  - destruct t as [|z t]; [injection H as <- <-; done|].
    destruct (String.eqb y z); [right; by eapply IH | injection H as <- <-; done].
Qed.

(** The test [relative != ".." && !strings.HasPrefix(relative, "../")]. *)
Definition descends (relative : string) : bool :=
  negb (String.eqb relative dotdot) && negb (HasPrefix relative (dotdot +:+ sep)).

Lemma descends_join l : normal true l -> l <> [] -> descends (Join sep l) = true.
Proof.
  intros Hn Hne. unfold descends. pose proof (normal_lacks _ _ Hn) as Hl.
  pose proof (normal_rooted _ Hn) as Hdd. apply andb_true_iff. split; apply negb_true_iff.
  - apply String.eqb_neq. intros E. apply Hdd.
    rewrite <- (Split_Join ch_slash l) by done. change (str1 ch_slash) with sep. rewrite E. left.
  - destruct (HasPrefix _ _) eqn:E; [|done]. exfalso. apply Hdd.
    apply HasPrefix_spec in E as [t Ht].
    rewrite <- (Split_Join ch_slash l) by done. change (str1 ch_slash) with sep. rewrite Ht.
    change ((dotdot +:+ sep) +:+ t) with (dotdot +:+ String ch_slash t).
    rewrite Split_app_sep by done. left.
Qed.

Lemma descends_up l : descends (Join sep (dotdot :: l)) = false.
Proof.
  unfold descends. destruct l as [|x l]; [done|]. rewrite Join_cons by done.
  rewrite string_app_assoc, HasPrefix_app. by rewrite andb_comm.
Qed.

Lemma normal_app_r l1 l2 : normal true (l1 ++ l2) -> normal true l2.
Proof. rewrite !normal_true_iff, Forall_app. by intros [_ ?]. Qed.

(** For absolute paths, [Rel] yields a path that does not climb exactly when
    the elements of the base are a prefix of the elements of the target. *)
Lemma Rel_descends base targ :
  IsAbs base = true -> IsAbs targ = true ->
  (exists r, Rel base targ = Some r /\ descends r = true) <->
  abs_elements base `prefix_of` abs_elements targ.
Proof.
  intros Hb Ht. unfold Rel. rewrite Hb, Ht. simpl.
  unfold clean_elements. rewrite Hb, Ht.
  fold (abs_elements base) (abs_elements targ).
  destruct (String.eqb_spec (Clean targ) (Clean base)) as [E|E].
  { rewrite !Clean_abs in E by done. apply apath_inj in E; [|apply abs_elements_normal..].
    rewrite E. split; [done|]. intros _. by exists dot. }
  destruct (decide (abs_elements base `prefix_of` abs_elements targ)) as [Hp|Hp].
  - split; [done|]. intros _. destruct (strip_common_prefix _ _ Hp) as (r & -> & Hr).
    exists (Join sep r). split; [done|]. apply descends_join.
    + eapply normal_app_r. rewrite <- Hr. apply abs_elements_normal.
    + intros ->. rewrite app_nil_r in Hr. apply E. by rewrite !Clean_abs, Hr by done.
  - split; [|done]. destruct (strip_common_not_prefix _ _ Hp) as (x & b' & t' & Hs).
    rewrite Hs. intros (r & Hr & Hd). exfalso.
    assert (x <> dotdot) as Hx.
    { intros ->. apply (normal_rooted (abs_elements base) (abs_elements_normal base)).
      eapply strip_common_in; [exact Hs | left]. }
    rewrite (proj2 (String.eqb_neq _ _) Hx), andb_false_l in Hr.
    assert (r = Join sep (dotdot :: (map (fun _ => dotdot) b' ++ t'))) as -> by (inversion Hr; reflexivity).
    by rewrite descends_up in Hd.
Qed.

Example Clean_ex : Clean "/mnt//irods/./a/../b/" = "/mnt/irods/b".
Proof. reflexivity. Qed.
Example Rel_ex : Rel "/mnt/irods" "/mnt/irods2/x" = Some "../irods2/x".
Proof. reflexivity. Qed.
Example Base_Dir_ex : (Dir "/a/b/c", Base "/a/b/c", Dir "a", Dir "/a") = ("/a/b", "c", ".", "/").
Proof. reflexivity. Qed.
