(* ===== verification/GoSort.v ===== *)
(** * Sorting by a string key

    Go compares strings byte by byte.  sort.Strings and sort.Slice over mount
    IDs are insertion sort here: keys are distinct where the code sorts, so
    every sorting algorithm returns the same list. *)

From Stdlib Require Import Sorting.Sorted.
From S2P Require Import Prelude.

Definition str_le (a b : string) : Prop := String.compare a b <> Gt.
Definition str_lt (a b : string) : Prop := String.compare a b = Lt.

#[export] Instance str_lt_dec a b : Decision (str_lt a b).
Proof. unfold str_lt. apply _. Defined.

Lemma ascii_compare_eq a b : Ascii.compare a b = Eq -> a = b.
Proof. apply Ascii.compare_eq_iff. Qed.

Lemma str_lt_cons c d s t :
  str_lt (String c s) (String d t) <-> Ascii.compare c d = Lt \/ (c = d /\ str_lt s t).
Proof.
  unfold str_lt. simpl. destruct (Ascii.compare c d) eqn:E.
  - apply Ascii.compare_eq_iff in E as ->. split; [by right|]. by intros [?|[_ ?]].
  - split; [by left | done].
  - split; [done|]. intros [?|[-> _]]; [done|]. unfold Ascii.compare in E. by rewrite N.compare_refl in E.
Qed.

Lemma ascii_lt_trans a b c : Ascii.compare a b = Lt -> Ascii.compare b c = Lt -> Ascii.compare a c = Lt.
Proof. unfold Ascii.compare. rewrite !N.compare_lt_iff. apply N.lt_trans. Qed.

#[export] Instance str_lt_trans : Transitive str_lt.
Proof.
  intros a. induction a as [|x a IH]; intros [|y b] [|z c] H1 H2; try done.
  apply str_lt_cons in H1, H2. apply str_lt_cons.
  destruct H1 as [H1|[-> H1]], H2 as [H2|[-> H2]]; eauto using ascii_lt_trans.
Qed.

#[export] Instance str_lt_irrefl : Irreflexive str_lt.
Proof.
  intros a. unfold complement, str_lt. induction a as [|x a IH]; simpl; [done|].
  unfold Ascii.compare. by rewrite N.compare_refl.
Qed.

Lemma str_lt_total a b : str_lt a b \/ a = b \/ str_lt b a.
Proof.
  revert b. induction a as [|x a IH]; intros [|y b]; [by right; left|by left|by right; right|].
  rewrite !str_lt_cons. destruct (Ascii.compare x y) eqn:E.
  - apply ascii_compare_eq in E as ->. destruct (IH b) as [?|[->|?]]; eauto.
  - eauto.
  - right. right. left. unfold Ascii.compare in *. by rewrite N.compare_antisym, E.
Qed.

(** ** Insertion sort *)

Section Sort.
Context {A : Type} (key : A -> string).

Fixpoint insert_by (x : A) (l : list A) : list A :=
  match l with
  | [] => [x]
  | y :: l' => if decide (str_lt (key y) (key x)) then y :: insert_by x l' else x :: l
  end.

Fixpoint sort_by (l : list A) : list A :=
  match l with
  | [] => []
  | x :: l' => insert_by x (sort_by l')
  end.

Lemma insert_by_Permutation x l : insert_by x l ≡ₚ x :: l.
Proof.
  induction l as [|y l IH]; simpl; [done|]. case_decide; [|done]. rewrite IH. apply Permutation_swap.
Qed.

Lemma sort_by_Permutation l : sort_by l ≡ₚ l.
Proof. induction l as [|x l IH]; simpl; [done|]. by rewrite insert_by_Permutation, IH. Qed.

Definition strictly_sorted (l : list A) : Prop := StronglySorted (fun x y => str_lt (key x) (key y)) l.

Lemma insert_by_sorted x l :
  strictly_sorted l -> key x ∉ key <$> l -> strictly_sorted (insert_by x l).
Proof.
  induction 1 as [|y l Hl IH Hy]; intros Hx; simpl; [by repeat constructor|].
  csimpl in Hx. apply not_elem_of_cons in Hx as [Hxy Hx]. case_decide as Hlt.
  - constructor; [by apply IH|]. rewrite insert_by_Permutation. by constructor.
  - destruct (str_lt_total (key x) (key y)) as [H|[H|H]]; [|done..].
    constructor; [by constructor|]. constructor; [done|].
    eapply Forall_impl; [exact Hy|]. simpl. intros z Hz. by etransitivity.
Qed.

(** With distinct keys the result is strictly increasing. *)
Lemma sort_by_sorted l : NoDup (key <$> l) -> strictly_sorted (sort_by l).
Proof.
  induction l as [|x l IH]; simpl; [constructor|]. csimpl. rewrite NoDup_cons. intros [Hx Hl].
  apply insert_by_sorted; [by apply IH|]. by rewrite sort_by_Permutation.
Qed.

End Sort.

(** sort.Strings *)
Definition sort_strings (l : list string) : list string := sort_by id l.
