(* ===== verification/GoErrors.v ===== *)
(** * Error values

    The daemon builds errors with [github.com/cockroachdb/errors] and
    inspects them with [errors.Is] only.  [goerror] records how an error was
    built: a fresh message, a package-level sentinel, a wrapper, a primary
    error with an attached secondary one, or the exit status of a child.
    How the library identifies two sentinels is not part of this
    repository: it is the operation [same_mark] of the class [ErrorLib],
    whose laws are the library's documented ones (an error is itself, and
    errors with different messages are different). *)

From S2P Require Import Prelude GoStrings.

(** The package-level error variables that the code compares against. *)
Inductive sentinel : Type :=
| ErrMountNotFound
| ErrMountIDConflict
| ErrMountPathConflict
| ErrMountLimitReached
| ErrDAVFSLazyUnmount
| store_ErrMountNotFound
| store_ErrMountIDConflict
| store_ErrMountPathConflict
| context_Canceled
| context_DeadlineExceeded
| badger_ErrConflict
| badger_ErrKeyNotFound.

#[export] Instance sentinel_eq_dec : EqDecision sentinel.
Proof. solve_decision. Defined.

Definition sentinel_message (s : sentinel) : string :=
  match s with
  | ErrMountNotFound | store_ErrMountNotFound => "mount not found"
  | ErrMountIDConflict | store_ErrMountIDConflict => "mount ID is already in use"
  | ErrMountPathConflict | store_ErrMountPathConflict => "mount path is already in use"
  | ErrMountLimitReached => "maximum number of mounts reached"
  | ErrDAVFSLazyUnmount => "DAVFS was lazily unmounted with cache data preserved"
  | context_Canceled => "context canceled"
  | context_DeadlineExceeded => "context deadline exceeded"
  | badger_ErrConflict => "Transaction Conflict. Please retry"
  | badger_ErrKeyNotFound => "Key not found"
  end.

Inductive goerror : Type :=
| ENew (msg : string)                      (* errors.New, Newf, Errorf and errors of the OS *)
| ESentinel (s : sentinel)
| EWrap (inner : goerror) (msg : string)   (* errors.Wrap, Wrapf *)
| ECombine (err other : goerror)           (* errors.CombineErrors *)
| EExit (exitCode : Z).                    (* *exec.ExitError *)

#[export] Instance goerror_eq_dec : EqDecision goerror.
Proof. solve_decision. Defined.

(** err.Error() *)
Fixpoint Error (e : goerror) : string :=
  match e with
  | ENew msg => msg
  | ESentinel s => sentinel_message s
  | EWrap inner msg => msg +:+ ": " +:+ Error inner
  | ECombine err _ => Error err
  | EExit c => "exit status " +:+ Itoa c
  end.

Class ErrorLib := {
  same_mark : sentinel -> sentinel -> bool;
  same_mark_refl : forall s, same_mark s s = true;
  same_mark_message : forall s t, same_mark s t = true -> sentinel_message s = sentinel_message t
}.

(** errors.Is(err, reference): some error of the chain is the reference; a
    secondary error is not looked at. *)
Fixpoint Is `{ErrorLib} (e : goerror) (s : sentinel) : bool :=
  match e with
  | ENew _ | EExit _ => false
  | ESentinel t => same_mark t s
  | EWrap inner _ => Is inner s
  | ECombine err _ => Is err s
  end.

(** errors.As(err, &exitErr) *)
Fixpoint As_ExitError (e : goerror) : option Z :=
  match e with
  | EExit c => Some c
  | EWrap inner _ => As_ExitError inner
  | ECombine err _ => As_ExitError err
  | ENew _ | ESentinel _ => None
  end.

(** errors.Is on a possibly nil error. *)
Definition IsOpt `{ErrorLib} (e : option goerror) (s : sentinel) : bool :=
  match e with Some e => Is e s | None => false end.

(** errors.Wrap on a possibly nil error: nil stays nil. *)
Definition WrapOpt (e : option goerror) (msg : string) : option goerror :=
  match e with Some e => Some (EWrap e msg) | None => None end.

(** Identification by message, the library's network-portable notion. *)
#[export, refine] Instance message_errors : ErrorLib := {
  same_mark s t := String.eqb (sentinel_message s) (sentinel_message t)
}.
Proof.
  - intros s. apply String.eqb_refl.
  - intros s t H. by apply String.eqb_eq.
Defined.

Lemma same_mark_ne `{ErrorLib} s t : sentinel_message s <> sentinel_message t -> same_mark s t = false.
Proof. intros Hne. destruct (same_mark s t) eqn:E; [|done]. by apply same_mark_message in E. Qed.
#[export] Hint Rewrite @same_mark_refl : go_rw.
