(* ===== verification/GoDigits.v ===== *)
(** * Decimal numbers, written and read back

    strconv.Itoa and the verb %d print what strconv.Atoi reads. *)

From S2P Require Import Prelude GoStrings.

Definition all_digits (s : string) : bool := string_forallb is_digit s.

Lemma pretty_N_char_value n : (n < 10)%N -> is_digit (pretty_N_char n) = true /\ code (pretty_N_char n) - 48 = Z.of_N n.
Proof.
  intros Hn. assert (n ∈ [0; 1; 2; 3; 4; 5; 6; 7; 8; 9]%N) as Hin by (repeat rewrite elem_of_cons; lia).
  repeat (apply elem_of_cons in Hin as [->|Hin]; [done|]). by apply not_elem_of_nil in Hin.
Qed.

Lemma pretty_N_go_digits n s : all_digits s = true -> all_digits (pretty_N_go n s) = true.
Proof.
  revert s. induction (N.lt_wf_0 n) as [n _ IH]; intros s Hs.
  destruct (decide (n = 0%N)) as [->|Hn]; [done|]. rewrite pretty_N_go_step by lia.
  apply IH; [apply N.div_lt; lia|]. unfold all_digits in *. simpl.
  rewrite Hs, andb_true_r. apply pretty_N_char_value. by apply N.mod_lt.
Qed.

Lemma pretty_N_go_value n s : digits_value 0 (pretty_N_go n s) = digits_value (Z.of_N n) s.
Proof.
  revert s. induction (N.lt_wf_0 n) as [n _ IH]; intros s.
  destruct (decide (n = 0%N)) as [->|Hn]; [done|]. rewrite pretty_N_go_step by lia.
  rewrite IH by (apply N.div_lt; lia). simpl.
  destruct (pretty_N_char_value (n `mod` 10)%N) as [-> ->]; [by apply N.mod_lt|].
  f_equal. pose proof (N.div_mod n 10 ltac:(lia)). lia.
Qed.

(** A number without a sign. *)
Lemma Itoa_nonneg z : 0 <= z -> Itoa z = pretty (Z.to_N z).
Proof. intros Hz. unfold Itoa. destruct z; [done|done|lia]. Qed.

Lemma Itoa_digits z : 0 <= z -> all_digits (Itoa z) = true.
Proof.
  intros Hz. rewrite Itoa_nonneg by done. unfold pretty, pretty_N. case_decide; [done|]. by apply pretty_N_go_digits.
Qed.

Lemma digits_value_Itoa z : 0 <= z -> digits_value 0 (Itoa z) = Some z.
Proof.
  intros Hz. rewrite Itoa_nonneg by done. unfold pretty, pretty_N. case_decide as E.
  - assert (z = 0) as -> by lia. done.
  - rewrite pretty_N_go_value. simpl. f_equal. lia.
Qed.

Lemma Itoa_nonempty z : 0 <= z -> Itoa z <> EmptyString.
Proof.
  intros Hz He. pose proof (digits_value_Itoa z Hz) as Hv. rewrite He in Hv. injection Hv as <-. vm_compute in He. done.
Qed.

(** The accumulator of the reader counts as leading digits. *)
Lemma digits_value_app acc s t v : digits_value acc s = Some v -> digits_value acc (s +:+ t) = digits_value v t.
Proof.
  revert acc. induction s as [|c s IH]; intros acc; simpl; [by intros [= <-]|].
  destruct (is_digit c); [|done]. apply IH.
Qed.

Lemma digit_not_space c : is_digit c = true -> is_space c = false.
Proof.
  unfold is_digit, in_range, is_space, code. intros Hd. bools. simpl in *.
  rewrite ?orb_false_iff, ?andb_false_iff, ?Z.eqb_neq, ?Z.leb_gt. lia.
Qed.

Lemma TrimRightFunc_digits s t :
  all_digits s = true -> string_forallb is_space t = true -> TrimRightFunc is_space (s +:+ t) = s.
Proof.
  intros Hs Ht. assert (TrimRightFunc is_space t = EmptyString) as Et.
  { induction t as [|c t IH]; simpl in *; [done|]. bools. by rewrite IH, H. }
  induction s as [|c s IH]; simpl; [done|]. unfold all_digits in Hs. simpl in Hs. bools. rewrite IH by done.
  rewrite (digit_not_space c) by done. by destruct s.
Qed.

(** strings.TrimSpace gives the number of a line back. *)
Lemma TrimSpace_digits s t : all_digits s = true -> string_forallb is_space t = true -> TrimSpace (s +:+ t) = s.
Proof.
  intros Hs Ht. unfold TrimSpace. rewrite TrimRightFunc_digits by done. destruct s as [|c s]; [done|].
  unfold all_digits in Hs. simpl in *. bools. by rewrite (digit_not_space c).
Qed.

Lemma Atoi_digits s v : all_digits s = true -> s <> EmptyString -> digits_value 0 s = Some v -> v < two63 -> 0 <= v -> Atoi s = Some v.
Proof.
  intros Hs Hne Hv Hhi Hlo. unfold Atoi, parse_int. destruct s as [|c s]; [done|].
  unfold all_digits in Hs. simpl in Hs. bools.
  destruct (Ascii.eqb c "-") eqn:E1; [bools; subst; done|]. destruct (Ascii.eqb c "+") eqn:E2; [bools; subst; done|].
  rewrite Hv. replace (- two63 <=? v) with true by (symmetry; apply Z.leb_le; unfold two63; lia).
  replace (v <=? two63 - 1) with true by (symmetry; apply Z.leb_le; lia). done.
Qed.

(** A line with a number reads back. *)
Lemma Atoi_Itoa_line z : 0 <= z < two63 -> Atoi (TrimSpace (Itoa z +:+ str1 ch_newline)) = Some z.
Proof.
  intros Hz. rewrite TrimSpace_digits; [|apply Itoa_digits; lia|done].
  apply Atoi_digits; [apply Itoa_digits; lia|apply Itoa_nonempty; lia|apply digits_value_Itoa; lia|lia..].
Qed.
