(* ===== verification/Threads.v ===== *)
(** * Small concurrent programs and the resources their goroutines own

    The client library, the PID file and the service run a handful of
    goroutines or processes over a small shared state.  Their programs are
    trees of atomic actions over a world [W], with an environment [E] for
    what the program does not decide and names [T] for the goroutines it
    starts.

    Reasoning is by ownership: every goroutine holds a list of tokens, the
    global invariant speaks of the world and of all tokens held, and an
    action may change the tokens of its own goroutine only.  A goroutine
    that has finished holds none. *)

From S2P Require Import Prelude.

Section Programs.
Context {W E T : Type}.

Inductive step_outcome (R : Type) : Type :=
| Waits
| Dies
| Goes (r : R) (w : W) (started : list T).

Inductive program (A : Type) : Type :=
| Done (a : A)
| Do {R : Type} (f : E -> W -> step_outcome R) (k : R -> program A).
End Programs.
Arguments step_outcome W T R : clear implicits.
Arguments program W E T A : clear implicits.
Arguments Waits {W T R}.
Arguments Dies {W T R}.
Arguments Goes {W T R} r w started.
Arguments Done {W E T A} a.
Arguments Do {W E T A R} f k.

Section Operations.
Context {W E T : Type}.
Local Notation program := (program W E T).

Fixpoint program_bind {A B} (p : program A) (k : A -> program B) : program B :=
  match p with
  | Done a => k a
  | Do f k' => Do f (fun r => program_bind (k' r) k)
  end.

#[export] Instance program_ret : MRet program := fun A a => Done a.
#[export] Instance program_mbind : MBind program := fun A B k p => program_bind p k.

Definition perform {R} (f : E -> W -> step_outcome W T R) : program R := Do f Done.

(** The common shapes of actions: a read, a change, a choice of the
    environment, and [go]. *)
Definition observe {R} (f : E -> W -> R) : program R := perform (fun e w => Goes (f e w) w []).
Definition modify (f : W -> W) : program unit := perform (fun _ w => Goes tt (f w) []).
Definition update {R} (f : E -> W -> R * W) : program R := perform (fun e w => let '(r, w') := f e w in Goes r w' []).
Definition start (t : T) : program unit := perform (fun _ w => Goes tt w [t]).

(** ** Interleavings *)

Record pool : Type := mkPool {
  pool_world : W;
  pool_threads : list (program unit)
}.

Inductive scheduled : Type :=
| Runs (i : nat) (e : E)
| Arrives (t : T).

Inductive pool_result : Type :=
| Stuck
| Dead
| Ran (s : pool).

Variable body : T -> program unit.

Definition pool_step (s : pool) (c : scheduled) : pool_result :=
  match c with
  | Runs i e =>
      match pool_threads s !! i with
      | Some (Do f k) =>
          match f e (pool_world s) with
          | Waits => Stuck
          | Dies => Dead
          | Goes r w' ts => Ran (mkPool w' (<[i := k r]> (pool_threads s) ++ (body <$> ts)))
          end
      | _ => Stuck
      end
  | Arrives t => Ran (mkPool (pool_world s) (pool_threads s ++ [body t]))
  end.

Fixpoint pool_run (s : pool) (cs : list scheduled) : pool_result :=
  match cs with
  | [] => Ran s
  | c :: rest => match pool_step s c with Ran s' => pool_run s' rest | r => r end
  end.

Definition finished (p : program unit) : bool := match p with Done _ => true | Do _ _ => false end.
End Operations.
Arguments pool W E T : clear implicits.
Arguments scheduled E T : clear implicits.
Arguments pool_result W E T : clear implicits.

(** ** Ownership *)

Lemma mjoin_cons {A} (l : list A) ls : mjoin (l :: ls) = l ++ mjoin ls.
Proof. done. Qed.

(** For programs that never kill the process. *)
Definition never {E W : Type} (_ : E) (_ : W) : Prop := False.

Section Ownership.
Context {W E T K : Type}.
Variable Inv : W -> list K -> Prop.
Variable pre : T -> list K -> Prop.
(** When an action may wait, and when it may kill the process. *)
Variable patient lethal : E -> W -> Prop.
Hypothesis Inv_perm : forall w, Proper ((≡ₚ) ==> iff) (Inv w).
Local Existing Instance Inv_perm.

(** From a goroutine that owns [r], every action keeps the invariant,
    whatever [F] the others own, and waits only where that is allowed. *)
Fixpoint owning {A} (r : list K) (p : program W E T A) (Q : A -> list K -> Prop) : Prop :=
  match p with
  | Done a => Q a r
  | Do f k => forall e w F, Inv w (r ++ F) ->
      match f e w with
      | Waits => patient e w
      | Dies => lethal e w
      | Goes x w' ts => exists r' ss,
          Inv w' (r' ++ mjoin ss ++ F) /\ Forall2 pre ts ss /\ owning r' (k x) Q
      end
  end.

Lemma owning_bind {A B} r (p : program W E T A) (k : A -> program W E T B) Q :
  owning r p (fun a r' => owning r' (k a) Q) -> owning r (p ≫= k) Q.
Proof.
  revert r. induction p as [a|R f g IH]; intros r Hp; simpl in *; [done|].
  intros e w F Hi. specialize (Hp e w F Hi). destruct (f e w) as [| |x w' ts]; [done..|].
  destruct Hp as (r' & ss & Hi' & Hpre & Hk). eauto 6.
Qed.

Lemma owning_mono {A} r (p : program W E T A) (Q Q' : A -> list K -> Prop) :
  (forall a r', Q a r' -> Q' a r') -> owning r p Q -> owning r p Q'.
Proof.
  intros HQ. revert r. induction p as [a|R f g IH]; intros r Hp; simpl in *; [auto|].
  intros e w F Hi. specialize (Hp e w F Hi). destruct (f e w) as [| |x w' ts]; [done..|].
  destruct Hp as (r' & ss & Hi' & Hpre & Hk). eauto 6.
Qed.

(** Tokens may be exchanged before an action. *)
Lemma owning_exchange {A} r r' (p : program W E T A) Q :
  (forall w F, Inv w (r ++ F) -> Inv w (r' ++ F)) -> (forall a, p <> Done a) -> owning r' p Q -> owning r p Q.
Proof. intros Hx Hp. destruct p as [a|R f k]; [by destruct (Hp a)|]. intros Ho e w F Hi. by apply Ho, Hx. Qed.

(** And after one. *)
Lemma owning_perform_exchange {A} r (f : E -> W -> step_outcome W T A) (Q Q' : A -> list K -> Prop) :
  (forall x r', Q x r' -> exists r'', (forall w F, Inv w (r' ++ F) -> Inv w (r'' ++ F)) /\ Q' x r'') ->
  owning r (perform f) Q -> owning r (perform f) Q'.
Proof.
  intros Hx Ho e w F Hi. specialize (Ho e w F Hi). destruct (f e w) as [| |x w' ts]; [done..|].
  destruct Ho as (r' & ss & Hi' & Hpre & HQ). destruct (Hx _ _ HQ) as (r'' & Hr & HQ'). exists r'', ss. auto.
Qed.

(** A program that gives back what it was handed. *)
Lemma owning_then {A B} r r' (p : program W E T A) (k : A -> program W E T B) Q :
  owning r p (fun _ x => x = r') -> (forall a, owning r' (k a) Q) -> owning r (p ≫= k) Q.
Proof. intros Hp Hk. apply owning_bind. eapply owning_mono; [|exact Hp]. by intros a x ->. Qed.

(** One action that starts no goroutine. *)
Lemma owning_perform {A} r (f : E -> W -> step_outcome W T A) Q :
  (forall e w F, Inv w (r ++ F) ->
     match f e w with
     | Waits => patient e w
     | Dies => lethal e w
     | Goes x w' ts => ts = [] /\ exists r', Inv w' (r' ++ F) /\ Q x r'
     end) -> owning r (perform f) Q.
Proof.
  intros Hf e w F Hi. specialize (Hf e w F Hi). destruct (f e w) as [| |x w' ts]; [done..|].
  destruct Hf as (-> & r' & Hi' & HQ). exists r', []. by repeat split.
Qed.

Lemma owning_observe {A} r (f : E -> W -> A) (Q : A -> list K -> Prop) :
  (forall e w F, Inv w (r ++ F) -> Q (f e w) r) -> owning r (observe f) Q.
Proof. intros Hf. apply owning_perform. intros e w F Hi. split; [done|]. exists r. eauto. Qed.

Lemma owning_modify r r' (f : W -> W) :
  (forall w F, Inv w (r ++ F) -> Inv (f w) (r' ++ F)) -> owning r (modify f) (fun _ x => x = r').
Proof. intros Hf. apply owning_perform. intros e w F Hi. split; [done|]. exists r'. auto. Qed.

Lemma owning_start r r' t :
  pre t r' -> owning (r' ++ r) (start t) (fun _ x => x = r).
Proof.
  intros Hp e w F Hi. exists r, [r']. simpl. rewrite app_nil_r. split_and!; [|by repeat constructor|done].
  by rewrite (assoc_L (++)), (Permutation_app_comm r r').
Qed.

(** ** Adequacy *)

Variable body : T -> program W E T unit.
Hypothesis pre_owning : forall t r, pre t r -> owning r (body t) (fun _ r' => r' = []).

(** Every goroutine owns its part, and the invariant holds of the whole. *)
Definition accounted (s : pool W E T) : Prop :=
  exists rs, Forall2 (fun p r => owning r p (fun _ r' => r' = [])) (pool_threads s) rs /\
    Inv (pool_world s) (mjoin rs).

Lemma accounted_step s c :
  accounted s -> (forall t, c = Arrives t -> pre t []) ->
  match pool_step body s c with
  | Stuck => True
  | Dead => exists e, lethal e (pool_world s)
  | Ran s' => accounted s'
  end.
Proof.
  intros (rs & Hrs & Hi) Ha. destruct c as [i e|t]; simpl.
  - destruct (pool_threads s !! i) as [[|R f k]|] eqn:Ei; [done| |done].
    destruct (list_elem_of_split_length _ _ _ Ei) as (p1 & p2 & Ep & Hl).
    rewrite Ep in Hrs. apply Forall2_app_inv_l in Hrs as (rs1 & rs' & H1 & H2 & ->).
    inversion H2 as [|? r ? rs2 Hr H2' E1 E2]; subst.
    assert (mjoin (rs1 ++ r :: rs2) ≡ₚ r ++ mjoin (rs1 ++ rs2)) as Em.
    { rewrite !join_app, mjoin_cons. apply Permutation_app_swap_app. }
    rewrite Em in Hi. specialize (Hr e _ _ Hi).
    destruct (f e (pool_world s)) as [| |y w' ts]; [done|by exists e|]. destruct Hr as (r' & ss & Hi' & Hpre & Hk).
    exists ((rs1 ++ r' :: rs2) ++ ss). split; cbn [pool_world pool_threads].
    + rewrite Ep, <- (Nat.add_0_r (length p1)), insert_app_r. simpl.
      apply Forall2_app; [by apply Forall2_app; [|constructor]|].
      apply Forall2_fmap_l. eapply Forall2_impl; [exact Hpre|]. auto.
    + assert (mjoin ((rs1 ++ r' :: rs2) ++ ss) ≡ₚ r' ++ mjoin ss ++ mjoin (rs1 ++ rs2)) as ->; [|done].
      rewrite !join_app, mjoin_cons. generalize (mjoin rs1), (mjoin rs2), (mjoin ss). intros a b c.
      rewrite (Permutation_app_swap_app a r' b), <- (assoc_L (++)). f_equiv. apply Permutation_app_comm.
  - exists (rs ++ [[]]). simpl. split; [apply Forall2_app; [done|]; constructor; [auto|constructor]|].
    rewrite join_app. simpl. by rewrite app_nil_r.
Qed.

(** A goroutine that cannot go on has a reason to wait. *)
Lemma accounted_waits s i e p :
  accounted s -> pool_threads s !! i = Some p -> finished p = false ->
  pool_step body s (Runs i e) = Stuck -> patient e (pool_world s).
Proof.
  intros (rs & Hrs & Hi) Ei Hp. simpl. rewrite Ei. destruct p as [|R f k]; [done|].
  destruct (Forall2_lookup_l _ _ _ _ _ Hrs Ei) as (r & Er & Hr).
  destruct (list_elem_of_split_length _ _ _ Er) as (rs1 & rs2 & -> & _).
  assert (mjoin (rs1 ++ r :: rs2) ≡ₚ r ++ mjoin (rs1 ++ rs2)) as Em.
  { rewrite !join_app, mjoin_cons. apply Permutation_app_swap_app. }
  rewrite Em in Hi. specialize (Hr e _ _ Hi). by destruct (f e (pool_world s)).
Qed.

Lemma accounted_run s cs :
  accounted s -> (forall t, Arrives t ∈ cs -> pre t []) ->
  match pool_run body s cs with
  | Stuck => True
  | Dead => exists e w, lethal e w
  | Ran s' => accounted s'
  end.
Proof.
  revert s. induction cs as [|c cs IH]; intros s Hs Ha; simpl; [done|].
  assert (forall t, c = Arrives t -> pre t []) as Hc by (intros t ->; apply Ha; left).
  pose proof (accounted_step s c Hs Hc) as Hstep. destruct (pool_step body s c) as [| |s']; [done|destruct Hstep; eauto|].
  apply IH; [done|]. intros t Ht. apply Ha. by right.
Qed.

Lemma accounted_finished s :
  accounted s -> forallb finished (pool_threads s) = true -> Inv (pool_world s) [].
Proof.
  intros (rs & Hrs & Hi) Hf. assert (mjoin rs = []) as Hnil; [|by rewrite Hnil in Hi]. clear Hi.
  induction Hrs as [|p r ps rs Hp _ IH]; simpl in *; [done|]. bools.
  destruct p; [|done]. simpl in Hp. subst r. by apply IH.
Qed.
End Ownership.

(** ** Programs of bounded length *)

Section Length.
Context {W E T : Type}.

(** Every execution of [p] takes at most [n] actions. *)
Fixpoint within {A} (n : nat) (p : program W E T A) : Prop :=
  match p, n with
  | Done _, _ => True
  | Do _ _, O => False
  | Do _ k, S n => forall x, within n (k x)
  end.

Lemma within_le {A} n m (p : program W E T A) : (n <= m)%nat -> within n p -> within m p.
Proof.
  revert n m. induction p as [a|X f k IH]; intros n m Hnm Hp; [by destruct m|].
  destruct n, m; simpl in *; [done|done|lia|]. intros x. apply (IH x n); [lia|auto].
Qed.

Lemma within_then {A B} a n (p : program W E T A) (k : A -> program W E T B) :
  within a p -> (a <= n)%nat -> (forall x, within (n - a) (k x)) -> within n (p ≫= k).
Proof.
  revert a n. induction p as [x|X f g IH]; intros a n Hp Han Hk; simpl.
  - apply (within_le (n - a)); [lia|auto].
  - destruct a as [|a]; simpl in Hp; [done|]. destruct n as [|n]; [lia|]. intros x. simpl.
    apply (IH x a); [auto|lia|]. intros y. specialize (Hk y). by replace (n - a)%nat with (S n - S a)%nat by lia.
Qed.

Lemma within_perform {A} (f : E -> W -> step_outcome W T A) : within 1 (perform f).
Proof. by simpl. Qed.

Lemma within_ret {A} n (a : A) : within n (mret a : program W E T A).
Proof. by destruct n. Qed.

Variable body : T -> program W E T unit.
Variable n : nat.
Hypothesis body_within : forall t, within n (body t).

Lemma within_step s c s' :
  Forall (within n) (pool_threads s) -> pool_step body s c = Ran s' -> Forall (within n) (pool_threads s').
Proof.
  intros Hs. destruct c as [i e|t]; simpl.
  - destruct (pool_threads s !! i) as [[|R f k]|] eqn:Ei; [done| |done].
    destruct (f e (pool_world s)) as [| |x w' ts]; [done..|]. intros [= <-]. simpl. apply Forall_app. split.
    + apply Forall_insert; [done|]. rewrite Forall_lookup in Hs. specialize (Hs _ _ Ei).
      destruct n as [|m]; [done|]. apply (within_le m); [lia|]. apply Hs.
    + apply Forall_fmap, Forall_true. intros t. apply body_within.
  - intros [= <-]. simpl. apply Forall_app. by repeat constructor.
Qed.

Lemma within_run s cs s' :
  Forall (within n) (pool_threads s) -> pool_run body s cs = Ran s' -> Forall (within n) (pool_threads s').
Proof.
  revert s. induction cs as [|c cs IH]; intros s Hs; simpl; [by intros [= <-]|].
  destruct (pool_step body s c) eqn:Ec; [done..|]. intros Hr. eapply IH; [|exact Hr]. by eapply within_step.
Qed.
End Length.

(** ** Executions of one goroutine *)

Section Executions.
Context {W E T O : Type}.
(** What an action lets an observer see. *)
Variable obs : E -> W -> W -> list O.

(** [execution p os a]: [p] may return [a] after the observations [os];
    between two actions the world may change arbitrarily. *)
Fixpoint execution {A} (p : program W E T A) (os : list O) (a : A) : Prop :=
  match p with
  | Done b => os = [] /\ a = b
  | Do f k => exists e w x w' ts os',
      os = obs e w w' ++ os' /\ f e w = Goes x w' ts /\ execution (k x) os' a
  end.

(** All executions of [p] end in [Q]. *)
Definition ends {A} (p : program W E T A) (Q : list O -> A -> Prop) : Prop :=
  forall os a, execution p os a -> Q os a.

Lemma ends_ret {A} (a : A) (Q : list O -> A -> Prop) : Q [] a -> ends (mret a) Q.
Proof. by intros HQ os b [-> ->]. Qed.

Lemma execution_bind {A B} (p : program W E T A) (k : A -> program W E T B) os b :
  execution (p ≫= k) os b -> exists os1 os2 a, os = os1 ++ os2 /\ execution p os1 a /\ execution (k a) os2 b.
Proof.
  revert os. induction p as [a|X f g IH]; intros os Hx; simpl in Hx.
  - by exists [], os, a.
  - destruct Hx as (e & w & x & w' & ts & os' & -> & Hf & Hk).
    destruct (IH x _ Hk) as (os1 & os2 & a & -> & H1 & H2).
    exists (obs e w w' ++ os1), os2, a. split_and!; [by rewrite (assoc_L (++))| |done].
    exists e, w, x, w', ts, os1. auto.
Qed.

Lemma ends_bind {A B} (p : program W E T A) (k : A -> program W E T B) (Q : list O -> A -> Prop) (R : list O -> B -> Prop) :
  ends p Q -> (forall os a, Q os a -> ends (k a) (fun os' b => R (os ++ os') b)) -> ends (p ≫= k) R.
Proof.
  intros Hp Hk os b Hx. apply execution_bind in Hx as (os1 & os2 & a & -> & H1 & H2).
  by apply (Hk os1 a (Hp _ _ H1)).
Qed.

Lemma ends_mono {A} (p : program W E T A) (Q R : list O -> A -> Prop) :
  (forall os a, Q os a -> R os a) -> ends p Q -> ends p R.
Proof. intros HQ Hp os a Hx. auto. Qed.

Lemma ends_perform {A} (f : E -> W -> step_outcome W T A) (Q : list O -> A -> Prop) :
  (forall e w x w' ts, f e w = Goes x w' ts -> Q (obs e w w') x) -> ends (perform f) Q.
Proof.
  intros Hf os a (e & w & x & w' & ts & os' & -> & Hx & -> & ->). rewrite app_nil_r. eauto.
Qed.

(** One goroutine run alone. *)
Fixpoint alone {A} (es : list E) (p : program W E T A) (w : W) {struct p} : option (list O * A) :=
  match p with
  | Done a => Some ([], a)
  | Do f k =>
      match es with
      | [] => None
      | e :: es =>
          match f e w with
          | Goes x w' _ => '(os, a) ← alone es (k x) w'; Some (obs e w w' ++ os, a)
          | _ => None
          end
      end
  end.

Lemma alone_execution {A} es (p : program W E T A) w os a : alone es p w = Some (os, a) -> execution p os a.
Proof.
  revert es w os. induction p as [b|X f k IH]; intros es w os; simpl.
  - intros Hx. by simplify_eq.
  - destruct es as [|e es]; [done|]. destruct (f e w) as [| |x w' ts] eqn:Ef; [done..|].
    destruct (alone es (k x) w') as [[os' a']|] eqn:Ea; simpl; [|done]. intros Hx. simplify_eq.
    exists e, w, x, w', ts, os'. eauto.
Qed.
End Executions.
