(* ===== verification/Grpc.v ===== *)
(** * Status codes and errors of gRPC

    google.golang.org/grpc is not part of the repository.  What the daemon
    and the client use of it: the codes, the errors that carry one, and
    status.Code, status.Convert and status.FromError. *)

From S2P Require Import Prelude GoStrings GoErrors.

(** ** Status codes (google.golang.org/grpc/codes) *)

Inductive Code : Type :=
| codes_OK | codes_Canceled | codes_Unknown | codes_InvalidArgument | codes_DeadlineExceeded | codes_NotFound
| codes_AlreadyExists | codes_PermissionDenied | codes_ResourceExhausted | codes_FailedPrecondition
| codes_Aborted | codes_OutOfRange | codes_Unimplemented | codes_Internal | codes_Unavailable
| codes_DataLoss | codes_Unauthenticated.

#[export] Instance Code_eq_dec : EqDecision Code.
Proof. solve_decision. Defined.

(** Code.String() of the library. *)
Class GrpcLib := { code_String : Code -> string }.

(** An error of an RPC handler: status.Error, or any other error. *)
Inductive rpcerror : Type :=
| RStatus (code : Code) (message : string)
| RPlain (err : goerror).

(** status.Code *)
Definition status_Code (err : option rpcerror) : Code :=
  match err with
  | None => codes_OK
  | Some (RStatus code _) => code
  | Some (RPlain _) => codes_Unknown
  end.

(** status.Convert(err).Message() *)
Definition status_Message (err : rpcerror) : string :=
  match err with
  | RStatus _ message => message
  | RPlain err => Error err
  end.

(** err.Error(); a status prints its code as well. *)
Definition rpc_Error `{GrpcLib} (err : rpcerror) : string :=
  match err with
  | RStatus code message => "rpc error: code = " +:+ code_String code +:+ " desc = " +:+ message
  | RPlain err => Error err
  end.

Definition rpc_Is `{ErrorLib} (err : rpcerror) (s : sentinel) : bool :=
  match err with
  | RStatus _ _ => false
  | RPlain err => Is err s
  end.
