(* ===== verification/Base64.v ===== *)
(** * Go's [encoding/base64]

    [RawURLEncoding.EncodeToString] (unpadded, URL alphabet), used for the
    keys of the mount-path index, and [StdEncoding.DecodeString] (padded,
    standard alphabet; carriage returns and newlines are skipped), used for
    the recovery key.  The encoder is injective. *)

From S2P Require Import Prelude GoStrings.

(** The digit of a 6-bit value; [c62] and [c63] are the last two digits of
    the alphabet. *)
Definition b64_digit (c62 c63 : ascii) (n : N) : ascii :=
  if (n <? 26)%N then ascii_of_N (65 + n)
  else if (n <? 52)%N then ascii_of_N (71 + n)
  else if (n <? 62)%N then ascii_of_N (n - 4)
  else if (n =? 62)%N then c62 else c63.

Definition b64_value (c62 c63 : ascii) (c : ascii) : option N :=
  if in_range "A"%char "Z"%char c then Some (N_of_ascii c - 65)%N
  else if in_range "a"%char "z"%char c then Some (N_of_ascii c - 71)%N
  else if in_range "0"%char "9"%char c then Some (N_of_ascii c + 4)%N
  else if Ascii.eqb c c62 then Some 62%N
  else if Ascii.eqb c c63 then Some 63%N
  else None.

Section Alphabet.
Context (c62 c63 : ascii).
Let dg (n : N) : ascii := b64_digit c62 c63 n.
Let vl (c : ascii) : option N := b64_value c62 c63 c.

(** Unpadded encoding of groups of three bytes into four digits. *)
Fixpoint b64_encode (s : string) : string :=
  match s with
  | EmptyString => EmptyString
  | String a EmptyString =>
      let x := N_of_ascii a in
      String (dg (x / 4)) (str1 (dg (x mod 4 * 16)))
  | String a (String b EmptyString) =>
      let x := N_of_ascii a in let y := N_of_ascii b in
      String (dg (x / 4)) (String (dg (x mod 4 * 16 + y / 16)) (str1 (dg (y mod 16 * 4))))
  | String a (String b (String c s')) =>
      let x := N_of_ascii a in let y := N_of_ascii b in let z := N_of_ascii c in
      String (dg (x / 4)) (String (dg (x mod 4 * 16 + y / 16))
        (String (dg (y mod 16 * 4 + z / 64)) (String (dg (z mod 64)) (b64_encode s'))))
  end.

(** Unpadded decoding; the unused low bits of the last digit are ignored. *)
Fixpoint b64_decode (s : string) : option string :=
  match s with
  | EmptyString => Some EmptyString
  | String _ EmptyString => None
  | String a (String b EmptyString) =>
      v ← vl a; w ← vl b; Some (str1 (ascii_of_N (v * 4 + w / 16)))
  | String a (String b (String c EmptyString)) =>
      v ← vl a; w ← vl b; x ← vl c;
      Some (String (ascii_of_N (v * 4 + w / 16)) (str1 (ascii_of_N (w mod 16 * 16 + x / 4))))
  | String a (String b (String c (String d s'))) =>
      v ← vl a; w ← vl b; x ← vl c; y ← vl d; t ← b64_decode s';
      Some (String (ascii_of_N (v * 4 + w / 16))
             (String (ascii_of_N (w mod 16 * 16 + x / 4)) (String (ascii_of_N (x mod 4 * 64 + y)) t)))
  end.
End Alphabet.

(** base64.RawURLEncoding.EncodeToString *)
Definition RawURLEncode (s : string) : string := b64_encode "-"%char "_"%char s.

(** The padding of a padded input, removed: "xx==" or "xxx=" at the end of
    a multiple of four digits. *)
Fixpoint string_filter (f : ascii -> bool) (s : string) : string :=
  match s with
  | EmptyString => EmptyString
  | String c s' => if f c then String c (string_filter f s') else string_filter f s'
  end.
Fixpoint strip_padding (s : string) : option string :=
  match s with
  | EmptyString => Some EmptyString
  | String a (String b (String c (String d s'))) =>
      if Ascii.eqb d "="%char then
        (if String.eqb s' EmptyString
         then (if Ascii.eqb c "="%char then Some (String a (str1 b)) else Some (String a (String b (str1 c))))
         else None)
      else t ← strip_padding s'; Some (String a (String b (String c (String d t))))
  | _ => None
  end.

(** base64.StdEncoding.DecodeString *)
Definition StdDecode (s : string) : option string :=
  t ← strip_padding (string_filter (fun c => negb (Ascii.eqb c ch_cr || Ascii.eqb c ch_newline)) s);
  b64_decode "+"%char "/"%char t.

(** ** The encoder is injective *)

Lemma url_digit_value n : (n < 64)%N -> b64_value "-"%char "_"%char (b64_digit "-"%char "_"%char n) = Some n.
Proof.
  intros H. assert (In n (map N.of_nat (seq 0 64))) as Hin.
  { apply in_map_iff. exists (N.to_nat n). split; [lia|]. apply in_seq. lia. }
  assert (forallb (fun n => bool_decide (b64_value "-"%char "_"%char (b64_digit "-"%char "_"%char n) = Some n))
            (map N.of_nat (seq 0 64)) = true) as Hall by (vm_compute; reflexivity).
  rewrite forallb_forall in Hall. specialize (Hall n Hin). by apply bool_decide_eq_true in Hall.
Qed.

Lemma ascii_bound a : (N_of_ascii a < 256)%N.
Proof. apply N_ascii_bounded. Qed.

Ltac byte_bounds :=
  repeat match goal with a : ascii |- _ =>
    lazymatch goal with H : (N_of_ascii a < 256)%N |- _ => fail | _ => idtac end;
    pose proof (ascii_bound a) end.

Ltac div_lia := zify; Z.to_euclidean_division_equations; lia.

Lemma byte_back a n : n = N_of_ascii a -> ascii_of_N n = a.
Proof. intros ->. apply ascii_N_embedding. Qed.

Lemma RawURL_roundtrip s : b64_decode "-"%char "_"%char (RawURLEncode s) = Some s.
Proof.
  unfold RawURLEncode. remember (String.length s) as n eqn:Hn. revert s Hn.
  induction n as [n IH] using lt_wf_ind. intros s ->.
  destruct s as [|a [|b [|c s]]]; byte_bounds; cbn [b64_encode b64_decode str1];
    rewrite ?url_digit_value by div_lia; cbn [mbind option_bind].
  - done.
  - unfold str1. do 2 f_equal. apply byte_back. div_lia.
  - unfold str1. do 2 f_equal; [|f_equal]; apply byte_back; div_lia.
  - rewrite (IH (String.length s)); [|simpl; lia|done]. cbn [mbind option_bind].
    f_equal. f_equal; [|f_equal; [|f_equal]]; apply byte_back; div_lia.
Qed.

Lemma RawURLEncode_inj s t : RawURLEncode s = RawURLEncode t -> s = t.
Proof.
  intros H. pose proof (RawURL_roundtrip s) as Hs. rewrite H, RawURL_roundtrip in Hs. congruence.
Qed.

Example StdDecode_ex : (StdDecode "aGk=", StdDecode "aGkh", StdDecode "aGk") = (Some "hi", Some "hi!", None).
Proof. reflexivity. Qed.
