(* ===== verification/GoFloat.v ===== *)
(** * float64

    IEEE 754 binary64 as the Standard Library's executable specification of
    floating point ([SpecFloat]), with the conversions the daemon uses and
    Go's [math.Pow] for a base of at least one and a natural exponent, its
    only use here. *)

From Stdlib Require Export SpecFloat.
From S2P Require Import Prelude.

Definition float64 : Type := spec_float.
Definition f64_mul : float64 -> float64 -> float64 := SFmul 53 1024.
Definition f64_add : float64 -> float64 -> float64 := SFadd 53 1024.
Definition f64_div : float64 -> float64 -> float64 := SFdiv 53 1024.
Definition f64_ltb : float64 -> float64 -> bool := SFltb.
Definition f64_eqb : float64 -> float64 -> bool := SFeqb.

(** float64(z) *)
Definition f64_of_Z (z : Z) : float64 := binary_normalize 53 1024 z 0 false.

Definition f64_zero : float64 := S754_zero false.
Definition f64_one : float64 := f64_of_Z 1.
Definition f64_two : float64 := f64_of_Z 2.
(** The literals 0.2 and 0.5. *)
Definition f64_0_2 : float64 := S754_finite false 7205759403792794 (-55).
Definition f64_0_5 : float64 := S754_finite false 4503599627370496 (-53).

(** int64(f): truncation toward zero; a value that does not fit gives the
    smallest int64, as on amd64. *)
Definition f64_to_i64 (f : float64) : Z :=
  match f with
  | S754_zero _ => 0
  | S754_finite s m e =>
      let a := if 0 <=? e then Z.pos m * 2 ^ e else Z.pos m / 2 ^ (- e) in
      let z := if s then - a else a in
      if (- two63 <=? z) && (z <? two63) then z else - two63
  | _ => - two63
  end.

Definition f64_frexp : float64 -> float64 * Z := SFfrexp 53 1024.
Definition f64_ldexp : float64 -> Z -> float64 := SFldexp 53 1024.

(** The loop of [math.Pow] over the bits of the exponent. *)
Fixpoint pow_loop (x1 : float64) (xe : Z) (a1 : float64) (ae : Z) (i : positive) : float64 * Z :=
  if (xe <? -4096) || (4096 <? xe) then (a1, ae + xe)
  else
    let sq := f64_mul x1 x1 in
    let '(x1', xe') := if f64_ltb sq f64_0_5 then (f64_add sq sq, 2 * xe - 1) else (sq, 2 * xe) in
    match i with
    | xH => (f64_mul a1 x1, ae + xe)
    | xI i' => pow_loop x1' xe' (f64_mul a1 x1) (ae + xe) i'
    | xO i' => pow_loop x1' xe' a1 ae i'
    end.

(** math.Pow(x, float64(n)) for x >= 1 (or NaN) and n >= 0 *)
Definition Pow (x : float64) (n : Z) : float64 :=
  if (n =? 0) || f64_eqb x f64_one then f64_one
  else if n =? 1 then x
  else match x with
       | S754_nan => S754_nan
       | S754_infinity s => S754_infinity s
       | _ => match n with
              | Z.pos p =>
                  let '(x1, xe) := f64_frexp x in
                  let '(a1, ae) := pow_loop x1 xe f64_one 0 p in
                  f64_ldexp a1 ae
              | _ => f64_one
              end
       end.

Example Pow_ex : (f64_to_i64 (Pow f64_two 10), f64_to_i64 (Pow (f64_of_Z 3) 5)) = (1024, 243).
Proof. vm_compute. reflexivity. Qed.
