(* ===== verification/GoFloatFacts.v ===== *)
(** * Exact float64 arithmetic on integers below 2^53

    Conversions and products of such integers are not rounded. *)

From S2P Require Import Prelude GoFloat.

(** [f] is the integer [z], with a full mantissa. *)
Definition represents (z : Z) (f : float64) : Prop :=
  exists m e, f = S754_finite false m e /\ -52 <= e <= 0 /\ Z.pos m = z * 2 ^ (- e) /\ Z.log2 (Z.pos m) = 52.

Lemma digits2_log2 m : Z.pos (digits2_pos m) = Z.log2 (Z.pos m) + 1.
Proof.
  induction m as [m IH|m IH|]; [| |done]; simpl digits2_pos; rewrite Pos2Z.inj_succ, IH.
  - rewrite (Pos2Z.inj_xI m), Z.log2_succ_double by lia. lia.
  - rewrite (Pos2Z.inj_xO m), Z.log2_double by lia. lia.
Qed.

Lemma shr_1_double m : 0 <= m -> shr_1 {| shr_m := 2 * m; shr_r := false; shr_s := false |} = {| shr_m := m; shr_r := false; shr_s := false |}.
Proof. by destruct m. Qed.

Lemma iter_shr_exact p m : 0 <= m ->
  iter_pos shr_1 p {| shr_m := m * 2 ^ Z.pos p; shr_r := false; shr_s := false |} = {| shr_m := m; shr_r := false; shr_s := false |}.
Proof.
  revert m. induction p as [p IH|p IH|]; intros m Hm; cbn [iter_pos].
  - replace (m * 2 ^ Z.pos p~1) with (2 * ((m * 2 ^ Z.pos p) * 2 ^ Z.pos p)).
    + rewrite shr_1_double by (repeat apply Z.mul_nonneg_nonneg; lia). rewrite IH by (apply Z.mul_nonneg_nonneg; lia). by apply IH.
    + replace (Z.pos p~1) with (1 + Z.pos p + Z.pos p) by lia. rewrite 2!Z.pow_add_r by lia. change (2 ^ 1) with 2. ring.
  - replace (m * 2 ^ Z.pos p~0) with ((m * 2 ^ Z.pos p) * 2 ^ Z.pos p).
    + rewrite IH by (apply Z.mul_nonneg_nonneg; lia). by apply IH.
    + replace (Z.pos p~0) with (Z.pos p + Z.pos p) by lia. rewrite Z.pow_add_r by lia. ring.
  - rewrite Z.mul_comm. by apply shr_1_double.
Qed.

(** Rounding drops zeros only. *)
Lemma binary_round_aux_exact s m m' e k :
  0 <= k -> Z.pos m = Z.pos m' * 2 ^ k -> Z.log2 (Z.pos m') = 52 -> -1074 <= e + k <= 971 ->
  binary_round_aux 53 1024 s (Z.pos m) e loc_Exact = S754_finite s m' (e + k).
Proof.
  intros Hk Hm Hlog He.
  assert (shr_fexp 53 1024 (Z.pos m) e loc_Exact = ({| shr_m := Z.pos m'; shr_r := false; shr_s := false |}, e + k)) as Hshr.
  { unfold shr_fexp, Zdigits2. rewrite digits2_log2, Hm, Z.log2_mul_pow2, Hlog by lia.
    replace (fexp 53 1024 (k + 52 + 1 + e) - e) with k by (unfold fexp, emin; lia).
    destruct k as [|p|p]; [by rewrite Z.mul_1_r, Z.add_0_r| |lia]. unfold shr, shr_record_of_loc. by rewrite iter_shr_exact. }
  unfold binary_round_aux. rewrite Hshr. cbn [shr_m loc_of_shr_record round_nearest_even].
  unfold shr_fexp, Zdigits2. rewrite digits2_log2, Hlog.
  replace (fexp 53 1024 (52 + 1 + (e + k)) - (e + k)) with 0 by (unfold fexp, emin; lia). cbn [shr shr_record_of_loc shr_m].
  by replace (e + k <=? 1024 - 53) with true by (symmetry; apply Z.leb_le; lia).
Qed.

Lemma iter_xO d m : Z.pos (Pos.iter xO m d) = Z.pos m * 2 ^ Z.pos d.
Proof.
  induction d as [|d IH] using Pos.peano_ind; [by rewrite Z.mul_comm|].
  rewrite Pos.iter_succ, Pos2Z.inj_xO, IH, Pos2Z.inj_succ, Z.pow_succ_r by lia. lia.
Qed.

Lemma f64_of_Z_exact z : 0 < z < 2 ^ 53 -> represents z (f64_of_Z z).
Proof.
  intros Hz. destruct z as [|p|p]; [lia| |lia]. unfold f64_of_Z, binary_normalize, binary_round.
  rewrite digits2_log2. set (l := Z.log2 (Z.pos p)).
  assert (0 <= l <= 52) as Hl by (unfold l; split; [apply Z.log2_nonneg|]; apply Z.lt_succ_r, Z.log2_lt_pow2; lia).
  replace (fexp 53 1024 (l + 1 + 0)) with (l - 52) by (unfold fexp, emin; lia). unfold shl_align.
  destruct (l - 52 - 0) as [|d|d] eqn:Ed; [| lia |].
  - assert (l = 52) as El by lia. rewrite (binary_round_aux_exact _ p p 0 0) by lia.
    exists p, 0. split_and!; [done|lia|lia|lia|done].
  - assert (Z.log2 (Z.pos (Pos.iter xO p d)) = 52) as El by (rewrite iter_xO, Z.log2_mul_pow2 by lia; fold l; lia).
    rewrite (binary_round_aux_exact _ _ (Pos.iter xO p d) _ 0) by lia. rewrite Z.add_0_r.
    exists (Pos.iter xO p d), (l - 52). split_and!; [done|lia|lia| |done]. rewrite iter_xO. do 2 f_equal. lia.
Qed.

Lemma f64_mul_exact a b x y : represents a x -> represents b y -> 0 < a * b < 2 ^ 53 -> represents (a * b) (f64_mul x y).
Proof.
  intros (m & e & -> & He & Hm & Hlm) (n & g & -> & Hg & Hn & Hln) Hab.
  set (l := Z.log2 (a * b)).
  assert (0 <= l <= 52) as Hl by (unfold l; split; [apply Z.log2_nonneg|]; apply Z.lt_succ_r, Z.log2_lt_pow2; lia).
  assert (Z.pos (m * n) = (a * b) * 2 ^ (- e - g)) as Hmn.
  { rewrite Pos2Z.inj_mul, Hm, Hn. replace (- e - g) with (- e + - g) by lia. rewrite Z.pow_add_r by lia. lia. }
  set (k := l - 52 - e - g).
  assert (0 <= k) as Hk.
  { pose proof (Z.log2_mul_below (Z.pos m) (Z.pos n) ltac:(lia) ltac:(lia)) as Hlo. rewrite <- Pos2Z.inj_mul, Hmn in Hlo.
    rewrite Z.log2_mul_pow2 in Hlo by lia. fold l in Hlo. lia. }
  assert (exists p, Z.pos p = a * b * 2 ^ (52 - l)) as [p Hp].
  { exists (Z.to_pos (a * b * 2 ^ (52 - l))). rewrite Z2Pos.id; [done|]. apply Z.mul_pos_pos; [lia|]. apply Z.pow_pos_nonneg; lia. }
  assert (Z.log2 (Z.pos p) = 52) as Hlp by (rewrite Hp, Z.log2_mul_pow2 by lia; fold l; lia).
  unfold f64_mul, SFmul. cbn [xorb]. rewrite (binary_round_aux_exact _ _ p _ k); [|done| |done|lia].
  - exists p, (l - 52). split_and!; [f_equal; lia|lia|lia| |done]. rewrite Hp. do 2 f_equal. lia.
  - rewrite Hmn, Hp, <- (Z.mul_assoc (a * b)), <- Z.pow_add_r by lia. do 2 f_equal. lia.
Qed.

Lemma f64_to_i64_exact z f : represents z f -> 0 < z < two63 -> f64_to_i64 f = z.
Proof.
  intros (m & e & -> & He & Hm & _) Hz. unfold f64_to_i64. rewrite Hm.
  replace (if 0 <=? e then z * 2 ^ (- e) * 2 ^ e else z * 2 ^ (- e) / 2 ^ (- e)) with z.
  - replace (- two63 <=? z) with true by (symmetry; apply Z.leb_le; unfold two63 in *; lia).
    by replace (z <? two63) with true by (symmetry; apply Z.ltb_lt; lia).
  - destruct (0 <=? e) eqn:E; bools; [replace e with 0 by lia; simpl; lia|]. rewrite Z.div_mul; [done|]. apply Z.pow_nonzero; lia.
Qed.
