(* ===== verification/Api.v ===== *)
(** * The messages of service/api (daemon.pb.go)

    One record per protobuf message with the fields of the generated Go
    struct.  A pointer field ([*string], [*Message]) is an [option], [nil]
    being [None]; a getter on a nil message returns the zero value.
    [proto.Clone] is the identity on these values.  Timestamps are
    nanoseconds. *)

From S2P Require Import Prelude GoStrings.

Inductive MountState : Type :=
| MOUNT_STATE_UNSPECIFIED
| MOUNT_STATE_PENDING_MOUNT
| MOUNT_STATE_MOUNTING
| MOUNT_STATE_MOUNTED
| MOUNT_STATE_PENDING_UNMOUNT
| MOUNT_STATE_UNMOUNTING
| MOUNT_STATE_RETRY_WAIT
| MOUNT_STATE_FAILED.

#[export] Instance MountState_eq_dec : EqDecision MountState.
Proof. solve_decision. Defined.

Definition MountState_number (s : MountState) : Z :=
  match s with
  | MOUNT_STATE_UNSPECIFIED => 0
  | MOUNT_STATE_PENDING_MOUNT => 1
  | MOUNT_STATE_MOUNTING => 2
  | MOUNT_STATE_MOUNTED => 3
  | MOUNT_STATE_PENDING_UNMOUNT => 4
  | MOUNT_STATE_UNMOUNTING => 5
  | MOUNT_STATE_RETRY_WAIT => 6
  | MOUNT_STATE_FAILED => 7
  end.

Definition MountState_name (s : MountState) : string :=
  match s with
  | MOUNT_STATE_UNSPECIFIED => "MOUNT_STATE_UNSPECIFIED"
  | MOUNT_STATE_PENDING_MOUNT => "MOUNT_STATE_PENDING_MOUNT"
  | MOUNT_STATE_MOUNTING => "MOUNT_STATE_MOUNTING"
  | MOUNT_STATE_MOUNTED => "MOUNT_STATE_MOUNTED"
  | MOUNT_STATE_PENDING_UNMOUNT => "MOUNT_STATE_PENDING_UNMOUNT"
  | MOUNT_STATE_UNMOUNTING => "MOUNT_STATE_UNMOUNTING"
  | MOUNT_STATE_RETRY_WAIT => "MOUNT_STATE_RETRY_WAIT"
  | MOUNT_STATE_FAILED => "MOUNT_STATE_FAILED"
  end.

Inductive MountEventType : Type :=
| MOUNT_EVENT_TYPE_UNSPECIFIED
| MOUNT_EVENT_TYPE_SNAPSHOT
| MOUNT_EVENT_TYPE_UPDATED
| MOUNT_EVENT_TYPE_REMOVED.

#[export] Instance MountEventType_eq_dec : EqDecision MountEventType.
Proof. solve_decision. Defined.

Record Account : Type := mkAccount {
  Account_IrodsAuthenticationScheme : option string;
  Account_IrodsClientServerNegotiation : option bool;
  Account_IrodsClientServerPolicy : option string;
  Account_IrodsHost : string;
  Account_IrodsPort : Z;
  Account_IrodsZoneName : string;
  Account_IrodsClientZoneName : option string;
  Account_IrodsUserName : string;
  Account_IrodsClientUserName : option string;
  Account_IrodsDefaultResource : option string;
  Account_IrodsCwd : option string;
  Account_IrodsHome : option string;
  Account_IrodsDefaultHashScheme : option string;
  Account_IrodsMatchHashPolicy : option string;
  Account_IrodsEncryptionAlgorithm : option string;
  Account_IrodsEncryptionKeySize : option Z;
  Account_IrodsEncryptionSaltSize : option Z;
  Account_IrodsEncryptionNumHashRounds : option Z;
  Account_IrodsSslCaCertificateFile : option string;
  Account_IrodsSslCaCertificatePath : option string;
  Account_IrodsSslVerifyServer : option string;
  Account_IrodsSslCertificateChainFile : option string;
  Account_IrodsSslCertificateKeyFile : option string;
  Account_IrodsSslDhParamsFile : option string;
  Account_IrodsUserPassword : option string;
  Account_IrodsTicket : option string;
  Account_IrodsPamToken : option string;
  Account_IrodsPamTtl : option Z;
  Account_IrodsSslServerName : option string
}.

Record PathMapping : Type := mkPathMapping {
  PathMapping_IrodsPath : string;
  PathMapping_MappingPath : string;
  PathMapping_ResourceType : string;
  PathMapping_ReadOnly : bool;
  PathMapping_CreateDir : bool;
  PathMapping_IgnoreNotExistError : bool
}.

(** google.protobuf.Duration *)
Record PbDuration : Type := mkPbDuration { PbDuration_Seconds : Z; PbDuration_Nanos : Z }.

Record ConnectionConfig : Type := mkConnectionConfig {
  ConnectionConfig_CreationTimeout : option PbDuration;
  ConnectionConfig_InitNumber : option Z;
  ConnectionConfig_MaxNumber : option Z;
  ConnectionConfig_MaxIdleNumber : option Z;
  ConnectionConfig_Lifespan : option PbDuration;
  ConnectionConfig_IdleTimeout : option PbDuration;
  ConnectionConfig_OperationTimeout : option PbDuration;
  ConnectionConfig_LongOperationTimeout : option PbDuration;
  ConnectionConfig_TcpSendBufferSize : option Z;
  ConnectionConfig_TcpRecvBufferSize : option Z;
  ConnectionConfig_WaitConnection : option bool
}.

Record MetadataCacheTimeoutSetting : Type := mkMetadataCacheTimeoutSetting {
  MetadataCacheTimeoutSetting_Path : string;
  MetadataCacheTimeoutSetting_Timeout : option PbDuration;
  MetadataCacheTimeoutSetting_Inherit : option bool
}.

Record MemoryBackendConfig : Type := mkMemoryBackendConfig {
  MemoryBackendConfig_CleanupInterval : option PbDuration;
  MemoryBackendConfig_DefaultTtl : option PbDuration
}.

Record RistrettoBackendConfig : Type := mkRistrettoBackendConfig {
  RistrettoBackendConfig_MaxEntries : option Z;
  RistrettoBackendConfig_MaxCost : option Z;
  RistrettoBackendConfig_BufferItems : option Z;
  RistrettoBackendConfig_DefaultTtl : option PbDuration
}.

Record RedisBackendConfig : Type := mkRedisBackendConfig {
  RedisBackendConfig_Address : option string;
  RedisBackendConfig_Db : option Z;
  RedisBackendConfig_Password : option string;
  RedisBackendConfig_PoolSize : option Z;
  RedisBackendConfig_KeyPrefix : option string;
  RedisBackendConfig_ConnectTimeout : option PbDuration;
  RedisBackendConfig_CommandTimeout : option PbDuration;
  RedisBackendConfig_DefaultTtl : option PbDuration;
  RedisBackendConfig_EnableAccountIsolation : option bool
}.

Record CacheBackendConfig : Type := mkCacheBackendConfig {
  CacheBackendConfig_Type : string;
  CacheBackendConfig_Memory : option MemoryBackendConfig;
  CacheBackendConfig_Ristretto : option RistrettoBackendConfig;
  CacheBackendConfig_Redis : option RedisBackendConfig
}.

Record CacheConfig : Type := mkCacheConfig {
  CacheConfig_MetadataTimeoutSettings : list (option MetadataCacheTimeoutSetting);
  CacheConfig_StartNewTransaction : option bool;
  CacheConfig_Backend : option CacheBackendConfig
}.

Record IRODSFSConfig : Type := mkIRODSFSConfig {
  IRODSFSConfig_Account : option Account;
  IRODSFSConfig_PathMappings : list (option PathMapping);
  IRODSFSConfig_ReadAheadMax : option Z;
  IRODSFSConfig_ReadWriteMax : option Z;
  IRODSFSConfig_FuseOptions : list string;
  IRODSFSConfig_Uid : option Z;
  IRODSFSConfig_Gid : option Z;
  IRODSFSConfig_SystemUser : option string;
  IRODSFSConfig_MetadataConnection : option ConnectionConfig;
  IRODSFSConfig_IoConnection : option ConnectionConfig;
  IRODSFSConfig_Cache : option CacheConfig;
  IRODSFSConfig_PoolEndpoint : option string;
  IRODSFSConfig_Debug : bool;
  IRODSFSConfig_Description : option string
}.

Record DAVFSConfig : Type := mkDAVFSConfig {
  DAVFSConfig_Url : string;
  DAVFSConfig_Username : option string;
  DAVFSConfig_Password : option string;
  DAVFSConfig_Config : gmap string string
}.

Record NFSConfig : Type := mkNFSConfig {
  NFSConfig_Host : string;
  NFSConfig_Port : Z;
  NFSConfig_Path : string
}.

(** The oneof [client_config]; a wrapper may hold a nil message. *)
Inductive ClientConfig : Type :=
| MountConfig_Irodsfs (c : option IRODSFSConfig)
| MountConfig_Davfs (c : option DAVFSConfig)
| MountConfig_Nfs (c : option NFSConfig).

Record MountConfig : Type := mkMountConfig {
  MountConfig_MountPath : string;
  MountConfig_ReadOnly : bool;
  MountConfig_MountOptions : list string;
  MountConfig_ClientConfig : option ClientConfig
}.

Record APIError : Type := mkAPIError {
  APIError_Code : string;
  APIError_Message : string;
  APIError_Retryable : bool;
  APIError_Details : list (string * string)
}.

Record MountInfo : Type := mkMountInfo {
  MountInfo_MountId : string;
  MountInfo_State : MountState;
  MountInfo_Config : option MountConfig;
  MountInfo_Attempt : Z;
  MountInfo_LastError : option APIError;
  MountInfo_Pid : Z;
  MountInfo_CreatedAt : option Z;
  MountInfo_UpdatedAt : option Z;
  MountInfo_MountedAt : option Z;
  MountInfo_UnmountedAt : option Z;
  MountInfo_NextRetryAt : option Z
}.

Record MountRequest : Type := mkMountRequest {
  MountRequest_MountId : option string;
  MountRequest_Config : option MountConfig
}.

Record UnmountRequest : Type := mkUnmountRequest {
  UnmountRequest_MountId : string
}.

Record ListMountsRequest : Type := mkListMountsRequest {
  ListMountsRequest_States : list MountState;
  ListMountsRequest_MountPathPrefix : option string;
  ListMountsRequest_ClientUser : option string
}.

Record WatchMountEventsRequest : Type := mkWatchMountEventsRequest {
  WatchMountEventsRequest_MountIds : list string;
  WatchMountEventsRequest_IncludeCurrent : bool
}.

Record MountEvent : Type := mkMountEvent {
  MountEvent_Type : MountEventType;
  MountEvent_Mount : MountInfo
}.

(** ** Getters *)

(** GetX() of a [*string] field: the empty string when unset. *)
Definition str_or_empty (o : option string) : string := default EmptyString o.

(** config.GetIrodsfs(), config.GetDavfs(), config.GetNfs() *)
Definition GetIrodsfs (c : MountConfig) : option IRODSFSConfig :=
  match MountConfig_ClientConfig c with Some (MountConfig_Irodsfs i) => i | _ => None end.
Definition GetDavfs (c : MountConfig) : option DAVFSConfig :=
  match MountConfig_ClientConfig c with Some (MountConfig_Davfs d) => d | _ => None end.
Definition GetNfs (c : MountConfig) : option NFSConfig :=
  match MountConfig_ClientConfig c with Some (MountConfig_Nfs n) => n | _ => None end.

(** config.GetIrodsfs().GetAccount() *)
Definition GetAccount (c : MountConfig) : option Account :=
  GetIrodsfs c ≫= IRODSFSConfig_Account.

(** config.GetIrodsfs().GetCache().GetBackend().GetRedis() *)
Definition GetRedis (c : MountConfig) : option RedisBackendConfig :=
  ((GetIrodsfs c ≫= IRODSFSConfig_Cache) ≫= CacheConfig_Backend) ≫= CacheBackendConfig_Redis.

(** info.GetConfig().GetMountPath() *)
Definition GetMountPath (i : MountInfo) : string :=
  match MountInfo_Config i with Some c => MountConfig_MountPath c | None => EmptyString end.

(** request.GetMountId() *)
Definition GetMountId (r : MountRequest) : string := str_or_empty (MountRequest_MountId r).

(** ** Field updates *)

Definition set_MountPath (p : string) (c : MountConfig) : MountConfig :=
  mkMountConfig p (MountConfig_ReadOnly c) (MountConfig_MountOptions c) (MountConfig_ClientConfig c).
Definition set_MountOptions (o : list string) (c : MountConfig) : MountConfig :=
  mkMountConfig (MountConfig_MountPath c) (MountConfig_ReadOnly c) o (MountConfig_ClientConfig c).
Definition set_ClientConfig (k : option ClientConfig) (c : MountConfig) : MountConfig :=
  mkMountConfig (MountConfig_MountPath c) (MountConfig_ReadOnly c) (MountConfig_MountOptions c) k.

Definition set_Config (c : option MountConfig) (i : MountInfo) : MountInfo :=
  let '(mkMountInfo a b _ d e f g h j k l) := i in mkMountInfo a b c d e f g h j k l.
Definition set_State (s : MountState) (i : MountInfo) : MountInfo :=
  let '(mkMountInfo a _ c d e f g h j k l) := i in mkMountInfo a s c d e f g h j k l.
Definition set_Attempt (n : Z) (i : MountInfo) : MountInfo :=
  let '(mkMountInfo a b c _ e f g h j k l) := i in mkMountInfo a b c n e f g h j k l.
Definition set_LastError (x : option APIError) (i : MountInfo) : MountInfo :=
  let '(mkMountInfo a b c d _ f g h j k l) := i in mkMountInfo a b c d x f g h j k l.
Definition set_Pid (p : Z) (i : MountInfo) : MountInfo :=
  let '(mkMountInfo a b c d e _ g h j k l) := i in mkMountInfo a b c d e p g h j k l.
Definition set_UpdatedAt (t : Z) (i : MountInfo) : MountInfo :=
  let '(mkMountInfo a b c d e f g _ j k l) := i in mkMountInfo a b c d e f g (Some t) j k l.
Definition set_MountedAt (t : Z) (i : MountInfo) : MountInfo :=
  let '(mkMountInfo a b c d e f g h _ k l) := i in mkMountInfo a b c d e f g h (Some t) k l.
Definition set_UnmountedAt (t : Z) (i : MountInfo) : MountInfo :=
  let '(mkMountInfo a b c d e f g h j _ l) := i in mkMountInfo a b c d e f g h j (Some t) l.
Definition set_NextRetryAt (t : option Z) (i : MountInfo) : MountInfo :=
  let '(mkMountInfo a b c d e f g h j k _) := i in mkMountInfo a b c d e f g h j k t.
