(* ===== verification/ProtoJson.v ===== *)
(** * What protojson can encode

    The repository writes its records with protojson, which is outside this
    repository.  Its documentation says when encoding a message fails: a
    string that is not valid UTF-8, a Timestamp outside the years 1 to 9999
    and a Duration of more than 10000 years or with mixed signs.  [encodable]
    says that nothing of that kind is in a [MountInfo]. *)

From S2P Require Import Prelude GoStrings GoPath Api.

(** ** UTF-8 *)

(** The ranges of the bytes that must follow a first byte. *)
Definition utf8_following (c : ascii) : option (list (Z * Z)) :=
  let b := code c in
  let tail := (128, 191) in
  if b <? 128 then Some []
  else if b <? 194 then None
  else if b <? 224 then Some [tail]
  else if b =? 224 then Some [(160, 191); tail]
  else if b =? 237 then Some [(128, 159); tail]
  else if b <? 240 then Some [tail; tail]
  else if b =? 240 then Some [(144, 191); tail; tail]
  else if b <? 244 then Some [tail; tail; tail]
  else if b =? 244 then Some [(128, 143); tail; tail]
  else None.

Fixpoint utf8_after (pending : list (Z * Z)) (s : string) : bool :=
  match s, pending with
  | EmptyString, [] => true
  | EmptyString, _ => false
  | String c s', [] =>
      match utf8_following c with
      | Some ranges => utf8_after ranges s'
      | None => false
      end
  | String c s', (lo, hi) :: rest => (lo <=? code c) && (code c <=? hi) && utf8_after rest s'
  end.

(** utf8.ValidString *)
Definition valid_utf8 (s : string) : bool := utf8_after [] s.

(** ** Messages *)

Definition set_to {A} (f : A -> bool) (o : option A) : bool := match o with Some a => f a | None => true end.

(** google.protobuf.Timestamp, in nanoseconds since 1970. *)
Definition valid_timestamp (t : Z) : bool := (-62135596800 * 1000000000 <=? t) && (t <? 253402300800 * 1000000000).

(** google.protobuf.Duration *)
Definition valid_duration (d : PbDuration) : bool :=
  let s := PbDuration_Seconds d in
  let n := PbDuration_Nanos d in
  (Z.abs s <=? 315576000000) && (Z.abs n <=? 999999999) && negb ((0 <? s) && (n <? 0)) && negb ((s <? 0) && (0 <? n)).

Definition encodable_account (a : Account) : bool :=
  forallb valid_utf8 [Account_IrodsHost a; Account_IrodsZoneName a; Account_IrodsUserName a] &&
  forallb (set_to valid_utf8)
    [Account_IrodsAuthenticationScheme a; Account_IrodsClientServerPolicy a; Account_IrodsClientZoneName a;
     Account_IrodsClientUserName a; Account_IrodsDefaultResource a; Account_IrodsCwd a; Account_IrodsHome a;
     Account_IrodsDefaultHashScheme a; Account_IrodsMatchHashPolicy a; Account_IrodsEncryptionAlgorithm a;
     Account_IrodsSslCaCertificateFile a; Account_IrodsSslCaCertificatePath a; Account_IrodsSslVerifyServer a;
     Account_IrodsSslCertificateChainFile a; Account_IrodsSslCertificateKeyFile a; Account_IrodsSslDhParamsFile a;
     Account_IrodsUserPassword a; Account_IrodsTicket a; Account_IrodsPamToken a; Account_IrodsSslServerName a].

Definition encodable_mapping (m : PathMapping) : bool :=
  forallb valid_utf8 [PathMapping_IrodsPath m; PathMapping_MappingPath m; PathMapping_ResourceType m].

Definition encodable_connection (c : ConnectionConfig) : bool :=
  forallb (set_to valid_duration)
    [ConnectionConfig_CreationTimeout c; ConnectionConfig_Lifespan c; ConnectionConfig_IdleTimeout c;
     ConnectionConfig_OperationTimeout c; ConnectionConfig_LongOperationTimeout c].

Definition encodable_setting (s : MetadataCacheTimeoutSetting) : bool :=
  valid_utf8 (MetadataCacheTimeoutSetting_Path s) && set_to valid_duration (MetadataCacheTimeoutSetting_Timeout s).

Definition encodable_memory (m : MemoryBackendConfig) : bool :=
  set_to valid_duration (MemoryBackendConfig_CleanupInterval m) && set_to valid_duration (MemoryBackendConfig_DefaultTtl m).

Definition encodable_redis (r : RedisBackendConfig) : bool :=
  forallb (set_to valid_utf8) [RedisBackendConfig_Address r; RedisBackendConfig_Password r; RedisBackendConfig_KeyPrefix r] &&
  forallb (set_to valid_duration)
    [RedisBackendConfig_ConnectTimeout r; RedisBackendConfig_CommandTimeout r; RedisBackendConfig_DefaultTtl r].

Definition encodable_backend (b : CacheBackendConfig) : bool :=
  valid_utf8 (CacheBackendConfig_Type b) && set_to encodable_memory (CacheBackendConfig_Memory b) &&
  set_to (fun r => set_to valid_duration (RistrettoBackendConfig_DefaultTtl r)) (CacheBackendConfig_Ristretto b) &&
  set_to encodable_redis (CacheBackendConfig_Redis b).

Definition encodable_cache (c : CacheConfig) : bool :=
  forallb (set_to encodable_setting) (CacheConfig_MetadataTimeoutSettings c) && set_to encodable_backend (CacheConfig_Backend c).

Definition encodable_irodsfs (i : IRODSFSConfig) : bool :=
  set_to encodable_account (IRODSFSConfig_Account i) && forallb (set_to encodable_mapping) (IRODSFSConfig_PathMappings i) &&
  forallb valid_utf8 (IRODSFSConfig_FuseOptions i) && set_to encodable_connection (IRODSFSConfig_MetadataConnection i) &&
  set_to encodable_connection (IRODSFSConfig_IoConnection i) && set_to encodable_cache (IRODSFSConfig_Cache i) &&
  forallb (set_to valid_utf8) [IRODSFSConfig_SystemUser i; IRODSFSConfig_PoolEndpoint i; IRODSFSConfig_Description i].

Definition encodable_pair (kv : string * string) : bool := valid_utf8 kv.1 && valid_utf8 kv.2.

Definition encodable_davfs (d : DAVFSConfig) : bool :=
  valid_utf8 (DAVFSConfig_Url d) && set_to valid_utf8 (DAVFSConfig_Username d) && set_to valid_utf8 (DAVFSConfig_Password d) &&
  forallb encodable_pair (map_to_list (DAVFSConfig_Config d)).

Definition encodable_nfs (n : NFSConfig) : bool := valid_utf8 (NFSConfig_Host n) && valid_utf8 (NFSConfig_Path n).

Definition encodable_client (k : ClientConfig) : bool :=
  match k with
  | MountConfig_Irodsfs c => set_to encodable_irodsfs c
  | MountConfig_Davfs c => set_to encodable_davfs c
  | MountConfig_Nfs c => set_to encodable_nfs c
  end.

Definition encodable_config (c : MountConfig) : bool :=
  valid_utf8 (MountConfig_MountPath c) && forallb valid_utf8 (MountConfig_MountOptions c) &&
  set_to encodable_client (MountConfig_ClientConfig c).

Definition encodable_error (e : APIError) : bool :=
  valid_utf8 (APIError_Code e) && valid_utf8 (APIError_Message e) && forallb encodable_pair (APIError_Details e).

Definition encodable (i : MountInfo) : bool :=
  valid_utf8 (MountInfo_MountId i) && set_to encodable_config (MountInfo_Config i) &&
  set_to encodable_error (MountInfo_LastError i) &&
  forallb (set_to valid_timestamp)
    [MountInfo_CreatedAt i; MountInfo_UpdatedAt i; MountInfo_MountedAt i; MountInfo_UnmountedAt i; MountInfo_NextRetryAt i].

(** ** Facts *)

Definition beyond_ascii (r : Z * Z) : Prop := 128 <= r.1.

Lemma utf8_following_beyond c ranges : utf8_following c = Some ranges -> Forall beyond_ascii ranges.
Proof. unfold utf8_following. intros H. repeat case_match; simplify_eq; repeat constructor; unfold beyond_ascii; simpl; lia. Qed.

(** An ASCII byte stands between two texts, never inside a sequence. *)
Lemma utf8_after_app p a c b :
  Forall beyond_ascii p -> is_ascii c = true -> utf8_after p (a +:+ String c b) = utf8_after p a && utf8_after [] b.
Proof.
  intros Hp Hc. apply Z.ltb_lt in Hc as Hlt. revert p Hp. induction a as [|d a IH]; intros [|[lo hi] p] Hp; simpl.
  - unfold utf8_following. by rewrite (proj2 (Z.ltb_lt _ _) Hlt).
  - apply Forall_cons in Hp as [Hlo _]. unfold beyond_ascii in Hlo. simpl in Hlo.
    by rewrite (proj2 (Z.leb_gt lo (code c))) by lia.
  - destruct (utf8_following d) as [ranges|] eqn:E; [|done]. apply IH. by eapply utf8_following_beyond.
  - apply Forall_cons in Hp as [_ Hp]. rewrite IH by done. by rewrite andb_assoc.
Qed.

Lemma valid_utf8_app a c b : is_ascii c = true -> valid_utf8 (a +:+ String c b) = valid_utf8 a && valid_utf8 b.
Proof. intros Hc. by apply utf8_after_app. Qed.

Lemma valid_utf8_Join c l : is_ascii c = true -> valid_utf8 (Join (str1 c) l) = forallb valid_utf8 l.
Proof.
  intros Hc. induction l as [|x [|y l] IH]; [done|simpl; by rewrite andb_true_r|].
  rewrite Join_cons by done. change (str1 c +:+ ?t) with (String c t).
  change (forallb valid_utf8 (x :: y :: l)) with (valid_utf8 x && forallb valid_utf8 (y :: l)).
  rewrite valid_utf8_app by done. by rewrite IH.
Qed.

Lemma valid_utf8_ascii s : string_forallb is_ascii s = true -> valid_utf8 s = true.
Proof.
  unfold valid_utf8. induction s as [|c s IH]; [done|]. simpl. intros [Hc Hs]%andb_prop. unfold utf8_following.
  unfold is_ascii in Hc. rewrite Hc. auto.
Qed.

Lemma forallb_snoc {A} (f : A -> bool) l x : forallb f l = true -> f x = true -> forallb f (l ++ [x]) = true.
Proof. intros Hl Hx. rewrite forallb_app. simpl. by rewrite Hl, Hx. Qed.

Lemma forallb_reverse {A} (f : A -> bool) l : forallb f l = true -> forallb f (rev l) = true.
Proof. induction l as [|x l IH]; [done|]. simpl. intros [Hx Hl]%andb_prop. apply forallb_snoc; auto. Qed.

Lemma clean_step_valid rooted acc seg :
  forallb valid_utf8 acc = true -> valid_utf8 seg = true -> forallb valid_utf8 (clean_step rooted acc seg) = true.
Proof.
  intros Ha Hs. unfold clean_step. destruct (String.eqb seg EmptyString || String.eqb seg dot); [done|].
  destruct (String.eqb seg dotdot); [|by simpl; rewrite Hs].
  destruct acc as [|x acc]; [by destruct rooted|]. destruct (String.eqb x dotdot); [exact Ha|]. by apply andb_prop in Ha as [_ ?].
Qed.

Lemma norm_valid rooted segs : forallb valid_utf8 segs = true -> forallb valid_utf8 (norm rooted segs) = true.
Proof.
  intros Hs. unfold norm. apply forallb_reverse. assert (forallb valid_utf8 [] = true) as H0 by done. revert H0.
  generalize (@nil string) as acc. induction segs as [|x segs IH]; intros acc Ha; [done|]. simpl in *.
  apply andb_prop in Hs as [Hx Hs]. apply IH; [done|]. by apply clean_step_valid.
Qed.

(** filepath.Clean keeps a path valid. *)
Lemma Clean_valid p : valid_utf8 p = true -> valid_utf8 (Clean p) = true.
Proof.
  intros Hp. assert (forallb valid_utf8 (elements p) = true) as He.
  { unfold elements. rewrite <- (valid_utf8_Join ch_slash) by done. by rewrite Join_Split. }
  unfold Clean, apath. change sep with (str1 ch_slash). destruct (IsAbs p).
  - change (valid_utf8 (EmptyString +:+ String ch_slash (Join (str1 ch_slash) (norm true (elements p)))) = true).
    rewrite valid_utf8_app, valid_utf8_Join by done. by rewrite norm_valid.
  - pose proof (norm_valid false _ He) as Hn. destruct (norm false (elements p)) as [|x l]; [done|].
    by rewrite valid_utf8_Join.
Qed.
