(* ===== verification/Redact.v ===== *)
(** * Client types, secrets and redaction

    [clientType], [collectMountSecrets] (service/mount_command.go),
    [redactMountInfo], [redactOptional] and [accountClientUser]
    (service/mount_manager.go).  Go mutates fields of a clone through the
    pointers returned by nil-safe getters; here the same field is rebuilt
    inside the message that holds it ([map_account], [map_redis],
    [map_davfs]). *)

From S2P Require Import Prelude GoStrings GoErrors Api.

Inductive mountClientType : Type :=
| mountClientIRODSFS
| mountClientDAVFS
| mountClientNFS.

#[export] Instance mountClientType_eq_dec : EqDecision mountClientType.
Proof. solve_decision. Defined.

Definition clientType (config : option MountConfig) : result goerror mountClientType :=
  match config with
  | None => Err (ENew "mount config is required")
  | Some c =>
      match MountConfig_ClientConfig c with
      | Some (MountConfig_Irodsfs _) => Ok mountClientIRODSFS
      | Some (MountConfig_Davfs _) => Ok mountClientDAVFS
      | Some (MountConfig_Nfs _) => Ok mountClientNFS
      | None => Err (ENew "mount client config is required")
      end
  end.

Definition collectMountSecrets (c : MountConfig) : list string :=
  (match GetAccount c with
   | Some a => [str_or_empty (Account_IrodsUserPassword a);
                str_or_empty (Account_IrodsTicket a);
                str_or_empty (Account_IrodsPamToken a)]
   | None => []
   end) ++
  (match GetRedis c with
   | Some r => [str_or_empty (RedisBackendConfig_Password r)]
   | None => []
   end) ++
  (match GetDavfs c with
   | Some d => [str_or_empty (DAVFSConfig_Password d)]
   | None => []
   end).

Definition redactedValue : string := "[REDACTED]".

Definition redactOptional (value : option string) : option string :=
  match value with
  | None => None
  | Some v => Some (if String.eqb v EmptyString then EmptyString else redactedValue)
  end.

(** ** Updating a nested message in place *)

Definition set_account_secrets (pw ticket pam : option string) (a : Account) : Account :=
  let '(mkAccount x1 x2 x3 x4 x5 x6 x7 x8 x9 x10 x11 x12 x13 x14 x15 x16 x17 x18 x19 x20
          x21 x22 x23 x24 _ _ _ x28 x29) := a in
  mkAccount x1 x2 x3 x4 x5 x6 x7 x8 x9 x10 x11 x12 x13 x14 x15 x16 x17 x18 x19 x20
          x21 x22 x23 x24 pw ticket pam x28 x29.

Definition set_redis_password (pw : option string) (r : RedisBackendConfig) : RedisBackendConfig :=
  let '(mkRedisBackendConfig a b _ d e f g h i) := r in mkRedisBackendConfig a b pw d e f g h i.

Definition set_davfs_password (pw : option string) (d : DAVFSConfig) : DAVFSConfig :=
  let '(mkDAVFSConfig u n _ c) := d in mkDAVFSConfig u n pw c.

Definition map_irodsfs (f : IRODSFSConfig -> IRODSFSConfig) (c : MountConfig) : MountConfig :=
  match MountConfig_ClientConfig c with
  | Some (MountConfig_Irodsfs (Some i)) => set_ClientConfig (Some (MountConfig_Irodsfs (Some (f i)))) c
  | _ => c
  end.

Definition set_Account (a : option Account) (i : IRODSFSConfig) : IRODSFSConfig :=
  let '(mkIRODSFSConfig _ x2 x3 x4 x5 x6 x7 x8 x9 x10 x11 x12 x13 x14) := i in
  mkIRODSFSConfig a x2 x3 x4 x5 x6 x7 x8 x9 x10 x11 x12 x13 x14.

Definition set_Cache (k : option CacheConfig) (i : IRODSFSConfig) : IRODSFSConfig :=
  let '(mkIRODSFSConfig x1 x2 x3 x4 x5 x6 x7 x8 x9 x10 _ x12 x13 x14) := i in
  mkIRODSFSConfig x1 x2 x3 x4 x5 x6 x7 x8 x9 x10 k x12 x13 x14.

Definition map_account (f : Account -> Account) : MountConfig -> MountConfig :=
  map_irodsfs (fun i => set_Account (f <$> IRODSFSConfig_Account i) i).

Definition map_backend_redis (f : RedisBackendConfig -> RedisBackendConfig) (b : CacheBackendConfig)
  : CacheBackendConfig :=
  let '(mkCacheBackendConfig t m s r) := b in mkCacheBackendConfig t m s (f <$> r).

Definition map_cache_backend (f : CacheBackendConfig -> CacheBackendConfig) (k : CacheConfig)
  : CacheConfig :=
  let '(mkCacheConfig m s b) := k in mkCacheConfig m s (f <$> b).

Definition map_redis (f : RedisBackendConfig -> RedisBackendConfig) : MountConfig -> MountConfig :=
  map_irodsfs (fun i =>
    set_Cache (map_cache_backend (map_backend_redis f) <$> IRODSFSConfig_Cache i) i).

Definition map_davfs (f : DAVFSConfig -> DAVFSConfig) (c : MountConfig) : MountConfig :=
  match MountConfig_ClientConfig c with
  | Some (MountConfig_Davfs (Some d)) => set_ClientConfig (Some (MountConfig_Davfs (Some (f d)))) c
  | _ => c
  end.

(** ** Redaction *)

Definition redact_account (a : Account) : Account :=
  set_account_secrets (redactOptional (Account_IrodsUserPassword a))
    (redactOptional (Account_IrodsTicket a)) (redactOptional (Account_IrodsPamToken a)) a.
Definition redact_redis (r : RedisBackendConfig) : RedisBackendConfig :=
  set_redis_password (redactOptional (RedisBackendConfig_Password r)) r.
Definition redact_davfs (d : DAVFSConfig) : DAVFSConfig :=
  set_davfs_password (redactOptional (DAVFSConfig_Password d)) d.

Definition redact_config (c : MountConfig) : MountConfig :=
  map_davfs redact_davfs (map_redis redact_redis (map_account redact_account c)).

Definition redactMountInfo (info : MountInfo) : MountInfo :=
  set_Config (redact_config <$> MountInfo_Config info) info.

Definition accountClientUser (account : option Account) : string :=
  match account with
  | None => EmptyString
  | Some a =>
      match Account_IrodsClientUserName a with
      | Some u => u
      | None => Account_IrodsUserName a
      end
  end.

(** ** Facts *)

(** Overwrites every credential of a configuration. *)
Record credentials : Type := mkCredentials {
  cred_password : option string;
  cred_ticket : option string;
  cred_pam : option string;
  cred_redis : option string;
  cred_davfs : option string
}.

Definition with_credentials (k : credentials) (c : MountConfig) : MountConfig :=
  map_davfs (set_davfs_password (cred_davfs k))
    (map_redis (set_redis_password (cred_redis k))
      (map_account (set_account_secrets (cred_password k) (cred_ticket k) (cred_pam k)) c)).

(** Two optional strings agree on being set and on being empty. *)
Definition same_shape (a b : option string) : Prop := redactOptional a = redactOptional b.

Definition same_shapes (k1 k2 : credentials) : Prop :=
  same_shape (cred_password k1) (cred_password k2) /\ same_shape (cred_ticket k1) (cred_ticket k2) /\
  same_shape (cred_pam k1) (cred_pam k2) /\ same_shape (cred_redis k1) (cred_redis k2) /\
  same_shape (cred_davfs k1) (cred_davfs k2).

(** Reduces a statement about a configuration to its client cases. *)
Ltac config_cases c :=
  destruct c as [p ro opts [[[i|]|[d|]|[n|]]|]]; try reflexivity;
  try (destruct i as [[a|] ? ? ? ? ? ? ? ? ? [[? ? [[? ? ? [r|]]|]]|] ? ? ?];
       try destruct a; try destruct r); try destruct d; try reflexivity.

Lemma redactOptional_idem v : redactOptional (redactOptional v) = redactOptional v.
Proof. destruct v as [v|]; [|done]. simpl. by destruct (String.eqb v EmptyString). Qed.

Lemma redactOptional_value v : str_or_empty (redactOptional v) ∈ [EmptyString; redactedValue].
Proof. destruct v as [v|]; [|left]. simpl. destruct (String.eqb v EmptyString); set_solver. Qed.

Lemma redact_config_secrets c :
  Forall (fun s => s = EmptyString \/ s = redactedValue) (collectMountSecrets (redact_config c)).
Proof.
  assert (forall v, str_or_empty (redactOptional v) = EmptyString \/
                    str_or_empty (redactOptional v) = redactedValue) as H.
  { intros v. pose proof (redactOptional_value v). set_solver. }
  destruct c as [p ro opts [[[i|]|[d|]|[n|]]|]]; try (by constructor).
  - destruct i as [[a|] ? ? ? ? ? ? ? ? ? [[? ? [[? ? ? [r|]]|]]|] ? ? ?];
      try destruct a; try destruct r; repeat (constructor; [apply H|]); constructor.
  - destruct d. constructor; [apply H | constructor].
Qed.

Lemma redact_with_credentials k1 k2 c :
  same_shapes k1 k2 -> redact_config (with_credentials k1 c) = redact_config (with_credentials k2 c).
Proof.
  intros (H1 & H2 & H3 & H4 & H5). unfold same_shape in *. config_cases c;
  cbn; rewrite ?H1, ?H2, ?H3, ?H4, ?H5; done.
Qed.

Lemma redact_config_idem c : redact_config (redact_config c) = redact_config c.
Proof. config_cases c; cbn; by rewrite ?redactOptional_idem. Qed.

Lemma redact_config_MountPath c : MountConfig_MountPath (redact_config c) = MountConfig_MountPath c.
Proof. config_cases c. Qed.

Lemma redact_config_clientType c : clientType (Some (redact_config c)) = clientType (Some c).
Proof. config_cases c. Qed.

Lemma redactMountInfo_State i : MountInfo_State (redactMountInfo i) = MountInfo_State i.
Proof. by destruct i. Qed.
Lemma redactMountInfo_MountId i : MountInfo_MountId (redactMountInfo i) = MountInfo_MountId i.
Proof. by destruct i. Qed.
Lemma redactMountInfo_Config i : MountInfo_Config (redactMountInfo i) = redact_config <$> MountInfo_Config i.
Proof. by destruct i. Qed.
Lemma redactMountInfo_LastError i : MountInfo_LastError (redactMountInfo i) = MountInfo_LastError i.
Proof. by destruct i. Qed.
Lemma GetMountPath_redact i : GetMountPath (redactMountInfo i) = GetMountPath i.
Proof.
  unfold GetMountPath. rewrite redactMountInfo_Config. destruct (MountInfo_Config i) as [c|]; [|done].
  simpl. apply redact_config_MountPath.
Qed.
#[export] Hint Rewrite redactMountInfo_State redactMountInfo_MountId redactMountInfo_Config
  redactMountInfo_LastError GetMountPath_redact redact_config_MountPath : go_rw.
