(* ===== verification/Config.v ===== *)
(** * Daemon configuration (package commons)

    commons/constant.go, commons/config.go (the [Config] record, its
    defaults, its derived paths and [Validate]) and commons/endpoint.go.
    Parsing a URL ([net/url.ParseRequestURI]) is an operation of the class
    [UrlLib].  [Validate] ranges over two Go maps, whose order is not
    specified; the model checks their entries in the order they are
    written. *)

From S2P Require Import Prelude GoStrings GoPath GoErrors Base64 GoFloat.

(** ** Constants *)

Definition Millisecond : Z := 1000000.
Definition Second : Z := 1000000000.
Definition Minute : Z := 60000000000.

Definition IRODSFSExecutablePathDefault : string := "/usr/local/bin/irodsfs".
Definition MountExecutablePathDefault : string := "/usr/bin/mount".
Definition UnmountExecutablePathDefault : string := "/usr/bin/umount".
Definition DataRootPathDefault : string := "/var/lib/irodsfsd".
Definition PIDFilePathDefault : string := "/run/irodsfsd/irodsfsd.pid".
Definition AllowedMountRootPathDefault : string := "/mnt/irods".
Definition KubeletMountRootPathDefault : string := "/var/lib/kubelet".
Definition MountRootPathDefault : string := "mounts".
Definition MountDatabasePathDefault : string := "db".
Definition RetryMaxAttemptsDefault : Z := 5.
Definition RetryInitialDelayDefault : Z := Second.
Definition RetryMaxDelayDefault : Z := 30 * Second.
Definition RetryMultiplierDefault : float64 := f64_two.
Definition RetryJitterDefault : float64 := f64_0_2.
Definition MountTimeoutDefault : Z := 30 * Second.
Definition UnmountTimeoutDefault : Z := 15 * Second.
Definition DAVFSUnmountTimeoutDefault : Z := 3 * Minute.
Definition ReconcileIntervalDefault : Z := 10 * Second.
Definition MaxConcurrentMountsDefault : Z := 40.
Definition RecoveryEncryptionKeySizeDefault : Z := 32.
Definition ManagementServiceEndpointDefault : string := "http://0.0.0.0:13021".
Definition IRODSFSExecutablePathFallbacks : list string := ["/usr/bin/irodsfs"].

(** ** The configuration record *)

Record RetryConfig : Type := mkRetryConfig {
  MaxAttempts : Z;
  InitialDelay : Z;
  MaxDelay : Z;
  Multiplier : float64;
  Jitter : float64
}.

Record Config : Type := mkConfig {
  ServiceEndpoint : string;
  IRODSFSExecutablePath : string;
  MountExecutablePath : string;
  UnmountExecutablePath : string;
  DataRootPath : string;
  PIDFile : string;
  RecoveryEncryptionKey : string;
  AllowedMountRootPaths : list string;
  AllowFuseAllowOther : bool;
  AutoRemount : bool;
  RestoreMountsOnRestart : bool;
  Retry : RetryConfig;
  MountTimeout : Z;
  UnmountTimeout : Z;
  DAVFSUnmountTimeout : Z;
  ReconcileInterval : Z;
  MaxConcurrentMounts : Z;
  ManagementServiceEndpoint : string;
  Debug : bool;
  LogRootPath : string;
  MountRootPath : string
}.

Definition NewDefaultConfig : Config := {|
  ServiceEndpoint := "";
  IRODSFSExecutablePath := IRODSFSExecutablePathDefault;
  MountExecutablePath := MountExecutablePathDefault;
  UnmountExecutablePath := UnmountExecutablePathDefault;
  DataRootPath := DataRootPathDefault;
  PIDFile := PIDFilePathDefault;
  RecoveryEncryptionKey := "";
  AllowedMountRootPaths := [AllowedMountRootPathDefault; KubeletMountRootPathDefault];
  AllowFuseAllowOther := false;
  AutoRemount := false;
  RestoreMountsOnRestart := false;
  Retry := {| MaxAttempts := RetryMaxAttemptsDefault;
              InitialDelay := RetryInitialDelayDefault;
              MaxDelay := RetryMaxDelayDefault;
              Multiplier := RetryMultiplierDefault;
              Jitter := RetryJitterDefault |};
  MountTimeout := MountTimeoutDefault;
  UnmountTimeout := UnmountTimeoutDefault;
  DAVFSUnmountTimeout := DAVFSUnmountTimeoutDefault;
  ReconcileInterval := ReconcileIntervalDefault;
  MaxConcurrentMounts := MaxConcurrentMountsDefault;
  ManagementServiceEndpoint := ManagementServiceEndpointDefault;
  Debug := false;
  LogRootPath := "";
  MountRootPath := PathJoin [DataRootPathDefault; MountRootPathDefault]
|}.

Definition set_IRODSFSExecutablePath (p : string) (c : Config) : Config :=
  let '(mkConfig x1 _ x3 x4 x5 x6 x7 x8 x9 x10 x11 x12 x13 x14 x15 x16 x17 x18 x19 x20 x21) := c in
  mkConfig x1 p x3 x4 x5 x6 x7 x8 x9 x10 x11 x12 x13 x14 x15 x16 x17 x18 x19 x20 x21.

(** ** Derived paths *)

Definition GetMountRootPath (config : Config) : string :=
  if negb (String.eqb (MountRootPath config) EmptyString) then MountRootPath config
  else PathJoin [DataRootPath config; MountRootPathDefault].

Definition GetDataRootPath (config : Config) : string := DataRootPath config.

Definition GetMountDatabasePath (config : Config) : string :=
  PathJoin [GetDataRootPath config; MountDatabasePathDefault].

Definition GetLogRootPath (config : Config) : string :=
  if negb (String.eqb (LogRootPath config) EmptyString) then LogRootPath config
  else DataRootPath config.

Definition GetLogFilePath (config : Config) : string :=
  PathJoin [GetLogRootPath config; "irodsfsd.log"].

Definition GetMountLogPath (config : Config) (mountID : string) : string :=
  PathJoin [GetLogRootPath config; "mounts"; mountID; "irodsfs.log"].

Definition GetServiceEndpoint (config : Config) : string :=
  if negb (String.eqb (ServiceEndpoint config) EmptyString) then ServiceEndpoint config
  else "unix://" +:+ DataRootPath config +:+ "/comm.sock".

Definition GetRecoveryEncryptionKey (config : Config) : result goerror string :=
  let encodedKey := TrimSpace (RecoveryEncryptionKey config) in
  if String.eqb encodedKey EmptyString then Err (ENew "recovery encryption key must be given")
  else match StdDecode encodedKey with
       | None => Err (EWrap (ENew "illegal base64 data") "recovery encryption key must be valid base64")
       | Some key =>
           if Z.of_nat (String.length key) =? RecoveryEncryptionKeySizeDefault then Ok key
           else Err (ENew ("recovery encryption key must decode to exactly " +:+
                           Itoa RecoveryEncryptionKeySizeDefault +:+ " bytes, got " +:+
                           Itoa (Z.of_nat (String.length key))))
       end.

(** ** Endpoints *)

Record URL : Type := mkURL {
  URL_Scheme : string;
  URL_HasUser : bool;
  URL_Host : string;
  URL_Path : string;
  URL_RawQuery : string;
  URL_Fragment : string
}.

Class UrlLib := {
  ParseRequestURI : string -> result goerror URL
}.

(** net.SplitHostPort: the host and the port of "host:port" or
    "[host]:port". *)
Definition SplitHostPort (hostport : string) : option (string * string) :=
  if HasPrefix hostport "[" then
    match Split "]"%char hostport with
    | [h; p] =>
        let host := drop_string 1 h in
        if HasPrefix p ":" && lacks ":"%char (drop_string 1 p) && lacks "["%char host && lacks "["%char p
        then Some (host, drop_string 1 p) else None
    | _ => None
    end
  else match Split ":"%char hostport with
       | [h; p] =>
           if lacks "["%char hostport && lacks "]"%char hostport then Some (h, p) else None
       | _ => None
       end.

(** strconv.ParseUint(s, 10, 16) *)
Definition ParseUint16 (s : string) : option Z :=
  if String.eqb s EmptyString then None
  else match digits_value 0 s with
       | Some z => if z <=? 65535 then Some z else None
       | None => None
       end.

Section Endpoint.
Context `{UrlLib}.

(** errors.Wrapf(err, ...) is nil for a nil [err]. *)
Definition parseRawURL (rawurl : string) : result goerror (string * string * string) :=
  if String.eqb (TrimSpace rawurl) EmptyString then Err (ENew "empty raw url")
  else
    let first := ParseRequestURI rawurl in
    let retry := match first with
                 | Err _ => true
                 | Ok u => String.eqb (URL_Host u) EmptyString && String.eqb (URL_Path u) EmptyString
                 end in
    if retry then
      match ParseRequestURI ("tcp://" +:+ rawurl) with
      | Err _ =>
          match first with
          | Err err => Err (EWrap err ("could not parse raw url " +:+ Quote rawurl))
          | Ok _ => Ok (EmptyString, EmptyString, EmptyString)
          end
      | Ok u => Ok ("tcp", URL_Host u, EmptyString)
      end
    else match first with
         | Err err => Err err
         | Ok u =>
             let scheme := ToLower (URL_Scheme u) in
             if String.eqb scheme "unix" then Ok ("unix", EmptyString, URL_Path u)
             else if String.eqb scheme "tcp" then Ok ("tcp", URL_Host u, EmptyString)
             else Ok (URL_Scheme u, URL_Host u, URL_Path u)
         end.

Definition ParseServiceEndpoint (endpoint : string) : result goerror (string * string) :=
  let? (scheme, host, p) := parseRawURL endpoint in
  let scheme := ToLower scheme in
  if String.eqb scheme "tcp" then Ok ("tcp", host)
  else if String.eqb scheme "unix" then Ok ("unix", PathJoin [sep; TrimPrefix p sep])
  else if String.eqb scheme EmptyString then
    if negb (String.eqb host EmptyString) then Ok ("tcp", host)
    else Err (ENew ("unknown host " +:+ Quote host))
  else Err (ENew ("unsupported protocol " +:+ Quote scheme)).

Definition ParseManagementServiceEndpoint (endpoint : string) : result goerror string :=
  let endpoint := TrimSpace endpoint in
  if String.eqb endpoint EmptyString then Ok EmptyString
  else
    let endpoint := if negb (Contains endpoint "://") then "http://" +:+ endpoint else endpoint in
    match ParseRequestURI endpoint with
    | Err err => Err (EWrap err ("could not parse management service endpoint " +:+ Quote endpoint))
    | Ok u =>
        if negb (String.eqb (ToLower (URL_Scheme u)) "http") then
          Err (ENew ("management service endpoint " +:+ Quote endpoint +:+ " must use http"))
        else if String.eqb (URL_Host u) EmptyString || URL_HasUser u
                || negb (String.eqb (URL_Path u) EmptyString)
                || negb (String.eqb (URL_RawQuery u) EmptyString)
                || negb (String.eqb (URL_Fragment u) EmptyString) then
          Err (ENew ("management service endpoint " +:+ Quote endpoint +:+
                     " must be an http host and port without a path, query, fragment, or credentials"))
        else match SplitHostPort (URL_Host u) with
             | None => Err (EWrap (ENew "address error") ("management service endpoint " +:+
                              Quote endpoint +:+ " must include a valid host and port"))
             | Some (_, port) =>
                 match ParseUint16 port with
                 | Some portNumber =>
                     if portNumber =? 0 then
                       Err (ENew ("management service endpoint " +:+ Quote endpoint +:+
                                  " must include a port from 1 through 65535"))
                     else Ok (URL_Host u)
                 | None =>
                     Err (ENew ("management service endpoint " +:+ Quote endpoint +:+
                                " must include a port from 1 through 65535"))
                 end
             end
    end.

(** ** Validation *)

Fixpoint first_relative (paths : list (string * string)) : option goerror :=
  match paths with
  | [] => None
  | (name, path) :: rest =>
      if negb (IsAbs path) then Some (ENew (name +:+ " " +:+ Quote path +:+ " must be an absolute path"))
      else first_relative rest
  end.

Fixpoint validate_roots (roots : list string) : option goerror :=
  match roots with
  | [] => None
  | root :: rest =>
      if negb (IsAbs root) then
        Some (ENew ("allowed mount root " +:+ Quote root +:+ " must be an absolute path"))
      else if String.eqb (Clean root) sep then
        Some (ENew "filesystem root cannot be an allowed mount root")
      else validate_roots rest
  end.

Fixpoint first_nonpositive (durations : list (string * Z)) : option goerror :=
  match durations with
  | [] => None
  | (name, d) :: rest =>
      if d <=? 0 then Some (ENew (name +:+ " must be positive")) else first_nonpositive rest
  end.

Definition error_of {A} (r : result goerror A) : option goerror :=
  match r with Ok _ => None | Err e => Some e end.

Definition Validate (config : Config) : option goerror :=
  err? error_of (ParseServiceEndpoint (GetServiceEndpoint config)) else
  err? (match ParseManagementServiceEndpoint (ManagementServiceEndpoint config) with
        | Ok _ => None
        | Err e => Some (EWrap e "invalid management_service_endpoint")
        end) else
  err? first_relative [("irodsfs_executable_path", IRODSFSExecutablePath config);
                       ("mount_executable_path", MountExecutablePath config);
                       ("unmount_executable_path", UnmountExecutablePath config);
                       ("data_root_path", DataRootPath config);
                       ("pid_file", PIDFile config);
                       ("log_root_path", GetLogRootPath config);
                       ("mount_root_path", GetMountRootPath config)] else
  if String.eqb (DataRootPath config) EmptyString then Some (ENew "data root dir must be given")
  else if String.eqb (PIDFile config) EmptyString then Some (ENew "pid file path must be given")
  else err? error_of (GetRecoveryEncryptionKey config) else
  if bool_decide (AllowedMountRootPaths config = []) then
    Some (ENew "allowed_mount_root_paths must contain at least one path")
  else err? validate_roots (AllowedMountRootPaths config) else
  if MaxAttempts (Retry config) <? 1 then Some (ENew "retry.max_attempts must be at least 1")
  else if (InitialDelay (Retry config) <=? 0) || (MaxDelay (Retry config) <=? 0) then
    Some (ENew "retry delays must be positive")
  else if MaxDelay (Retry config) <? InitialDelay (Retry config) then
    Some (ENew "retry.max_delay must be greater than or equal to retry.initial_delay")
  else if f64_ltb (Multiplier (Retry config)) f64_one then
    Some (ENew "retry.multiplier must be at least 1")
  else if f64_ltb (Jitter (Retry config)) f64_zero || f64_ltb f64_one (Jitter (Retry config)) then
    Some (ENew "retry.jitter must be between 0 and 1")
  else err? first_nonpositive [("mount_timeout", MountTimeout config);
                               ("unmount_timeout", UnmountTimeout config);
                               ("davfs_unmount_timeout", DAVFSUnmountTimeout config);
                               ("reconcile_interval", ReconcileInterval config)] else
  if MaxConcurrentMounts config <? 1 then Some (ENew "max_concurrent_mounts must be at least 1")
  else None.

End Endpoint.

(** ** Facts *)

Lemma validate_roots_spec roots :
  validate_roots roots = None -> Forall (fun r => IsAbs r = true /\ Clean r <> sep) roots.
Proof.
  induction roots as [|r roots IH]; simpl; [constructor|]. intros H.
  repeat case_go_in H; bools. constructor; [by split | by apply IH].
Qed.

Lemma first_relative_spec paths :
  first_relative paths = None -> Forall (fun p => IsAbs p = true) (map snd paths).
Proof.
  induction paths as [|[n p] paths IH]; simpl; [constructor|]. intros H.
  case_go_in H. bools. constructor; [done | by apply IH].
Qed.

Lemma first_nonpositive_spec durations :
  first_nonpositive durations = None -> Forall (fun d => 0 < d) (map snd durations).
Proof.
  induction durations as [|[n d] l IH]; simpl; [constructor|]. intros H.
  case_go_in H. bools. constructor; [done | by apply IH].
Qed.

Lemma error_of_None {A} (r : result goerror A) : error_of r = None -> exists a, r = Ok a.
Proof. destruct r; [eauto | discriminate]. Qed.

(** Peels the checks of a validator one by one off a hypothesis. *)
Ltac peel_checks H :=
  repeat match type of H with
  | (match ?x with Some _ => _ | None => _ end) = None =>
      let E := fresh "Hc" in destruct x eqn:E; [discriminate H|]
  | (if ?x then _ else _) = None =>
      let E := fresh "Hc" in destruct x eqn:E; [discriminate H|]
  end.

(** What [Validate] guarantees to the rest of the daemon. *)
Record valid_config (config : Config) : Prop := {
  vc_paths : Forall (fun p => IsAbs p = true)
    [IRODSFSExecutablePath config; MountExecutablePath config; UnmountExecutablePath config;
     DataRootPath config; PIDFile config; GetLogRootPath config; GetMountRootPath config];
  vc_roots : AllowedMountRootPaths config <> [] /\
    Forall (fun r => IsAbs r = true /\ Clean r <> sep) (AllowedMountRootPaths config);
  vc_key : exists key, GetRecoveryEncryptionKey config = Ok key;
  vc_attempts : 1 <= MaxAttempts (Retry config);
  vc_delays : 0 < InitialDelay (Retry config) <= MaxDelay (Retry config);
  vc_timeouts : 0 < MountTimeout config /\ 0 < UnmountTimeout config /\
    0 < DAVFSUnmountTimeout config /\ 0 < ReconcileInterval config;
  vc_capacity : 1 <= MaxConcurrentMounts config
}.

Lemma Validate_valid `{UrlLib} config : Validate config = None -> valid_config config.
Proof.
  unfold Validate. intros Hv. peel_checks Hv. bools.
  match goal with H : bool_decide _ = false |- _ => apply bool_decide_eq_false in H end.
  repeat match goal with
  | H : first_relative _ = None |- _ => apply first_relative_spec in H
  | H : first_nonpositive _ = None |- _ => apply first_nonpositive_spec in H
  | H : validate_roots _ = None |- _ => apply validate_roots_spec in H
  | H : error_of (GetRecoveryEncryptionKey _) = None |- _ => apply error_of_None in H
  | H : Forall (fun d => 0 < d) (map _ _) |- _ => cbn [map snd] in H; rewrite !Forall_cons in H
  end.
  destruct_and?. constructor; try assumption; try lia; repeat split; assumption.
Qed.
