(* ===== verification/Duration.v ===== *)
(** * Durations (commons/duration.go)

    The scalar type of the timeouts and delays of the configuration, with
    the functions of Go's package time that print and read durations.  A
    time.Duration is an int64 number of nanoseconds, kept as a [Z].

    encoding/json decodes into an [interface{}] value, [json_value]; the two
    directions of that package are operations of the class [JsonLib]. *)

From S2P Require Import Prelude GoStrings GoErrors GoDigits GoFloat Config.

Definition Microsecond : Z := 1000.
Definition Hour : Z := 60 * Minute.

(** ** time.Duration.String *)

(** The micro sign, U+00B5, and the Greek letter mu, U+03BC. *)
Definition micro_sign : string := String "194"%char (str1 "181"%char).
Definition greek_mu : string := String "206"%char (str1 "188"%char).

Definition digit_char (d : Z) : ascii := ascii_of_N (48 + Z.to_N d).

(** The loop of fmtFrac, from the last digit to the first one: [print] says
    whether a digit other than zero was seen. *)
Fixpoint fmtFrac_loop (prec : nat) (print : bool) (buf : string) (v : Z) : bool * string * Z :=
  match prec with
  | O => (print, buf, v)
  | S prec' =>
      let digit := v mod 10 in
      let print := print || negb (digit =? 0) in
      fmtFrac_loop prec' print (if print then String (digit_char digit) buf else buf) (v / 10)
  end.

Definition fmtFrac (buf : string) (v : Z) (prec : nat) : string * Z :=
  let '(print, buf, v) := fmtFrac_loop prec false buf v in
  (if print then String "." buf else buf, v).

Definition fmtInt (buf : string) (v : Z) : string := Itoa v +:+ buf.

(** The text of [u] nanoseconds without a sign. *)
Definition format_magnitude (u : Z) : string :=
  if u <? Second then
    if u =? 0 then "0s"
    else
      let '(prec, unit) := if u <? Microsecond then (0%nat, "ns")
                           else if u <? Millisecond then (3%nat, micro_sign +:+ "s") else (6%nat, "ms") in
      let '(buf, u) := fmtFrac unit u prec in
      fmtInt buf u
  else
    let '(buf, u) := fmtFrac "s" u 9 in
    let buf := fmtInt buf (u mod 60) in
    let u := u / 60 in
    if 0 <? u then
      let buf := fmtInt (String "m" buf) (u mod 60) in
      let u := u / 60 in
      if 0 <? u then fmtInt (String "h" buf) u else buf
    else buf.

Definition Duration_String (d : Z) : string :=
  if d <? 0 then String "-" (format_magnitude (wrap_u64 (- d))) else format_magnitude d.

(** ** time.ParseDuration *)

Definition max_magnitude : Z := two63.   (* 1<<63 *)

Fixpoint leadingInt (x : Z) (s : string) : option (Z * string) :=
  match s with
  | String c s' =>
      if negb (is_digit c) then Some (x, s)
      else if max_magnitude / 10 <? x then None
      else let x := x * 10 + (code c - 48) in
           if max_magnitude <? x then None else leadingInt x s'
  | EmptyString => Some (x, s)
  end.

Fixpoint leadingFraction (x : Z) (scale : float64) (overflow : bool) (s : string) : Z * float64 * string :=
  match s with
  | String c s' =>
      if negb (is_digit c) then (x, scale, s)
      else if overflow then leadingFraction x scale overflow s'
      else if (max_magnitude - 1) / 10 <? x then leadingFraction x scale true s'
      else let y := x * 10 + (code c - 48) in
           if max_magnitude <? y then leadingFraction x scale true s'
           else leadingFraction y (f64_mul scale (f64_of_Z 10)) overflow s'
  | EmptyString => (x, scale, s)
  end.

Definition number_char (c : ascii) : bool := Ascii.eqb c "." || is_digit c.

(** The unit and what follows it. *)
Fixpoint leadingUnit (s : string) : string * string :=
  match s with
  | String c s' =>
      if number_char c then (EmptyString, s)
      else let '(u, rest) := leadingUnit s' in (String c u, rest)
  | EmptyString => (EmptyString, EmptyString)
  end.

Definition unitMap : list (string * Z) :=
  [("ns", 1); ("us", Microsecond); (micro_sign +:+ "s", Microsecond); (greek_mu +:+ "s", Microsecond);
   ("ms", Millisecond); ("s", Second); ("m", Minute); ("h", Hour)].

Definition unit_value (u : string) : option Z := snd <$> List.find (fun kv => String.eqb (fst kv) u) unitMap.

(** uint64(float64(f) * (float64(unit) / scale)): at most 3.6e12 here. *)
Definition fraction_value (f unit : Z) (scale : float64) : Z :=
  wrap_u64 (f64_to_i64 (f64_mul (f64_of_Z f) (SFdiv 53 1024 (f64_of_Z unit) scale))).

Definition invalid_duration (orig : string) : goerror := ENew ("time: invalid duration " +:+ Quote orig).

(** One number with its unit; the result is its value and the rest. *)
Definition parse_component (orig s : string) : result goerror (Z * string) :=
  if negb (match s with String c _ => number_char c | EmptyString => false end) then Err (invalid_duration orig)
  else
    match leadingInt 0 s with
    | None => Err (invalid_duration orig)
    | Some (v, rem) =>
        let pre := negb (String.length s =? String.length rem)%nat in
        let '(f, scale, post, rem) :=
          match rem with
          | String "." rem' =>
              let '(f, scale, rem'') := leadingFraction 0 f64_one false rem' in
              (f, scale, negb (String.length rem' =? String.length rem'')%nat, rem'')
          | _ => (0, f64_one, false, rem)
          end in
        if negb pre && negb post then Err (invalid_duration orig)
        else
          let '(u, rest) := leadingUnit rem in
          if String.eqb u EmptyString then Err (ENew ("time: missing unit in duration " +:+ Quote orig))
          else
            match unit_value u with
            | None => Err (ENew ("time: unknown unit " +:+ Quote u +:+ " in duration " +:+ Quote orig))
            | Some unit =>
                if max_magnitude / unit <? v then Err (invalid_duration orig)
                else
                  let v := v * unit in
                  let v := if 0 <? f then wrap_u64 (v + fraction_value f unit scale) else v in
                  if (0 <? f) && (max_magnitude <? v) then Err (invalid_duration orig) else Ok (v, rest)
            end
    end.

(** The loop over the components, each of which takes at least one byte. *)
Fixpoint parse_components (fuel : nat) (orig : string) (d : Z) (s : string) : result goerror Z :=
  match fuel, s with
  | _, EmptyString => Ok d
  | O, _ => Err (invalid_duration orig)
  | S fuel, _ =>
      match parse_component orig s with
      | Err err => Err err
      | Ok (v, rest) =>
          let d := wrap_u64 (d + v) in
          if max_magnitude <? d then Err (invalid_duration orig) else parse_components fuel orig d rest
      end
  end.

Definition ParseDuration (orig : string) : result goerror Z :=
  let '(neg, s) := match orig with
                   | String "-" s => (true, s)
                   | String "+" s => (false, s)
                   | _ => (false, orig)
                   end in
  if String.eqb s "0" then Ok 0
  else if String.eqb s EmptyString then Err (invalid_duration orig)
  else
    let? d := parse_components (String.length s) orig 0 s in
    if neg : bool then Ok (wrap_i64 (- d))
    else if max_magnitude - 1 <? d then Err (invalid_duration orig) else Ok d.

(** ** commons.Duration *)

(** What encoding/json decodes into an empty interface. *)
Inductive json_value : Type :=
| JNull
| JBool (b : bool)
| JNumber (f : float64)
| JString (s : string)
| JArray
| JObject.

Class JsonLib : Type := mkJsonLib {
  json_Marshal_string : string -> result goerror string;
  json_Unmarshal_value : string -> result goerror json_value
}.

(** A call that returns, or that panics with an index out of range. *)
Inductive returned (A : Type) : Type :=
| Returns (a : A)
| IndexOutOfRange.
Arguments Returns {A} a.
Arguments IndexOutOfRange {A}.

Section Duration.
Context `{JsonLib}.

Definition MarshalJSON (d : Z) : result goerror string := json_Marshal_string (Duration_String d).

Definition parse_failure (text : string) : string := "failed to parse " +:+ Quote text +:+ " to time.Duration".

(** The result is the new value of the duration. *)
Definition UnmarshalJSON (b : string) : result goerror Z :=
  match json_Unmarshal_value b with
  | Err err => Err (EWrap err (parse_failure b))
  | Ok (JNumber value) => Ok (f64_to_i64 value)
  | Ok (JString value) =>
      match ParseDuration value with
      | Err err => Err (EWrap err (parse_failure b))
      | Ok tmp => Ok tmp
      end
  | Ok _ => Err (ENew (parse_failure b))
  end.

Fixpoint last_char (s : string) : option ascii :=
  match s with
  | EmptyString => None
  | String c EmptyString => Some c
  | String _ s' => last_char s'
  end.

(** [unmarshal] is what the YAML library answers when asked for a string. *)
Definition UnmarshalYAML (unmarshal : result goerror string) : returned (result goerror Z) :=
  match unmarshal with
  | Err err => Returns (Err (EWrap err (parse_failure EmptyString)))
  | Ok tm =>
      match last_char tm with
      | None => IndexOutOfRange
      | Some lastChar =>
          let tm := if is_digit lastChar then tm +:+ "ns" else tm in
          Returns (match ParseDuration tm with
                   | Err err => Err (EWrap err (parse_failure tm))
                   | Ok td => Ok td
                   end)
      end
  end.

End Duration.

Example durations_print :
  map Duration_String [0; 5; -1500; 2500000; 30 * Second; 90 * Second; - two63; two63 - 1] =
  ["0s"; "5ns"; "-1.5" +:+ micro_sign +:+ "s"; "2.5ms"; "30s"; "1m30s"; "-2562047h47m16.854775808s"; "2562047h47m16.854775807s"].
Proof. vm_compute. reflexivity. Qed.

Example durations_parse :
  map ParseDuration ["1h15m30.918s"; "-.5s"; "+5us"; "9223372036854775807ns"; "-9223372036854775808ns"; "0"; "0.000000000000000000001ns"] =
  map Ok [4530918000000; -500000000; 5000; two63 - 1; - two63; 0; 0].
Proof. vm_compute. reflexivity. Qed.
