(* ===== verification/DurationFacts.v ===== *)
(** * Durations are read back as they were written

    What time.Duration.String prints, time.ParseDuration reads, for every
    int64: also the smallest one, and with the fractions that go through
    float64 arithmetic. *)

From S2P Require Import Prelude GoStrings GoErrors GoDigits GoFloat GoFloatFacts Config Duration.

(** ** Digits *)

Definition ends_number (s : string) : Prop := match s with EmptyString => True | String c _ => is_digit c = false end.

Lemma digits_value_ge acc s v : 0 <= acc -> digits_value acc s = Some v -> acc <= v.
Proof.
  revert acc. induction s as [|c s IH]; intros acc Ha; simpl; [by intros [= <-]|].
  destruct (is_digit c) eqn:Ec; [|done]. unfold is_digit, in_range, code in *. bools. simpl in *.
  intros Hv%IH; unfold code in *; lia.
Qed.

Lemma digit_code c : is_digit c = true -> 0 <= code c - 48 <= 9.
Proof. unfold is_digit, in_range, code. intros Hd. bools. simpl in *. lia. Qed.

Lemma leadingInt_digits x ds v rest :
  0 <= x -> digits_value x ds = Some v -> v <= two63 -> ends_number rest -> leadingInt x (ds +:+ rest) = Some (v, rest).
Proof.
  revert x. induction ds as [|c ds IH]; intros x Hx Hv Hle Hend; simpl in *.
  - injection Hv as <-. destruct rest as [|c rest]; [done|]. simpl in *. by rewrite Hend.
  - destruct (is_digit c) eqn:Ec; [|done]. pose proof (digit_code c Ec) as Hc. cbn [negb].
    pose proof (digits_value_ge (x * 10 + (code c - 48)) ds v ltac:(lia) Hv) as Hge. unfold max_magnitude, two63 in *.
    replace (9223372036854775808 / 10 <? x) with false by (symmetry; apply Z.ltb_ge; apply Z.div_le_lower_bound; lia).
    replace (9223372036854775808 <? x * 10 + (code c - 48)) with false by (symmetry; apply Z.ltb_ge; lia).
    apply IH; [lia|done..].
Qed.

(** 10^k as the reader of fractions computes it *)
Fixpoint scaled (k : nat) (scale : float64) : float64 :=
  match k with O => scale | S k' => scaled k' (f64_mul scale (f64_of_Z 10)) end.

Lemma leadingFraction_digits x scale ds v rest :
  0 <= x -> digits_value x ds = Some v -> v < 10 ^ 9 -> ends_number rest ->
  leadingFraction x scale false (ds +:+ rest) = (v, scaled (String.length ds) scale, rest).
Proof.
  revert x scale. induction ds as [|c ds IH]; intros x scale Hx Hv Hlt Hend; simpl in *.
  - injection Hv as <-. destruct rest as [|c rest]; [done|]. simpl in *. by rewrite Hend.
  - destruct (is_digit c) eqn:Ec; [|done]. pose proof (digit_code c Ec) as Hc. cbn [negb].
    pose proof (digits_value_ge (x * 10 + (code c - 48)) ds v ltac:(lia) Hv) as Hge. unfold max_magnitude, two63 in *.
    change ((9223372036854775808 - 1) / 10) with 922337203685477580.
    replace (922337203685477580 <? x) with false by (symmetry; apply Z.ltb_ge; lia).
    replace (9223372036854775808 <? x * 10 + (code c - 48)) with false by (symmetry; apply Z.ltb_ge; lia).
    apply IH; [lia|done..].
Qed.

(** ** Fractions *)

(** [text] is empty for zero, and otherwise a point and digits without
    trailing zeros, for [fv] units of the precision. *)
Definition fraction_text (prec : nat) (text : string) (fv : Z) : Prop :=
  (text = EmptyString /\ fv = 0) \/
  exists ds f, text = String "." ds /\ digits_value 0 ds = Some f /\ 0 < f /\
    (1 <= String.length ds <= prec)%nat /\ fv = f * 10 ^ (Z.of_nat prec - Z.of_nat (String.length ds)).

Lemma digit_char_digit d : 0 <= d < 10 -> is_digit (digit_char d) = true /\ code (digit_char d) - 48 = d.
Proof.
  intros Hd. assert (d ∈ [0; 1; 2; 3; 4; 5; 6; 7; 8; 9]) as Hin by (repeat rewrite elem_of_cons; lia).
  repeat (apply elem_of_cons in Hin as [->|Hin]; [done|]). by apply not_elem_of_nil in Hin.
Qed.

(** Leading digits weigh the more, the more digits follow. *)
Lemma digits_value_lead acc s v : digits_value 0 s = Some v -> digits_value acc s = Some (acc * 10 ^ Z.of_nat (String.length s) + v).
Proof.
  enough (forall a b v, digits_value a s = Some v -> digits_value (a + b) s = Some (b * 10 ^ Z.of_nat (String.length s) + v)) as H
    by (intros Hv; specialize (H 0 acc v Hv); by rewrite Z.add_0_l in H).
  clear. induction s as [|c s IH]; intros a b v; cbn [digits_value String.length]; [intros [= <-]; f_equal; simpl; lia|].
  destruct (is_digit c); [|done]. intros Hv. replace ((a + b) * 10 + (code c - 48)) with (a * 10 + (code c - 48) + b * 10) by lia.
  rewrite (IH _ _ _ Hv). f_equal.
  rewrite Nat2Z.inj_succ, Z.pow_succ_r by lia. lia.
Qed.

(** What the loop has written after [i] digits. *)
Definition written (i : nat) (u : Z) (print : bool) (buf tail : string) : Prop :=
  if print
  then exists ds f, buf = ds +:+ tail /\ digits_value 0 ds = Some f /\ 0 < f /\ (1 <= String.length ds <= i)%nat /\
         u mod 10 ^ Z.of_nat i = f * 10 ^ (Z.of_nat i - Z.of_nat (String.length ds))
  else buf = tail /\ u mod 10 ^ Z.of_nat i = 0.

Lemma mod_next i u : 0 <= u -> u mod 10 ^ Z.of_nat (S i) = u mod 10 ^ Z.of_nat i + (u / 10 ^ Z.of_nat i) mod 10 * 10 ^ Z.of_nat i.
Proof.
  intros Hu. rewrite Nat2Z.inj_succ, Z.pow_succ_r by lia. assert (0 < 10 ^ Z.of_nat i) as Hp by (apply Z.pow_pos_nonneg; lia).
  rewrite (Z.mul_comm 10), Z.rem_mul_r by lia. lia.
Qed.

Lemma written_step i u print buf tail :
  0 <= u -> written i u print buf tail ->
  let digit := (u / 10 ^ Z.of_nat i) mod 10 in
  let print' := print || negb (digit =? 0) in
  written (S i) u print' (if print' then String (digit_char digit) buf else buf) tail.
Proof.
  intros Hu Hw digit print'. assert (0 <= digit < 10) as Hd by (apply Z.mod_pos_bound; lia).
  destruct (digit_char_digit digit Hd) as [Hdig Hval]. unfold written in *.
  destruct print; cbn [orb] in print'; subst print'.
  - destruct Hw as (ds & f & -> & Hv & Hf & Hlen & Hmod). exists (String (digit_char digit) ds), (digit * 10 ^ Z.of_nat (String.length ds) + f).
    pose proof (Z.pow_pos_nonneg 10 (Z.of_nat (String.length ds)) ltac:(lia) ltac:(lia)).
    split_and!; [done| |nia|simpl; lia|simpl; lia|].
    + simpl. rewrite Hdig, Hval. by rewrite (digits_value_lead _ _ _ Hv).
    + rewrite mod_next, Hmod by done. fold digit. simpl String.length.
      replace (Z.of_nat (S i) - Z.of_nat (S (String.length ds))) with (Z.of_nat i - Z.of_nat (String.length ds)) by lia.
      rewrite Z.mul_add_distr_r, <- Z.mul_assoc, <- Z.pow_add_r by lia.
      replace (Z.of_nat (String.length ds) + (Z.of_nat i - Z.of_nat (String.length ds))) with (Z.of_nat i) by lia. lia.
  - destruct Hw as [-> Hmod]. destruct (digit =? 0) eqn:E; cbn [negb]; bools.
    + split; [done|]. rewrite mod_next, Hmod by done. fold digit. rewrite E. lia.
    + exists (str1 (digit_char digit)), digit. split_and!; [done| |lia|simpl; lia|simpl; lia|].
      * simpl. by rewrite Hdig, Hval.
      * rewrite mod_next, Hmod by done. fold digit. simpl String.length.
        replace (Z.of_nat (S i) - Z.of_nat 1) with (Z.of_nat i) by lia. lia.
Qed.

Lemma fmtFrac_loop_spec n i u print buf tail :
  0 <= u -> written i u print buf tail ->
  let '(print', buf', v) := fmtFrac_loop n print buf (u / 10 ^ Z.of_nat i) in
  written (i + n) u print' buf' tail /\ v = u / 10 ^ Z.of_nat (i + n).
Proof.
  revert i print buf. induction n as [|n IH]; intros i print buf Hu Hw; simpl.
  - rewrite Nat.add_0_r. done.
  - replace (u / 10 ^ Z.of_nat i / 10) with (u / 10 ^ Z.of_nat (S i)).
    + specialize (IH (S i) _ _ Hu (written_step i u print buf tail Hu Hw)). cbv zeta in IH.
      destruct (fmtFrac_loop n _ _ _) as [[p b] v]. by rewrite Nat.add_succ_r.
    + rewrite Z.div_div by (try apply Z.pow_nonzero; lia). f_equal. rewrite Nat2Z.inj_succ, Z.pow_succ_r by lia. lia.
Qed.

Lemma fmtFrac_spec buf u prec :
  0 <= u -> exists text, fmtFrac buf u prec = (text +:+ buf, u / 10 ^ Z.of_nat prec) /\ fraction_text prec text (u mod 10 ^ Z.of_nat prec).
Proof.
  intros Hu. assert (written 0 u false buf buf) as H0 by (split; [done|]; apply Z.mod_1_r).
  pose proof (fmtFrac_loop_spec prec 0 u false buf buf Hu H0) as Hs. simpl Z.of_nat in Hs. change (10 ^ 0) with 1 in Hs.
  rewrite Z.div_1_r in Hs. unfold fmtFrac. destruct (fmtFrac_loop prec false buf u) as [[print b] v]. destruct Hs as [Hw ->].
  destruct print.
  - destruct Hw as (ds & f & -> & Hv & Hf & Hlen & Hmod). exists (String "." ds). split; [done|]. right. by exists ds, f.
  - destruct Hw as [-> Hmod]. exists EmptyString. split; [done|]. by left.
Qed.

(** Positive finite numbers with the same bits. *)
Definition same_float (x y : float64) : bool :=
  match x, y with
  | S754_finite false m e, S754_finite false m' e' => Pos.eqb m m' && Z.eqb e e'
  | _, _ => false
  end.

Lemma same_float_eq x y : same_float x y = true -> x = y.
Proof.
  unfold same_float. destruct x as [| | |[] m e]; try done. destruct y as [| | |[] m' e']; try done.
  intros [->%Pos.eqb_eq ->%Z.eqb_eq]%andb_true_iff. done.
Qed.

(** The product in float64 is exact for what a printed fraction needs. *)
Lemma fraction_value_exact prec k f :
  prec ∈ [3; 6; 9]%nat -> (1 <= k <= prec)%nat -> 0 < f -> f * 10 ^ (Z.of_nat prec - Z.of_nat k) < 10 ^ 9 ->
  fraction_value f (10 ^ Z.of_nat prec) (scaled k f64_one) = f * 10 ^ (Z.of_nat prec - Z.of_nat k).
Proof.
  intros Hp Hk Hf Hlt.
  assert (SFdiv 53 1024 (f64_of_Z (10 ^ Z.of_nat prec)) (scaled k f64_one) = f64_of_Z (10 ^ (Z.of_nat prec - Z.of_nat k))) as Hdiv.
  { assert (forallb (fun p => forallb (fun k => same_float (SFdiv 53 1024 (f64_of_Z (10 ^ Z.of_nat p)) (scaled k f64_one))
       (f64_of_Z (10 ^ (Z.of_nat p - Z.of_nat k)))) (seq 1 p)) [3; 6; 9]%nat = true) as Hall by (vm_compute; reflexivity).
    rewrite forallb_forall in Hall. specialize (Hall prec (proj1 (list_elem_of_In _ _) Hp)). rewrite forallb_forall in Hall.
    apply same_float_eq, Hall, in_seq. lia. }
  set (j := Z.of_nat prec - Z.of_nat k) in *. assert (0 <= j) as Hj by lia.
  pose proof (Z.pow_pos_nonneg 10 j ltac:(lia) Hj) as Hpow.
  assert (represents (f * 10 ^ j) (f64_mul (f64_of_Z f) (f64_of_Z (10 ^ j)))) as Hr
    by (apply f64_mul_exact; [apply f64_of_Z_exact; nia..|nia]).
  unfold fraction_value. rewrite Hdiv, (f64_to_i64_exact _ _ Hr) by (unfold two63; nia). apply wrap_u64_id. unfold two64. nia.
Qed.

(** ** Components *)

Definition unit_text (u : string) : Prop := u <> EmptyString /\ string_forallb (fun c => negb (number_char c)) u = true.
Definition starts_number (s : string) : Prop := match s with EmptyString => True | String c _ => number_char c = true end.

Lemma leadingUnit_spec u rest :
  string_forallb (fun c => negb (number_char c)) u = true -> starts_number rest -> leadingUnit (u +:+ rest) = (u, rest).
Proof.
  intros Hu Hr. induction u as [|c u IH]; simpl in *.
  - destruct rest as [|c rest]; [done|]. simpl in *. by rewrite Hr.
  - bools. by rewrite H, IH.
Qed.

Lemma unit_ends_number u rest : unit_text u -> ends_number (u +:+ rest).
Proof.
  intros [Hne Hu]. destruct u as [|c u]; [done|]. simpl in *. bools. unfold number_char in H. by bools.
Qed.

Lemma unit_not_point u : unit_text u -> match u with String "." _ => False | _ => True end.
Proof. intros [_ Hu]. destruct u as [|c u]; [done|]. simpl in Hu. bools. destruct c as [[] [] [] [] [] [] [] []]; done. Qed.

Lemma starts_number_Itoa v s : 0 <= v -> starts_number (Itoa v +:+ s).
Proof.
  intros Hv. pose proof (Itoa_digits v Hv) as Hd. pose proof (Itoa_nonempty v Hv) as Hne.
  destruct (Itoa v) as [|c t]; [done|]. unfold all_digits in Hd. simpl in *. bools. unfold number_char. by rewrite H, orb_true_r.
Qed.

Lemma parse_component_spec orig v text fv u unit rest prec :
  0 <= v -> fraction_text prec text fv -> unit_value u = Some unit -> unit_text u -> starts_number rest ->
  (text <> EmptyString -> unit = 10 ^ Z.of_nat prec /\ prec ∈ [3; 6; 9]%nat /\ fv < 10 ^ 9) -> 0 < unit ->
  v * unit + fv <= two63 -> 0 <= fv ->
  parse_component orig (Itoa v +:+ text +:+ u +:+ rest) = Ok (v * unit + fv, rest).
Proof.
  intros Hv Htext Hunit Hu Hrest Hfrac Hpos Hle Hfv. unfold parse_component.
  pose proof (starts_number_Itoa v (text +:+ u +:+ rest) Hv) as Hstart.
  destruct (Itoa v +:+ text +:+ u +:+ rest) as [|c s] eqn:Es;
    [by apply string_app_nil_inv in Es as [Es _]; apply Itoa_nonempty in Es|]. simpl in Hstart. rewrite Hstart. cbn [negb].
  rewrite <- Es. pose proof (unit_ends_number u rest Hu) as Hend. pose proof (digits_value_Itoa v Hv) as Hdv.
  assert (leadingInt 0 (Itoa v +:+ text +:+ u +:+ rest) = Some (v, text +:+ u +:+ rest)) as ->.
  { apply leadingInt_digits; [done|done|nia|]. destruct Htext as [[-> _]|(ds & f & -> & _)]; done. }
  assert ((String.length (Itoa v +:+ text +:+ u +:+ rest) =? String.length (text +:+ u +:+ rest))%nat = false) as ->.
  { apply Nat.eqb_neq. rewrite !string_length_app. pose proof (Itoa_nonempty v Hv). destruct (Itoa v); [done|simpl; lia]. }
  cbn [negb andb].
  assert (max_magnitude / unit <? v = false) as Hsmall.
  { apply Z.ltb_ge. unfold max_magnitude. apply Z.div_le_lower_bound; nia. }
  destruct Htext as [[-> ->]|(ds & f & -> & Hds & Hf & Hlen & ->)].
  - change (EmptyString +:+ u +:+ rest) with (u +:+ rest).
    assert (match u +:+ rest with
            | String "." rem' => let '(f, scale, rem'') := leadingFraction 0 f64_one false rem' in
                (f, scale, negb (String.length rem' =? String.length rem'')%nat, rem'')
            | _ => (0, f64_one, false, u +:+ rest) end = (0, f64_one, false, u +:+ rest)) as ->.
    { pose proof (unit_not_point u Hu) as Hp. destruct Hu as [Hne _]. destruct u as [|c' u']; [done|]. simpl.
      destruct c' as [[] [] [] [] [] [] [] []]; try done. }
    cbn [andb negb]. rewrite leadingUnit_spec by (done || apply Hu). destruct Hu as [Hne _].
    rewrite (proj2 (String.eqb_neq u EmptyString) Hne), Hunit, Hsmall. cbn [Z.ltb andb]. by rewrite Z.add_0_r.
  - cbn [String.append]. destruct (Hfrac ltac:(done)) as (-> & Hprec & Hlt). set (k := String.length ds) in *.
    pose proof (Z.pow_pos_nonneg 10 (Z.of_nat prec - Z.of_nat k) ltac:(lia) ltac:(lia)) as Hpow.
    rewrite (leadingFraction_digits 0 f64_one ds f (u +:+ rest)) by (done || nia). fold k.
    cbn [andb negb]. rewrite leadingUnit_spec by (done || apply Hu). destruct Hu as [Hne _].
    rewrite (proj2 (String.eqb_neq u EmptyString) Hne), Hunit, Hsmall. rewrite (proj2 (Z.ltb_lt 0 f) Hf).
    rewrite fraction_value_exact by done. rewrite wrap_u64_id by (unfold two63, two64 in *; nia). cbn [andb].
    by rewrite (proj2 (Z.ltb_ge max_magnitude _)) by (unfold max_magnitude; lia).
Qed.

(** [s] reads as [v] wherever the loop stands. *)
Definition parses (orig s : string) (v : Z) : Prop :=
  forall d fuel, (String.length s <= fuel)%nat -> 0 <= d -> d + v <= two63 -> parse_components fuel orig d s = Ok (d + v).

Lemma parses_nil orig : parses orig EmptyString 0.
Proof. intros d fuel _ _ _. rewrite Z.add_0_r. by destruct fuel. Qed.

Lemma parses_component orig s v rest v' :
  parse_component orig s = Ok (v, rest) -> (String.length rest < String.length s)%nat -> 0 <= v -> 0 <= v' ->
  parses orig rest v' -> parses orig s (v + v').
Proof.
  intros Hc Hlen Hv Hv' Hp d fuel Hf Hd Hle. destruct fuel as [|fuel]; [lia|]. destruct s as [|c s]; [simpl in Hlen; lia|].
  cbn [parse_components]. rewrite Hc, wrap_u64_id by (unfold two63, two64 in *; lia).
  rewrite (proj2 (Z.ltb_ge max_magnitude _)) by (unfold max_magnitude; lia).
  rewrite Hp by lia. f_equal. lia.
Qed.

Lemma parses_number orig v text fv u unit rest prec v' :
  0 <= v -> fraction_text prec text fv -> unit_value u = Some unit -> unit_text u -> starts_number rest ->
  (text <> EmptyString -> unit = 10 ^ Z.of_nat prec /\ prec ∈ [3; 6; 9]%nat /\ fv < 10 ^ 9) -> 0 < unit ->
  v * unit + fv <= two63 -> 0 <= fv -> 0 <= v' -> parses orig rest v' ->
  parses orig (Itoa v +:+ text +:+ u +:+ rest) (v * unit + fv + v').
Proof.
  intros Hv Htext Hunit Hu Hrest Hfrac Hpos Hle Hfv Hv' Hp. apply (parses_component _ _ _ rest); [|rewrite !string_length_app| |done..].
  - by eapply parse_component_spec.
  - pose proof (Itoa_nonempty v Hv). destruct (Itoa v); [done|simpl; lia].
  - nia.
Qed.

(** A whole number of a unit. *)
Lemma parses_whole orig v u unit rest v' :
  0 <= v -> unit_value u = Some unit -> unit_text u -> starts_number rest -> 0 < unit -> v * unit <= two63 -> 0 <= v' ->
  parses orig rest v' -> parses orig (Itoa v +:+ u +:+ rest) (v * unit + v').
Proof.
  intros Hv Hunit Hu Hrest Hpos Hle Hv' Hp. replace (v * unit + v') with (v * unit + 0 + v') by lia.
  change (u +:+ rest) with (EmptyString +:+ u +:+ rest). apply (parses_number _ _ _ _ _ _ _ 0); try done; [by left|lia].
Qed.

(** A number with a fraction, at the end of the text. *)
Lemma parses_fraction orig v text fv u prec :
  0 <= v -> fraction_text prec text fv -> unit_value u = Some (10 ^ Z.of_nat prec) -> unit_text u -> prec ∈ [3; 6; 9]%nat ->
  0 <= fv < 10 ^ Z.of_nat prec -> v * 10 ^ Z.of_nat prec + fv <= two63 ->
  parses orig (Itoa v +:+ text +:+ u) (v * 10 ^ Z.of_nat prec + fv).
Proof.
  intros Hv Htext Hunit Hu Hprec Hfv Hle. rewrite <- (string_app_nil_r u), <- (Z.add_0_r (_ + fv)).
  apply (parses_number _ _ _ _ _ _ _ prec); try done; [|apply Z.pow_pos_nonneg; lia|lia|apply parses_nil].
  intros _. split_and!; [done|done|]. enough (10 ^ Z.of_nat prec <= 10 ^ 9) by lia. apply Z.pow_le_mono_r; [lia|].
  repeat (apply elem_of_cons in Hprec as [->|Hprec]; [lia|]). by apply not_elem_of_nil in Hprec.
Qed.

Ltac unit_ok := split; [discriminate|reflexivity].
Ltac in_list := rewrite ?elem_of_cons; tauto.

Lemma fraction_parts u n : 0 < n -> u = u / n * n + u mod n /\ 0 <= u mod n < n.
Proof. intros Hn. split; [pose proof (Z.div_mod u n); lia|by apply Z.mod_pos_bound]. Qed.

Lemma below_second_parses orig u : 0 < u < Second -> parses orig (format_magnitude u) u.
Proof.
  intros Hu. unfold format_magnitude. rewrite (proj2 (Z.ltb_lt _ _)) by lia. rewrite (proj2 (Z.eqb_neq _ _)) by lia.
  unfold Second in *. destruct (u <? Microsecond) eqn:E1; [|destruct (u <? Millisecond) eqn:E2]; bools.
  - unfold fmtFrac, fmtInt. simpl fmtFrac_loop. rewrite <- (string_app_nil_r "ns"). replace u with (u * 1 + 0) at 2 by lia.
    apply parses_whole; [lia|done|unit_ok|done|lia|unfold two63; lia|lia|apply parses_nil].
  - destruct (fmtFrac_spec (micro_sign +:+ "s") u 3 ltac:(lia)) as (text & -> & Ht). unfold fmtInt.
    destruct (fraction_parts u (10 ^ Z.of_nat 3) ltac:(done)) as [Hsum Hmod]. rewrite Hsum at 2.
    apply parses_fraction; [apply Z.div_pos; lia|done|done|unit_ok|in_list|done|unfold two63; lia].
  - destruct (fmtFrac_spec "ms" u 6 ltac:(lia)) as (text & -> & Ht). unfold fmtInt.
    destruct (fraction_parts u (10 ^ Z.of_nat 6) ltac:(done)) as [Hsum Hmod]. rewrite Hsum at 2.
    apply parses_fraction; [apply Z.div_pos; lia|done|done|unit_ok|in_list|done|unfold two63; lia].
Qed.

Lemma seconds_parses orig u : Second <= u <= two63 -> parses orig (format_magnitude u) u.
Proof.
  intros Hu. unfold format_magnitude. rewrite (proj2 (Z.ltb_ge _ _)) by lia. unfold Second in *.
  destruct (fmtFrac_spec "s" u 9 ltac:(lia)) as (text & -> & Ht). unfold fmtInt.
  destruct (fraction_parts u (10 ^ Z.of_nat 9) ltac:(done)) as [Hsum Hmod]. change (10 ^ Z.of_nat 9) with 1000000000 in *.
  set (secs := u / 1000000000) in *. set (frac := u mod 1000000000) in *. assert (0 <= secs) by (apply Z.div_pos; lia).
  destruct (fraction_parts secs 60 ltac:(lia)) as [Hsec Hsm]. set (mins := secs / 60) in *.
  assert (0 <= mins) by (apply Z.div_pos; lia). destruct (fraction_parts mins 60 ltac:(lia)) as [Hmin Hmm]. set (hours := mins / 60) in *.
  assert (0 <= hours) by (apply Z.div_pos; lia). set (s := secs mod 60) in *. set (m := mins mod 60) in *.
  assert (parses orig (Itoa s +:+ text +:+ "s") (s * 1000000000 + frac)) as Hs.
  { apply (parses_fraction _ _ _ _ _ 9); [lia|done|done|unit_ok|in_list|done|]. change (10 ^ Z.of_nat 9) with 1000000000. lia. }
  destruct (0 <? mins) eqn:E1; bools; [|replace u with (s * 1000000000 + frac) by lia; exact Hs].
  assert (parses orig (Itoa m +:+ "m" +:+ Itoa s +:+ text +:+ "s") (m * Minute + (s * 1000000000 + frac))) as Hm.
  { apply parses_whole; [lia|done|unit_ok|apply starts_number_Itoa; lia|done|unfold Minute; lia|lia|done]. }
  destruct (0 <? hours) eqn:E2; bools.
  - replace u with (hours * Hour + (m * Minute + (s * 1000000000 + frac))) by (unfold Hour, Minute; lia).
    apply (parses_whole _ _ "h"); [lia|done|unit_ok|apply starts_number_Itoa; lia|done|unfold Hour, Minute; lia|unfold Minute; lia|done].
  - replace u with (m * Minute + (s * 1000000000 + frac)) by (unfold Minute; lia). exact Hm.
Qed.

Lemma format_parses orig u : 0 <= u <= two63 -> parses orig (format_magnitude u) u.
Proof.
  intros Hu. destruct (decide (u = 0)) as [->|Hne].
  { apply (parses_whole orig 0 "s" Second EmptyString 0); [done|done|unit_ok|done..|apply parses_nil]. }
  destruct (decide (u < Second)); [apply below_second_parses|apply seconds_parses]; lia.
Qed.

(** The text begins with a digit and ends with a unit. *)
Lemma format_shape u : 0 <= u -> exists v t, 0 <= v /\ format_magnitude u = Itoa v +:+ t +:+ "s".
Proof.
  intros Hu. unfold format_magnitude, fmtInt. unfold Second, Microsecond, Millisecond.
  destruct (u <? 1000000000); [destruct (u =? 0); [by exists 0, EmptyString|destruct (u <? 1000); [|destruct (u <? 1000000)]]|].
  - destruct (fmtFrac_spec "ns" u 0 Hu) as (text & -> & _). exists (u / 10 ^ Z.of_nat 0), (text +:+ "n").
    split; [apply Z.div_pos; lia|]. by rewrite <- string_app_assoc.
  - destruct (fmtFrac_spec (micro_sign +:+ "s") u 3 Hu) as (text & -> & _). exists (u / 10 ^ Z.of_nat 3), (text +:+ micro_sign).
    split; [apply Z.div_pos; lia|]. by rewrite <- string_app_assoc.
  - destruct (fmtFrac_spec "ms" u 6 Hu) as (text & -> & _). exists (u / 10 ^ Z.of_nat 6), (text +:+ "m").
    split; [apply Z.div_pos; lia|]. by rewrite <- string_app_assoc.
  - destruct (fmtFrac_spec "s" u 9 Hu) as (text & -> & _). set (secs := u / 10 ^ Z.of_nat 9).
    assert (0 <= secs) by (apply Z.div_pos; lia). assert (0 <= secs / 60) by (apply Z.div_pos; lia).
    destruct (0 <? secs / 60); [destruct (0 <? secs / 60 / 60)|].
    + exists (secs / 60 / 60), ("h" +:+ Itoa (secs / 60 mod 60) +:+ "m" +:+ Itoa (secs mod 60) +:+ text).
      split; [apply Z.div_pos; lia|]. cbn [String.append]. by rewrite <- ?string_app_assoc; cbn [String.append];
      rewrite <- ?string_app_assoc; cbn [String.append].
    + exists (secs / 60 mod 60), ("m" +:+ Itoa (secs mod 60) +:+ text).
      split; [apply Z.mod_pos_bound; lia|]. cbn [String.append].
      by rewrite <- ?string_app_assoc; cbn [String.append]; rewrite <- ?string_app_assoc; cbn [String.append].
    + exists (secs mod 60), text. split; [apply Z.mod_pos_bound; lia|done].
Qed.

(** A text that begins with a digit has no sign. *)
Lemma ParseDuration_digits v t :
  0 <= v -> t <> EmptyString ->
  ParseDuration (Itoa v +:+ t) =
    let? d := parse_components (String.length (Itoa v +:+ t)) (Itoa v +:+ t) 0 (Itoa v +:+ t) in
    if max_magnitude - 1 <? d then Err (invalid_duration (Itoa v +:+ t)) else Ok d.
Proof.
  intros Hv Ht. pose proof (Itoa_digits v Hv) as Hd. pose proof (Itoa_nonempty v Hv) as Hne. destruct (Itoa v) as [|c s] eqn:Es; [done|].
  unfold all_digits in Hd. cbn [string_forallb] in Hd. bools.
  assert (forall A (a b d : A), match c with "-"%char => a | "+"%char => b | _ => d end = d) as Hsign
    by (intros A a b d; destruct c as [[] [] [] [] [] [] [] []]; done).
  unfold ParseDuration. cbn [String.append] in *. rewrite Hsign.
  assert (String.eqb (String c (s +:+ t)) "0" = false) as ->; [|done].
  apply String.eqb_neq. intros [= -> [_ ?]%string_app_nil_inv]. done.
Qed.

Lemma ParseDuration_unsigned v t u :
  0 <= v -> t <> EmptyString -> 0 <= u < two63 -> parses (Itoa v +:+ t) (Itoa v +:+ t) u -> ParseDuration (Itoa v +:+ t) = Ok u.
Proof.
  intros Hv Ht Hu Hp. rewrite ParseDuration_digits by done. rewrite (Hp 0 _ (le_n _)) by lia. cbn [result_bind].
  rewrite Z.add_0_l. by rewrite (proj2 (Z.ltb_ge _ _)) by (unfold max_magnitude; lia).
Qed.

Lemma ParseDuration_negative v t u :
  0 <= v -> t <> EmptyString -> 0 < u <= two63 -> parses (String "-" (Itoa v +:+ t)) (Itoa v +:+ t) u ->
  ParseDuration (String "-" (Itoa v +:+ t)) = Ok (- u).
Proof.
  intros Hv Ht Hu Hp. specialize (Hp 0 _ (le_n _) ltac:(lia) ltac:(lia)). rewrite Z.add_0_l in Hp. unfold ParseDuration.
  assert (String.eqb (Itoa v +:+ t) "0" = false) as ->.
  { apply String.eqb_neq. intros E. pose proof (Itoa_nonempty v Hv). destruct (Itoa v) as [|c s]; [done|].
    injection E as _ [_ ?]%string_app_nil_inv. done. }
  assert (String.eqb (Itoa v +:+ t) EmptyString = false) as ->.
  { apply String.eqb_neq. intros [E _]%string_app_nil_inv. by apply (Itoa_nonempty v Hv). }
  rewrite Hp. cbn [result_bind]. by rewrite wrap_i64_id by (unfold two63 in *; lia).
Qed.

Lemma ParseDuration_String d : - two63 <= d < two63 -> ParseDuration (Duration_String d) = Ok d.
Proof.
  intros Hd. unfold Duration_String. destruct (d <? 0) eqn:E; bools.
  - rewrite wrap_u64_id by (unfold two63, two64 in *; lia). destruct (format_shape (- d) ltac:(lia)) as (v & t & Hv & Hs).
    pose proof (format_parses (String "-" (format_magnitude (- d))) (- d) ltac:(lia)) as Hp. rewrite Hs in Hp |- *.
    rewrite (ParseDuration_negative v (t +:+ "s") (- d)); [f_equal; lia|done| |lia|done].
    intros [_ ?]%string_app_nil_inv. done.
  - destruct (format_shape d ltac:(lia)) as (v & t & Hv & Hs).
    pose proof (format_parses (format_magnitude d) d ltac:(lia)) as Hp. rewrite Hs in Hp |- *.
    apply ParseDuration_unsigned; [done| |lia|done]. intros [_ ?]%string_app_nil_inv. done.
Qed.

(** ** Reading configuration values *)

Lemma last_char_app s t : t <> EmptyString -> last_char (s +:+ t) = last_char t.
Proof.
  intros Ht. induction s as [|c s IH]; [done|]. cbn [String.append last_char].
  destruct (s +:+ t) eqn:E; [|done]. apply string_app_nil_inv in E as [_ ?]. done.
Qed.

Lemma last_char_digits s : all_digits s = true -> s <> EmptyString -> exists c, last_char s = Some c /\ is_digit c = true.
Proof.
  unfold all_digits. induction s as [|c s IH]; [done|]. cbn [string_forallb]. intros Hd _. bools.
  destruct s as [|c' s]; [by exists c|]. destruct IH as (x & Hx & Hdx); [done..|]. exists x. done.
Qed.

Lemma Itoa_negative d : d < 0 -> Itoa d = String "-" (Itoa (- d)).
Proof. by destruct d. Qed.

Lemma UnmarshalYAML_unit d : - two63 <= d < two63 -> UnmarshalYAML (Ok (Duration_String d)) = Returns (Ok d).
Proof.
  intros Hd. unfold UnmarshalYAML. pose proof (ParseDuration_String d Hd) as Hp.
  assert (last_char (Duration_String d) = Some "s"%char) as Hl; [|rewrite Hl; change (is_digit "s") with false; cbv iota; by rewrite Hp].
  unfold Duration_String. destruct (d <? 0) eqn:E; bools.
  - rewrite wrap_u64_id by (unfold two63, two64 in *; lia). destruct (format_shape (- d) ltac:(lia)) as (v & t & _ & ->).
    change (String "-" (Itoa v +:+ t +:+ "s")) with (String "-" (Itoa v) +:+ t +:+ "s"). by rewrite string_app_assoc, last_char_app.
  - destruct (format_shape d ltac:(lia)) as (v & t & _ & ->). by rewrite string_app_assoc, last_char_app.
Qed.

(** A bare number counts nanoseconds. *)
Lemma UnmarshalYAML_bare d : - two63 <= d < two63 -> UnmarshalYAML (Ok (Itoa d)) = Returns (Ok d).
Proof.
  intros Hd. assert (forall orig u, 0 <= u <= two63 -> parses orig (Itoa u +:+ "ns") u) as Hns.
  { intros orig u Hu. rewrite <- (string_app_nil_r "ns"). replace u with (u * 1 + 0) at 2 by lia.
    apply parses_whole; [lia|done|unit_ok|done|lia|lia|lia|apply parses_nil]. }
  unfold UnmarshalYAML. destruct (decide (d < 0)) as [Hneg|Hpos].
  - rewrite Itoa_negative by done. destruct (last_char_digits (Itoa (- d))) as (c & Hc & Hdc);
      [apply Itoa_digits; lia|apply Itoa_nonempty; lia|].
    assert (last_char (String "-" (Itoa (- d))) = Some c) as ->.
    { change (String "-" (Itoa (- d))) with (str1 "-" +:+ Itoa (- d)). rewrite last_char_app; [done|]. apply Itoa_nonempty. lia. }
    rewrite Hdc. cbn [String.append]. rewrite (ParseDuration_negative (- d) "ns" (- d)); [do 2 f_equal; lia|lia|done|lia|].
    apply Hns. lia.
  - destruct (last_char_digits (Itoa d)) as (c & Hc & Hdc); [apply Itoa_digits; lia|apply Itoa_nonempty; lia|].
    rewrite Hc, Hdc. rewrite (ParseDuration_unsigned d "ns" d); [done|lia|done|lia|]. apply Hns. lia.
Qed.

(** Text of characters of one or two bytes in UTF-8. *)
Fixpoint short_utf8 (s : string) : bool :=
  match s with
  | EmptyString => true
  | String c s' =>
      if code c <? 128 then short_utf8 s'
      else match s' with
           | String c' s'' => (194 <=? code c) && (code c <=? 223) && (128 <=? code c') && (code c' <=? 191) && short_utf8 s''
           | EmptyString => false
           end
  end.

Lemma short_utf8_ascii s t : string_forallb (fun c => code c <? 128) s = true -> short_utf8 (s +:+ t) = short_utf8 t.
Proof. induction s as [|c s IH]; intros Hs; simpl in *; [done|]. bools. rewrite (proj2 (Z.ltb_lt _ _)) by done. by apply IH. Qed.

Lemma digits_ascii s : all_digits s = true -> string_forallb (fun c => code c <? 128) s = true.
Proof.
  unfold all_digits. induction s as [|c s IH]; intros Hs; simpl in *; [done|]. bools.
  unfold is_digit, in_range in H. bools. rewrite IH by done. change (code "9") with 57 in H1. by rewrite (proj2 (Z.ltb_lt _ _)) by lia.
Qed.

Lemma digits_value_all acc s v : digits_value acc s = Some v -> all_digits s = true.
Proof.
  unfold all_digits. revert acc. induction s as [|c s IH]; intros acc; simpl; [done|]. destruct (is_digit c); [|done]. apply IH.
Qed.

Lemma fraction_ascii prec text fv : fraction_text prec text fv -> string_forallb (fun c => code c <? 128) text = true.
Proof.
  intros [[-> _]|(ds & f & -> & Hds & _)]; [done|]. simpl. apply digits_ascii. by eapply digits_value_all.
Qed.

Lemma format_utf8 u : 0 <= u -> short_utf8 (format_magnitude u) = true.
Proof.
  intros Hu. assert (forall v t, 0 <= v -> short_utf8 t = true -> short_utf8 (Itoa v +:+ t) = true) as Hi.
  { intros v t Hv Ht. by rewrite short_utf8_ascii by by apply digits_ascii, Itoa_digits. }
  unfold format_magnitude, fmtInt. destruct (u <? Second).
  - destruct (u =? 0); [done|]. destruct (u <? Microsecond); [|destruct (u <? Millisecond)].
    + destruct (fmtFrac_spec "ns" u 0 Hu) as (text & -> & Ht%fraction_ascii). apply Hi; [apply Z.div_pos; lia|]. by rewrite short_utf8_ascii.
    + destruct (fmtFrac_spec (micro_sign +:+ "s") u 3 Hu) as (text & -> & Ht%fraction_ascii). apply Hi; [apply Z.div_pos; lia|]. by rewrite short_utf8_ascii.
    + destruct (fmtFrac_spec "ms" u 6 Hu) as (text & -> & Ht%fraction_ascii). apply Hi; [apply Z.div_pos; lia|]. by rewrite short_utf8_ascii.
  - destruct (fmtFrac_spec "s" u 9 Hu) as (text & -> & Ht%fraction_ascii). set (secs := u / 10 ^ Z.of_nat 9).
    assert (0 <= secs) by (apply Z.div_pos; lia). assert (0 <= secs / 60) by (apply Z.div_pos; lia).
    assert (short_utf8 (Itoa (secs mod 60) +:+ text +:+ "s") = true) as Hs
      by (apply Hi; [apply Z.mod_pos_bound; lia|]; by rewrite short_utf8_ascii).
    destruct (0 <? secs / 60); [|done].
    assert (short_utf8 (Itoa (secs / 60 mod 60) +:+ String "m" (Itoa (secs mod 60) +:+ text +:+ "s")) = true) as Hm
      by (apply Hi; [apply Z.mod_pos_bound; lia|done]).
    destruct (0 <? secs / 60 / 60); [|done]. apply Hi; [apply Z.div_pos; lia|done].
Qed.

(** encoding/json: a string that is encoded is decoded to itself. *)
Class JsonLaws `{JsonLib} : Prop := {
  json_string_reads_back : forall s b, short_utf8 s = true -> json_Marshal_string s = Ok b -> json_Unmarshal_value b = Ok (JString s)
}.

Section ReadBack.
Context `{JsonLaws}.

(** C23: a duration is read as it was written.  For every int64 number of
    nanoseconds, ParseDuration and UnmarshalYAML give back what String
    printed, UnmarshalJSON what MarshalJSON wrote, and UnmarshalYAML takes a
    number without a unit as nanoseconds. *)
Theorem durations_read_back d :
  - two63 <= d < two63 ->
  ParseDuration (Duration_String d) = Ok d /\
  UnmarshalYAML (Ok (Duration_String d)) = Returns (Ok d) /\
  UnmarshalYAML (Ok (Itoa d)) = Returns (Ok d) /\
  forall b, MarshalJSON d = Ok b -> UnmarshalJSON b = Ok d.
Proof.
  intros Hd. split_and!; [by apply ParseDuration_String|by apply UnmarshalYAML_unit|by apply UnmarshalYAML_bare|].
  intros b Hb. unfold UnmarshalJSON. rewrite (json_string_reads_back (Duration_String d) b); [by rewrite ParseDuration_String| |done].
  unfold Duration_String. destruct (d <? 0) eqn:E; bools.
  - rewrite wrap_u64_id by (unfold two63, two64 in *; lia). cbn [short_utf8]. apply format_utf8. lia.
  - apply format_utf8. lia.
Qed.

End ReadBack.

(** ** Numbers with a unit *)

Lemma unit_value_text u unit : unit_value u = Some unit -> unit_text u /\ 0 < unit /\ exists c, last_char u = Some c /\ is_digit c = false.
Proof.
  unfold unit_value. destruct (List.find _ unitMap) as [[u' k]|] eqn:E; [|done]. intros [= <-].
  apply find_some in E as [Hin Hu]. apply String.eqb_eq in Hu. simpl in Hu. subst u'.
  simpl in Hin. destruct_or!; simplify_eq; (split; [unit_ok|split; [done|by eexists]]).
Qed.

Lemma leadingInt_overflow x ds v rest :
  0 <= x <= two63 -> digits_value x ds = Some v -> two63 < v -> leadingInt x (ds +:+ rest) = None.
Proof.
  revert x. induction ds as [|c ds IH]; intros x Hx Hv Hlt; simpl in *; [injection Hv as <-; lia|].
  destruct (is_digit c) eqn:Ec; [|done]. pose proof (digit_code c Ec) as Hc. cbn [negb].
  destruct (max_magnitude / 10 <? x); [done|]. destruct (max_magnitude <? _) eqn:E; [done|]. bools. unfold max_magnitude in *.
  apply IH; [lia|done..].
Qed.

Lemma parse_component_overflow orig v u unit :
  0 <= v -> unit_value u = Some unit -> two63 < v * unit -> exists err, parse_component orig (Itoa v +:+ u) = Err err.
Proof.
  intros Hv Hunit Hlt. destruct (unit_value_text u unit Hunit) as (Hu & Hpos & _). unfold parse_component.
  pose proof (starts_number_Itoa v u Hv) as Hstart. pose proof (digits_value_Itoa v Hv) as Hdv. pose proof (Itoa_nonempty v Hv) as Hne.
  destruct (Itoa v +:+ u) as [|c s] eqn:Es; [by apply string_app_nil_inv in Es as [Es _]|]. simpl in Hstart. rewrite Hstart. cbn [negb].
  rewrite <- Es. destruct (decide (two63 < v)) as [Hbig|Hle].
  { rewrite (leadingInt_overflow 0 (Itoa v) v u) by (done || unfold two63; lia). eauto. }
  rewrite (leadingInt_digits 0 (Itoa v) v u) by (done || lia || (rewrite <- (string_app_nil_r u); by apply unit_ends_number)).
  assert ((String.length (Itoa v +:+ u) =? String.length u)%nat = false) as ->.
  { apply Nat.eqb_neq. rewrite string_length_app. destruct (Itoa v); [done|simpl; lia]. }
  cbn [negb andb].
  assert (match u with
          | String "." rem' => let '(f, scale, rem'') := leadingFraction 0 f64_one false rem' in
              (f, scale, negb (String.length rem' =? String.length rem'')%nat, rem'')
          | _ => (0, f64_one, false, u) end = (0, f64_one, false, u)) as ->.
  { pose proof (unit_not_point u Hu) as Hp. destruct u as [|[[] [] [] [] [] [] [] []] u]; done. }
  pose proof (leadingUnit_spec u EmptyString (proj2 Hu) I) as Hlu. rewrite string_app_nil_r in Hlu. rewrite Hlu. cbn [andb negb].
  rewrite (proj2 (String.eqb_neq u EmptyString) (proj1 Hu)), Hunit.
  rewrite (proj2 (Z.ltb_lt _ _)); [eauto|]. unfold max_magnitude. apply Z.div_lt_upper_bound; lia.
Qed.

Lemma whole_parses orig v u unit : 0 <= v -> unit_value u = Some unit -> v * unit <= two63 -> parses orig (Itoa v +:+ u) (v * unit).
Proof.
  intros Hv Hunit Hle. destruct (unit_value_text u unit Hunit) as (Hu & Hpos & _).
  rewrite <- (string_app_nil_r u), <- (Z.add_0_r (v * unit)). apply parses_whole; try done; apply parses_nil.
Qed.

(** A number with a unit is that many units, unless this does not fit. *)
Lemma ParseDuration_with_unit v u unit :
  0 <= v -> unit_value u = Some unit ->
  if v * unit <? two63 then ParseDuration (Itoa v +:+ u) = Ok (v * unit) else exists err, ParseDuration (Itoa v +:+ u) = Err err.
Proof.
  intros Hv Hunit. destruct (unit_value_text u unit Hunit) as ([Hne _] & Hpos & _). destruct (v * unit <? two63) eqn:E; bools.
  - apply ParseDuration_unsigned; [done..|nia|]. apply whole_parses; [done..|lia].
  - rewrite ParseDuration_digits by done. destruct (decide (v * unit = two63)) as [Eq|Hneq].
    + rewrite (whole_parses _ v u unit Hv Hunit ltac:(lia) 0 _ (le_n _)) by lia. cbn [result_bind].
      rewrite Z.add_0_l, Eq. eexists. reflexivity.
    + destruct (parse_component_overflow (Itoa v +:+ u) v u unit Hv Hunit ltac:(lia)) as [err Herr].
      pose proof (Itoa_nonempty v Hv). destruct (Itoa v +:+ u) as [|c s] eqn:Es; [by apply string_app_nil_inv in Es as [? _]|].
      exists err. cbn [String.length parse_components]. by rewrite Herr.
Qed.

Definition yaml_reads (text : string) (r : option Z) : Prop :=
  match r with
  | Some d => UnmarshalYAML (Ok text) = Returns (Ok d)
  | None => exists err, UnmarshalYAML (Ok text) = Returns (Err err)
  end.

Definition json_reads `{JsonLib} (v : json_value) (r : option Z) : Prop :=
  forall b, json_Unmarshal_value b = Ok v ->
  match r with
  | Some d => UnmarshalJSON b = Ok d
  | None => exists err, UnmarshalJSON b = Err err
  end.

(** A number without a unit. *)
Lemma yaml_reads_bare n : 0 <= n -> yaml_reads (Itoa n) (if n <? two63 then Some n else None).
Proof.
  intros Hn. pose proof (ParseDuration_with_unit n "ns" 1 Hn eq_refl) as Hp. rewrite Z.mul_1_r in Hp.
  unfold yaml_reads, UnmarshalYAML. destruct (last_char_digits (Itoa n)) as (c & -> & ->); [by apply Itoa_digits|by apply Itoa_nonempty|].
  destruct (n <? two63); [by rewrite Hp|]. destruct Hp as [err ->]. eauto.
Qed.

(** C24: a duration of a configuration means what it says.  A number with
    one of the units of Go (ns, us, µs, ms, s, m, h) is that many units, in
    YAML and as a JSON string, and so with a minus sign; a number of units
    that does not fit 63 bits is refused, never wrapped.  A number without a
    unit in YAML and a JSON number below 2^53 are nanoseconds, other JSON values are refused, and
    decoding YAML panics exactly on an empty text. *)
Theorem durations_mean_their_units `{JsonLib} n u unit :
  0 <= n -> unit_value u = Some unit ->
  let text := Itoa n +:+ u in
  let meaning := if n * unit <? two63 then Some (n * unit) else None in
  yaml_reads text meaning /\ json_reads (JString text) meaning /\
  (0 < n * unit <= two63 -> yaml_reads (String "-" text) (Some (- (n * unit)))) /\
  yaml_reads (Itoa n) (if n <? two63 then Some n else None) /\
  (n < 2 ^ 53 -> json_reads (JNumber (f64_of_Z n)) (Some n)) /\
  (forall v, v ∈ [JNull; JBool true; JBool false; JArray; JObject] -> json_reads v None) /\
  (forall unmarshal, UnmarshalYAML unmarshal = IndexOutOfRange <-> unmarshal = Ok EmptyString).
Proof.
  intros Hn Hunit text meaning. destruct (unit_value_text u unit Hunit) as ([Hne Hu] & Hpos & c & Hlast & Hdigit).
  pose proof (ParseDuration_with_unit n u unit Hn Hunit) as Hp. fold text in Hp.
  assert (last_char text = Some c) as Hc by (by unfold text; rewrite last_char_app).
  split_and!.
  - unfold yaml_reads, UnmarshalYAML, meaning. rewrite Hc, Hdigit. destruct (_ <? two63); [by rewrite Hp|]. destruct Hp as [err ->]. eauto.
  - intros b Hb. unfold UnmarshalJSON, meaning. rewrite Hb. destruct (_ <? two63); [by rewrite Hp|]. destruct Hp as [err ->]. eauto.
  - intros Hr. unfold yaml_reads, UnmarshalYAML. assert (last_char (String "-" text) = Some c) as ->.
    { change (String "-" text) with (str1 "-" +:+ text). rewrite last_char_app; [done|]. intros E. by rewrite E in Hc. }
    rewrite Hdigit. unfold text. rewrite (ParseDuration_negative n u (n * unit)); [done..|]. apply whole_parses; [done..|lia].
  - by apply yaml_reads_bare.
  - intros Hlt b Hb. unfold UnmarshalJSON. rewrite Hb. destruct (decide (n = 0)) as [->|Hnz]; [done|].
    rewrite (f64_to_i64_exact n); [done|apply f64_of_Z_exact; lia|unfold two63; lia].
  - intros v Hv b Hb. unfold UnmarshalJSON. rewrite Hb. rewrite !elem_of_cons in Hv.
    destruct Hv as [->|[->|[->|[->|[->|Hv]]]]]; [eauto..|]. by apply elem_of_nil in Hv.
  - intros unmarshal. unfold UnmarshalYAML. destruct unmarshal as [tm|err]; [|done]. destruct tm as [|c' s]; [done|].
    assert (is_Some (last_char (String c' s))) as [x ->]; [|done]. clear. revert c'. induction s as [|d s IH]; intros c'; [by exists c'|]. apply IH.
Qed.

(** ** A concrete encoder *)

Definition plain_json_char (c : ascii) : bool := (32 <=? code c) && negb (Ascii.eqb c ch_quote) && negb (Ascii.eqb c ch_backslash).

Fixpoint until_quote (s : string) : option string :=
  match s with
  | EmptyString => None
  | String c EmptyString => if Ascii.eqb c ch_quote then Some EmptyString else None
  | String c s' => if plain_json_char c then String c <$> until_quote s' else None
  end.

(** Strings without characters to escape, and nothing else. *)
#[export] Instance plain_json : JsonLib := {|
  json_Marshal_string := fun s => if string_forallb plain_json_char s then Ok (String ch_quote (s +:+ str1 ch_quote))
                                  else Err (ENew "unsupported");
  json_Unmarshal_value := fun b =>
    match b with
    | String c s => if Ascii.eqb c ch_quote
                    then match until_quote s with Some t => Ok (JString t) | None => Err (ENew "unsupported") end
                    else Err (ENew "unsupported")
    | EmptyString => Err (ENew "unexpected end of JSON input")
    end
|}.

#[export] Instance plain_json_laws : JsonLaws.
Proof.
  split. intros s b _. simpl. destruct (string_forallb plain_json_char s) eqn:Es; [|done]. intros [= <-]. simpl.
  enough (until_quote (s +:+ str1 ch_quote) = Some s) as -> by done.
  induction s as [|c s IH]; [done|]. simpl in Es. bools. cbn [String.append until_quote]. rewrite H, IH by done. by destruct s.
Qed.

Lemma durations_read_back_witness :
  MarshalJSON (-1500) = Ok (String ch_quote ("-1.5" +:+ micro_sign +:+ "s" +:+ str1 ch_quote)) /\
  UnmarshalJSON (String ch_quote ("-1.5" +:+ micro_sign +:+ "s" +:+ str1 ch_quote)) = Ok (-1500).
Proof.
  split; [vm_compute; reflexivity|]. destruct (durations_read_back (-1500) ltac:(unfold two63; lia)) as (_ & _ & _ & Hj).
  apply Hj. vm_compute. reflexivity.
Defined.

Lemma durations_mean_their_units_witness :
  yaml_reads "90m" (Some (90 * Minute)) /\ yaml_reads "90" (Some 90) /\ yaml_reads "-90m" (Some (- (90 * Minute))) /\
  UnmarshalJSON (String ch_quote ("90m" +:+ str1 ch_quote)) = Ok (90 * Minute).
Proof.
  destruct (durations_mean_their_units 90 "m" Minute ltac:(lia) eq_refl) as (H1 & H2 & H3 & H4 & _).
  exact (conj H1 (conj H4 (conj (H3 ltac:(split; [reflexivity|discriminate])) (H2 (String ch_quote ("90m" +:+ str1 ch_quote)) eq_refl)))).
Defined.
