(* ===== verification/GoFlag.v ===== *)
(** * The flag package of Go

    What the example programs use of it: string, duration and boolean flags
    of the command line, as flag.Parse reads them.  A set of flags maps
    names to current values; the kind of a value never changes. *)

From S2P Require Import Prelude GoStrings GoErrors GoPath Duration DurationFacts.

Inductive flag_value : Type :=
| FlagString (s : string)
| FlagDuration (d : Z)
| FlagBool (b : bool).

Notation FlagSet := (gmap string flag_value) (only parsing).

Definition ParseBool (s : string) : option bool :=
  if bool_decide (s ∈ ["1"; "t"; "T"; "TRUE"; "true"; "True"]) then Some true
  else if bool_decide (s ∈ ["0"; "f"; "F"; "FALSE"; "false"; "False"]) then Some false
  else None.

(** Value.Set: the new value, [None] being a parse error. *)
Definition flag_Set (current : flag_value) (text : string) : option flag_value :=
  match current with
  | FlagString _ => Some (FlagString text)
  | FlagDuration _ => match ParseDuration text with Ok d => Some (FlagDuration d) | Err _ => None end
  | FlagBool _ => FlagBool <$> ParseBool text
  end.

(** ** The command line *)

(** An argument: not a flag, the end of the flags, something malformed, or a
    flag with the value behind its equals sign. *)
Inductive argument : Type :=
| NotFlag
| Terminator
| BadSyntax
| IsFlag (name : string) (value : option string).

(** The name up to an equals sign that is not its first byte. *)
Fixpoint cut_value (s : string) : string * option string :=
  match s with
  | EmptyString => (EmptyString, None)
  | String c rest =>
      if Ascii.eqb c "=" then (EmptyString, Some rest)
      else let '(name, value) := cut_value rest in (String c name, value)
  end.

Definition flag_name (name : string) : argument :=
  match name with
  | EmptyString => BadSyntax
  | String c rest =>
      if Ascii.eqb c "-" || Ascii.eqb c "=" then BadSyntax
      else let '(n, value) := cut_value rest in IsFlag (String c n) value
  end.

Definition read_argument (s : string) : argument :=
  match s with
  | String c (String d rest) =>
      if negb (Ascii.eqb c "-") then NotFlag
      else if Ascii.eqb d "-" then
        if String.eqb rest EmptyString then Terminator else flag_name rest
      else flag_name (String d rest)
  | _ => NotFlag
  end.

(** How flag.Parse ends: with the flags and the remaining arguments, or by
    leaving the process, with code 0 after -help and 2 otherwise. *)
Inductive parsed : Type :=
| Parsed (flags : FlagSet) (args : list string)
| FlagHelp
| FlagError (msg : string).

Definition invalid_boolean (value name : string) : string :=
  "invalid boolean value " +:+ Quote value +:+ " for -" +:+ name +:+ ": parse error".
Definition invalid_value (value name : string) : string :=
  "invalid value " +:+ Quote value +:+ " for flag -" +:+ name +:+ ": parse error".

Fixpoint Parse (flags : FlagSet) (args : list string) : parsed :=
  match args with
  | [] => Parsed flags []
  | s :: rest =>
      match read_argument s with
      | NotFlag => Parsed flags args
      | Terminator => Parsed flags rest
      | BadSyntax => FlagError ("bad flag syntax: " +:+ s)
      | IsFlag name value =>
          match flags !! name with
          | None =>
              if String.eqb name "help" || String.eqb name "h" then FlagHelp
              else FlagError ("flag provided but not defined: -" +:+ name)
          | Some (FlagBool b) =>
              let text := default "true" value in
              match flag_Set (FlagBool b) text with
              | Some v => Parse (<[name := v]> flags) rest
              | None => FlagError (invalid_boolean text name)
              end
          | Some current =>
              match value with
              | Some text =>
                  match flag_Set current text with
                  | Some v => Parse (<[name := v]> flags) rest
                  | None => FlagError (invalid_value text name)
                  end
              | None =>
                  match rest with
                  | [] => FlagError ("flag needs an argument: -" +:+ name)
                  | text :: rest =>
                      match flag_Set current text with
                      | Some v => Parse (<[name := v]> flags) rest
                      | None => FlagError (invalid_value text name)
                      end
                  end
              end
          end
      end
  end.

(** flag.String, flag.Duration and flag.Bool *)
Definition get_string (flags : FlagSet) (name : string) : string :=
  match flags !! name with Some (FlagString s) => s | _ => EmptyString end.
Definition get_duration (flags : FlagSet) (name : string) : Z :=
  match flags !! name with Some (FlagDuration d) => d | _ => 0 end.
Definition get_bool (flags : FlagSet) (name : string) : bool :=
  match flags !! name with Some (FlagBool b) => b | _ => false end.

(** ** Command lines read back *)

Definition flag_text (v : flag_value) : string :=
  match v with
  | FlagString s => s
  | FlagDuration d => Duration_String d
  | FlagBool b => if b then "true" else "false"
  end.

(** -name=value *)
Definition flag_arg (name : string) (v : flag_value) : string := "-" +:+ name +:+ "=" +:+ flag_text v.

(** The values a flag of a kind may have. *)
Definition same_kind (v v' : flag_value) : bool :=
  match v, v' with
  | FlagString _, FlagString _ | FlagBool _, FlagBool _ => true
  | FlagDuration _, FlagDuration d => (- two63 <=? d) && (d <? two63)
  | _, _ => false
  end.

Lemma flag_Set_text v v' : same_kind v v' = true -> flag_Set v (flag_text v') = Some v'.
Proof.
  destruct v, v'; simpl; try done; intros Hk; [|by destruct b0]. bools.
  by rewrite ParseDuration_String.
Qed.

Definition plain_name (name : string) : bool :=
  match name with
  | EmptyString => false
  | String c rest => negb (Ascii.eqb c "-") && lacks "=" name
  end.

Lemma cut_value_app name s : lacks "=" name = true -> cut_value (name +:+ String "=" s) = (name, Some s).
Proof.
  unfold lacks. induction name as [|c name IH]; simpl; intros Hl; [done|]. bools.
  rewrite (proj2 (Ascii.eqb_neq _ _)) by done. by rewrite IH.
Qed.

Lemma read_flag_arg name v : plain_name name = true -> read_argument (flag_arg name v) = IsFlag name (Some (flag_text v)).
Proof.
  unfold flag_arg. destruct name as [|c name]; [done|]. simpl. unfold lacks. simpl. intros Hn. bools.
  unfold flag_name. rewrite !(proj2 (Ascii.eqb_neq _ _)) by done. simpl.
  by rewrite (cut_value_app name (flag_text v)).
Qed.

(** One flag of a command line. *)
Lemma Parse_flag_arg flags name v v' rest :
  plain_name name = true -> flags !! name = Some v -> same_kind v v' = true ->
  Parse flags (flag_arg name v' :: rest) = Parse (<[name := v']> flags) rest.
Proof.
  intros Hn Hv Hk. cbn [Parse]. rewrite (read_flag_arg name v' Hn), Hv. destruct v; cbv zeta; cbn [from_option id];
    by rewrite flag_Set_text.
Qed.

(** The end of the flags. *)
Lemma Parse_terminator flags args : Parse flags ("--" :: args) = Parsed flags args.
Proof. done. Qed.
