(* ===== verification/Tabwriter.v ===== *)
(** * The text/tabwriter package of Go

    What mount_list uses of it: a writer with minimal width 0, two blanks of
    padding and no flags.  Text is cut into lines of cells at tabs and
    newlines; a cell that ends in a tab belongs to a column, and a column is
    a run of consecutive lines that have a cell in it.  The escape byte 0xff
    is not modelled: the strings of a message are valid UTF-8, where it does
    not occur.  That is also why [rune_count] may count the bytes that begin
    a rune. *)

From S2P Require Import Prelude GoStrings.

Notation line := (list string) (only parsing).

Definition ch_vtab : ascii := "011"%char.
Definition ch_formfeed : ascii := "012"%char.

(** utf8.RuneCount of valid UTF-8 *)
Fixpoint rune_count (s : string) : nat :=
  match s with
  | EmptyString => 0
  | String c rest => (if (128 <=? code c) && (code c <=? 191) then 0 else 1) + rune_count rest
  end.

Fixpoint blanks (n : nat) : string :=
  match n with O => EmptyString | S n => String " " (blanks n) end.

(** ** Cells *)

(** The line that text begins with, as its first cell and the others, and
    the lines after it, each with whether a form feed separates it. *)
Fixpoint scan (s : string) : (string * list string) * list (bool * line) :=
  match s with
  | EmptyString => ((EmptyString, []), [])
  | String c s =>
      let '((cell, cells), rest) := scan s in
      if Ascii.eqb c ch_tab || Ascii.eqb c ch_vtab then ((EmptyString, cell :: cells), rest)
      else if Ascii.eqb c ch_newline then ((EmptyString, []), (false, cell :: cells) :: rest)
      else if Ascii.eqb c ch_formfeed then ((EmptyString, []), (true, cell :: cells) :: rest)
      else ((String c cell, cells), rest)
  end.

(** The last line has no cell for the text after its last tab when there is
    none. *)
Definition end_line (l : line) : line :=
  match last l with
  | Some EmptyString => removelast l
  | _ => l
  end.

(** ** Columns *)

(** The line has a cell that ends in a tab in this column. *)
Definition has_cell (column : nat) (l : line) : bool := (S column <? length l)%nat.

(** Runs of lines that have, or do not have, a cell in a column. *)
Fixpoint blocks (column : nat) (lines : list line) : list (bool * list line) :=
  match lines with
  | [] => []
  | l :: lines =>
      let b := has_cell column l in
      match blocks column lines with
      | (b', g) :: rest => if Bool.eqb b b' then (b, l :: g) :: rest else (b, [l]) :: (b', g) :: rest
      | [] => [(b, [l])]
      end
  end.

(** The width of a column: its widest cell and the padding. *)
Definition column_width (column : nat) (lines : list line) : nat :=
  foldr Nat.max O ((fun l => rune_count (default EmptyString (l !! column)) + 2)%nat <$> lines).

(** writeLines for one line: a cell of a known column is padded. *)
Fixpoint write_line (widths : list nat) (l : line) : string :=
  match l with
  | [] => EmptyString
  | cell :: l =>
      match widths with
      | w :: widths => cell +:+ blanks (w - rune_count cell) +:+ write_line widths l
      | [] => cell +:+ write_line [] l
      end
  end.

(** format: [columns] bounds the number of columns. *)
Fixpoint format (columns : nat) (widths : list nat) (lines : list line) : list string :=
  match columns with
  | O => write_line widths <$> lines
  | S columns =>
      blocks (length widths) lines ≫= fun '(b, g) =>
        if b : bool then format columns (widths ++ [column_width (length widths) g]) g
        else write_line widths <$> g
  end.

Definition print_lines (lines : list line) : string :=
  Join (str1 ch_newline) (format (foldr Nat.max O (length <$> lines)) [] lines).

(** Writing and flushing: what is pending is printed after a form feed, after
    a line of one cell and at the end. *)
Fixpoint emit (pending : list line) (current : line) (rest : list (bool * line)) : string :=
  match rest with
  | [] => print_lines (pending ++ [end_line current])
  | (ff, next) :: rest =>
      if ff || (length current =? 1)%nat then print_lines (pending ++ [current; []]) +:+ emit [] next rest
      else emit (pending ++ [current]) next rest
  end.

Definition tabwriter (text : string) : string :=
  let '((cell, cells), rest) := scan text in emit [] (cell :: cells) rest.

(** ** Tables *)

(** Text that stays in its cell. *)
Definition one_cell (s : string) : bool :=
  string_forallb (fun c => negb (Ascii.eqb c ch_tab || Ascii.eqb c ch_vtab || Ascii.eqb c ch_newline || Ascii.eqb c ch_formfeed)) s.

Definition row_text (r : string * string * string) : string :=
  let '(a, b, c) := r in a +:+ str1 ch_tab +:+ b +:+ str1 ch_tab +:+ c +:+ str1 ch_newline.

(** The same rows with each column as wide as its widest cell and two
    blanks. *)
Definition widest (f : string * string * string -> string) (rows : list (string * string * string)) : nat :=
  foldr Nat.max O (rune_count ∘ f <$> rows).

Definition pad (w : nat) (s : string) : string := s +:+ blanks (w + 2 - rune_count s).

Definition aligned (w1 w2 : nat) (r : string * string * string) : string :=
  let '(a, b, c) := r in pad w1 a +:+ pad w2 b +:+ c +:+ str1 ch_newline.

Definition aligned_table (rows : list (string * string * string)) : string :=
  String.concat EmptyString (aligned (widest (fst ∘ fst) rows) (widest (snd ∘ fst) rows) <$> rows).

Notation row := (string * string * string)%type (only parsing).

Definition row_cells (r : row) : line := let '(a, b, c) := r in [a; b; c].

Definition one_cells (r : row) : bool := forallb one_cell (row_cells r).

Lemma scan_cell w s : one_cell w = true ->
  scan (w +:+ s) = ((w +:+ fst (fst (scan s)), snd (fst (scan s))), snd (scan s)).
Proof.
  unfold one_cell. induction w as [|c w IH]; simpl; [by destruct (scan s) as [[] ]|]. intros [Hc Hw]%andb_true_iff.
  rewrite (IH Hw). apply negb_true_iff in Hc. repeat rewrite orb_false_iff in Hc. destruct Hc as [[[-> ->] ->] ->]. done.
Qed.

Lemma scan_tab s : scan (String ch_tab s) = ((EmptyString, fst (fst (scan s)) :: snd (fst (scan s))), snd (scan s)).
Proof. simpl. by destruct (scan s) as [[] ]. Qed.

Lemma scan_newline s : scan (String ch_newline s) = ((EmptyString, []), (false, fst (fst (scan s)) :: snd (fst (scan s))) :: snd (scan s)).
Proof. simpl. by destruct (scan s) as [[] ]. Qed.

(** The lines of a table. *)
Lemma scan_row a b c s : one_cells (a, b, c) = true ->
  scan (row_text (a, b, c) +:+ s) = ((a, [b; c]), (false, fst (fst (scan s)) :: snd (fst (scan s))) :: snd (scan s)).
Proof.
  unfold one_cells. cbn [forallb row_cells row_text]. intros (Ha & (Hb & (Hc & _)%andb_true_iff)%andb_true_iff)%andb_true_iff.
  rewrite <- !string_app_assoc, (scan_cell a) by done. unfold str1. cbn [String.append].
  rewrite scan_tab, (scan_cell b), scan_tab, (scan_cell c), scan_newline by done. cbn [fst snd].
  by rewrite !string_app_nil_r.
Qed.

Definition table_text (rows : list row) : string := String.concat EmptyString (row_text <$> rows).

Lemma concat_cons s l : String.concat EmptyString (s :: l) = s +:+ String.concat EmptyString l.
Proof. destruct l; simpl; [by rewrite string_app_nil_r|done]. Qed.

Lemma scan_table rows : forallb one_cells rows = true ->
  fst (fst (scan (table_text rows))) :: snd (fst (scan (table_text rows))) = hd [EmptyString] (row_cells <$> rows) /\
  snd (scan (table_text rows)) = (fun l => (false, l)) <$> tl ((row_cells <$> rows) ++ [[EmptyString]]).
Proof.
  unfold table_text. induction rows as [|[[a b] c] rows IH]; [done|]. cbn [forallb]. intros [Hr Hrs]%andb_true_iff.
  destruct (IH Hrs) as [E1 E2]. rewrite !fmap_cons, concat_cons, (scan_row _ _ _ _ Hr). cbn [fst snd]. rewrite E1, E2.
  split; [done|]. by destruct rows as [|[[]]].
Qed.

(** Nothing is printed before the end. *)
Lemma emit_table pending rows : emit pending (hd [EmptyString] (row_cells <$> rows))
    ((fun l => (false, l)) <$> tl ((row_cells <$> rows) ++ [[EmptyString]])) =
  print_lines (pending ++ (row_cells <$> rows) ++ [[]]).
Proof.
  revert pending. induction rows as [|[[a b] c] rows IH]; intros pending; [done|].
  specialize (IH (pending ++ [[a; b; c]])). rewrite <- (assoc_L (++)) in IH. rewrite fmap_cons.
  transitivity (print_lines (pending ++ [[a; b; c]] ++ (row_cells <$> rows) ++ [[]])); [|done].
  rewrite <- IH. by destruct rows as [|[[]]].
Qed.

(** ** Columns of a table *)

Lemma blocks_table column (l : list line) m :
  l <> [] -> Forall (fun x => has_cell column x = true) l -> Forall (fun x => has_cell column x = false) m ->
  blocks column (l ++ m) = (true, l) :: match m with [] => [] | _ => [(false, m)] end.
Proof.
  intros Hne Hl Hm.
  assert (blocks column m = match m with [] => [] | _ => [(false, m)] end) as Hb.
  { clear Hne Hl. induction Hm as [|x m Hx Hm IH]; [done|]. simpl. rewrite IH, Hx. by destruct m. }
  induction Hl as [|x l Hx Hl IH]; [done|]. simpl. rewrite Hx. destruct l as [|y l].
  - simpl. rewrite Hb. by destruct m.
  - rewrite IH by done. done.
Qed.

Lemma column_width_widest column f rows :
  (forall r, row_cells r !! column = Some (f r)) -> rows <> [] -> column_width column (row_cells <$> rows) = (widest f rows + 2)%nat.
Proof.
  intros Hf Hne. unfold column_width, widest. induction rows as [|r rows IH]; [done|].
  destruct rows as [|r' rows]; [simpl; rewrite Hf; simpl; lia|]. specialize (IH ltac:(done)). simpl in IH |- *.
  rewrite IH, !Hf. simpl. lia.
Qed.

Lemma has_cell_row column rows : (column < 2)%nat -> Forall (fun x => has_cell column x = true) (row_cells <$> rows).
Proof. intros Hc. apply Forall_fmap, Forall_true. intros [[a b] c]. apply Nat.ltb_lt. simpl. lia. Qed.

Lemma blocks_rows column rows : (column < 2)%nat -> rows <> [] -> blocks column (row_cells <$> rows) = [(true, row_cells <$> rows)].
Proof.
  intros Hc Hne. rewrite <- (app_nil_r (row_cells <$> rows)). rewrite (blocks_table column _ []); [by rewrite app_nil_r| |by apply has_cell_row|done].
  by destruct rows.
Qed.

Lemma blocks_no column (m : list line) : m <> [] -> Forall (fun x => has_cell column x = false) m -> blocks column m = [(false, m)].
Proof.
  intros Hne Hm. induction Hm as [|x m Hx Hm IH]; [done|]. simpl. rewrite Hx. destruct m; [done|]. by rewrite IH.
Qed.

Lemma format_table rows : rows <> [] ->
  format 3 [] ((row_cells <$> rows) ++ [[]]) =
  (write_line [widest (fst ∘ fst) rows + 2; widest (snd ∘ fst) rows + 2]%nat <$> (row_cells <$> rows)) ++ [EmptyString].
Proof.
  intros Hne. assert (row_cells <$> rows <> []) as Hne' by (by destruct rows).
  cbn [format length]. rewrite blocks_table; [|done|apply has_cell_row; lia|by repeat constructor]. simpl mbind.
  cbn [app length]. rewrite (blocks_rows 1) by (lia || done). simpl mbind. cbn [app length].
  rewrite (blocks_no 2) by (done || apply Forall_fmap, Forall_true; by intros [[a b] c]). simpl mbind.
  rewrite (column_width_widest 0 (fst ∘ fst)), (column_width_widest 1 (snd ∘ fst)) by (done || by intros [[]]).
  by rewrite !app_nil_r.
Qed.

Lemma join_lines (l : list string) : Join (str1 ch_newline) (l ++ [EmptyString]) = String.concat EmptyString ((fun s => s +:+ str1 ch_newline) <$> l).
Proof.
  induction l as [|x l IH]; [done|]. rewrite fmap_cons, concat_cons. cbn [app]. rewrite Join_cons by (by destruct l).
  by rewrite IH, string_app_assoc.
Qed.

(** A table of rows without tabs and newlines is printed with aligned
    columns. *)
Lemma tabwriter_table rows : forallb one_cells rows = true -> tabwriter (table_text rows) = aligned_table rows.
Proof.
  intros Hr. unfold tabwriter. destruct (scan_table rows Hr) as [E1 E2].
  destruct (scan (table_text rows)) as [[cell cells] rest]. cbn [fst snd] in E1, E2. rewrite E1, E2, emit_table. simpl app.
  destruct (decide (rows = [])) as [->|Hne]; [done|]. unfold print_lines.
  assert (foldr Nat.max O (length <$> (row_cells <$> rows) ++ [[]]) = 3%nat) as ->.
  { clear -Hne. induction rows as [|[[a b] c] rows IH]; [done|]. destruct rows; [done|]. cbn in *. by rewrite IH. }
  rewrite format_table, join_lines by done. unfold aligned_table. f_equal. rewrite <- !list_fmap_compose.
  apply list_fmap_ext. intros i [[a b] c] _. unfold compose. simpl. unfold pad. rewrite !string_app_nil_r.
  by rewrite !string_app_assoc.
Qed.
