(* ===== verification/Retry.v ===== *)
(** * Retry policy (service/mount_manager.go)

    How many attempts an operation gets, how long to wait between them, and
    which failures are never retried. *)

From S2P Require Import Prelude GoStrings GoErrors GoFloat Redact Config.

Definition maxAttempts (config : Config) : Z :=
  if 0 <? MaxAttempts (Retry config) then MaxAttempts (Retry config) else RetryMaxAttemptsDefault.

(** [randFloat] is the value the random source returns, [None] for a nil
    source. *)
Definition computeRetryDelay (retry : RetryConfig) (attempt : Z) (randFloat : option float64) : Z :=
  let initial := if InitialDelay retry <=? 0 then RetryInitialDelayDefault else InitialDelay retry in
  let maxDelay := if MaxDelay retry <=? 0 then RetryMaxDelayDefault else MaxDelay retry in
  let multiplier := if f64_ltb (Multiplier retry) f64_one then RetryMultiplierDefault else Multiplier retry in
  let attempt := if attempt <? 1 then 1 else attempt in
  let delay := f64_mul (f64_of_Z initial) (Pow multiplier (attempt - 1)) in
  let delay := if f64_ltb (f64_of_Z maxDelay) delay then f64_of_Z maxDelay else delay in
  let delay := match randFloat with
               | Some r => if f64_ltb f64_zero (Jitter retry)
                           then f64_add delay (f64_mul (f64_mul delay (Jitter retry)) r)
                           else delay
               | None => delay
               end in
  f64_to_i64 delay.

Definition exitCodeIRODSFSConfigurationInvalid : Z := 10.
Definition exitCodeIRODSFSAuthenticationFailed : Z := 11.

Definition mountFailureCode (client : option mountClientType) (err : option goerror) : string :=
  match client, err ≫= As_ExitError with
  | Some mountClientIRODSFS, Some code =>
      if code =? exitCodeIRODSFSConfigurationInvalid then "IRODSFS_CONFIGURATION_INVALID"
      else if code =? exitCodeIRODSFSAuthenticationFailed then "IRODSFS_AUTHENTICATION_FAILED"
      else "MOUNT_COMMAND_EXITED"
  | _, _ => "MOUNT_COMMAND_EXITED"
  end.

Definition isNonRetryableMountFailure (code : string) : bool :=
  String.eqb code "IRODSFS_CONFIGURATION_INVALID" || String.eqb code "IRODSFS_AUTHENTICATION_FAILED".

Definition processExitMessage (err : option goerror) : string :=
  match err with
  | None => "irodsfs exited unexpectedly"
  | Some e => "irodsfs exited unexpectedly: " +:+ Error e
  end.

(** The decision of [recordMountFailure] to schedule another attempt. *)
Definition mount_retrying (config : Config) (code : string) (attempt : Z) (hadMounted : bool) : bool :=
  negb (isNonRetryableMountFailure code) && (attempt <? maxAttempts config)
  && (negb hadMounted || AutoRemount config).

(** ** Facts *)

Lemma maxAttempts_pos config : 1 <= maxAttempts config.
Proof. unfold maxAttempts, RetryMaxAttemptsDefault. case_match; bools; lia. Qed.

Lemma mount_retrying_attempt config code attempt had :
  mount_retrying config code attempt had = true -> attempt < maxAttempts config.
Proof. unfold mount_retrying. intros H. by bools. Qed.

Lemma mountFailureCode_values client err :
  mountFailureCode client err ∈
    ["IRODSFS_CONFIGURATION_INVALID"; "IRODSFS_AUTHENTICATION_FAILED"; "MOUNT_COMMAND_EXITED"].
Proof. unfold mountFailureCode. repeat case_match; set_solver. Qed.

(** The delays of the default policy without jitter, in seconds. *)
Definition default_delays (n : nat) : list Z :=
  map (fun i => computeRetryDelay (Retry NewDefaultConfig) (Z.of_nat i) None / Second) (seq 1 n).

(** With the default policy and no jitter, attempt [a] (up to 1000) is
    followed by a wait of min(2^(a-1), 30) seconds, so the delays before the
    last of the five attempts are 1, 2, 4 and 8 seconds. *)
Theorem default_backoff :
  forall a, 1 <= a <= 1000 ->
  computeRetryDelay (Retry NewDefaultConfig) a None = Z.min (2 ^ (a - 1)) 30 * Second.
Proof.
  intros a Ha.
  assert (forallb (fun i => computeRetryDelay (Retry NewDefaultConfig) (Z.of_nat i) None =?
                            Z.min (2 ^ (Z.of_nat i - 1)) 30 * Second) (seq 1 1000) = true) as H
    by (vm_compute; reflexivity).
  rewrite forallb_forall in H. specialize (H (Z.to_nat a)). rewrite Z2Nat.id in H by lia.
  apply Z.eqb_eq, H. apply in_seq. lia.
Qed.

Lemma default_backoff_witness :
  computeRetryDelay (Retry NewDefaultConfig) 4 None = 8 * Second /\
  maxAttempts NewDefaultConfig = 5.
Proof. split; [|reflexivity]. rewrite (default_backoff 4) by lia. reflexivity. Defined.
