(* ===== verification/Policy.v ===== *)
(** * Validation of mount requests and the path policy

    [validateMountConfig] and its helpers (service/mount_manager.go), the
    client-specific validators of service/mount_command.go, executable
    checks, and the parsing of /proc/self/mountinfo.  What the code reads
    from the host (symlink resolution, [os.Stat], [os.ReadFile],
    [os.Geteuid]) is the record [FS], a snapshot of the file system that
    one validation sees. *)

From S2P Require Import Prelude GoStrings GoPath GoErrors GoFloat Api Redact Config.

(** ** The host *)

Inductive stat_result : Type :=
| StatNotExist
| StatFailed (err : goerror)
| StatOk (isDir : bool) (perm : Z).

Inductive read_result : Type :=
| ReadNotExist
| ReadFailed (err : goerror)
| ReadOk (data : string).

Record FS : Type := mkFS {
  EvalSymlinks : string -> option string;   (* filepath.EvalSymlinks, [None] on error *)
  Stat : string -> stat_result;             (* os.Stat *)
  ReadFile : string -> read_result;         (* os.ReadFile *)
  Geteuid : Z                               (* os.Geteuid *)
}.

(** filepath.EvalSymlinks resolves an absolute path to an absolute path. *)
Definition eval_absolute (fs : FS) : Prop :=
  forall p r, IsAbs p = true -> EvalSymlinks fs p = Some r -> IsAbs r = true.

(** ** Canonical paths *)

(** The recursion of [canonicalizePath] climbs to the parent directory;
    [fuel] bounds the number of steps. *)
Fixpoint canonicalize_fuel (fs : FS) (fuel : nat) (path : string) : result goerror string :=
  let path := Clean path in
  match EvalSymlinks fs path with
  | Some resolved => Ok (Clean resolved)
  | None =>
      let parent := Dir path in
      if String.eqb parent path then Err (ENew ("failed to resolve path " +:+ Quote path))
      else match fuel with
           | O => Err (ENew "out of fuel")
           | S fuel' =>
               let? resolvedParent := canonicalize_fuel fs fuel' parent in
               Ok (PathJoin [resolvedParent; Base path])
           end
  end.

Definition canonicalizePath (fs : FS) (path : string) : result goerror string :=
  canonicalize_fuel fs (String.length path) path.

Fixpoint pathWithinAnyRoot (target : string) (roots : list string) : bool :=
  match roots with
  | [] => false
  | root :: rest =>
      match Rel (Clean root) (Clean target) with
      | Some relative => if descends relative then true else pathWithinAnyRoot target rest
      | None => pathWithinAnyRoot target rest
      end
  end.

Definition pathsConflict (a b : string) : bool :=
  pathWithinAnyRoot a [b] || pathWithinAnyRoot b [a].

Section Policy.
Context `{UrlLib}.

Definition reserved_paths (config : Config) : list string :=
  [GetDataRootPath config; GetLogRootPath config; GetMountRootPath config; GetMountDatabasePath config] ++
  (let pidDir := Dir (PIDFile config) in
   if negb (String.eqb pidDir EmptyString) && negb (String.eqb pidDir dot) then [pidDir] else []) ++
  (match ParseServiceEndpoint (GetServiceEndpoint config) with
   | Ok (scheme, endpoint) => if String.eqb scheme "unix" then [Dir endpoint] else []
   | Err _ => []
   end).

Definition canonical_reserved (fs : FS) (path : string) : string :=
  match canonicalizePath fs path with Ok p => p | Err _ => Clean path end.

Fixpoint first_conflict (fs : FS) (target : string) (reserved : list string) : option string :=
  match reserved with
  | [] => None
  | path :: rest =>
      if String.eqb path EmptyString then first_conflict fs target rest
      else let canonicalReserved := canonical_reserved fs path in
           if pathsConflict target canonicalReserved then Some canonicalReserved
           else first_conflict fs target rest
  end.

(** [None] is the empty string of the source: no conflict. *)
Definition reservedPathConflict (fs : FS) (config : Config) (target : string) : option string :=
  if String.eqb (Clean target) sep then Some sep
  else first_conflict fs target (reserved_paths config).

(** ** Client-specific validation *)

Fixpoint validate_davfs_params (params : list (string * string)) : option goerror :=
  match params with
  | [] => None
  | (key, value) :: rest =>
      if String.eqb (TrimSpace key) EmptyString
         || ContainsAny key (String " "%char (String ch_tab (String ch_cr (str1 ch_newline)))) then
        Some (ENew ("invalid DAVFS config key " +:+ Quote key))
      else if ContainsAny value (String ch_cr (str1 ch_newline)) then
        Some (ENew ("DAVFS config value " +:+ Quote key +:+ " contains a newline"))
      else validate_davfs_params rest
  end.

Definition validateDAVFSConfig (config : option DAVFSConfig) : option goerror :=
  match config with
  | None => Some (ENew "DAVFS config is required")
  | Some c =>
      if String.eqb (DAVFSConfig_Url c) EmptyString then Some (ENew "DAVFS URL is required")
      else match ParseRequestURI (DAVFSConfig_Url c) with
           | Err err => Some (EWrap err "DAVFS URL is invalid")
           | Ok _ => validate_davfs_params (map_to_list (DAVFSConfig_Config c))
           end
  end.

Definition validateNFSConfig (config : option NFSConfig) : option goerror :=
  match config with
  | None => Some (ENew "NFS config is required")
  | Some c =>
      if String.eqb (NFSConfig_Host c) EmptyString then Some (ENew "NFS host is required")
      else if String.eqb (NFSConfig_Path c) EmptyString then Some (ENew "NFS path is required")
      else if (NFSConfig_Port c <? 0) || (65535 <? NFSConfig_Port c) then
        Some (ENew "NFS port must be between 0 and 65535")
      else None
  end.

Definition allow_other : string := "allow_other".

Definition validateFuseAllowOtherPolicy (allowPolicy : bool) (client : mountClientType)
    (config : MountConfig) : option goerror :=
  let options := MountConfig_MountOptions config ++
    (if bool_decide (client = mountClientIRODSFS)
     then match GetIrodsfs config with Some i => IRODSFSConfig_FuseOptions i | None => [] end
     else []) in
  if negb (existsb (String.eqb allow_other) options) then None
  else if bool_decide (client = mountClientNFS) then
    Some (ENew "allow_other is not applicable to NFS mounts")
  else if negb allowPolicy then Some (ENew "allow_other is not permitted by daemon policy")
  else None.

Definition applyFuseAllowOtherPolicy (daemon : Config) (config : MountConfig) : MountConfig :=
  if negb (AllowFuseAllowOther daemon) then config
  else match clientType (Some config) with
       | Err _ | Ok mountClientNFS => config
       | Ok _ =>
           if negb (existsb (String.eqb allow_other) (MountConfig_MountOptions config))
           then set_MountOptions (MountConfig_MountOptions config ++ [allow_other]) config
           else config
       end.

(** Dereferencing a nil message is a panic in Go; the protobuf decoders
    never build a oneof wrapper with a nil message. *)
Definition nil_dereference : goerror := ENew "invalid memory address or nil pointer dereference".

Definition validate_client (client : mountClientType) (config : MountConfig) : option goerror :=
  match client with
  | mountClientIRODSFS =>
      match GetIrodsfs config with
      | None => Some nil_dereference
      | Some i =>
          match IRODSFSConfig_Account i with
          | None => Some (ENew "iRODS account is required")
          | Some a =>
              if String.eqb (Account_IrodsHost a) EmptyString then Some (ENew "iRODS host is required")
              else if String.eqb (Account_IrodsUserName a) EmptyString
                      || String.eqb (Account_IrodsZoneName a) EmptyString then
                Some (ENew "iRODS user and zone are required")
              else None
          end
      end
  | mountClientDAVFS => validateDAVFSConfig (GetDavfs config)
  | mountClientNFS => validateNFSConfig (GetNfs config)
  end.

(** Allowed roots that cannot be resolved are skipped. *)
Definition canonical_roots (fs : FS) (roots : list string) : list string :=
  omap (fun root => match canonicalizePath fs root with Ok r => Some r | Err _ => None end) roots.

Definition validateMountConfig (fs : FS) (daemon : Config) (config : option MountConfig) : option goerror :=
  match config with
  | None => Some (ENew "mount config is required")
  | Some c =>
      match clientType (Some c) with
      | Err err => Some err
      | Ok client =>
          err? validate_client client c else
          err? validateFuseAllowOtherPolicy (AllowFuseAllowOther daemon) client c else
          let mountPath := MountConfig_MountPath c in
          if String.eqb mountPath EmptyString || negb (IsAbs mountPath) then
            Some (ENew "mount path must be absolute")
          else match canonicalizePath fs mountPath with
               | Err err => Some (EWrap err ("failed to resolve mount path " +:+ Quote mountPath))
               | Ok canonicalMountPath =>
                   if negb (bool_decide (AllowedMountRootPaths daemon = []))
                      && negb (pathWithinAnyRoot canonicalMountPath
                                 (canonical_roots fs (AllowedMountRootPaths daemon))) then
                     Some (ENew ("mount path " +:+ Quote mountPath +:+ " is outside allowed mount roots"))
                   else match reservedPathConflict fs daemon canonicalMountPath with
                        | Some conflict =>
                            Some (ENew ("mount path " +:+ Quote mountPath +:+
                              " conflicts with the daemon's own reserved path " +:+ Quote conflict))
                        | None =>
                            match Stat fs mountPath with
                            | StatNotExist => None
                            | StatFailed err => Some (EWrap err ("invalid mount path " +:+ Quote mountPath))
                            | StatOk isDir _ =>
                                if negb isDir
                                then Some (ENew ("mount path " +:+ Quote mountPath +:+ " is not a directory"))
                                else None
                            end
                        end
               end
      end
  end.

End Policy.

(** ** Mount IDs *)

Definition mount_id_char (c : ascii) : bool :=
  in_range "a"%char "z"%char c || in_range "A"%char "Z"%char c || in_range "0"%char "9"%char c
  || Ascii.eqb c "-"%char || Ascii.eqb c "_"%char.

Definition validateMountID (mountID : string) : option goerror :=
  if 128 <? Z.of_nat (String.length mountID) then Some (ENew "mount ID must not exceed 128 characters")
  else if string_forallb mount_id_char mountID then None
  else Some (ENew ("mount ID " +:+ Quote mountID +:+ " contains an invalid character")).

(** ** Executables *)

Definition executable_perm (perm : Z) : bool := negb (Z.land perm 73 =? 0).   (* 0o111 *)

Definition validateExecutable (fs : FS) (path : string) : option goerror :=
  if String.eqb path EmptyString then Some (ENew "irodsfs executable path is required")
  else match Stat fs path with
       | StatNotExist =>
           Some (EWrap (ENew "no such file or directory") ("invalid irodsfs executable " +:+ Quote path))
       | StatFailed err => Some (EWrap err ("invalid irodsfs executable " +:+ Quote path))
       | StatOk isDir perm =>
           if isDir || negb (executable_perm perm)
           then Some (ENew ("irodsfs executable " +:+ Quote path +:+ " is not executable"))
           else None
       end.

Definition isExecutableFile (fs : FS) (path : string) : bool :=
  match Stat fs path with
  | StatOk isDir perm => negb isDir && executable_perm perm
  | _ => false
  end.

Definition resolveExecutablePath (fs : FS) (path defaultPath : string) (fallbacks : list string) : string :=
  if negb (String.eqb path defaultPath) || isExecutableFile fs path then path
  else match List.find (isExecutableFile fs) fallbacks with
       | Some candidate => candidate
       | None => path
       end.

Definition resolveIRODSFSExecutablePath (fs : FS) (path : string) : string :=
  resolveExecutablePath fs path IRODSFSExecutablePathDefault IRODSFSExecutablePathFallbacks.

Definition fuseConfPath : string := "/etc/fuse.conf".

Definition checkUserAllowOtherEnabled (fs : FS) (path : string) : option goerror :=
  if Geteuid fs =? 0 then None
  else match ReadFile fs path with
       | ReadNotExist =>
           Some (ENew ("allow_fuse_allow_other requires user_allow_other to be set in " +:+ Quote path +:+
                       ", but the file does not exist"))
       | ReadFailed err => Some (EWrap err ("failed to read " +:+ Quote path))
       | ReadOk data =>
           if existsb (fun line => String.eqb (TrimSpace line) "user_allow_other") (Split ch_newline data)
           then None
           else Some (ENew ("allow_fuse_allow_other requires user_allow_other to be set in " +:+ Quote path))
       end.

(** ** The mount table *)

Definition unescapeMountInfoPath (value : string) : string :=
  Replacer [("\040", " "); ("\011", str1 ch_tab); ("\012", str1 ch_newline); ("\134", "\")] value.

Fixpoint mountinfo_lists (want : string) (lines : list string) : bool :=
  match lines with
  | [] => false
  | line :: rest =>
      match Fields line !! 4%nat with
      | Some field => if String.eqb (Clean (unescapeMountInfoPath field)) want then true
                      else mountinfo_lists want rest
      | None => mountinfo_lists want rest
      end
  end.

Definition isMountPoint (fs : FS) (mountPath : string) : result goerror bool :=
  match ReadFile fs "/proc/self/mountinfo" with
  | ReadNotExist => Err (EWrap (ENew "no such file or directory") "failed to read mountinfo")
  | ReadFailed err => Err (EWrap err "failed to read mountinfo")
  | ReadOk data => Ok (mountinfo_lists (Clean mountPath) (Split ch_newline data))
  end.
