(* ===== verification/PolicyFacts.v ===== *)
(** * What the path policy guarantees

    [canonicalizePath] resolves the nearest existing ancestor; "within a
    root" is the prefix order on path elements; an accepted mount request
    stays inside an allowed root and clear of the daemon's own paths, and a
    mount ID is a single, ordinary path element. *)

From S2P Require Import Prelude GoStrings GoPath GoErrors GoFloat Api ProtoJson Redact Config Policy.

(** ** Element counts: the fuel of [canonicalizePath] is enough *)

Lemma length_Split c s : (length (Split c s) <= S (String.length s))%nat.
Proof.
  induction s as [|d s IH]; simpl; [lia|]. destruct (Ascii.eqb d c); simpl; [lia|].
  pose proof (Split_nonempty c s). destruct (Split c s); [done|]. simpl in *. lia.
Qed.

Lemma length_clean_step rooted acc seg : (length (clean_step rooted acc seg) <= S (length acc))%nat.
Proof. unfold clean_step. repeat case_match; simpl; lia. Qed.

Lemma length_fold_clean rooted segs acc :
  (length (fold_left (clean_step rooted) segs acc) <= length acc + length segs)%nat.
Proof.
  revert acc. induction segs as [|s l IH]; intros acc; simpl; [lia|].
  specialize (IH (clean_step rooted acc s)). pose proof (length_clean_step rooted acc s). lia.
Qed.

Lemma length_abs_elements p : IsAbs p = true -> (length (abs_elements p) <= String.length p)%nat.
Proof.
  intros H. apply HasPrefix_spec in H as [t ->]. unfold abs_elements, elements.
  change (sep +:+ t) with (String ch_slash t). simpl (Split _ _). rewrite norm_empty. unfold norm.
  rewrite length_rev. pose proof (length_fold_clean true (Split ch_slash t) []).
  pose proof (length_Split ch_slash t). simpl in *. lia.
Qed.

(** ** Canonical paths *)

(** [resolves fs l q]: [q] is what the nearest resolvable ancestor of the
    path with elements [l] resolves to, followed by the remaining
    elements. *)
Definition resolves (fs : FS) (l : list string) (q : string) : Prop :=
  exists l1 l2 r, l = l1 ++ l2 /\ EvalSymlinks fs (apath l1) = Some r /\
    q = apath (abs_elements r ++ l2) /\
    (forall k, l1 `prefix_of` k -> k <> l1 -> k `prefix_of` l -> EvalSymlinks fs (apath k) = None).

Lemma normal_app l1 l2 : normal true (l1 ++ l2) <-> normal true l1 /\ normal true l2.
Proof. by rewrite !normal_true_iff, Forall_app. Qed.

Lemma prefix_snoc_inv {A} (k l : list A) x :
  k `prefix_of` l ++ [x] -> k = l ++ [x] \/ k `prefix_of` l.
Proof.
  intros [t Ht]. destruct t as [|y t _] using rev_ind; [left; by rewrite app_nil_r in Ht|].
  rewrite app_assoc in Ht. apply app_inj_2 in Ht as [-> _]; [|done]. right. by eexists.
Qed.

Lemma canonicalize_fuel_spec fs l fuel p :
  eval_absolute fs -> IsAbs p = true -> abs_elements p = l -> (length l <= fuel)%nat ->
  match canonicalize_fuel fs fuel p with
  | Ok q => resolves fs l q
  | Err _ => EvalSymlinks fs (apath []) = None
  end.
Proof.
  intros Hfs. revert fuel p. induction l as [|x l IH] using rev_ind; intros fuel p Hp Hl Hfuel.
  - destruct fuel; simpl; rewrite Clean_abs, Hl by done.
    all: destruct (EvalSymlinks fs (apath [])) as [r|] eqn:E; [|done].
    all: exists [], [], r; split_and!; [done|done| |].
    all: try (rewrite app_nil_r; apply Clean_abs; by eapply Hfs; [|exact E]).
    all: intros k _ Hk Hpre; by apply prefix_nil_inv in Hpre.
  - pose proof (abs_elements_normal p) as Hn. rewrite Hl in Hn.
    destruct (normal_snoc_inv _ _ Hn) as (Hnl & Hx & Hdd).
    destruct fuel as [|fuel]; [rewrite length_app in Hfuel; simpl in Hfuel; lia|].
    cbn [canonicalize_fuel]. rewrite Clean_abs, Hl by done.
    destruct (EvalSymlinks fs (apath (l ++ [x]))) as [r|] eqn:E.
    + exists (l ++ [x]), [], r. split_and!; [by rewrite app_nil_r|done| |].
      * rewrite app_nil_r. apply Clean_abs. eapply Hfs; [|exact E]. apply IsAbs_apath.
      * intros k H1 H2 H3. destruct H2. by apply (anti_symm prefix).
    + rewrite Dir_apath_snoc, Base_apath_snoc by done.
      destruct (String.eqb_spec (apath l) (apath (l ++ [x]))) as [Heq|_].
      { apply apath_inj in Heq; [|done..]. exfalso.
        apply (f_equal length) in Heq. rewrite length_app in Heq. simpl in Heq. lia. }
      specialize (IH fuel (apath l) (IsAbs_apath l) (abs_elements_apath l Hnl)).
      rewrite length_app in Hfuel. simpl in Hfuel. specialize (IH ltac:(lia)).
      destruct (canonicalize_fuel fs fuel (apath l)) as [q|e]; [|done]. simpl.
      destruct IH as (l1 & l2 & r & -> & Hr & -> & Hk).
      exists l1, (l2 ++ [x]), r. split_and!; [by rewrite app_assoc|done| |].
      * rewrite PathJoin_child by (done || apply IsAbs_apath). f_equal.
        rewrite abs_elements_apath; [by rewrite app_assoc|].
        apply normal_app. split; [apply abs_elements_normal|]. by apply normal_app in Hnl as [_ ?].
      * intros k H1 H2 H3.
        destruct (prefix_snoc_inv _ _ _ H3) as [->|H4]; [done | by apply Hk].
Qed.

Lemma canonicalizePath_cases fs p :
  eval_absolute fs -> IsAbs p = true ->
  match canonicalizePath fs p with
  | Ok q => resolves fs (abs_elements p) q
  | Err _ => EvalSymlinks fs (apath []) = None
  end.
Proof. intros Hfs Hp. by apply canonicalize_fuel_spec; [..|apply length_abs_elements]. Qed.

Lemma resolves_IsAbs fs l q : resolves fs l q -> IsAbs q = true.
Proof. intros (l1 & l2 & r & _ & _ & -> & _). apply IsAbs_apath. Qed.

Lemma canonicalizePath_IsAbs fs p q :
  eval_absolute fs -> IsAbs p = true -> canonicalizePath fs p = Ok q -> IsAbs q = true.
Proof.
  intros Hfs Hp Hq. pose proof (canonicalizePath_cases fs p Hfs Hp) as H. rewrite Hq in H.
  by eapply resolves_IsAbs.
Qed.

Lemma canonical_reserved_IsAbs fs p :
  eval_absolute fs -> IsAbs p = true -> IsAbs (canonical_reserved fs p) = true.
Proof.
  intros Hfs Hp. unfold canonical_reserved. destruct (canonicalizePath fs p) eqn:E.
  - by eapply canonicalizePath_IsAbs.
  - by apply IsAbs_Clean.
Qed.

(** ** Roots and conflicts *)

Lemma pathWithinAnyRoot_spec target roots :
  IsAbs target = true -> Forall (fun r => IsAbs r = true) roots ->
  pathWithinAnyRoot target roots = true <->
  exists root, root ∈ roots /\ abs_elements root `prefix_of` abs_elements target.
Proof.
  intros Ht Hr. induction Hr as [|root roots Hroot Hroots IH]; simpl.
  { split; [done|]. intros (r & Hin & _). by apply elem_of_nil in Hin. }
  pose proof (Rel_descends (Clean root) (Clean target) (IsAbs_Clean _ Hroot) (IsAbs_Clean _ Ht)) as HR.
  rewrite !abs_elements_Clean in HR by done.
  destruct IH as [IH1 IH2]. destruct HR as [HR1 HR2]. split.
  - intros H. destruct (Rel (Clean root) (Clean target)) as [rel|] eqn:ER.
    + destruct (descends rel) eqn:E.
      * exists root. split; [left | apply HR1; by exists rel].
      * destruct (IH1 H) as (r & Hin & Hp). exists r. split; [by right | done].
    + destruct (IH1 H) as (r & Hin & Hp). exists r. split; [by right | done].
  - intros (r & Hin & Hp). apply elem_of_cons in Hin as [->|Hin].
    + destruct (HR2 Hp) as (rel & -> & ->). done.
    + assert (pathWithinAnyRoot target roots = true) as -> by (apply IH2; by exists r).
      by repeat case_match.
Qed.

Lemma pathsConflict_spec a b :
  IsAbs a = true -> IsAbs b = true ->
  pathsConflict a b = true <->
  abs_elements a `prefix_of` abs_elements b \/ abs_elements b `prefix_of` abs_elements a.
Proof.
  intros Ha Hb. unfold pathsConflict. rewrite orb_true_iff.
  rewrite !pathWithinAnyRoot_spec by (done || by repeat constructor).
  split.
  - intros [(r & Hr & Hp)|(r & Hr & Hp)]; apply list_elem_of_singleton in Hr as ->; auto.
  - intros [Hp|Hp]; [right; exists a | left; exists b]; (split; [by apply list_elem_of_singleton | done]).
Qed.

Lemma Dir_IsAbs p : IsAbs p = true -> IsAbs (Dir p) = true.
Proof.
  intros H. apply HasPrefix_spec in H as [t ->]. unfold Dir, elements.
  change (Split ch_slash (sep +:+ t)) with (EmptyString :: Split ch_slash t).
  pose proof (Split_nonempty ch_slash t). destruct (Split ch_slash t) as [|w ws]; [done|].
  change (removelast (EmptyString :: w :: ws)) with (EmptyString :: removelast (w :: ws)).
  apply IsAbs_Clean.
  destruct (removelast (w :: ws)) as [|y l]; [done|]. rewrite Join_cons by done.
  rewrite <- string_app_assoc. apply (HasPrefix_app sep).
Qed.

Lemma PathJoin_IsAbs root l : IsAbs root = true -> IsAbs (PathJoin (root :: l)) = true.
Proof.
  intros H. unfold PathJoin. apply HasPrefix_spec in H as [t ->].
  change (drop_empty ((sep +:+ t) :: l)) with ((sep +:+ t) :: l).
  apply IsAbs_Clean. destruct l as [|y l]; [apply (HasPrefix_app sep)|].
  rewrite Join_cons, <- string_app_assoc by done. apply (HasPrefix_app sep).
Qed.

Lemma reserved_paths_IsAbs `{UrlLib} config :
  valid_config config -> Forall (fun p => IsAbs p = true) (reserved_paths config).
Proof.
  intros Hv. pose proof (vc_paths _ Hv) as Hp. rewrite !Forall_cons in Hp. destruct_and?.
  unfold reserved_paths, GetMountDatabasePath, GetDataRootPath.
  rewrite !Forall_app, !Forall_cons, Forall_nil. split_and!; try done.
  - by apply PathJoin_IsAbs.
  - case_match; [|constructor]. repeat constructor. by apply Dir_IsAbs.
  - unfold ParseServiceEndpoint. destruct (parseRawURL _) as [[[sch host] q]|]; simpl; [|constructor].
    repeat (case_match; simplify_eq; try constructor); try (by apply Dir_IsAbs, PathJoin_IsAbs).
    all: constructor.
Qed.

Lemma first_conflict_None fs target reserved :
  first_conflict fs target reserved = None ->
  forall p, p ∈ reserved -> p <> EmptyString -> pathsConflict target (canonical_reserved fs p) = false.
Proof.
  induction reserved as [|r l IH]; simpl; intros H p Hp Hne; [by apply elem_of_nil in Hp|].
  apply elem_of_cons in Hp. destruct (String.eqb_spec r EmptyString) as [->|].
  - destruct Hp as [->|Hp]; [done | by apply IH].
  - destruct (pathsConflict _ _) eqn:E; [done|]. destruct Hp as [->|Hp]; [done | by apply IH].
Qed.

(** Two absolute paths neither of which contains the other. *)
Definition disjoint_paths (a b : string) : Prop :=
  ~ abs_elements a `prefix_of` abs_elements b /\ ~ abs_elements b `prefix_of` abs_elements a.

Lemma reservedPathConflict_None `{UrlLib} fs config target :
  eval_absolute fs -> valid_config config -> IsAbs target = true ->
  reservedPathConflict fs config target = None ->
  abs_elements target <> [] /\
  (forall p, p ∈ reserved_paths config -> p <> EmptyString ->
    disjoint_paths target (canonical_reserved fs p)).
Proof.
  intros Hfs Hv Ht. unfold reservedPathConflict.
  destruct (String.eqb_spec (Clean target) sep) as [|Hroot]; [done|]. intros H1. split.
  - intros E. apply Hroot. by rewrite Clean_abs, E by done.
  - intros p Hp Hne. pose proof (first_conflict_None _ _ _ H1 p Hp Hne) as Hc.
    pose proof (reserved_paths_IsAbs config Hv) as Habs. rewrite Forall_forall in Habs.
    pose proof (pathsConflict_spec target (canonical_reserved fs p) Ht
                  (canonical_reserved_IsAbs fs p Hfs (Habs p Hp))) as Hs.
    rewrite Hc in Hs. split; intros Hpre; destruct Hs as [_ Hs]; discriminate Hs; auto.
Qed.

(** ** Accepted requests *)

Lemma canonical_roots_elem fs roots q :
  q ∈ canonical_roots fs roots <-> exists root, root ∈ roots /\ canonicalizePath fs root = Ok q.
Proof.
  unfold canonical_roots. rewrite list_elem_of_omap. split; intros (r & Hr & Hq); exists r; (split; [done|]).
  - destruct (canonicalizePath fs r); by simplify_eq.
  - by rewrite Hq.
Qed.

Lemma canonical_roots_IsAbs fs roots :
  eval_absolute fs -> Forall (fun r => IsAbs r = true) roots ->
  Forall (fun r => IsAbs r = true) (canonical_roots fs roots).
Proof.
  intros Hfs Hr. apply Forall_forall. intros q Hq. apply canonical_roots_elem in Hq as (r & Hin & Hq).
  rewrite Forall_forall in Hr. by eapply canonicalizePath_IsAbs; [..|exact Hq]; auto.
Qed.

(** [q] lies at or below the canonical form of one of [roots]. *)
Definition below_root (fs : FS) (roots : list string) (q : string) : Prop :=
  exists root r, root ∈ roots /\ canonicalizePath fs root = Ok r /\
    abs_elements r `prefix_of` abs_elements q.

(** C25: a request that passes [validateMountConfig] under a configuration
    that passes [Validate] names an absolute path whose canonical form (its
    nearest resolvable ancestor with symlinks resolved, followed by the
    remaining elements) lies at or below the canonical form of an allowed
    root, is not the filesystem root, and neither contains nor is contained
    in any of the daemon's own paths. *)
Theorem validateMountConfig_sound `{UrlLib} fs config mc :
  eval_absolute fs -> Validate config = None -> validateMountConfig fs config (Some mc) = None ->
  exists q, canonicalizePath fs (MountConfig_MountPath mc) = Ok q /\
    resolves fs (abs_elements (MountConfig_MountPath mc)) q /\
    below_root fs (AllowedMountRootPaths config) q /\ abs_elements q <> [] /\
    (forall p, p ∈ reserved_paths config -> p <> EmptyString -> disjoint_paths q (canonical_reserved fs p)).
Proof.
  intros Hfs Hc. apply Validate_valid in Hc as Hv. unfold validateMountConfig.
  destruct (clientType (Some mc)) as [client|]; [|done]. intros H1. peel_checks H1. bools.
  destruct (canonicalizePath fs (MountConfig_MountPath mc)) as [q|] eqn:Hq; [|done]. peel_checks H1.
  pose proof (canonicalizePath_cases fs _ Hfs H2) as Hres. rewrite Hq in Hres.
  pose proof (canonicalizePath_IsAbs _ _ _ Hfs H2 Hq) as Habs.
  exists q. destruct (vc_roots _ Hv) as [Hne Hroots]. split_and!; [done..| | |].
  - apply andb_false_iff in Hc2 as [E|E]; bools; [by apply bool_decide_eq_true in E|].
    apply pathWithinAnyRoot_spec in E as (r & Hr & Hp);
      [|done|apply canonical_roots_IsAbs; [done|]; by apply (Forall_impl _ _ _ Hroots); intros ? [? _]].
    apply canonical_roots_elem in Hr as (root & Hin & Hr). by exists root, r.
  - by eapply reservedPathConflict_None.
  - by eapply reservedPathConflict_None.
Qed.

(** A file system without symlinks where every path exists, and a plain
    URL syntax, for the examples. *)
Definition plain_fs : FS := {|
  EvalSymlinks := fun p => Some p;
  Stat := fun _ => StatOk true 493;
  ReadFile := fun _ => ReadNotExist;
  Geteuid := 0
|}.

Definition plain_urls : UrlLib := {|
  ParseRequestURI s :=
    match Split ":"%char s with
    | [scheme; rest] =>
        match Split ch_slash (drop_string 2 rest) with
        | host :: path => Ok (mkURL scheme false host
                               (match path with [] => "" | _ => sep +:+ Join sep path end) "" "")
        | [] => Err (ENew "invalid URI for request")
        end
    | [scheme; host; port] => Ok (mkURL scheme false (drop_string 2 host +:+ ":" +:+ port) "" "" "")
    | _ => Err (ENew "invalid URI for request")
    end
|}.

Definition example_config : Config := {|
  ServiceEndpoint := "";
  IRODSFSExecutablePath := IRODSFSExecutablePathDefault;
  MountExecutablePath := MountExecutablePathDefault;
  UnmountExecutablePath := UnmountExecutablePathDefault;
  DataRootPath := DataRootPathDefault;
  PIDFile := PIDFilePathDefault;
  RecoveryEncryptionKey := "AAAAAAAAAAAAAAAAAAAAAAAAAAAAAAAAAAAAAAAAAAA=";
  AllowedMountRootPaths := [AllowedMountRootPathDefault; KubeletMountRootPathDefault];
  AllowFuseAllowOther := false;
  AutoRemount := false;
  RestoreMountsOnRestart := false;
  Retry := Retry NewDefaultConfig;
  MountTimeout := MountTimeoutDefault;
  UnmountTimeout := UnmountTimeoutDefault;
  DAVFSUnmountTimeout := DAVFSUnmountTimeoutDefault;
  ReconcileInterval := ReconcileIntervalDefault;
  MaxConcurrentMounts := MaxConcurrentMountsDefault;
  ManagementServiceEndpoint := ManagementServiceEndpointDefault;
  Debug := false;
  LogRootPath := "";
  MountRootPath := PathJoin [DataRootPathDefault; MountRootPathDefault]
|}.

Definition nfs_request (path : string) : MountConfig := {|
  MountConfig_MountPath := path;
  MountConfig_ReadOnly := true;
  MountConfig_MountOptions := [];
  MountConfig_ClientConfig := Some (MountConfig_Nfs (Some (mkNFSConfig "nas" 2049 "/export")))
|}.

Lemma plain_fs_absolute : eval_absolute plain_fs.
Proof. intros p r Hp [= <-]. done. Qed.

Lemma validateMountConfig_sound_witness :
  exists q, canonicalizePath plain_fs "/mnt/irods/a/../home" = Ok q /\
    below_root plain_fs (AllowedMountRootPaths example_config) q.
Proof.
  destruct (@validateMountConfig_sound plain_urls plain_fs example_config (nfs_request "/mnt/irods/a/../home")
    plain_fs_absolute ltac:(vm_compute; reflexivity) ltac:(vm_compute; reflexivity))
    as (q & Hq & _ & Hb & _). by exists q.
Defined.

(** ** Mount IDs *)

Lemma string_forallb_impl (f g : ascii -> bool) s :
  (forall c, f c = true -> g c = true) -> string_forallb f s = true -> string_forallb g s = true.
Proof. intros Hfg. induction s as [|c s IH]; simpl; [done|]. intros H. bools. by rewrite Hfg, IH. Qed.

Lemma mount_id_char_not_slash c : mount_id_char c = true -> negb (Ascii.eqb c ch_slash) = true.
Proof. destruct c as [[] [] [] [] [] [] [] []]; vm_compute; done. Qed.

Lemma mount_id_char_ascii c : mount_id_char c = true -> is_ascii c = true.
Proof. destruct c as [[] [] [] [] [] [] [] []]; vm_compute; done. Qed.

Lemma validateMountID_seg id :
  validateMountID id = None -> id <> EmptyString -> seg_ok id /\ id <> dotdot.
Proof.
  unfold validateMountID. intros H Hne. repeat case_go_in H. split.
  - split_and!; [done| |].
    + intros ->. discriminate.
    + by eapply string_forallb_impl; [apply mount_id_char_not_slash|].
  - intros ->. discriminate.
Qed.

(** C26: a non-empty mount ID that [validateMountID] accepts names exactly
    one new element under any absolute root (no traversal, no nesting), and
    two accepted IDs that differ get different directories. *)
Theorem validateMountID_safe root id :
  IsAbs root = true -> validateMountID id = None -> id <> EmptyString ->
  PathJoin [root; id] = apath (abs_elements root ++ [id]) /\
  abs_elements (PathJoin [root; id]) = abs_elements root ++ [id] /\
  (forall id', validateMountID id' = None -> id' <> EmptyString ->
     PathJoin [root; id'] = PathJoin [root; id] -> id' = id).
Proof.
  intros Hr Hid Hne. destruct (validateMountID_seg _ Hid Hne) as [Hs Hd].
  assert (forall x, seg_ok x -> x <> dotdot -> normal true (abs_elements root ++ [x])) as Hn.
  { intros x Hx Hxd. apply normal_app. split; [apply abs_elements_normal|].
    apply normal_true_iff. by repeat constructor; try apply Hx. }
  rewrite PathJoin_child by done. split_and!; [done|by apply abs_elements_apath, Hn|].
  intros id' Hid' Hne'. destruct (validateMountID_seg _ Hid' Hne') as [Hs' Hd'].
  rewrite PathJoin_child by done. intros E. apply apath_inj in E; [|by apply Hn..].
  by apply app_inj_tail in E as [_ ->].
Qed.

Lemma validateMountID_safe_witness :
  PathJoin ["/var/lib/irodsfsd/mounts"; "vol-1_a"] = "/var/lib/irodsfsd/mounts/vol-1_a".
Proof.
  destruct (validateMountID_safe "/var/lib/irodsfsd/mounts" "vol-1_a" eq_refl eq_refl ltac:(discriminate))
    as [H _]. etransitivity; [exact H | reflexivity].
Defined.

(** ** allow_other *)

(** Every option list that reaches a FUSE client. *)
Definition effective_options (client : mountClientType) (c : MountConfig) : list string :=
  MountConfig_MountOptions c ++
  (match client, GetIrodsfs c with
   | mountClientIRODSFS, Some i => IRODSFSConfig_FuseOptions i
   | _, _ => []
   end).

Lemma clientType_set_MountOptions o c : clientType (Some (set_MountOptions o c)) = clientType (Some c).
Proof. by destruct c. Qed.

Lemma GetIrodsfs_set_MountOptions o c : GetIrodsfs (set_MountOptions o c) = GetIrodsfs c.
Proof. by destruct c. Qed.

Lemma validateFuse_spec allow client c :
  validateFuseAllowOtherPolicy allow client c = None <->
  (allow_other ∈ effective_options client c -> allow = true /\ client <> mountClientNFS).
Proof.
  unfold validateFuseAllowOtherPolicy.
  assert (MountConfig_MountOptions c ++ (if bool_decide (client = mountClientIRODSFS)
     then match GetIrodsfs c with Some i => IRODSFSConfig_FuseOptions i | None => [] end else [])
     = effective_options client c) as ->.
  { unfold effective_options. f_equal. by destruct client, (GetIrodsfs c). }
  destruct (existsb _ _) eqn:E; simpl.
  - apply existsb_eqb_elem in E. case_bool_decide; [split; [done|naive_solver]|].
    destruct allow; simpl; split; try done. intros Hx. by destruct (Hx E).
  - split; [|done]. intros _ Hin. apply existsb_eqb_elem in Hin. congruence.
Qed.

(** For a request the policy check accepts, the list of options after
    [applyFuseAllowOtherPolicy] has allow_other as an element exactly when
    the daemon allows it and the client is a FUSE one, and nothing else is
    added or dropped. *)
Lemma allow_other_listed daemon client c :
  clientType (Some c) = Ok client ->
  validateFuseAllowOtherPolicy (AllowFuseAllowOther daemon) client c = None ->
  let c' := applyFuseAllowOtherPolicy daemon c in
  (allow_other ∈ effective_options client c' <->
     AllowFuseAllowOther daemon = true /\ client <> mountClientNFS) /\
  (forall o, o <> allow_other -> o ∈ effective_options client c' <-> o ∈ effective_options client c) /\
  validateFuseAllowOtherPolicy (AllowFuseAllowOther daemon) client c' = None.
Proof.
  intros Hcl Hv. pose proof (proj1 (validateFuse_spec _ _ _) Hv) as Hin. intros c'.
  assert ((AllowFuseAllowOther daemon = true /\ client <> mountClientNFS ->
           allow_other ∈ effective_options client c') /\
          (forall o, o <> allow_other -> o ∈ effective_options client c' <-> o ∈ effective_options client c) /\
          (AllowFuseAllowOther daemon = false \/ client = mountClientNFS -> c' = c)) as (H1 & H2 & H3).
  { subst c'. unfold applyFuseAllowOtherPolicy. rewrite Hcl.
    destruct (AllowFuseAllowOther daemon) eqn:Ea; simpl; [|naive_solver].
    destruct client; [| |naive_solver].
    all: destruct (existsb _ (MountConfig_MountOptions c)) eqn:E; simpl; split_and!; try done; try naive_solver.
    all: try (intros _; apply elem_of_app; left; by apply existsb_eqb_elem).
    all: unfold effective_options; rewrite ?GetIrodsfs_set_MountOptions; destruct c; simpl.
    all: try (intros _; set_solver).
    all: intros o Ho; set_solver. }
  assert (allow_other ∈ effective_options client c' ->
          AllowFuseAllowOther daemon = true /\ client <> mountClientNFS) as H4.
  { intros Hc'. destruct (AllowFuseAllowOther daemon) eqn:Ea;
      [destruct (decide (client = mountClientNFS)) as [Ec|Ec]|].
    - rewrite H3 in Hc' by auto. by apply Hin.
    - done.
    - rewrite H3 in Hc' by auto. by destruct (Hin Hc'). }
  split_and!; [by split|exact H2|]. by apply validateFuse_spec.
Qed.
