(* ===== verification/LogStore.v ===== *)
(** * Mount logs (service/logstore)

    A mount's log turns the bytes of two process pipes into one JSON record
    per line, with known secrets replaced, and answers bounded queries over
    the file.  The rotating writer (lumberjack) and the JSON codec are not
    part of the repository: a log keeps what it handed to the writer, the
    class [Lumberjack] says what that makes of the file at the log's path,
    and the codec is the class [LogCodec]. *)

From S2P Require Import Prelude GoStrings GoErrors Redact.

Record LogRecord : Type := mkLogRecord {
  Record_Time : Z;
  Record_Stream : string;
  Record_Message : string
}.

#[export] Instance LogRecord_eq_dec : EqDecision LogRecord.
Proof. solve_decision. Defined.

(** json.Marshal and json.Unmarshal of a record.  Marshalling replaces bytes
    that are not valid UTF-8 ([coerce]); the encoding is one line. *)
Class LogCodec := {
  MarshalRecord : LogRecord -> result goerror string;
  UnmarshalRecord : string -> option LogRecord;
  coerce : string -> string
}.

(** The documented behaviour of encoding/json that the log relies on. *)
Record codec_laws `{LogCodec} : Prop := {
  marshal_line : forall r data, MarshalRecord r = Ok data -> lacks ch_newline data = true /\ data <> EmptyString;
  marshal_unmarshal : forall r data, MarshalRecord r = Ok data ->
    UnmarshalRecord data = Some (mkLogRecord (Record_Time r) (Record_Stream r) (coerce (Record_Message r)))
}.

(** ** Writing *)

(** lineWriter: the stream's name and its unfinished line. *)
Record lineWriter : Type := mkLineWriter {
  lw_stream : string;
  lw_buf : string
}.

(** MountLog; [ml_written] is what the underlying writer was given, in
    order, and [ml_clock] the number of clock readings so far. *)
Record MountLog : Type := mkLog {
  ml_written : list string;
  ml_secrets : list string;
  ml_clock : nat;
  ml_stdout : lineWriter;
  ml_stderr : lineWriter
}.

Definition set_ml_writer (stdout : bool) (w : lineWriter) (log : MountLog) : MountLog :=
  let '(mkLog written secrets clock out err) := log in
  if stdout then mkLog written secrets clock w err else mkLog written secrets clock out w.

Definition ml_writer (stdout : bool) (log : MountLog) : lineWriter :=
  if stdout then ml_stdout log else ml_stderr log.

(** Open, once the directory of the file exists. *)
Definition Open (secrets : list string) : MountLog :=
  mkLog [] (List.filter (fun s => negb (String.eqb s EmptyString)) secrets) 0
    (mkLineWriter "stdout" EmptyString) (mkLineWriter "stderr" EmptyString).

(** The redaction loop of writeLine. *)
Definition redact_line (secrets : list string) (line : string) : string :=
  fold_left (fun line secret => ReplaceAll line secret redactedValue) secrets line.

Section Writing.
Context `{LogCodec}.
Variable now : nat -> Z.

Definition writeLine (stream line : string) (log : MountLog) : MountLog :=
  let '(mkLog written secrets clock out err) := log in
  let line := redact_line secrets line in
  match MarshalRecord (mkLogRecord (now clock) stream line) with
  | Err _ => mkLog written secrets (S clock) out err
  | Ok data => mkLog (written ++ [data +:+ str1 ch_newline]) secrets (S clock) out err
  end.

(** bytes.IndexByte(buf, '\n') with the parts before and after it. *)
Fixpoint cut_line (buf : string) : option (string * string) :=
  match buf with
  | EmptyString => None
  | String c rest =>
      if Ascii.eqb c ch_newline then Some (EmptyString, rest)
      else match cut_line rest with
           | Some (line, rest') => Some (String c line, rest')
           | None => None
           end
  end.

(** The loop of lineWriter.Write; every round consumes a newline, so the
    length of the buffer bounds the rounds. *)
Fixpoint write_loop (fuel : nat) (stream : string) (buf : string) (log : MountLog) : string * MountLog :=
  match fuel with
  | O => (buf, log)
  | S fuel' =>
      match cut_line buf with
      | None => (buf, log)
      | Some (line, rest) => write_loop fuel' stream rest (writeLine stream line log)
      end
  end.

Definition Write (stdout : bool) (data : string) (log : MountLog) : MountLog :=
  let w := ml_writer stdout log in
  let buf := lw_buf w +:+ data in
  let '(buf', log') := write_loop (S (String.length buf)) (lw_stream w) buf log in
  set_ml_writer stdout (mkLineWriter (lw_stream w) buf') log'.

Definition flush (stdout : bool) (log : MountLog) : MountLog :=
  let w := ml_writer stdout log in
  if String.eqb (lw_buf w) EmptyString then log
  else set_ml_writer stdout (mkLineWriter (lw_stream w) EmptyString) (writeLine (lw_stream w) (lw_buf w) log).

(** Close, without the Close of the underlying writer. *)
Definition Close (log : MountLog) : MountLog := flush false (flush true log).

(** A sequence of writes of the two copying goroutines. *)
Definition write_all (writes : list (bool * string)) (log : MountLog) : MountLog :=
  fold_left (fun log wd => Write (fst wd) (snd wd) log) writes log.
End Writing.

(** ** The file *)

Definition maxSizeMB : Z := 10.

(** Logger.Write of lumberjack with MaxSize [max]: the content of the file
    at its name, before and after a write of [data].  A rotation renames the
    file and begins a new one. *)
Class Lumberjack := { lumberjack_Write (max : Z) (file data : string) : string }.

(** The file at the path of a log, which held [file] when it was opened. *)
Definition log_file `{Lumberjack} (file : string) (log : MountLog) : string :=
  fold_left (lumberjack_Write maxSizeMB) (ml_written log) file.

(** ** Querying *)

Record QueryOptions : Type := mkQueryOptions {
  Since : option Z;
  Tail : Z;
  Limit : Z
}.

Section Query.
Context `{LogCodec}.

Definition query_keep (options : QueryOptions) (r : LogRecord) : bool :=
  match Since options with
  | None => true
  | Some since => since <? Record_Time r
  end.

(** The records of the file that match, before the bounds. *)
Definition query_records (options : QueryOptions) (data : string) : list LogRecord :=
  omap (fun line =>
    if String.eqb line EmptyString then None
    else match UnmarshalRecord line with
         | None => None
         | Some r => if query_keep options r then Some r else None
         end)
    (Split ch_newline (TrimRightFunc (Ascii.eqb ch_newline) data)).

Definition bound_tail (tail : Z) (l : list LogRecord) : list LogRecord :=
  if (0 <? tail) && (tail <? Z.of_nat (length l)) then drop (length l - Z.to_nat tail) l else l.

Definition bound_limit (limit : Z) (l : list LogRecord) : list LogRecord :=
  if (0 <? limit) && (limit <? Z.of_nat (length l)) then take (Z.to_nat limit) l else l.

(** What os.ReadFile answered: [None] for a missing file. *)
Definition Query (read : result goerror (option string)) (path : string) (options : QueryOptions)
  : result goerror (list LogRecord) :=
  match read with
  | Err err => Err (EWrap err ("failed to read mount log " +:+ Quote path))
  | Ok None => Ok []
  | Ok (Some data) => Ok (bound_limit (Limit options) (bound_tail (Tail options) (query_records options data)))
  end.
End Query.
