(* ===== verification/IrodsfsConfig.v ===== *)
(** * The configuration handed to irodsfs (service/mount_config.go)

    [makeIRODSFSConfigJSON] starts from irodsfs's own defaults, overlays the
    request and marshals the result.  The types of irodsfs and
    go-irodsclient are outside this repository: the records below hold the
    fields that the code assigns, and [ic_rest] stands for every field that
    it leaves alone.  Defaults, JSON encoding and protobuf durations are
    the operations of the class [IrodsfsLib]. *)

From S2P Require Import Prelude GoStrings GoErrors Api Redact.

(** ** Target records *)

(** irodsclient_fs.ConnectionConfig *)
Record IConnection : Type := mkIConnection {
  icn_CreationTimeout : Z;
  icn_InitNumber : Z;
  icn_MaxNumber : Z;
  icn_MaxIdleNumber : Z;
  icn_Lifespan : Z;
  icn_IdleTimeout : Z;
  icn_OperationTimeout : Z;
  icn_LongOperationTimeout : Z;
  icn_TcpSendBufferSize : Z;
  icn_TcpRecvBufferSize : Z;
  icn_WaitConnection : bool
}.

(** irodsclient_fs.CacheBackendConfig *)
Record IBackend : Type := mkIBackend {
  ib_Type : string;
  ib_Memory_CleanupInterval : Z;
  ib_Memory_DefaultTTL : Z;
  ib_Ristretto_MaxEntries : Z;
  ib_Ristretto_MaxCost : Z;
  ib_Ristretto_BufferItems : Z;
  ib_Ristretto_DefaultTTL : Z;
  ib_Redis_Address : string;
  ib_Redis_DB : Z;
  ib_Redis_Password : string;
  ib_Redis_PoolSize : Z;
  ib_Redis_KeyPrefix : string;
  ib_Redis_ConnectTimeout : Z;
  ib_Redis_CommandTimeout : Z;
  ib_Redis_DefaultTTL : Z;
  ib_Redis_EnableAccountIsolation : bool
}.

(** irodsclient_fs.CacheConfig *)
Record ICache : Type := mkICache {
  ica_MetadataTimeoutSettings : list (string * Z * bool);
  ica_StartNewTransaction : bool;
  ica_Backend : option IBackend
}.

(** The account part of irodsfs_commons.Config. *)
Record IAccount : Type := mkIAccount {
  ia_AuthenticationScheme : string;
  ia_ClientServerNegotiation : string;
  ia_ClientServerPolicy : string;
  ia_Host : string;
  ia_Port : Z;
  ia_ZoneName : string;
  ia_Username : string;
  ia_ClientZoneName : string;
  ia_ClientUsername : string;
  ia_DefaultResource : string;
  ia_CurrentWorkingDir : string;
  ia_Home : string;
  ia_DefaultHashScheme : string;
  ia_MatchHashPolicy : string;
  ia_EncryptionAlgorithm : string;
  ia_EncryptionKeySize : Z;
  ia_EncryptionSaltSize : Z;
  ia_EncryptionNumHashRounds : Z;
  ia_SSLCACertificateFile : string;
  ia_SSLCACertificatePath : string;
  ia_SSLVerifyServer : string;
  ia_SSLCertificateChainFile : string;
  ia_SSLCertificateKeyFile : string;
  ia_SSLDHParamsFile : string;
  ia_Password : string;
  ia_Ticket : string;
  ia_PAMToken : string;
  ia_PAMTTL : Z;
  ia_SSLServerName : string
}.

(** irodsfs_commons.Config *)
Record IConfig (Rest : Type) : Type := mkIConfig {
  ic_Account : IAccount;
  ic_MountPath : string;
  ic_DataRootPath : string;
  ic_ReadAheadMax : Z;
  ic_ReadWriteMax : Z;
  ic_Readonly : bool;
  ic_FuseOptions : list string;
  ic_UID : Z;
  ic_GID : Z;
  ic_SystemUser : string;
  ic_PoolEndpoint : string;
  ic_Foreground : bool;
  ic_Debug : bool;
  ic_InstanceID : string;
  ic_Description : string;
  ic_LogPath : string;
  ic_PathMappings : list PathMapping;
  ic_MetadataConnection : IConnection;
  ic_IOConnection : IConnection;
  ic_Cache : ICache;
  ic_rest : Rest
}.
Arguments mkIConfig {Rest}.
Arguments ic_Account {Rest}. Arguments ic_MountPath {Rest}. Arguments ic_DataRootPath {Rest}.
Arguments ic_ReadAheadMax {Rest}. Arguments ic_ReadWriteMax {Rest}. Arguments ic_Readonly {Rest}.
Arguments ic_FuseOptions {Rest}. Arguments ic_UID {Rest}. Arguments ic_GID {Rest}.
Arguments ic_SystemUser {Rest}. Arguments ic_PoolEndpoint {Rest}. Arguments ic_Foreground {Rest}.
Arguments ic_Debug {Rest}. Arguments ic_InstanceID {Rest}. Arguments ic_Description {Rest}.
Arguments ic_LogPath {Rest}. Arguments ic_PathMappings {Rest}. Arguments ic_MetadataConnection {Rest}.
Arguments ic_IOConnection {Rest}. Arguments ic_Cache {Rest}. Arguments ic_rest {Rest}.

Class IrodsfsLib := {
  IRest : Type;
  irodsfs_NewDefaultConfig : IConfig IRest;
  NewDefaultCacheBackendConfig : IBackend;
  json_Marshal : IConfig IRest -> result goerror string;
  CheckValid : PbDuration -> option goerror;      (* Duration.CheckValid of durationpb *)
  AsDuration : PbDuration -> Z                    (* Duration.AsDuration of durationpb *)
}.

(** ** Overlaying the request *)

(** [if source.Field != nil { target.Field = source.GetField() }] *)
Definition overlay {A} (source : option A) (target : A) : A := default target source.

Definition clientServerNegotiationOff : string := "off".
Definition clientServerNegotiationRequest : string := "request_server_negotiation".

Definition applyAccountConfig (input : IAccount) (account : Account) : IAccount := {|
  ia_AuthenticationScheme := overlay (Account_IrodsAuthenticationScheme account) (ia_AuthenticationScheme input);
  ia_ClientServerNegotiation :=
    match Account_IrodsClientServerNegotiation account with
    | Some true => clientServerNegotiationRequest
    | Some false => clientServerNegotiationOff
    | None => ia_ClientServerNegotiation input
    end;
  ia_ClientServerPolicy := overlay (Account_IrodsClientServerPolicy account) (ia_ClientServerPolicy input);
  ia_Host := Account_IrodsHost account;
  ia_Port := if negb (Account_IrodsPort account =? 0) then Account_IrodsPort account else ia_Port input;
  ia_ZoneName := Account_IrodsZoneName account;
  ia_Username := Account_IrodsUserName account;
  ia_ClientZoneName := overlay (Account_IrodsClientZoneName account) (ia_ClientZoneName input);
  ia_ClientUsername := overlay (Account_IrodsClientUserName account) (ia_ClientUsername input);
  ia_DefaultResource := overlay (Account_IrodsDefaultResource account) (ia_DefaultResource input);
  ia_CurrentWorkingDir := overlay (Account_IrodsCwd account) (ia_CurrentWorkingDir input);
  ia_Home := overlay (Account_IrodsHome account) (ia_Home input);
  ia_DefaultHashScheme := overlay (Account_IrodsDefaultHashScheme account) (ia_DefaultHashScheme input);
  ia_MatchHashPolicy := overlay (Account_IrodsMatchHashPolicy account) (ia_MatchHashPolicy input);
  ia_EncryptionAlgorithm := overlay (Account_IrodsEncryptionAlgorithm account) (ia_EncryptionAlgorithm input);
  ia_EncryptionKeySize := overlay (Account_IrodsEncryptionKeySize account) (ia_EncryptionKeySize input);
  ia_EncryptionSaltSize := overlay (Account_IrodsEncryptionSaltSize account) (ia_EncryptionSaltSize input);
  ia_EncryptionNumHashRounds :=
    overlay (Account_IrodsEncryptionNumHashRounds account) (ia_EncryptionNumHashRounds input);
  ia_SSLCACertificateFile := overlay (Account_IrodsSslCaCertificateFile account) (ia_SSLCACertificateFile input);
  ia_SSLCACertificatePath := overlay (Account_IrodsSslCaCertificatePath account) (ia_SSLCACertificatePath input);
  ia_SSLVerifyServer := overlay (Account_IrodsSslVerifyServer account) (ia_SSLVerifyServer input);
  ia_SSLCertificateChainFile :=
    overlay (Account_IrodsSslCertificateChainFile account) (ia_SSLCertificateChainFile input);
  ia_SSLCertificateKeyFile :=
    overlay (Account_IrodsSslCertificateKeyFile account) (ia_SSLCertificateKeyFile input);
  ia_SSLDHParamsFile := overlay (Account_IrodsSslDhParamsFile account) (ia_SSLDHParamsFile input);
  ia_Password := overlay (Account_IrodsUserPassword account) (ia_Password input);
  ia_Ticket := overlay (Account_IrodsTicket account) (ia_Ticket input);
  ia_PAMToken := overlay (Account_IrodsPamToken account) (ia_PAMToken input);
  ia_PAMTTL := overlay (Account_IrodsPamTtl account) (ia_PAMTTL input);
  ia_SSLServerName := overlay (Account_IrodsSslServerName account) (ia_SSLServerName input)
|}.

Section Overlay.
Context `{IrodsfsLib}.

Definition protobufDuration (value : option PbDuration) (fieldName : string) : result goerror Z :=
  match value with
  | None => Err (ENew (fieldName +:+ " is required"))
  | Some d =>
      match CheckValid d with
      | Some err => Err (EWrap err (fieldName +:+ " is invalid"))
      | None => Ok (AsDuration d)
      end
  end.

(** [if source.Field != nil { d, err := protobufDuration(...); ... target.Field = d }] *)
Definition overlay_duration (source : option PbDuration) (fieldName : string) (target : Z) : result goerror Z :=
  match source with
  | None => Ok target
  | Some _ => protobufDuration source fieldName
  end.

Definition applyConnectionConfig (target : IConnection) (source : option ConnectionConfig) (fieldName : string)
  : result goerror IConnection :=
  match source with
  | None => Ok target
  | Some s =>
      let? creation := overlay_duration (ConnectionConfig_CreationTimeout s)
                         (fieldName +:+ ".creation_timeout") (icn_CreationTimeout target) in
      let? lifespan := overlay_duration (ConnectionConfig_Lifespan s)
                         (fieldName +:+ ".lifespan") (icn_Lifespan target) in
      let? idle := overlay_duration (ConnectionConfig_IdleTimeout s)
                     (fieldName +:+ ".idle_timeout") (icn_IdleTimeout target) in
      let? operation := overlay_duration (ConnectionConfig_OperationTimeout s)
                          (fieldName +:+ ".operation_timeout") (icn_OperationTimeout target) in
      let? longOperation := overlay_duration (ConnectionConfig_LongOperationTimeout s)
                              (fieldName +:+ ".long_operation_timeout") (icn_LongOperationTimeout target) in
      Ok {|
        icn_CreationTimeout := creation;
        icn_InitNumber := overlay (ConnectionConfig_InitNumber s) (icn_InitNumber target);
        icn_MaxNumber := overlay (ConnectionConfig_MaxNumber s) (icn_MaxNumber target);
        icn_MaxIdleNumber := overlay (ConnectionConfig_MaxIdleNumber s) (icn_MaxIdleNumber target);
        icn_Lifespan := lifespan;
        icn_IdleTimeout := idle;
        icn_OperationTimeout := operation;
        icn_LongOperationTimeout := longOperation;
        icn_TcpSendBufferSize := overlay (ConnectionConfig_TcpSendBufferSize s) (icn_TcpSendBufferSize target);
        icn_TcpRecvBufferSize := overlay (ConnectionConfig_TcpRecvBufferSize s) (icn_TcpRecvBufferSize target);
        icn_WaitConnection := overlay (ConnectionConfig_WaitConnection s) (icn_WaitConnection target)
      |}
  end.

(** The fields of [source.Memory], [source.Ristretto], [source.Redis]; a
    nil sub-message overlays nothing. *)
Definition makeCacheBackendConfig (source : CacheBackendConfig) : result goerror IBackend :=
  let target := NewDefaultCacheBackendConfig in
  let memory := CacheBackendConfig_Memory source in
  let ristretto := CacheBackendConfig_Ristretto source in
  let redis := CacheBackendConfig_Redis source in
  let? cleanup := overlay_duration (memory ≫= MemoryBackendConfig_CleanupInterval)
                    "cache.backend.memory.cleanup_interval" (ib_Memory_CleanupInterval target) in
  let? memoryTTL := overlay_duration (memory ≫= MemoryBackendConfig_DefaultTtl)
                      "cache.backend.memory.default_ttl" (ib_Memory_DefaultTTL target) in
  let? ristrettoTTL := overlay_duration (ristretto ≫= RistrettoBackendConfig_DefaultTtl)
                         "cache.backend.ristretto.default_ttl" (ib_Ristretto_DefaultTTL target) in
  let? connect := overlay_duration (redis ≫= RedisBackendConfig_ConnectTimeout)
                    "cache.backend.redis.connect_timeout" (ib_Redis_ConnectTimeout target) in
  let? command := overlay_duration (redis ≫= RedisBackendConfig_CommandTimeout)
                    "cache.backend.redis.command_timeout" (ib_Redis_CommandTimeout target) in
  let? redisTTL := overlay_duration (redis ≫= RedisBackendConfig_DefaultTtl)
                     "cache.backend.redis.default_ttl" (ib_Redis_DefaultTTL target) in
  Ok {|
    ib_Type := if negb (String.eqb (CacheBackendConfig_Type source) EmptyString)
               then CacheBackendConfig_Type source else ib_Type target;
    ib_Memory_CleanupInterval := cleanup;
    ib_Memory_DefaultTTL := memoryTTL;
    ib_Ristretto_MaxEntries :=
      overlay (ristretto ≫= RistrettoBackendConfig_MaxEntries) (ib_Ristretto_MaxEntries target);
    ib_Ristretto_MaxCost := overlay (ristretto ≫= RistrettoBackendConfig_MaxCost) (ib_Ristretto_MaxCost target);
    ib_Ristretto_BufferItems :=
      overlay (ristretto ≫= RistrettoBackendConfig_BufferItems) (ib_Ristretto_BufferItems target);
    ib_Ristretto_DefaultTTL := ristrettoTTL;
    ib_Redis_Address := overlay (redis ≫= RedisBackendConfig_Address) (ib_Redis_Address target);
    ib_Redis_DB := overlay (redis ≫= RedisBackendConfig_Db) (ib_Redis_DB target);
    ib_Redis_Password := overlay (redis ≫= RedisBackendConfig_Password) (ib_Redis_Password target);
    ib_Redis_PoolSize := overlay (redis ≫= RedisBackendConfig_PoolSize) (ib_Redis_PoolSize target);
    ib_Redis_KeyPrefix := overlay (redis ≫= RedisBackendConfig_KeyPrefix) (ib_Redis_KeyPrefix target);
    ib_Redis_ConnectTimeout := connect;
    ib_Redis_CommandTimeout := command;
    ib_Redis_DefaultTTL := redisTTL;
    ib_Redis_EnableAccountIsolation :=
      overlay (redis ≫= RedisBackendConfig_EnableAccountIsolation) (ib_Redis_EnableAccountIsolation target)
  |}.

Fixpoint metadata_settings (index : Z) (settings : list (option MetadataCacheTimeoutSetting))
  : result goerror (list (string * Z * bool)) :=
  match settings with
  | [] => Ok []
  | None :: rest => metadata_settings (index + 1) rest
  | Some setting :: rest =>
      match protobufDuration (MetadataCacheTimeoutSetting_Timeout setting)
              "cache.metadata_timeout_settings.timeout" with
      | Err err => Err (EWrap err ("invalid metadata timeout setting " +:+ Itoa index))
      | Ok duration =>
          let? rest' := metadata_settings (index + 1) rest in
          Ok ((MetadataCacheTimeoutSetting_Path setting, duration,
               default false (MetadataCacheTimeoutSetting_Inherit setting)) :: rest')
      end
  end.

Definition applyCacheConfig (target : ICache) (source : option CacheConfig) : result goerror ICache :=
  match source with
  | None => Ok target
  | Some s =>
      let? settings := metadata_settings 0 (CacheConfig_MetadataTimeoutSettings s) in
      let? backend := match CacheConfig_Backend s with
                      | None => Ok (ica_Backend target)
                      | Some b => let? b' := makeCacheBackendConfig b in Ok (Some b')
                      end in
      Ok {| ica_MetadataTimeoutSettings := settings;
            ica_StartNewTransaction := overlay (CacheConfig_StartNewTransaction s) (ica_StartNewTransaction target);
            ica_Backend := backend |}
  end.

(** [makeIRODSFSConfigJSON] up to the call of [json.Marshal]. *)
Definition irodsfs_input (config : MountConfig) (i : IRODSFSConfig) (account : Account)
    (mountID dataRootPath : string) : result goerror (IConfig IRest) :=
  let input := irodsfs_NewDefaultConfig in
  let? metadata := applyConnectionConfig (ic_MetadataConnection input)
                     (IRODSFSConfig_MetadataConnection i) "metadata_connection" in
  let? io := applyConnectionConfig (ic_IOConnection input) (IRODSFSConfig_IoConnection i) "io_connection" in
  let? cache := applyCacheConfig (ic_Cache input) (IRODSFSConfig_Cache i) in
  Ok {|
    ic_Account := applyAccountConfig (ic_Account input) account;
    ic_MountPath := MountConfig_MountPath config;
    ic_DataRootPath := dataRootPath;
    ic_ReadAheadMax := overlay (IRODSFSConfig_ReadAheadMax i) (ic_ReadAheadMax input);
    ic_ReadWriteMax := overlay (IRODSFSConfig_ReadWriteMax i) (ic_ReadWriteMax input);
    ic_Readonly := MountConfig_ReadOnly config;
    ic_FuseOptions := MountConfig_MountOptions config ++ IRODSFSConfig_FuseOptions i;
    ic_UID := overlay (IRODSFSConfig_Uid i) (ic_UID input);
    ic_GID := overlay (IRODSFSConfig_Gid i) (ic_GID input);
    ic_SystemUser := str_or_empty (IRODSFSConfig_SystemUser i);
    ic_PoolEndpoint := str_or_empty (IRODSFSConfig_PoolEndpoint i);
    ic_Foreground := true;
    ic_Debug := IRODSFSConfig_Debug i;
    ic_InstanceID := mountID;
    ic_Description := str_or_empty (IRODSFSConfig_Description i);
    ic_LogPath := "-";
    ic_PathMappings := omap id (IRODSFSConfig_PathMappings i);
    ic_MetadataConnection := metadata;
    ic_IOConnection := io;
    ic_Cache := cache;
    ic_rest := ic_rest input
  |}.

Definition makeIRODSFSConfigJSON (config : option MountConfig) (mountID dataRootPath : string)
  : result goerror string :=
  match config with
  | None => Err (ENew "mount config is required")
  | Some c =>
      match GetIrodsfs c with
      | None => Err (ENew "irodsfs config is required")
      | Some i =>
          match IRODSFSConfig_Account i with
          | None => Err (ENew "iRODS account is required")
          | Some account =>
              let? input := irodsfs_input c i account mountID dataRootPath in
              match json_Marshal input with
              | Err err => Err (EWrap err "failed to marshal irodsfs configuration")
              | Ok configJSON => Ok configJSON
              end
          end
      end
  end.

End Overlay.

(** ** When a request can be converted *)

(** The durations a request sets, and whether every metadata timeout, which
    is mandatory, is present. *)
Definition connection_durations (s : option ConnectionConfig) : list PbDuration :=
  match s with
  | None => []
  | Some s => omap id [ConnectionConfig_CreationTimeout s; ConnectionConfig_Lifespan s;
                       ConnectionConfig_IdleTimeout s; ConnectionConfig_OperationTimeout s;
                       ConnectionConfig_LongOperationTimeout s]
  end.

Definition backend_durations (b : option CacheBackendConfig) : list PbDuration :=
  match b with
  | None => []
  | Some b =>
      let memory := CacheBackendConfig_Memory b in
      let ristretto := CacheBackendConfig_Ristretto b in
      let redis := CacheBackendConfig_Redis b in
      omap id [memory ≫= MemoryBackendConfig_CleanupInterval; memory ≫= MemoryBackendConfig_DefaultTtl;
               ristretto ≫= RistrettoBackendConfig_DefaultTtl; redis ≫= RedisBackendConfig_ConnectTimeout;
               redis ≫= RedisBackendConfig_CommandTimeout; redis ≫= RedisBackendConfig_DefaultTtl]
  end.

Definition metadata_timeouts (k : option CacheConfig) : list (option PbDuration) :=
  match k with
  | None => []
  | Some k => omap (fmap MetadataCacheTimeoutSetting_Timeout) (CacheConfig_MetadataTimeoutSettings k)
  end.

Definition request_durations (i : IRODSFSConfig) : list PbDuration :=
  connection_durations (IRODSFSConfig_MetadataConnection i) ++
  connection_durations (IRODSFSConfig_IoConnection i) ++
  omap id (metadata_timeouts (IRODSFSConfig_Cache i)) ++
  backend_durations (IRODSFSConfig_Cache i ≫= CacheConfig_Backend).

Section Convertible.
Context `{IrodsfsLib}.

Definition duration_ok (d : PbDuration) : Prop := CheckValid d = None.

Lemma overlay_duration_ok source name target :
  is_Ok (overlay_duration source name target) = true <-> Forall duration_ok (omap id [source]).
Proof.
  unfold overlay_duration, protobufDuration, duration_ok. destruct source as [d|]; simpl.
  - rewrite Forall_singleton. by destruct (CheckValid d).
  - split; [constructor | done].
Qed.

Lemma is_Ok_bind {A B} (r : result goerror A) (k : A -> result goerror B) (P Q : Prop) :
  (is_Ok r = true <-> P) -> (forall a, is_Ok (k a) = true <-> Q) ->
  is_Ok (result_bind r k) = true <-> P /\ Q.
Proof. intros <- Hk. destruct r as [a|e]; simpl; [|naive_solver]. rewrite (Hk a). naive_solver. Qed.

(** One step of a chain of duration overlays. *)
Lemma overlay_step {B} source name target (k : Z -> result goerror B) l :
  (forall a, is_Ok (k a) = true <-> Forall duration_ok (omap id l)) ->
  is_Ok (result_bind (overlay_duration source name target) k) = true <->
  Forall duration_ok (omap id (source :: l)).
Proof.
  intros Hk. rewrite (is_Ok_bind _ _ _ _ (overlay_duration_ok source name target) Hk), <- Forall_app.
  by destruct source.
Qed.

Ltac duration_chain := repeat (apply overlay_step; intros ?); split; [constructor | done].

Lemma applyConnectionConfig_ok target s name :
  is_Ok (applyConnectionConfig target s name) = true <-> Forall duration_ok (connection_durations s).
Proof. destruct s as [s|]; [|split; [constructor|done]]. unfold applyConnectionConfig. duration_chain. Qed.

Lemma makeCacheBackendConfig_ok b :
  is_Ok (makeCacheBackendConfig b) = true <-> Forall duration_ok (backend_durations (Some b)).
Proof. unfold makeCacheBackendConfig. duration_chain. Qed.

Lemma metadata_settings_ok index settings :
  is_Ok (metadata_settings index settings) = true <->
  Forall is_Some (omap (fmap MetadataCacheTimeoutSetting_Timeout) settings) /\
  Forall duration_ok (omap id (omap (fmap MetadataCacheTimeoutSetting_Timeout) settings)).
Proof.
  revert index. induction settings as [|[s|] l IH]; intros index; cbn -[Itoa].
  - split; [by split; constructor | done].
  - unfold protobufDuration at 1. destruct (MetadataCacheTimeoutSetting_Timeout s) as [d|]; cbn -[Itoa].
    + rewrite !Forall_cons. unfold duration_ok at 1. destruct (CheckValid d).
      * naive_solver.
      * rewrite (is_Ok_bind _ _ _ True (IH (index + 1))) by done. naive_solver.
    + rewrite Forall_cons. split; [done|]. intros [[[? [=]] _] _].
  - apply IH.
Qed.

Lemma applyCacheConfig_ok target k :
  is_Ok (applyCacheConfig target k) = true <->
  Forall is_Some (metadata_timeouts k) /\
  Forall duration_ok (omap id (metadata_timeouts k) ++ backend_durations (k ≫= CacheConfig_Backend)).
Proof.
  destruct k as [k|]; [|split; [by repeat constructor|done]]. unfold applyCacheConfig.
  rewrite (is_Ok_bind _ _ _ (Forall duration_ok (backend_durations (CacheConfig_Backend k)))
             (metadata_settings_ok 0 _)).
  - rewrite Forall_app. simpl (Some k ≫= _). unfold metadata_timeouts. tauto.
  - intros settings.
    rewrite (is_Ok_bind _ _ (Forall duration_ok (backend_durations (CacheConfig_Backend k))) True); [tauto| |done].
    destruct (CacheConfig_Backend k) as [b|]; [|split; [constructor|done]].
    rewrite (is_Ok_bind _ _ _ True (makeCacheBackendConfig_ok b)) by done. tauto.
Qed.

(** With a JSON encoder that does not fail, an irodsfs request with an
    account can be converted exactly when every duration it sets is valid
    and every metadata timeout setting has a timeout; otherwise the
    conversion is an error, never a configuration with a default in place
    of what was asked. *)
Theorem irodsfs_config_convertible c i account mountID dataRootPath :
  (forall input, exists json, json_Marshal input = Ok json) ->
  GetIrodsfs c = Some i -> IRODSFSConfig_Account i = Some account ->
  is_Ok (makeIRODSFSConfigJSON (Some c) mountID dataRootPath) = true <->
  Forall is_Some (metadata_timeouts (IRODSFSConfig_Cache i)) /\ Forall duration_ok (request_durations i).
Proof.
  intros Hjson Hi Ha. unfold makeIRODSFSConfigJSON. rewrite Hi, Ha.
  rewrite (is_Ok_bind _ _ (Forall is_Some (metadata_timeouts (IRODSFSConfig_Cache i)) /\
                           Forall duration_ok (request_durations i)) True); [tauto| |].
  2: { intros input. destruct (Hjson input) as [json ->]. done. }
  unfold irodsfs_input, request_durations. rewrite !Forall_app.
  rewrite (is_Ok_bind _ _ _ (Forall duration_ok (connection_durations (IRODSFSConfig_IoConnection i)) /\
    is_Ok (applyCacheConfig (ic_Cache irodsfs_NewDefaultConfig) (IRODSFSConfig_Cache i)) = true)
    (applyConnectionConfig_ok _ _ _)).
  - rewrite applyCacheConfig_ok, Forall_app. tauto.
  - intros a1. apply (is_Ok_bind _ _ _ _ (applyConnectionConfig_ok _ _ _)). intros a2.
    by destruct (applyCacheConfig _ _).
Qed.

End Convertible.

(** ** Example *)

Definition plain_connection : IConnection := mkIConnection 0 0 0 0 0 0 0 0 0 0 false.
Definition plain_backend : IBackend := mkIBackend "memory" 0 0 0 0 0 0 "" 0 "" 0 "" 0 0 0 false.
Definition plain_account : IAccount :=
  mkIAccount "native" "" "" "" 1247 "" "" "" "" "" "" "" "" "" "" 0 0 0 "" "" "" "" "" "" "" "" "" 0 "".

Definition plain_irodsfs : IrodsfsLib := {|
  IRest := unit;
  irodsfs_NewDefaultConfig :=
    mkIConfig plain_account "" "" 0 0 false [] 0 0 "" "" false false "" "" "" [] plain_connection
      plain_connection (mkICache [] false None) tt;
  NewDefaultCacheBackendConfig := plain_backend;
  json_Marshal input := Ok ("{host: " +:+ ia_Host (ic_Account input) +:+ ", password: " +:+
                            ia_Password (ic_Account input) +:+ "}");
  CheckValid d :=
    if (Z.abs (PbDuration_Seconds d) <=? 315576000000) && (Z.abs (PbDuration_Nanos d) <? 1000000000)
       && (0 <=? PbDuration_Seconds d * PbDuration_Nanos d)
    then None else Some (ENew "duration is out of range");
  AsDuration d := PbDuration_Seconds d * 1000000000 + PbDuration_Nanos d
|}.

Definition example_account (host user zone : string) (password : option string) : Account :=
  mkAccount None None None host 0 zone None user None None None None None None None None None None
    None None None None None None password None None None None.

Definition example_irodsfs (timeout : option PbDuration) (password : option string) : IRODSFSConfig :=
  mkIRODSFSConfig (Some (example_account "data.cyverse.org" "alice" "iplant" password)) [] None None [] None
    None None (Some (mkConnectionConfig timeout None None None None None None None None None None))
    None None None false None.

Definition irodsfs_request (path : string) (timeout : option PbDuration) (password : option string)
  : MountConfig := {|
  MountConfig_MountPath := path;
  MountConfig_ReadOnly := false;
  MountConfig_MountOptions := [];
  MountConfig_ClientConfig := Some (MountConfig_Irodsfs (Some (example_irodsfs timeout password)))
|}.

Lemma irodsfs_config_convertible_witness :
  is_Ok (@makeIRODSFSConfigJSON plain_irodsfs
           (Some (irodsfs_request "/mnt/irods/a" (Some (mkPbDuration 1 (-1))) None)) "m" "/d") = true <->
  Forall is_Some (metadata_timeouts None) /\ Forall (@duration_ok plain_irodsfs) [mkPbDuration 1 (-1)].
Proof.
  apply (@irodsfs_config_convertible plain_irodsfs _
    (example_irodsfs (Some (mkPbDuration 1 (-1))) None) (example_account "data.cyverse.org" "alice" "iplant" None)).
  - intros input. eexists. reflexivity.
  - reflexivity.
  - reflexivity.
Defined.
