(* ===== verification/Repository.v ===== *)
(** * The mount repository (service/store)

    store.go and mount_repository.go over a key-value database.  BadgerDB is
    outside this repository: the model keeps its documented contract, that a
    transaction is applied as a whole or not at all and that any call may
    fail.  A list of [faults] says which calls fail: each call takes the
    next element, [Some e] makes it fail with [e] and an exhausted list
    never fails.  The JSON and protobuf encoders are the class
    [RecordCodec]. *)

From S2P Require Import Prelude GoStrings GoPath GoErrors Base64 Api.

(** ** Records *)

Record MountRecord : Type := mkMountRecord {
  Record_Info : option MountInfo;
  Record_Tombstone : bool
}.

(** The on-disk envelope. *)
Record storedRecord : Type := mkStoredRecord {
  stored_SchemaVersion : Z;
  stored_Tombstone : bool;
  stored_Info : string
}.

Definition CurrentSchemaVersion : Z := 1.

(** protojson.Marshal, protojson.Unmarshal and encoding/json on the
    envelope.  json.Marshal may reformat the embedded raw message, so the
    envelope's law only promises that the message still parses the same. *)
Class RecordCodec := {
  info_Marshal : MountInfo -> result goerror string;
  info_Unmarshal : string -> result goerror MountInfo;
  stored_Marshal : storedRecord -> result goerror string;
  stored_Unmarshal : string -> result goerror storedRecord;
  info_roundtrip : forall i s, info_Marshal i = Ok s -> info_Unmarshal s = Ok i;
  stored_roundtrip : forall st s, stored_Marshal st = Ok s ->
    exists raw, stored_Unmarshal s = Ok (mkStoredRecord (stored_SchemaVersion st) (stored_Tombstone st) raw) /\
                info_Unmarshal raw = info_Unmarshal (stored_Info st)
}.

Section Codec.
Context `{RecordCodec}.

Definition encodeRecord (info : MountInfo) (tombstone : bool) : result goerror string :=
  match info_Marshal info with
  | Err err => Err (EWrap err "failed to marshal mount record")
  | Ok infoJSON =>
      match stored_Marshal (mkStoredRecord CurrentSchemaVersion tombstone infoJSON) with
      | Err err => Err (EWrap err "failed to marshal mount record")
      | Ok data => Ok data
      end
  end.

Definition decodeRecord (data : string) : result goerror MountRecord :=
  match stored_Unmarshal data with
  | Err err => Err (EWrap err "failed to unmarshal mount record")
  | Ok stored =>
      match info_Unmarshal (stored_Info stored) with
      | Err err => Err (EWrap err "failed to unmarshal mount record")
      | Ok info => Ok (mkMountRecord (Some info) (stored_Tombstone stored))
      end
  end.

Lemma decode_encode_record info tombstone data :
  encodeRecord info tombstone = Ok data -> decodeRecord data = Ok (mkMountRecord (Some info) tombstone).
Proof.
  unfold encodeRecord, decodeRecord. destruct (info_Marshal info) as [raw|] eqn:E1; [|done].
  destruct (stored_Marshal _) as [s|] eqn:E2; [|done]. intros [= <-].
  apply stored_roundtrip in E2 as (raw' & -> & Hraw). simpl in *.
  by rewrite Hraw, (info_roundtrip _ _ E1).
Qed.
End Codec.

(** ** Transactions *)

Notation DB := (gmap string string).
Definition faults : Type := list (option goerror).

(** The view of one transaction: the database with its pending writes, and
    the faults still to come. *)
Record Txn : Type := mkTxn { txn_db : DB; txn_faults : faults }.

Definition txnM (A : Type) : Type := Txn -> result goerror A * Txn.

Definition txn_ret {A} (a : A) : txnM A := fun t => (Ok a, t).
Definition txn_fail {A} (e : goerror) : txnM A := fun t => (Err e, t).
Definition txn_bind {A B} (m : txnM A) (k : A -> txnM B) : txnM B := fun t =>
  match m t with
  | (Ok a, t') => k a t'
  | (Err e, t') => (Err e, t')
  end.
(** [x := m] that keeps the error as a value, for code that inspects it. *)
Definition txn_try {A} (m : txnM A) : txnM (result goerror A) := fun t =>
  let '(r, t') := m t in (Ok r, t').

Notation "'let!' x ':=' m 'in' k" := (txn_bind m (fun x => k))
  (at level 10, x pattern, m at level 100, k at level 200) : go_scope.

Definition take_fault (f : faults) : option goerror * faults :=
  match f with [] => (None, []) | x :: f' => (x, f') end.

Definition faulty {A} (m : Txn -> result goerror A * DB) : txnM A := fun t =>
  match take_fault (txn_faults t) with
  | (Some e, f) => (Err e, mkTxn (txn_db t) f)
  | (None, f) => let '(r, db) := m t in (r, mkTxn db f)
  end.

(** txn.Get, item.ValueCopy, txn.Set, txn.Delete *)
Definition txn_Get (key : string) : txnM string :=
  faulty (fun t => (match txn_db t !! key with
                    | Some v => Ok v
                    | None => Err (ESentinel badger_ErrKeyNotFound)
                    end, txn_db t)).
Definition txn_ValueCopy (item : string) : txnM string := faulty (fun t => (Ok item, txn_db t)).
Definition txn_Set (key value : string) : txnM unit := faulty (fun t => (Ok tt, <[key := value]> (txn_db t))).
Definition txn_Delete (key : string) : txnM unit := faulty (fun t => (Ok tt, delete key (txn_db t))).

(** db.Update: commits the writes of [fn], or none of them. *)
Definition db_Update (fn : txnM unit) (db : DB) (f : faults) : option goerror * DB * faults :=
  match fn (mkTxn db f) with
  | (Err e, t) => (Some e, db, txn_faults t)
  | (Ok _, t) =>
      match take_fault (txn_faults t) with
      | (Some e, f') => (Some e, db, f')
      | (None, f') => (None, txn_db t, f')
      end
  end.

(** db.View *)
Definition db_View {A} (fn : txnM A) (db : DB) (f : faults) : result goerror A * faults :=
  let '(r, t) := fn (mkTxn db f) in (r, txn_faults t).

(** ** Keys *)

Definition mountKeyPrefix : string := "mounts/".
Definition mountPathKeyPrefix : string := "mount-paths/".
Definition metaSchemaVersionKey : string := "meta/schema-version".

Definition mountKey (mountID : string) : string := mountKeyPrefix +:+ mountID.
Definition mountPathKey (canonicalPath : string) : string :=
  mountPathKeyPrefix +:+ RawURLEncode canonicalPath.

(** ** The repository *)

Definition maxConflictRetries : nat := 10.

(** context.Context as far as the repository looks at it: the value of
    [ctx.Err()] on entry. *)
Definition ctx_err : Type := option goerror.

Definition validateRecordForWrite (record : option MountRecord) : result goerror string :=
  match record with
  | None => Err (ENew "mount record is required")
  | Some r =>
      match Record_Info r with
      | None => Err (ENew "mount record is required")
      | Some info =>
          if String.eqb (MountInfo_MountId info) EmptyString then Err (ENew "mount ID is required")
          else
            let mountPath := GetMountPath info in
            if String.eqb mountPath EmptyString || negb (IsAbs mountPath)
            then Err (ENew "mount path must be absolute")
            else Ok (Clean mountPath)
      end
  end.

Section Repository.
Context `{ErrorLib} `{RecordCodec}.

Fixpoint conflict_retry (attempts : nat) (err : option goerror) (fn : txnM unit) (db : DB) (f : faults)
  : option goerror * DB * faults :=
  match attempts with
  | O => (err, db, f)
  | S attempts' =>
      let '(err, db', f') := db_Update fn db f in
      if negb (IsOpt err badger_ErrConflict) then (err, db', f')
      else conflict_retry attempts' err fn db' f'
  end.

Definition updateWithConflictRetry (fn : txnM unit) (db : DB) (f : faults) : option goerror * DB * faults :=
  conflict_retry maxConflictRetries None fn db f.

Definition create_txn (mountID canonicalPath data : string) : txnM unit :=
  let pathKey := mountPathKey canonicalPath in
  let! existing := txn_try (txn_Get (mountKey mountID)) in
  match existing with
  | Ok _ => txn_fail (EWrap (ESentinel store_ErrMountIDConflict) ("mount ID " +:+ Quote mountID))
  | Err getErr =>
      if negb (Is getErr badger_ErrKeyNotFound)
      then txn_fail (EWrap getErr "failed to check existing mount record")
      else
        let! item := txn_try (txn_Get pathKey) in
        match item with
        | Ok item =>
            let! owner := txn_try (txn_ValueCopy item) in
            match owner with
            | Err valueErr => txn_fail (EWrap valueErr "failed to check mount path index")
            | Ok owner =>
                txn_fail (EWrap (ESentinel store_ErrMountPathConflict)
                  ("mount path " +:+ Quote canonicalPath +:+ " is owned by " +:+ Quote owner))
            end
        | Err getErr =>
            if negb (Is getErr badger_ErrKeyNotFound)
            then txn_fail (EWrap getErr "failed to check mount path index")
            else
              let! set1 := txn_try (txn_Set (mountKey mountID) data) in
              match set1 with
              | Err err => txn_fail (EWrap err "failed to store mount record")
              | Ok _ =>
                  let! set2 := txn_try (txn_Set pathKey mountID) in
                  match set2 with
                  | Err err => txn_fail (EWrap err "failed to store mount path index")
                  | Ok _ => txn_ret tt
                  end
              end
        end
  end.

Definition Create (ctx : ctx_err) (record : option MountRecord) (db : DB) (f : faults)
  : option goerror * DB * faults :=
  match ctx with
  | Some err => (Some err, db, f)
  | None =>
      match validateRecordForWrite record, record ≫= Record_Info with
      | Err err, _ => (Some err, db, f)
      | Ok _, None => (Some (ENew "mount record is required"), db, f)
      | Ok canonicalPath, Some info =>
          match encodeRecord info (from_option Record_Tombstone false record) with
          | Err err => (Some err, db, f)
          | Ok data => updateWithConflictRetry (create_txn (MountInfo_MountId info) canonicalPath data) db f
          end
      end
  end.

Definition update_txn (mountID data : string) : txnM unit :=
  let! existing := txn_try (txn_Get (mountKey mountID)) in
  match existing with
  | Err getErr =>
      if Is getErr badger_ErrKeyNotFound
      then txn_fail (EWrap (ESentinel store_ErrMountNotFound) ("mount ID " +:+ Quote mountID))
      else txn_fail (EWrap getErr "failed to check existing mount record")
  | Ok _ =>
      let! set := txn_try (txn_Set (mountKey mountID) data) in
      match set with
      | Err err => txn_fail (EWrap err "failed to update mount record")
      | Ok _ => txn_ret tt
      end
  end.

Definition Update (ctx : ctx_err) (record : option MountRecord) (db : DB) (f : faults)
  : option goerror * DB * faults :=
  match ctx with
  | Some err => (Some err, db, f)
  | None =>
      match validateRecordForWrite record, record ≫= Record_Info with
      | Err err, _ => (Some err, db, f)
      | Ok _, None => (Some (ENew "mount record is required"), db, f)
      | Ok _, Some info =>
          match encodeRecord info (from_option Record_Tombstone false record) with
          | Err err => (Some err, db, f)
          | Ok data => updateWithConflictRetry (update_txn (MountInfo_MountId info) data) db f
          end
      end
  end.

Definition record_path (record : MountRecord) : string :=
  match Record_Info record with Some info => GetMountPath info | None => EmptyString end.

Definition delete_txn (mountID : string) : txnM unit :=
  let! item := txn_try (txn_Get (mountKey mountID)) in
  match item with
  | Err err =>
      if Is err badger_ErrKeyNotFound then txn_ret tt
      else txn_fail (EWrap err "failed to read mount record for deletion")
  | Ok item =>
      let! data := txn_try (txn_ValueCopy item) in
      match data with
      | Err err => txn_fail (EWrap err "failed to read mount record for deletion")
      | Ok data =>
          match decodeRecord data with
          | Err err => txn_fail err
          | Ok record =>
              let! del1 := txn_try (txn_Delete (mountKey mountID)) in
              match del1 with
              | Err err => txn_fail (EWrap err "failed to delete mount record")
              | Ok _ =>
                  let canonicalPath := Clean (record_path record) in
                  let! del2 := txn_try (txn_Delete (mountPathKey canonicalPath)) in
                  match del2 with
                  | Err err => txn_fail (EWrap err "failed to delete mount path index")
                  | Ok _ => txn_ret tt
                  end
              end
          end
      end
  end.

Definition Delete (ctx : ctx_err) (mountID : string) (db : DB) (f : faults) : option goerror * DB * faults :=
  match ctx with
  | Some err => (Some err, db, f)
  | None =>
      if String.eqb mountID EmptyString then (Some (ENew "mount ID is required"), db, f)
      else updateWithConflictRetry (delete_txn mountID) db f
  end.

Definition get_txn (mountID : string) : txnM MountRecord :=
  let! item := txn_try (txn_Get (mountKey mountID)) in
  match item with
  | Err getErr =>
      if Is getErr badger_ErrKeyNotFound
      then txn_fail (EWrap (ESentinel store_ErrMountNotFound) ("mount ID " +:+ Quote mountID))
      else txn_fail (EWrap getErr "failed to read mount record")
  | Ok item =>
      let! data := txn_try (txn_ValueCopy item) in
      match data with
      | Err err => txn_fail (EWrap err "failed to read mount record")
      | Ok data =>
          match decodeRecord data with
          | Err err => txn_fail err
          | Ok record => txn_ret record
          end
      end
  end.

Definition Get (ctx : ctx_err) (mountID : string) (db : DB) (f : faults) : result goerror MountRecord * faults :=
  match ctx with
  | Some err => (Err err, f)
  | None => db_View (get_txn mountID) db f
  end.

(** The iterator visits the keys with the prefix; the order is that of
    [map_to_list], the source promises none. *)
Fixpoint list_txn (items : list (string * string)) : txnM (list MountRecord) :=
  match items with
  | [] => txn_ret []
  | (key, value) :: rest =>
      let! data := txn_try (txn_ValueCopy value) in
      match data with
      | Err err => txn_fail (EWrap err "failed to read mount record")
      | Ok data =>
          match decodeRecord data with
          | Err err => txn_fail err
          | Ok record => let! records := list_txn rest in txn_ret (record :: records)
          end
      end
  end.

Definition record_items (db : DB) : list (string * string) :=
  List.filter (fun kv => HasPrefix (fst kv) mountKeyPrefix) (map_to_list db).

Definition List (ctx : ctx_err) (db : DB) (f : faults) : result goerror (list MountRecord) * faults :=
  match ctx with
  | Some err => (Err err, f)
  | None => db_View (fun t => list_txn (record_items (txn_db t)) t) db f
  end.

End Repository.

(** ** The schema version (store.go) *)

(** binary.BigEndian.PutUint64 and Uint64 *)
Definition encodeUint64 (value : Z) : string :=
  String.string_of_list_ascii (map (fun i => ascii_of_N (Z.to_N (value / 2 ^ (8 * i) mod 256)))
                            [7; 6; 5; 4; 3; 2; 1; 0]).

Definition decodeUint64 (value : string) : Z :=
  fold_left (fun acc c => acc * 256 + Z.of_N (N_of_ascii c)) (String.list_ascii_of_string value) 0.

Section Store.
Context `{ErrorLib}.

Definition readSchemaVersion : txnM Z :=
  let! item := txn_try (txn_Get metaSchemaVersionKey) in
  match item with
  | Err err =>
      if Is err badger_ErrKeyNotFound then txn_ret 0
      else txn_fail (EWrap err "failed to read mount database schema version")
  | Ok item =>
      let! value := txn_try (txn_ValueCopy item) in
      match value with
      | Err err => txn_fail (EWrap err "failed to read mount database schema version")
      | Ok value =>
          if negb (Z.of_nat (String.length value) =? 8)
          then txn_fail (ENew ("mount database schema version record has invalid length " +:+
                               Itoa (Z.of_nat (String.length value))))
          else txn_ret (decodeUint64 value)
      end
  end.

(** The steps from one version of the schema to the next, by the version they
    start from.  There are none yet. *)
Definition migrations : gmap Z (txnM unit) := ∅.

(** The loop over the versions from [version] on, [count] of them. *)
Fixpoint migrate_versions (count : nat) (version : Z) : txnM unit :=
  match count with
  | O => txn_ret tt
  | S count =>
      match migrations !! version with
      | None => migrate_versions count (version + 1)
      | Some migrate =>
          let! migrated := txn_try migrate in
          match migrated with
          | Err err => txn_fail (EWrap err ("failed to migrate mount database from schema version " +:+ Itoa version))
          | Ok _ => migrate_versions count (version + 1)
          end
      end
  end.

Definition ensure_schema_txn : txnM unit :=
  let! stored := readSchemaVersion in
  if CurrentSchemaVersion <? stored then
    txn_fail (ENew ("mount database schema version " +:+ Itoa stored +:+ " is newer than the version " +:+
                    Itoa CurrentSchemaVersion +:+ " supported by this build"))
  else
    let! _ := migrate_versions (Z.to_nat (CurrentSchemaVersion - stored)) stored in
    if stored =? CurrentSchemaVersion then txn_ret tt
    else txn_Set metaSchemaVersionKey (encodeUint64 CurrentSchemaVersion).

Definition ensureSchema (db : DB) (f : faults) : option goerror * DB * faults :=
  db_Update ensure_schema_txn db f.

(** As long as the table is empty, the loop only skips. *)
Lemma migrate_versions_none count version : migrate_versions count version = txn_ret tt.
Proof. revert version. induction count as [|count IH]; intros version; [done|]. apply IH. Qed.

End Store.

(** ** The database's own log (store.go)

    badgerLogger: what badger reports with one of its methods goes to logrus
    at a level of its own. *)
Inductive badger_method : Type := Errorf | Warningf | Infof | Debugf.
Inductive log_level : Type := ErrorLevel | WarnLevel | InfoLevel | DebugLevel.

Definition badgerLogger (method : badger_method) : log_level :=
  match method with
  | Errorf => ErrorLevel
  | Warningf => WarnLevel
  | Infof => DebugLevel
  | Debugf => DebugLevel
  end.
