(* ===== verification/PlainCodec.v ===== *)
(** * A concrete record codec

    Instances of [RecordCodec] and [LogCodec] for the examples: every message
    is encoded as the list of its encoded fields (stdpp's [Countable]) and
    written out as a string of binary digits. *)

From stdpp Require Import countable.
From S2P Require Import Prelude GoStrings GoErrors Api LogStore Repository.

Lemma bind_decode `{Countable A} {B} (a : A) (f : A -> option B) : (decode (encode a) ≫= f) = f a.
Proof. by rewrite decode_encode. Qed.

(** Replays a field list through [decode]. *)
Ltac record_codec :=
  intros []; cbv beta iota; rewrite decode_encode; cbv beta iota; repeat (rewrite bind_decode; cbv beta);
  reflexivity.

#[export, refine] Instance MountState_countable : Countable MountState := {|
  encode s := encode (MountState_number s);
  decode p := z ← decode p;
    List.find (fun s => MountState_number s =? z)
      [MOUNT_STATE_UNSPECIFIED; MOUNT_STATE_PENDING_MOUNT; MOUNT_STATE_MOUNTING; MOUNT_STATE_MOUNTED;
       MOUNT_STATE_PENDING_UNMOUNT; MOUNT_STATE_UNMOUNTING; MOUNT_STATE_RETRY_WAIT; MOUNT_STATE_FAILED]
|}.
Proof. intros s. rewrite decode_encode. by destruct s. Defined.

#[export] Instance Account_eq_dec : EqDecision Account.
Proof. solve_decision. Defined.

#[export, refine] Instance Account_countable : Countable Account := {|
  encode r := encode [
            encode (Account_IrodsAuthenticationScheme r);
            encode (Account_IrodsClientServerNegotiation r);
            encode (Account_IrodsClientServerPolicy r); encode (Account_IrodsHost r);
            encode (Account_IrodsPort r); encode (Account_IrodsZoneName r);
            encode (Account_IrodsClientZoneName r); encode (Account_IrodsUserName r);
            encode (Account_IrodsClientUserName r); encode (Account_IrodsDefaultResource r);
            encode (Account_IrodsCwd r); encode (Account_IrodsHome r);
            encode (Account_IrodsDefaultHashScheme r); encode (Account_IrodsMatchHashPolicy r);
            encode (Account_IrodsEncryptionAlgorithm r); encode (Account_IrodsEncryptionKeySize r);
            encode (Account_IrodsEncryptionSaltSize r);
            encode (Account_IrodsEncryptionNumHashRounds r);
            encode (Account_IrodsSslCaCertificateFile r);
            encode (Account_IrodsSslCaCertificatePath r); encode (Account_IrodsSslVerifyServer r);
            encode (Account_IrodsSslCertificateChainFile r);
            encode (Account_IrodsSslCertificateKeyFile r); encode (Account_IrodsSslDhParamsFile r);
            encode (Account_IrodsUserPassword r); encode (Account_IrodsTicket r);
            encode (Account_IrodsPamToken r); encode (Account_IrodsPamTtl r);
            encode (Account_IrodsSslServerName r)];
  decode p :=
    match decode p with
    | Some [
            p1; p2; p3; p4; p5; p6; p7; p8; p9; p10; p11; p12; p13; p14; p15; p16; p17; p18; p19;
            p20; p21; p22; p23; p24; p25; p26; p27; p28; p29] =>
        x1 ← decode p1;
        x2 ← decode p2;
        x3 ← decode p3;
        x4 ← decode p4;
        x5 ← decode p5;
        x6 ← decode p6;
        x7 ← decode p7;
        x8 ← decode p8;
        x9 ← decode p9;
        x10 ← decode p10;
        x11 ← decode p11;
        x12 ← decode p12;
        x13 ← decode p13;
        x14 ← decode p14;
        x15 ← decode p15;
        x16 ← decode p16;
        x17 ← decode p17;
        x18 ← decode p18;
        x19 ← decode p19;
        x20 ← decode p20;
        x21 ← decode p21;
        x22 ← decode p22;
        x23 ← decode p23;
        x24 ← decode p24;
        x25 ← decode p25;
        x26 ← decode p26;
        x27 ← decode p27;
        x28 ← decode p28;
        x29 ← decode p29;
        Some (mkAccount
        x1 x2 x3 x4 x5 x6 x7 x8 x9 x10 x11 x12 x13 x14 x15 x16 x17 x18 x19 x20 x21 x22 x23 x24 x25
        x26 x27 x28 x29)
    | _ => None
    end
|}.
Proof. record_codec. Defined.

#[export] Instance PathMapping_eq_dec : EqDecision PathMapping.
Proof. solve_decision. Defined.

#[export, refine] Instance PathMapping_countable : Countable PathMapping := {|
  encode r := encode [
            encode (PathMapping_IrodsPath r); encode (PathMapping_MappingPath r);
            encode (PathMapping_ResourceType r); encode (PathMapping_ReadOnly r);
            encode (PathMapping_CreateDir r); encode (PathMapping_IgnoreNotExistError r)];
  decode p :=
    match decode p with
    | Some [
            p1; p2; p3; p4; p5; p6] =>
        x1 ← decode p1;
        x2 ← decode p2;
        x3 ← decode p3;
        x4 ← decode p4;
        x5 ← decode p5;
        x6 ← decode p6;
        Some (mkPathMapping
        x1 x2 x3 x4 x5 x6)
    | _ => None
    end
|}.
Proof. record_codec. Defined.

#[export] Instance PbDuration_eq_dec : EqDecision PbDuration.
Proof. solve_decision. Defined.

#[export, refine] Instance PbDuration_countable : Countable PbDuration := {|
  encode r := encode [
            encode (PbDuration_Seconds r); encode (PbDuration_Nanos r)];
  decode p :=
    match decode p with
    | Some [
            p1; p2] =>
        x1 ← decode p1;
        x2 ← decode p2;
        Some (mkPbDuration
        x1 x2)
    | _ => None
    end
|}.
Proof. record_codec. Defined.

#[export] Instance ConnectionConfig_eq_dec : EqDecision ConnectionConfig.
Proof. solve_decision. Defined.

#[export, refine] Instance ConnectionConfig_countable : Countable ConnectionConfig := {|
  encode r := encode [
            encode (ConnectionConfig_CreationTimeout r); encode (ConnectionConfig_InitNumber r);
            encode (ConnectionConfig_MaxNumber r); encode (ConnectionConfig_MaxIdleNumber r);
            encode (ConnectionConfig_Lifespan r); encode (ConnectionConfig_IdleTimeout r);
            encode (ConnectionConfig_OperationTimeout r);
            encode (ConnectionConfig_LongOperationTimeout r);
            encode (ConnectionConfig_TcpSendBufferSize r);
            encode (ConnectionConfig_TcpRecvBufferSize r);
            encode (ConnectionConfig_WaitConnection r)];
  decode p :=
    match decode p with
    | Some [
            p1; p2; p3; p4; p5; p6; p7; p8; p9; p10; p11] =>
        x1 ← decode p1;
        x2 ← decode p2;
        x3 ← decode p3;
        x4 ← decode p4;
        x5 ← decode p5;
        x6 ← decode p6;
        x7 ← decode p7;
        x8 ← decode p8;
        x9 ← decode p9;
        x10 ← decode p10;
        x11 ← decode p11;
        Some (mkConnectionConfig
        x1 x2 x3 x4 x5 x6 x7 x8 x9 x10 x11)
    | _ => None
    end
|}.
Proof. record_codec. Defined.

#[export] Instance MetadataCacheTimeoutSetting_eq_dec : EqDecision MetadataCacheTimeoutSetting.
Proof. solve_decision. Defined.

#[export, refine] Instance MetadataCacheTimeoutSetting_countable : Countable MetadataCacheTimeoutSetting := {|
  encode r := encode [
            encode (MetadataCacheTimeoutSetting_Path r);
            encode (MetadataCacheTimeoutSetting_Timeout r);
            encode (MetadataCacheTimeoutSetting_Inherit r)];
  decode p :=
    match decode p with
    | Some [
            p1; p2; p3] =>
        x1 ← decode p1;
        x2 ← decode p2;
        x3 ← decode p3;
        Some (mkMetadataCacheTimeoutSetting
        x1 x2 x3)
    | _ => None
    end
|}.
Proof. record_codec. Defined.

#[export] Instance MemoryBackendConfig_eq_dec : EqDecision MemoryBackendConfig.
Proof. solve_decision. Defined.

#[export, refine] Instance MemoryBackendConfig_countable : Countable MemoryBackendConfig := {|
  encode r := encode [
            encode (MemoryBackendConfig_CleanupInterval r);
            encode (MemoryBackendConfig_DefaultTtl r)];
  decode p :=
    match decode p with
    | Some [
            p1; p2] =>
        x1 ← decode p1;
        x2 ← decode p2;
        Some (mkMemoryBackendConfig
        x1 x2)
    | _ => None
    end
|}.
Proof. record_codec. Defined.

#[export] Instance RistrettoBackendConfig_eq_dec : EqDecision RistrettoBackendConfig.
Proof. solve_decision. Defined.

#[export, refine] Instance RistrettoBackendConfig_countable : Countable RistrettoBackendConfig := {|
  encode r := encode [
            encode (RistrettoBackendConfig_MaxEntries r);
            encode (RistrettoBackendConfig_MaxCost r);
            encode (RistrettoBackendConfig_BufferItems r);
            encode (RistrettoBackendConfig_DefaultTtl r)];
  decode p :=
    match decode p with
    | Some [
            p1; p2; p3; p4] =>
        x1 ← decode p1;
        x2 ← decode p2;
        x3 ← decode p3;
        x4 ← decode p4;
        Some (mkRistrettoBackendConfig
        x1 x2 x3 x4)
    | _ => None
    end
|}.
Proof. record_codec. Defined.

#[export] Instance RedisBackendConfig_eq_dec : EqDecision RedisBackendConfig.
Proof. solve_decision. Defined.

#[export, refine] Instance RedisBackendConfig_countable : Countable RedisBackendConfig := {|
  encode r := encode [
            encode (RedisBackendConfig_Address r); encode (RedisBackendConfig_Db r);
            encode (RedisBackendConfig_Password r); encode (RedisBackendConfig_PoolSize r);
            encode (RedisBackendConfig_KeyPrefix r); encode (RedisBackendConfig_ConnectTimeout r);
            encode (RedisBackendConfig_CommandTimeout r); encode (RedisBackendConfig_DefaultTtl r);
            encode (RedisBackendConfig_EnableAccountIsolation r)];
  decode p :=
    match decode p with
    | Some [
            p1; p2; p3; p4; p5; p6; p7; p8; p9] =>
        x1 ← decode p1;
        x2 ← decode p2;
        x3 ← decode p3;
        x4 ← decode p4;
        x5 ← decode p5;
        x6 ← decode p6;
        x7 ← decode p7;
        x8 ← decode p8;
        x9 ← decode p9;
        Some (mkRedisBackendConfig
        x1 x2 x3 x4 x5 x6 x7 x8 x9)
    | _ => None
    end
|}.
Proof. record_codec. Defined.

#[export] Instance CacheBackendConfig_eq_dec : EqDecision CacheBackendConfig.
Proof. solve_decision. Defined.

#[export, refine] Instance CacheBackendConfig_countable : Countable CacheBackendConfig := {|
  encode r := encode [
            encode (CacheBackendConfig_Type r); encode (CacheBackendConfig_Memory r);
            encode (CacheBackendConfig_Ristretto r); encode (CacheBackendConfig_Redis r)];
  decode p :=
    match decode p with
    | Some [
            p1; p2; p3; p4] =>
        x1 ← decode p1;
        x2 ← decode p2;
        x3 ← decode p3;
        x4 ← decode p4;
        Some (mkCacheBackendConfig
        x1 x2 x3 x4)
    | _ => None
    end
|}.
Proof. record_codec. Defined.

#[export] Instance CacheConfig_eq_dec : EqDecision CacheConfig.
Proof. solve_decision. Defined.

#[export, refine] Instance CacheConfig_countable : Countable CacheConfig := {|
  encode r := encode [
            encode (CacheConfig_MetadataTimeoutSettings r);
            encode (CacheConfig_StartNewTransaction r); encode (CacheConfig_Backend r)];
  decode p :=
    match decode p with
    | Some [
            p1; p2; p3] =>
        x1 ← decode p1;
        x2 ← decode p2;
        x3 ← decode p3;
        Some (mkCacheConfig
        x1 x2 x3)
    | _ => None
    end
|}.
Proof. record_codec. Defined.

#[export] Instance IRODSFSConfig_eq_dec : EqDecision IRODSFSConfig.
Proof. solve_decision. Defined.

#[export, refine] Instance IRODSFSConfig_countable : Countable IRODSFSConfig := {|
  encode r := encode [
            encode (IRODSFSConfig_Account r); encode (IRODSFSConfig_PathMappings r);
            encode (IRODSFSConfig_ReadAheadMax r); encode (IRODSFSConfig_ReadWriteMax r);
            encode (IRODSFSConfig_FuseOptions r); encode (IRODSFSConfig_Uid r);
            encode (IRODSFSConfig_Gid r); encode (IRODSFSConfig_SystemUser r);
            encode (IRODSFSConfig_MetadataConnection r); encode (IRODSFSConfig_IoConnection r);
            encode (IRODSFSConfig_Cache r); encode (IRODSFSConfig_PoolEndpoint r);
            encode (IRODSFSConfig_Debug r); encode (IRODSFSConfig_Description r)];
  decode p :=
    match decode p with
    | Some [
            p1; p2; p3; p4; p5; p6; p7; p8; p9; p10; p11; p12; p13; p14] =>
        x1 ← decode p1;
        x2 ← decode p2;
        x3 ← decode p3;
        x4 ← decode p4;
        x5 ← decode p5;
        x6 ← decode p6;
        x7 ← decode p7;
        x8 ← decode p8;
        x9 ← decode p9;
        x10 ← decode p10;
        x11 ← decode p11;
        x12 ← decode p12;
        x13 ← decode p13;
        x14 ← decode p14;
        Some (mkIRODSFSConfig
        x1 x2 x3 x4 x5 x6 x7 x8 x9 x10 x11 x12 x13 x14)
    | _ => None
    end
|}.
Proof. record_codec. Defined.

#[export] Instance DAVFSConfig_eq_dec : EqDecision DAVFSConfig.
Proof. solve_decision. Defined.

#[export, refine] Instance DAVFSConfig_countable : Countable DAVFSConfig := {|
  encode r := encode [
            encode (DAVFSConfig_Url r); encode (DAVFSConfig_Username r);
            encode (DAVFSConfig_Password r); encode (DAVFSConfig_Config r)];
  decode p :=
    match decode p with
    | Some [
            p1; p2; p3; p4] =>
        x1 ← decode p1;
        x2 ← decode p2;
        x3 ← decode p3;
        x4 ← decode p4;
        Some (mkDAVFSConfig
        x1 x2 x3 x4)
    | _ => None
    end
|}.
Proof. record_codec. Defined.

#[export] Instance NFSConfig_eq_dec : EqDecision NFSConfig.
Proof. solve_decision. Defined.

#[export, refine] Instance NFSConfig_countable : Countable NFSConfig := {|
  encode r := encode [
            encode (NFSConfig_Host r); encode (NFSConfig_Port r); encode (NFSConfig_Path r)];
  decode p :=
    match decode p with
    | Some [
            p1; p2; p3] =>
        x1 ← decode p1;
        x2 ← decode p2;
        x3 ← decode p3;
        Some (mkNFSConfig
        x1 x2 x3)
    | _ => None
    end
|}.
Proof. record_codec. Defined.

#[export] Instance ClientConfig_eq_dec : EqDecision ClientConfig.
Proof. solve_decision. Defined.

#[export, refine] Instance ClientConfig_countable : Countable ClientConfig := {|
  encode c := match c with
              | MountConfig_Irodsfs x => encode [1%positive; encode x]
              | MountConfig_Davfs x => encode [2%positive; encode x]
              | MountConfig_Nfs x => encode [3%positive; encode x]
              end;
  decode p := match decode p with
              | Some [1%positive; q] => MountConfig_Irodsfs <$> decode q
              | Some [2%positive; q] => MountConfig_Davfs <$> decode q
              | Some [3%positive; q] => MountConfig_Nfs <$> decode q
              | _ => None
              end
|}.
Proof. intros [x|x|x]; cbv beta iota; by rewrite !decode_encode. Defined.

#[export] Instance MountConfig_eq_dec : EqDecision MountConfig.
Proof. solve_decision. Defined.

#[export, refine] Instance MountConfig_countable : Countable MountConfig := {|
  encode r := encode [
            encode (MountConfig_MountPath r); encode (MountConfig_ReadOnly r);
            encode (MountConfig_MountOptions r); encode (MountConfig_ClientConfig r)];
  decode p :=
    match decode p with
    | Some [
            p1; p2; p3; p4] =>
        x1 ← decode p1;
        x2 ← decode p2;
        x3 ← decode p3;
        x4 ← decode p4;
        Some (mkMountConfig
        x1 x2 x3 x4)
    | _ => None
    end
|}.
Proof. record_codec. Defined.

#[export] Instance APIError_eq_dec : EqDecision APIError.
Proof. solve_decision. Defined.

#[export, refine] Instance APIError_countable : Countable APIError := {|
  encode r := encode [
            encode (APIError_Code r); encode (APIError_Message r); encode (APIError_Retryable r);
            encode (APIError_Details r)];
  decode p :=
    match decode p with
    | Some [
            p1; p2; p3; p4] =>
        x1 ← decode p1;
        x2 ← decode p2;
        x3 ← decode p3;
        x4 ← decode p4;
        Some (mkAPIError
        x1 x2 x3 x4)
    | _ => None
    end
|}.
Proof. record_codec. Defined.

#[export] Instance MountInfo_eq_dec : EqDecision MountInfo.
Proof. solve_decision. Defined.

#[export, refine] Instance MountInfo_countable : Countable MountInfo := {|
  encode r := encode [
            encode (MountInfo_MountId r); encode (MountInfo_State r); encode (MountInfo_Config r);
            encode (MountInfo_Attempt r); encode (MountInfo_LastError r); encode (MountInfo_Pid r);
            encode (MountInfo_CreatedAt r); encode (MountInfo_UpdatedAt r);
            encode (MountInfo_MountedAt r); encode (MountInfo_UnmountedAt r);
            encode (MountInfo_NextRetryAt r)];
  decode p :=
    match decode p with
    | Some [
            p1; p2; p3; p4; p5; p6; p7; p8; p9; p10; p11] =>
        x1 ← decode p1;
        x2 ← decode p2;
        x3 ← decode p3;
        x4 ← decode p4;
        x5 ← decode p5;
        x6 ← decode p6;
        x7 ← decode p7;
        x8 ← decode p8;
        x9 ← decode p9;
        x10 ← decode p10;
        x11 ← decode p11;
        Some (mkMountInfo
        x1 x2 x3 x4 x5 x6 x7 x8 x9 x10 x11)
    | _ => None
    end
|}.
Proof. record_codec. Defined.

#[export] Instance storedRecord_eq_dec : EqDecision storedRecord.
Proof. solve_decision. Defined.

#[export, refine] Instance storedRecord_countable : Countable storedRecord := {|
  encode r := encode [
            encode (stored_SchemaVersion r); encode (stored_Tombstone r); encode (stored_Info r)];
  decode p :=
    match decode p with
    | Some [
            p1; p2; p3] =>
        x1 ← decode p1;
        x2 ← decode p2;
        x3 ← decode p3;
        Some (mkStoredRecord
        x1 x2 x3)
    | _ => None
    end
|}.
Proof. record_codec. Defined.

(** ** Binary strings *)

Fixpoint bits_of_pos (p : positive) : string :=
  match p with
  | xH => EmptyString
  | xO p => String "0" (bits_of_pos p)
  | xI p => String "1" (bits_of_pos p)
  end.

Fixpoint pos_of_bits (s : string) : positive :=
  match s with
  | EmptyString => xH
  | String c s => if Ascii.eqb c "1" then xI (pos_of_bits s) else xO (pos_of_bits s)
  end.

Lemma pos_of_bits_of_pos p : pos_of_bits (bits_of_pos p) = p.
Proof. induction p as [p IH|p IH|]; simpl; [by rewrite IH..|done]. Qed.

Definition bits_encode `{Countable A} (a : A) : result goerror string := Ok (bits_of_pos (encode a)).
Definition bits_decode `{Countable A} (s : string) : result goerror A :=
  match decode (pos_of_bits s) with
  | Some a => Ok a
  | None => Err (ENew "syntax error")
  end.

Lemma bits_decode_encode `{Countable A} (a : A) s : bits_encode a = Ok s -> bits_decode s = Ok a.
Proof. intros [= <-]. unfold bits_decode. by rewrite pos_of_bits_of_pos, decode_encode. Qed.

#[refine] Instance plain_codec : RecordCodec := {|
  info_Marshal := bits_encode;
  info_Unmarshal := bits_decode;
  stored_Marshal := bits_encode;
  stored_Unmarshal := bits_decode
|}.
Proof.
  - apply bits_decode_encode.
  - intros [v t i] s Hs. exists i. split; [by apply bits_decode_encode | done].
Defined.

(** ** Log records *)

Lemma bits_lack_newline p : lacks ch_newline (bits_of_pos p) = true.
Proof. induction p as [p IH|p IH|]; [exact IH..|done]. Qed.

(** The record as its digits after a mark, so that no line is empty. *)
#[export] Instance plain_log_codec : LogCodec := {|
  MarshalRecord r := Ok (String "r" (bits_of_pos (encode (Record_Time r, Record_Stream r, Record_Message r))));
  UnmarshalRecord s :=
    match s with
    | EmptyString => None
    | String _ s => '(time, stream, message) ← decode (pos_of_bits s); Some (mkLogRecord time stream message)
    end;
  coerce s := s
|}.

Lemma plain_log_codec_laws : codec_laws.
Proof.
  split; intros r data [= <-].
  - split; [|done]. exact (bits_lack_newline _).
  - cbn [UnmarshalRecord plain_log_codec]. rewrite pos_of_bits_of_pos, bind_decode. done.
Qed.
