(* ===== verification/LogStoreFacts.v ===== *)
(** * Theorems about mount logs

    Lines are whole however the pipe delivers them, secrets do not survive
    redaction, and queries are bounded and read back what was written. *)

From S2P Require Import Prelude GoStrings GoPath GoErrors Redact LogStore PlainCodec.

(** ** Lines of a byte stream *)

Definition complete_lines (s : string) : list string := removelast (Split ch_newline s).
Definition partial_line (s : string) : string := List.last (Split ch_newline s) EmptyString.

(** The lines of a finished stream. *)
Definition stream_lines (s : string) : list string :=
  complete_lines s ++ (if String.eqb (partial_line s) EmptyString then [] else [partial_line s]).

Lemma Split_cut buf :
  Split ch_newline buf =
  match cut_line buf with Some (line, rest) => line :: Split ch_newline rest | None => [buf] end.
Proof.
  induction buf as [|c buf IH]; simpl; [done|]. destruct (Ascii.eqb c ch_newline); [done|]. rewrite IH.
  by destruct (cut_line buf) as [[line rest]|].
Qed.

Lemma cut_line_shorter buf line rest :
  cut_line buf = Some (line, rest) -> (String.length rest < String.length buf)%nat.
Proof.
  revert line. induction buf as [|c buf IH]; simpl; intros line; [done|]. destruct (Ascii.eqb c ch_newline).
  - intros [= _ <-]. lia.
  - destruct (cut_line buf) as [[l r]|]; [|done]. intros [= _ <-]. specialize (IH l eq_refl). lia.
Qed.

Lemma Split_app s t :
  Split ch_newline (s +:+ t) = complete_lines s ++ Split ch_newline (partial_line s +:+ t).
Proof.
  unfold complete_lines, partial_line. induction s as [|c s IH]; simpl; [done|].
  pose proof (Split_nonempty ch_newline s) as Hne. destruct (Ascii.eqb c ch_newline) eqn:E; simpl.
  - destruct (Split ch_newline s) as [|x l] eqn:Es; [done|]. rewrite IH. done.
  - rewrite IH. destruct (Split ch_newline s) as [|x [|y l]] eqn:Es; [done| |done]. simpl. by rewrite E.
Qed.

Lemma removelast_app_ne {A} (l k : list A) : k <> [] -> removelast (l ++ k) = l ++ removelast k.
Proof. apply removelast_app. Qed.

Lemma complete_lines_app s t :
  complete_lines (s +:+ t) = complete_lines s ++ complete_lines (partial_line s +:+ t).
Proof. unfold complete_lines at 1. rewrite Split_app. apply removelast_app_ne, Split_nonempty. Qed.

Lemma last_app_ne {A} (l k : list A) d : k <> [] -> List.last (l ++ k) d = List.last k d.
Proof.
  intros Hk. induction l as [|x l IH]; simpl; [done|]. by destruct (l ++ k) eqn:E; [apply app_eq_nil in E as [_ ->]|].
Qed.

Lemma partial_line_app s t : partial_line (s +:+ t) = partial_line (partial_line s +:+ t).
Proof. unfold partial_line at 1. rewrite Split_app. apply last_app_ne, Split_nonempty. Qed.

(** ** Writing *)

(** What a log has written, without the unfinished lines. *)
Definition core (log : MountLog) : list string * list string * nat := (ml_written log, ml_secrets log, ml_clock log).

Definition stream_name (stdout : bool) : string := if stdout then "stdout" else "stderr".

(** The data written to one of the streams. *)
Fixpoint stream_data (stdout : bool) (writes : list (bool * string)) : string :=
  match writes with
  | [] => EmptyString
  | (b, d) :: rest => (if Bool.eqb b stdout then d else EmptyString) +:+ stream_data stdout rest
  end.

Lemma stream_data_snoc stdout writes b d :
  stream_data stdout (writes ++ [(b, d)]) = stream_data stdout writes +:+ (if Bool.eqb b stdout then d else EmptyString).
Proof.
  induction writes as [|[b' d'] l IH]; simpl; [by rewrite string_app_nil_r|]. by rewrite IH, string_app_assoc.
Qed.

Section Writing.
Context `{LogCodec}.
Variable now : nat -> Z.

Definition write_lines (calls : list (string * string)) (log : MountLog) : MountLog :=
  fold_left (fun log sl => writeLine now (fst sl) (snd sl) log) calls log.

Lemma writeLine_core stream line log log' : core log = core log' -> core (writeLine now stream line log) = core (writeLine now stream line log').
Proof.
  destruct log as [w s c o e], log' as [w' s' c' o' e']. unfold core. simpl. intros [= -> -> ->].
  by destruct (MarshalRecord _).
Qed.

Lemma writeLine_writer b stream line log : ml_writer b (writeLine now stream line log) = ml_writer b log.
Proof. destruct log as [w s c o e]. simpl. by destruct (MarshalRecord _). Qed.

Lemma set_ml_writer_core b w log : core (set_ml_writer b w log) = core log.
Proof. by destruct log, b. Qed.

Lemma set_ml_writer_get b b' w log :
  ml_writer b (set_ml_writer b' w log) = if Bool.eqb b b' then w else ml_writer b log.
Proof. by destruct log, b, b'. Qed.

Lemma write_lines_writer b calls log : ml_writer b (write_lines calls log) = ml_writer b log.
Proof. revert log. induction calls as [|x l IH]; intros log; simpl; [done|]. by rewrite IH, writeLine_writer. Qed.

Lemma write_lines_core calls log log' : core log = core log' -> core (write_lines calls log) = core (write_lines calls log').
Proof. revert log log'. induction calls as [|x l IH]; intros log log' E; simpl; [done|]. by apply IH, writeLine_core. Qed.

(** The loop writes the complete lines of its buffer and keeps the rest. *)
Lemma write_loop_spec fuel stream buf log :
  (String.length buf < fuel)%nat ->
  write_loop now fuel stream buf log =
  (partial_line buf, write_lines ((fun l => (stream, l)) <$> complete_lines buf) log).
Proof.
  revert buf log. induction fuel as [|fuel IH]; intros buf log Hf; [lia|]. simpl.
  unfold partial_line, complete_lines. rewrite Split_cut. destruct (cut_line buf) as [[line rest]|] eqn:E; [|done].
  apply cut_line_shorter in E. rewrite IH by lia. pose proof (Split_nonempty ch_newline rest).
  unfold partial_line, complete_lines. by destruct (Split ch_newline rest).
Qed.

(** The log after some writes: lines in [calls], the rest in the buffers. *)
Definition holds_lines (secrets : list string) (writes : list (bool * string)) (calls : list (string * string))
    (log : MountLog) : Prop :=
  core log = core (write_lines calls (Open secrets)) /\
  forall b, ml_writer b log = mkLineWriter (stream_name b) (partial_line (stream_data b writes)) /\
    snd <$> List.filter (fun c => String.eqb (fst c) (stream_name b)) calls = complete_lines (stream_data b writes).

Lemma filter_stream b b' (lines : list string) :
  snd <$> List.filter (fun c => String.eqb (fst c) (stream_name b)) ((fun l => (stream_name b', l)) <$> lines) =
  if Bool.eqb b' b then lines else [].
Proof.
  induction lines as [|l lines IH]; simpl; [by destruct (Bool.eqb b' b)|].
  destruct b, b'; try exact IH; exact (f_equal (cons l) IH).
Qed.

Lemma write_lines_app c1 c2 log : write_lines (c1 ++ c2) log = write_lines c2 (write_lines c1 log).
Proof. apply fold_left_app. Qed.

Lemma Write_holds secrets writes calls log b d :
  holds_lines secrets writes calls log ->
  holds_lines secrets (writes ++ [(b, d)])
    (calls ++ ((fun l => (stream_name b, l)) <$> complete_lines (partial_line (stream_data b writes) +:+ d)))
    (Write now b d log).
Proof.
  intros [Hc Hb]. destruct (Hb b) as [Hw _]. unfold Write. rewrite Hw. cbn [lw_buf lw_stream].
  rewrite write_loop_spec by lia. split.
  - rewrite set_ml_writer_core, write_lines_app. by apply write_lines_core.
  - intros b'. destruct (Hb b') as [Hw' Hl']. rewrite set_ml_writer_get, write_lines_writer, List.filter_app, fmap_app, Hl'.
    rewrite filter_stream, stream_data_snoc. destruct (Bool.eqb b' b) eqn:E.
    + apply eqb_prop in E as ->. rewrite Bool.eqb_reflx. split; [by rewrite (partial_line_app (stream_data b writes))|].
      symmetry. apply complete_lines_app.
    + assert (Bool.eqb b b' = false) as -> by (by destruct b, b'). rewrite app_nil_r, string_app_nil_r. done.
Qed.

Lemma write_all_holds secrets writes :
  exists calls, holds_lines secrets writes calls (write_all now writes (Open secrets)).
Proof.
  induction writes as [|[b d] writes [calls IH]] using rev_ind.
  - exists []. split; [done|]. by intros [].
  - unfold write_all. rewrite fold_left_app. eexists. by apply Write_holds.
Qed.

(** The unfinished line of a stream, as a call of [writeLine]. *)
Definition unfinished (w : lineWriter) : list (string * string) :=
  if String.eqb (lw_buf w) EmptyString then [] else [(lw_stream w, lw_buf w)].

Lemma flush_core b log : core (flush now b log) = core (write_lines (unfinished (ml_writer b log)) log).
Proof. unfold flush, unfinished. destruct (String.eqb _ _); [done|]. by rewrite set_ml_writer_core. Qed.

Lemma flush_writer b b' log : b' <> b -> ml_writer b' (flush now b log) = ml_writer b' log.
Proof.
  intros Hne. unfold flush. destruct (String.eqb _ _); [done|]. rewrite set_ml_writer_get, writeLine_writer.
  by destruct b, b'.
Qed.

(** C38: however the pipes of a process deliver its output (in any pieces,
    the two streams interleaved in any way), a log that is closed has
    written, for each stream, exactly the lines of that stream in order, each
    as one record. *)
Theorem log_lines_are_whole secrets writes :
  exists calls,
    core (Close now (write_all now writes (Open secrets))) = core (write_lines calls (Open secrets)) /\
    forall b, snd <$> List.filter (fun c => String.eqb (fst c) (stream_name b)) calls =
              stream_lines (stream_data b writes).
Proof.
  destruct (write_all_holds secrets writes) as (calls & Hc & Hb). set (log := write_all now writes (Open secrets)) in *.
  set (rest b := unfinished (ml_writer b log)). exists (calls ++ rest true ++ rest false). split.
  - unfold Close. rewrite flush_core, flush_writer by done. rewrite !write_lines_app.
    apply write_lines_core. rewrite flush_core. by apply write_lines_core.
  - intros b. destruct (Hb b) as [_ Hl]. rewrite !List.filter_app, !fmap_app, Hl. unfold stream_lines. f_equal.
    unfold rest, unfinished. rewrite (proj1 (Hb true)), (proj1 (Hb false)). simpl.
    destruct b; simpl; repeat case_match; done.
Qed.

End Writing.

(** ** Redaction *)

(** No byte of [a] occurs in [b]. *)
Definition apart (a b : string) : bool := string_forallb (fun c => lacks c b) a.

Lemma HasPrefix_cons c s d t : HasPrefix (String c s) (String d t) = Ascii.eqb d c && HasPrefix s t.
Proof. unfold HasPrefix. simpl. destruct (ascii_dec d c) as [->|Hne]; [by rewrite Ascii.eqb_refl|]. by rewrite (proj2 (Ascii.eqb_neq _ _)). Qed.

Lemma HasPrefix_nil s : HasPrefix s EmptyString = true.
Proof. by destruct s. Qed.

Lemma Contains_cons c s t : Contains (String c s) t = HasPrefix (String c s) t || Contains s t.
Proof. done. Qed.

Lemma Contains_tail c s t : Contains s t = true -> Contains (String c s) t = true.
Proof. intros H. rewrite Contains_cons, H. apply orb_true_r. Qed.

Lemma apart_head d t n : apart (String d t) n = true -> lacks d n = true /\ apart t n = true.
Proof. unfold apart. simpl. intros H. by bools. Qed.

(** A text that shares no byte with [n] does not start inside it. *)
Lemma Contains_skip n s d t :
  lacks d n = true -> Contains (n +:+ s) (String d t) = true -> Contains s (String d t) = true.
Proof.
  induction n as [|c n IH]; [done|]. unfold lacks. simpl string_forallb. intros Hl. bools.
  change (String c n +:+ s) with (String c (n +:+ s)). rewrite Contains_cons, HasPrefix_cons.
  rewrite (proj2 (Ascii.eqb_neq d c)) by congruence. simpl. by apply IH.
Qed.

Section Replace.
Variables (old new : string).
Hypothesis new_nonempty : new <> EmptyString.

Lemma prefix_replace t s :
  apart t new = true -> HasPrefix (replace_aux old new 0 s) t = true ->
  HasPrefix s t = true /\ (t <> EmptyString -> HasPrefix s old = false).
Proof.
  revert s. induction t as [|d t IH]; intros s Ha Hp; [by rewrite HasPrefix_nil|].
  apply apart_head in Ha as [Hd Ha]. destruct s as [|c s]; [done|]. cbn [replace_aux] in Hp.
  destruct (HasPrefix (String c s) old) eqn:E.
  - destruct new as [|n0 n]; [done|]. change (String n0 n +:+ ?x) with (String n0 (n +:+ x)) in Hp.
    rewrite HasPrefix_cons in Hp. unfold lacks in Hd. simpl in Hd. bools.
    congruence.
  - rewrite HasPrefix_cons in Hp. bools. split; [|done]. rewrite HasPrefix_cons. apply andb_true_iff.
    split; [by apply Ascii.eqb_eq|]. by apply IH.
Qed.

Lemma Contains_replace t k s :
  t <> EmptyString -> apart t new = true -> Contains (replace_aux old new k s) t = true -> Contains s t = true.
Proof.
  intros Ht Ha. destruct t as [|d t]; [done|]. pose proof (apart_head _ _ _ Ha) as [Hd _].
  revert k. induction s as [|c s IH]; intros k Hc; [done|]. cbn [replace_aux] in Hc. destruct k as [|k].
  - destruct (HasPrefix (String c s) old) eqn:E.
    + apply Contains_tail. eapply IH. eapply Contains_skip; [exact Hd|exact Hc].
    + assert (HasPrefix (String c (replace_aux old new 0 s)) (String d t) = true \/
              Contains (replace_aux old new 0 s) (String d t) = true) as [Hp|Hc'] 
        by (by rewrite Contains_cons in Hc; apply orb_true_iff in Hc).
      * pose proof (prefix_replace (String d t) (String c s) Ha) as Hp'. cbn [replace_aux] in Hp'. rewrite E in Hp'.
        destruct (Hp' Hp) as [H _]. by rewrite Contains_cons, H.
      * by apply Contains_tail, (IH O).
  - by apply Contains_tail, (IH k).
Qed.

Lemma replace_removes k s : old <> EmptyString -> apart old new = true -> Contains (replace_aux old new k s) old = false.
Proof.
  intros Ho Ha. apply not_true_iff_false. revert k. induction s as [|c s IH]; intros k Hc.
  - simpl in Hc. by destruct old.
  - cbn [replace_aux] in Hc. destruct k as [|k]; [|by apply (IH k)].
    destruct (HasPrefix (String c s) old) eqn:E.
    + eapply IH. destruct old as [|d t]; [done|]. apply apart_head in Ha as [Hd _].
      eapply Contains_skip; [exact Hd|exact Hc].
    + assert (HasPrefix (String c (replace_aux old new 0 s)) old = true \/
              Contains (replace_aux old new 0 s) old = true) as [Hp|Hc'] 
        by (by rewrite Contains_cons in Hc; apply orb_true_iff in Hc).
      * pose proof (prefix_replace old (String c s) Ha) as Hp'. cbn [replace_aux] in Hp'. rewrite E in Hp'.
        destruct (Hp' Hp) as [H _]. congruence.
      * by apply (IH O).
Qed.

Lemma replace_absent s : old <> EmptyString -> Contains s old = false -> replace_aux old new 0 s = s.
Proof.
  intros Ho. induction s as [|c s IH]; [done|]. intros Hc. cbn [replace_aux].
  assert (HasPrefix (String c s) old = false /\ Contains s old = false) as [-> Hc']
    by (by rewrite Contains_cons in Hc; bools).
  by rewrite IH.
Qed.
End Replace.

Lemma redact_line_keeps secrets line t :
  t <> EmptyString -> apart t redactedValue = true -> Contains line t = false ->
  Contains (redact_line secrets line) t = false.
Proof.
  intros Ht Ha. revert line. induction secrets as [|s secrets IH]; intros line Hc; [done|]. apply IH.
  apply not_true_iff_false. intros H. apply Contains_replace in H; [congruence|done..].
Qed.

(** C39: secrets that share no byte with the replacement text (for instance
    any made of lower-case letters and digits) do not occur in a logged
    line, whatever the others are, and a line without secrets is logged as
    it is. *)
Theorem logged_lines_have_no_secrets secrets line :
  (forall s, s ∈ secrets -> s <> EmptyString -> apart s redactedValue = true ->
     Contains (redact_line (ml_secrets (Open secrets)) line) s = false) /\
  ((forall s, s ∈ secrets -> s <> EmptyString -> Contains line s = false) ->
     redact_line (ml_secrets (Open secrets)) line = line).
Proof.
  simpl. split.
  - intros s Hs Hne Ha. revert line. induction secrets as [|x l IH]; intros line; [by apply elem_of_nil in Hs|]. simpl.
    apply elem_of_cons in Hs as [<-|Hs].
    + rewrite (proj2 (String.eqb_neq _ _)) by done. simpl. apply redact_line_keeps; [done..|].
      by apply replace_removes.
    + destruct (negb _); simpl; by apply IH.
  - induction secrets as [|x l IH]; intros Hl; [done|]. simpl.
    destruct (String.eqb_spec x EmptyString) as [->|Hx]; simpl.
    + apply IH. intros s Hs. apply Hl. by right.
    + unfold ReplaceAll. rewrite replace_absent; [|done|by apply Hl; [left|]]. apply IH. intros s Hs. apply Hl. by right.
Qed.

(** Secrets are replaced one after the other: a secret that begins with
    another one leaves its tail behind. *)
Example overlapping_secrets_leak :
  redact_line (ml_secrets (Open ["abc"; "abcdef"])) "token abcdef" = "token [REDACTED]def".
Proof. reflexivity. Qed.

(** ** Queries *)

Section Queries.
Context `{LogCodec}.

Lemma bound_tail_split tail l :
  exists a, l = a ++ bound_tail tail l /\ (tail <= 0 -> a = []) /\
    (0 < tail -> Z.of_nat (length (bound_tail tail l)) <= tail).
Proof.
  unfold bound_tail. destruct (_ && _) eqn:E; bools.
  - exists (take (length l - Z.to_nat tail) l). rewrite take_drop. split_and!; [done|lia|].
    intros _. rewrite length_drop. lia.
  - exists []. split_and!; [done..|]. intros Ht. apply andb_false_iff in E as [E|E]; bools; lia.
Qed.

Lemma bound_limit_split limit l :
  exists b, l = bound_limit limit l ++ b /\ (limit <= 0 -> b = []) /\
    (0 < limit -> Z.of_nat (length (bound_limit limit l)) <= limit).
Proof.
  unfold bound_limit. destruct (_ && _) eqn:E; bools.
  - exists (drop (Z.to_nat limit) l). rewrite take_drop. split_and!; [done|lia|].
    intros _. rewrite length_take. lia.
  - exists []. rewrite app_nil_r. split_and!; [done..|]. intros Ht. apply andb_false_iff in E as [E|E]; bools; lia.
Qed.

Lemma query_records_since options data r :
  r ∈ query_records options data -> forall since, Since options = Some since -> since < Record_Time r.
Proof.
  intros Hr since Hs. apply list_elem_of_omap in Hr as (line & _ & Hl). unfold query_keep in Hl. rewrite Hs in Hl.
  repeat case_match; simplify_eq. by bools.
Qed.

(** A query returns a contiguous run of the matching records in the
    order of the file, nothing from before [since], at most [tail] and at
    most [limit] records when these are positive, and everything that
    matches when they are not. *)
Theorem query_is_bounded data path options :
  exists l a b, Query (Ok (Some data)) path options = Ok l /\
    query_records options data = a ++ l ++ b /\
    (Tail options <= 0 -> a = []) /\ (Limit options <= 0 -> b = []) /\
    (0 < Tail options -> Z.of_nat (length l) <= Tail options) /\
    (0 < Limit options -> Z.of_nat (length l) <= Limit options) /\
    (forall r since, r ∈ l -> Since options = Some since -> since < Record_Time r).
Proof.
  set (all := query_records options data).
  destruct (bound_tail_split (Tail options) all) as (a & Ha & Ha0 & Hta).
  destruct (bound_limit_split (Limit options) (bound_tail (Tail options) all)) as (b & Hb & Hb0 & Hlb).
  set (l := bound_limit (Limit options) (bound_tail (Tail options) all)) in *.
  exists l, a, b. split_and!; [done| |done|done| |done|].
  - by rewrite <- Hb.
  - intros Ht. specialize (Hta Ht). rewrite Hb, length_app in Hta. lia.
  - intros r since Hr. apply (query_records_since options data). fold all. rewrite Ha, Hb. set_solver.
Qed.

(** ** Reading back *)

Variable now : nat -> Z.
Hypothesis laws : codec_laws.

(** The records that calls of writeLine from clock [k] produce. *)
Fixpoint logged (secrets : list string) (k : nat) (calls : list (string * string)) : list LogRecord :=
  match calls with
  | [] => []
  | (stream, line) :: rest =>
      let r := mkLogRecord (now k) stream (redact_line secrets line) in
      (if is_Ok (MarshalRecord r) then [mkLogRecord (now k) stream (coerce (redact_line secrets line))] else [])
      ++ logged secrets (S k) rest
  end.

(** The lines of the file, without their newlines. *)
Fixpoint encoded (secrets : list string) (k : nat) (calls : list (string * string)) : list string :=
  match calls with
  | [] => []
  | (stream, line) :: rest =>
      (match MarshalRecord (mkLogRecord (now k) stream (redact_line secrets line)) with Ok d => [d] | Err _ => [] end)
      ++ encoded secrets (S k) rest
  end.

Definition concat_lines (l : list string) : string := Join EmptyString ((fun d => d +:+ str1 ch_newline) <$> l).

Lemma write_lines_written calls log :
  ml_written (write_lines now calls log) =
  ml_written log ++ ((fun d => d +:+ str1 ch_newline) <$> encoded (ml_secrets log) (ml_clock log) calls).
Proof.
  revert log. induction calls as [|[s l] calls IH]; intros log; [simpl; by rewrite app_nil_r|].
  change (write_lines now ((s, l) :: calls) log) with (write_lines now calls (writeLine now s l log)). rewrite IH.
  destruct log as [w secrets k o e]. simpl. destruct (MarshalRecord _) as [d|]; simpl; [|done].
  by rewrite <- (assoc_L (++)).
Qed.

Lemma concat_lines_Join l : l <> [] -> concat_lines l = Join (str1 ch_newline) l +:+ str1 ch_newline.
Proof.
  unfold concat_lines. induction l as [|d l IH]; [done|]. intros _. destruct (decide (l = [])) as [->|Hne]; [done|].
  rewrite fmap_cons. rewrite (Join_cons EmptyString) by (by destruct l). rewrite IH by done.
  rewrite (Join_cons (str1 ch_newline)) by done. by rewrite <- !string_app_assoc.
Qed.

Lemma Join_ends x l : l <> [] -> exists u d, d ∈ l /\ Join x l = u +:+ d.
Proof.
  induction l as [|d l IH]; [done|]. intros _. destruct (decide (l = [])) as [->|Hne].
  - exists EmptyString, d. split; [left | done].
  - destruct (IH Hne) as (u & d' & Hd & E). exists (d +:+ x +:+ u), d'. split; [by right|].
    rewrite Join_cons, E by done. by rewrite <- !string_app_assoc.
Qed.

Lemma TrimRightFunc_drop f s c : f c = true -> TrimRightFunc f (s +:+ str1 c) = TrimRightFunc f s.
Proof. intros Hf. induction s as [|d s IH]; simpl; [by rewrite Hf|]. by rewrite IH. Qed.

Lemma trim_lines l :
  Forall (fun d => lacks ch_newline d = true /\ d <> EmptyString) l -> l <> [] ->
  TrimRightFunc (Ascii.eqb ch_newline) (concat_lines l) = Join (str1 ch_newline) l.
Proof.
  intros Hl Hne. rewrite concat_lines_Join, TrimRightFunc_drop by done.
  destruct (Join_ends (str1 ch_newline) l Hne) as (u & d & Hd & ->). rewrite Forall_forall in Hl.
  destruct (Hl d Hd) as [Hlack Hd0]. destruct (string_snoc d Hd0) as (t & c & ->). rewrite string_app_assoc.
  apply TrimRightFunc_id. unfold lacks in Hlack. rewrite string_forallb_app in Hlack. simpl in Hlack. bools.
  apply Ascii.eqb_neq. congruence.
Qed.

Lemma encoded_lines secrets k calls :
  Forall (fun d => lacks ch_newline d = true /\ d <> EmptyString) (encoded secrets k calls).
Proof.
  revert k. induction calls as [|[s l] calls IH]; intros k; simpl; [constructor|].
  destruct (MarshalRecord _) as [d|] eqn:E; [|apply IH]. constructor; [by eapply marshal_line|apply IH].
Qed.

Definition everything : QueryOptions := mkQueryOptions None 0 0.

(** What a query makes of a line. *)
Definition decoded_line (line : string) : option LogRecord :=
  if String.eqb line EmptyString then None
  else match UnmarshalRecord line with
       | None => None
       | Some r => if query_keep everything r then Some r else None
       end.

Lemma decode_encoded secrets k calls : omap decoded_line (encoded secrets k calls) = logged secrets k calls.
Proof.
  revert k. induction calls as [|[s l] calls IH]; intros k; [done|]. cbn [encoded logged].
  destruct (MarshalRecord _) as [d|] eqn:E; cbn [is_Ok app]; [|apply IH].
  destruct (marshal_line laws _ _ E) as [_ Hd]. cbn [omap list_omap]. unfold decoded_line at 1.
  rewrite (proj2 (String.eqb_neq _ _) Hd), (marshal_unmarshal laws _ _ E). simpl. f_equal. apply IH.
Qed.

Lemma encoded_decodes secrets k calls d : d ∈ encoded secrets k calls -> is_Some (decoded_line d).
Proof.
  revert k. induction calls as [|[s l] calls IH]; intros k; [by intros ?%elem_of_nil|]. cbn [encoded]. intros [Hd|Hd]%elem_of_app; [|by eapply IH].
  destruct (MarshalRecord _) as [d'|] eqn:E; [|by apply elem_of_nil in Hd]. apply list_elem_of_singleton in Hd as ->.
  unfold decoded_line. destruct (marshal_line laws _ _ E) as [_ Hd].
  rewrite (proj2 (String.eqb_neq _ _) Hd), (marshal_unmarshal laws _ _ E). by eexists.
Qed.

(** An unbounded query of a file that consists of lines. *)
Lemma Query_lines l path :
  Forall (fun d => lacks ch_newline d = true /\ d <> EmptyString) l ->
  Query (Ok (Some (concat_lines l))) path everything = Ok (omap decoded_line l).
Proof.
  intros Hl. simpl. f_equal. unfold bound_limit, bound_tail. simpl. unfold query_records.
  destruct (decide (l = [])) as [->|Hne]; [done|]. rewrite trim_lines by done. rewrite Split_Join; [done|done|].
  eapply Forall_impl; [exact Hl|]. by intros d [? _].
Qed.

Definition byte_size (s : string) : Z := Z.of_nat (String.length s).
Definition size_limit : Z := maxSizeMB * (1024 * 1024).

(** The documented behaviour of lumberjack, when its calls to the system
    succeed: a write that fits is appended, one that would make the file
    larger than the limit begins a new file, and one that is larger than the
    limit by itself is refused. *)
Record lumberjack_laws `{Lumberjack} : Prop := {
  write_appends : forall file data, byte_size file + byte_size data < size_limit -> lumberjack_Write maxSizeMB file data = file +:+ data;
  write_rotates : forall file data, byte_size data <= size_limit ->
    (lumberjack_Write maxSizeMB file data = file +:+ data /\ byte_size file + byte_size data <= size_limit) \/
    lumberjack_Write maxSizeMB file data = data;
  write_refuses : forall file data, size_limit < byte_size data -> lumberjack_Write maxSizeMB file data = file
}.

Lemma byte_size_app a b : byte_size (a +:+ b) = byte_size a + byte_size b.
Proof. unfold byte_size. rewrite string_length_app. lia. Qed.

Lemma byte_size_nonneg s : 0 <= byte_size s.
Proof. unfold byte_size. lia. Qed.

Lemma Join_app l1 l2 : Join EmptyString (l1 ++ l2) = Join EmptyString l1 +:+ Join EmptyString l2.
Proof.
  induction l1 as [|x l1 IH]; [done|]. destruct (decide (l1 = [])) as [->|Hne].
  - simpl. destruct l2 as [|y l2]; [by rewrite string_app_nil_r|done].
  - rewrite (Join_cons EmptyString x l1) by done. rewrite <- app_comm_cons.
    rewrite (Join_cons EmptyString x (l1 ++ l2)) by (by destruct l1). rewrite IH. simpl. by rewrite string_app_assoc.
Qed.

Section Rotation.
Context `{Lumberjack}.
Hypothesis rotation : lumberjack_laws.

(** The file holds the last pieces of what was written, all of them while
    they are below the limit. *)
Lemma written_suffix written kept :
  byte_size (Join EmptyString kept) <= size_limit -> Forall (fun d => byte_size d <= size_limit) written ->
  exists older newer, kept ++ written = older ++ newer /\
    fold_left (lumberjack_Write maxSizeMB) written (Join EmptyString kept) = Join EmptyString newer /\
    byte_size (Join EmptyString newer) <= size_limit /\ (kept ++ written <> [] -> newer <> []) /\
    (byte_size (Join EmptyString (kept ++ written)) < size_limit -> older = []).
Proof.
  intros Hkept Hw. revert kept Hkept. induction Hw as [|d written Hd Hw IH]; intros kept Hkept.
  { exists [], kept. rewrite app_nil_r. by split_and!. }
  cbn [fold_left]. set (file := Join EmptyString kept) in *.
  assert ((lumberjack_Write maxSizeMB file d = Join EmptyString (kept ++ [d]) /\ byte_size (Join EmptyString (kept ++ [d])) <= size_limit) \/
          (lumberjack_Write maxSizeMB file d = d /\ size_limit <= byte_size file + byte_size d)) as [[-> Hfit]|[-> Hfull]].
  { rewrite Join_app, byte_size_app. change (Join EmptyString [d]) with d. fold file.
    destruct (decide (byte_size file + byte_size d < size_limit)) as [Hlt|Hge]; [left; split; [by apply write_appends|lia]|].
    destruct (write_rotates rotation file d Hd) as [?|?]; [by left|right; split; [done|lia]]. }
  - destruct (IH _ Hfit) as (older & newer & E & Hf & Hs & Hne & Ho). rewrite <- app_assoc in E, Hne, Ho. by exists older, newer.
  - destruct (IH [d] Hd) as (older & newer & E & Hf & Hs & Hne & _). exists (kept ++ older), newer.
    split_and!; [by rewrite <- app_assoc, <- E|exact Hf|exact Hs|by intros _; apply Hne|].
    change (d :: written) with ([d] ++ written). rewrite app_assoc, !Join_app, !byte_size_app. change (Join EmptyString [d]) with d. fold file.
    pose proof (byte_size_nonneg (Join EmptyString written)). lia.
Qed.

(** C40: what a log has written reads back, up to rotation.  A query without
    bounds returns the records of the current file: the last of the logged
    lines, one record per line, in order, with the time, the stream and the
    redacted message (bytes that are not UTF-8 replaced by the encoder);
    all of them while what was written is below the 10 MB after which the
    file is rotated, and at least the last one in any case.  The file never
    exceeds 10 MB.  No single record is larger than that. *)
Theorem logs_read_back secrets calls path :
  let log := write_lines now calls (Open secrets) in
  let file := log_file EmptyString log in
  Forall (fun d => byte_size d <= size_limit) (ml_written log) ->
  exists older newer, logged (ml_secrets (Open secrets)) 0 calls = older ++ newer /\
    Query (Ok (Some file)) path everything = Ok newer /\
    (byte_size (Join EmptyString (ml_written log)) < size_limit -> older = []) /\
    (older ++ newer <> [] -> newer <> []) /\ byte_size file <= size_limit.
Proof.
  intros log file Hfit. unfold file, log_file.
  assert (ml_written log = (fun d => d +:+ str1 ch_newline) <$> encoded (ml_secrets (Open secrets)) 0 calls) as Hwritten
    by (by unfold log; rewrite write_lines_written).
  set (lines := encoded (ml_secrets (Open secrets)) 0 calls) in *.
  destruct (written_suffix (ml_written log) []) as (older & newer & E & Hf & Hs & Hne & Ho); [done|done|].
  cbn [app] in E, Hne, Ho. change (Join EmptyString []) with EmptyString in Hf. rewrite Hf.
  rewrite Hwritten in E. destruct (fmap_app_inv _ _ _ _ E) as (l1 & l2 & -> & -> & El).
  exists (omap decoded_line l1), (omap decoded_line l2). fold (concat_lines l2).
  pose proof (encoded_lines (ml_secrets (Open secrets)) 0 calls) as Hlines. fold lines in Hlines. rewrite El in Hlines.
  apply Forall_app in Hlines as [_ Hl2].
  assert (logged (ml_secrets (Open secrets)) 0 calls = omap decoded_line l1 ++ omap decoded_line l2) as Hlogged.
  { rewrite <- omap_app, <- El. symmetry. apply decode_encoded. }
  split_and!; [exact Hlogged|by apply Query_lines|..].
  - intros Hsmall. specialize (Ho Hsmall). by destruct l1.
  - intros Hsome. assert (l2 <> []) as H2.
    { intros ->. apply Hne; [|done]. rewrite Hwritten, El. intros E0. apply Hsome. by destruct l1. }
    destruct l2 as [|d l2]; [done|]. assert (d ∈ lines) as Hd by (rewrite El; set_solver).
    destruct (encoded_decodes _ _ _ _ Hd) as [r Hr]. cbn [omap list_omap]. by rewrite Hr.
  - exact Hs.
Qed.
End Rotation.

End Queries.

(** A writer that rotates exactly when it has to. *)
#[export] Instance plain_lumberjack : Lumberjack := {|
  lumberjack_Write max file data :=
    let limit := max * (1024 * 1024) in
    if limit <? byte_size data then file else if limit <? byte_size file + byte_size data then data else file +:+ data
|}.

Lemma plain_lumberjack_laws : lumberjack_laws.
Proof.
  split; intros file data Hd; unfold lumberjack_Write, plain_lumberjack; fold size_limit; pose proof (byte_size_nonneg file).
  - by rewrite !(proj2 (Z.ltb_ge _ _)) by lia.
  - rewrite (proj2 (Z.ltb_ge _ _)) by lia. destruct (size_limit <? _) eqn:E; bools; [by right|by left].
  - by rewrite (proj2 (Z.ltb_lt _ _)) by lia.
Qed.

Lemma logs_read_back_witness :
  let calls := [("stdout", "mounting as alice"); ("stderr", "password hunter2 rejected")] in
  let log := write_lines Z.of_nat calls (Open ["hunter2"]) in
  codec_laws /\ lumberjack_laws /\
  Query (Ok (Some (log_file EmptyString log))) "m1.log" everything =
  Ok [mkLogRecord 0 "stdout" "mounting as alice"; mkLogRecord 1 "stderr" "password [REDACTED] rejected"].
Proof.
  intros calls log. split; [exact plain_log_codec_laws|]. split; [exact plain_lumberjack_laws|].
  destruct (logs_read_back Z.of_nat plain_log_codec_laws plain_lumberjack_laws ["hunter2"] calls "m1.log"
    ltac:(repeat constructor; vm_compute; discriminate)) as (older & newer & E & Hq & Hall & _).
  rewrite Hall in E by (vm_compute; reflexivity). refine (eq_trans Hq _). rewrite <- (app_nil_l newer), <- E. vm_compute. reflexivity.
Defined.
