(* ===== verification/RepositoryFacts.v ===== *)
(** * What the repository guarantees

    The abstract repository is a finite map from mount IDs to records; the
    refinement relation [rep] ties it to the database, the path index
    included.  Every operation either performs its abstract counterpart or
    leaves the database untouched, whatever calls fail. *)

From S2P Require Import Prelude GoStrings GoPath GoErrors Base64 Api Repository PlainCodec.

(** ** Keys *)

Lemma string_app_inj (a b c : string) : a +:+ b = a +:+ c -> b = c.
Proof. induction a as [|x a IH]; simpl; [done|]. intros [= H]. by apply IH. Qed.

Lemma mountKey_inj a b : mountKey a = mountKey b -> a = b.
Proof. apply string_app_inj. Qed.

Lemma mountPathKey_inj a b : mountPathKey a = mountPathKey b -> a = b.
Proof. intros H. by apply string_app_inj, RawURLEncode_inj in H. Qed.

Lemma mountKey_ne_path id p : mountKey id <> mountPathKey p.
Proof. done. Qed.
Lemma mountKey_ne_meta id : mountKey id <> metaSchemaVersionKey.
Proof. done. Qed.
Lemma mountPathKey_ne_meta p : mountPathKey p <> metaSchemaVersionKey.
Proof. done. Qed.

(** ** Abstract repository *)

Notation repo := (gmap string MountRecord).

Definition path_owner (m : repo) (p : string) : option string :=
  fst <$> List.find (fun kv => String.eqb (Clean (record_path (snd kv))) p) (map_to_list m).

Definition create_spec (m : repo) (id p : string) (r : MountRecord) : result sentinel repo :=
  match m !! id with
  | Some _ => Err store_ErrMountIDConflict
  | None => match path_owner m p with
            | Some _ => Err store_ErrMountPathConflict
            | None => Ok (<[id := r]> m)
            end
  end.

Definition update_spec (m : repo) (id : string) (r : MountRecord) : result sentinel repo :=
  match m !! id with
  | None => Err store_ErrMountNotFound
  | Some _ => Ok (<[id := r]> m)
  end.

(** ** Refinement *)

Section Refinement.
Context `{ErrorLib} `{RecordCodec}.

Definition record_ok (id : string) (r : MountRecord) : Prop :=
  exists info, Record_Info r = Some info /\ MountInfo_MountId info = id /\ id <> EmptyString /\
    IsAbs (GetMountPath info) = true.

Record rep (db : DB) (m : repo) : Prop := {
  rep_decodes : forall id data, db !! mountKey id = Some data ->
    exists r, decodeRecord data = Ok r /\ m !! id = Some r;
  rep_stored : forall id r, m !! id = Some r ->
    record_ok id r /\ exists data, db !! mountKey id = Some data /\ decodeRecord data = Ok r;
  rep_index : forall p id, db !! mountPathKey p = Some id <->
    exists r, m !! id = Some r /\ Clean (record_path r) = p
}.

Lemma rep_None db m id : rep db m -> db !! mountKey id = None <-> m !! id = None.
Proof.
  intros R. split; intros Hn.
  - destruct (m !! id) eqn:E; [|done]. apply (rep_stored _ _ R) in E as (_ & d & ? & _). congruence.
  - destruct (db !! mountKey id) eqn:E; [|done]. apply (rep_decodes _ _ R) in E as (r & _ & ?). congruence.
Qed.

(** The path index makes canonical paths unique. *)
Lemma rep_path_unique db m id1 id2 r1 r2 :
  rep db m -> m !! id1 = Some r1 -> m !! id2 = Some r2 ->
  Clean (record_path r1) = Clean (record_path r2) -> id1 = id2.
Proof.
  intros R H1 H2 He.
  assert (db !! mountPathKey (Clean (record_path r1)) = Some id1) as E1 by (apply (rep_index _ _ R); eauto).
  assert (db !! mountPathKey (Clean (record_path r1)) = Some id2) as E2
    by (rewrite He; apply (rep_index _ _ R); eauto).
  congruence.
Qed.

Lemma path_owner_None db m p : rep db m -> path_owner m p = None <-> db !! mountPathKey p = None.
Proof.
  intros R. unfold path_owner. split; intros Hn.
  - destruct (db !! mountPathKey p) as [id|] eqn:E; [|done].
    apply (rep_index _ _ R) in E as (r & Hr & Hp).
    destruct (List.find _ _) eqn:Ef; [done|]. apply elem_of_map_to_list, list_elem_of_In in Hr.
    pose proof (find_none _ _ Ef _ Hr) as Hf. simpl in Hf. bools. done.
  - destruct (List.find _ _) as [[id r]|] eqn:Ef; [|done]. apply find_some in Ef as [Hin Hp].
    apply list_elem_of_In, elem_of_map_to_list in Hin. simpl in Hp. bools.
    assert (db !! mountPathKey p = Some id) by (apply (rep_index _ _ R); eauto). congruence.
Qed.

Lemma lookup_mountKey_insert (db : DB) id id' (data : string) :
  <[mountKey id := data]> db !! mountKey id' = if decide (id' = id) then Some data else db !! mountKey id'.
Proof.
  case_decide as Hd; [subst; by rewrite lookup_insert_eq|].
  rewrite lookup_insert_ne; [done|]. intros E. by apply Hd, mountKey_inj.
Qed.

Lemma lookup_mountKey_path (db : DB) id p v : <[mountPathKey p := v]> db !! mountKey id = db !! mountKey id.
Proof. apply lookup_insert_ne, not_eq_sym, mountKey_ne_path. Qed.

Lemma lookup_path_mountKey (db : DB) id p v : <[mountKey id := v]> db !! mountPathKey p = db !! mountPathKey p.
Proof. apply lookup_insert_ne, mountKey_ne_path. Qed.

Lemma rep_insert db m id p r data info :
  rep db m -> m !! id = None -> db !! mountPathKey p = None ->
  Record_Info r = Some info -> MountInfo_MountId info = id -> id <> EmptyString ->
  IsAbs (GetMountPath info) = true -> Clean (GetMountPath info) = p -> decodeRecord data = Ok r ->
  rep (<[mountPathKey p := id]> (<[mountKey id := data]> db)) (<[id := r]> m).
Proof.
  intros R Hid Hp Hr Hmid Hne Habs Hclean Hdec.
  assert (record_path r = GetMountPath info) as Hrp by (unfold record_path; by rewrite Hr). split.
  - intros id' d. rewrite lookup_mountKey_path, lookup_mountKey_insert. case_decide as Hd.
    + subst id'. rewrite lookup_insert_eq. intros [= <-]. by exists r.
    + rewrite lookup_insert_ne by done. apply (rep_decodes _ _ R).
  - intros id' r'. rewrite lookup_mountKey_path, lookup_mountKey_insert. case_decide as Hd.
    + subst id'. rewrite lookup_insert_eq. intros [= <-]. split; [by exists info | by exists data].
    + rewrite lookup_insert_ne by done. apply (rep_stored _ _ R).
  - intros q i. destruct (decide (q = p)) as [->|Hq].
    + rewrite lookup_insert_eq. split.
      * intros [= <-]. exists r. by rewrite lookup_insert_eq, Hrp.
      * intros (r' & Hr' & Hc). destruct (decide (i = id)) as [->|Hi]; [done|].
        rewrite lookup_insert_ne in Hr' by done.
        assert (db !! mountPathKey p = Some i) by (apply (rep_index _ _ R); eauto). congruence.
    + rewrite lookup_insert_ne by (intros E; by apply Hq; symmetry; apply mountPathKey_inj).
      rewrite lookup_path_mountKey, (rep_index _ _ R q i).
      destruct (decide (i = id)) as [->|Hi]; [|by rewrite lookup_insert_ne].
      split; [intros (r' & ? & _); congruence|]. intros (r' & Hr' & Hc). rewrite lookup_insert_eq in Hr'.
      simplify_eq. by rewrite Hrp in Hq.
Qed.

(** Replacing a record keeps the index right when its path does not change. *)
Lemma rep_replace db m id r r0 data :
  rep db m -> m !! id = Some r0 -> record_ok id r -> Clean (record_path r) = Clean (record_path r0) ->
  decodeRecord data = Ok r -> rep (<[mountKey id := data]> db) (<[id := r]> m).
Proof.
  intros R Hid Hok Hpath Hdec. split.
  - intros id' d. rewrite lookup_mountKey_insert. case_decide as Hd.
    + subst. rewrite lookup_insert_eq. intros [= <-]. by exists r.
    + rewrite lookup_insert_ne by done. apply (rep_decodes _ _ R).
  - intros id' r'. rewrite lookup_mountKey_insert. case_decide as Hd.
    + subst. rewrite lookup_insert_eq. intros [= <-]. split; [done | by exists data].
    + rewrite lookup_insert_ne by done. apply (rep_stored _ _ R).
  - intros q i. rewrite lookup_path_mountKey, (rep_index _ _ R q i).
    destruct (decide (i = id)) as [->|Hi]; [|by rewrite lookup_insert_ne].
    rewrite lookup_insert_eq, Hid. split; intros (r' & Hr' & Hc); simplify_eq; eauto.
Qed.

Lemma rep_delete db m id r :
  rep db m -> m !! id = Some r ->
  rep (delete (mountPathKey (Clean (record_path r))) (delete (mountKey id) db)) (delete id m).
Proof.
  intros R Hid.
  assert (forall id', delete (mountPathKey (Clean (record_path r))) (delete (mountKey id) db) !! mountKey id'
          = if decide (id' = id) then None else db !! mountKey id') as Hk.
  { intros id'. rewrite lookup_delete_ne by apply not_eq_sym, mountKey_ne_path.
    case_decide as Hd; [subst; by rewrite lookup_delete_eq|].
    rewrite lookup_delete_ne; [done|]. intros E. by apply Hd, mountKey_inj. }
  split.
  - intros id' d. rewrite Hk. case_decide as Hd; [done|]. rewrite lookup_delete_ne by done.
    apply (rep_decodes _ _ R).
  - intros id' r'. rewrite Hk. case_decide as Hd; [subst; by rewrite lookup_delete_eq|].
    rewrite lookup_delete_ne by done. apply (rep_stored _ _ R).
  - intros q i. destruct (decide (q = Clean (record_path r))) as [->|Hq].
    + rewrite lookup_delete_eq. split; [done|]. intros (r' & Hr' & Hc).
      destruct (decide (i = id)) as [->|Hi]; [by rewrite lookup_delete_eq in Hr'|].
      rewrite lookup_delete_ne in Hr' by done. destruct Hi. by eapply rep_path_unique.
    + rewrite lookup_delete_ne by (intros E; by apply Hq; symmetry; apply mountPathKey_inj).
      rewrite lookup_delete_ne by apply mountKey_ne_path. rewrite (rep_index _ _ R q i).
      destruct (decide (i = id)) as [->|Hi]; [|by rewrite lookup_delete_ne].
      rewrite lookup_delete_eq, Hid. split; intros (r' & Hr' & Hc); simplify_eq.
Qed.

End Refinement.

(** ** Transactions under faults *)

Section Transactions.
Context `{ErrorLib}.

(** Faults never claim that a key is missing. *)
Definition faults_ok (f : faults) : Prop :=
  Forall (fun o => IsOpt o badger_ErrKeyNotFound = false) f.

Lemma take_fault_ok f o f' : take_fault f = (o, f') -> faults_ok f ->
  faults_ok f' /\ IsOpt o badger_ErrKeyNotFound = false.
Proof. destruct f as [|x f]; simpl; intros [= <- <-] Hf; [done|]. by inversion Hf. Qed.

(** The three ways a call inside a transaction can go. *)
Inductive call_result {A} (t : Txn) (r : result goerror A) (db' : DB) : result goerror (result goerror A) * Txn -> Prop :=
| call_done f' : faults_ok f' -> call_result t r db' (Ok r, mkTxn db' f')
| call_failed e f' : faults_ok f' -> Is e badger_ErrKeyNotFound = false ->
    call_result t r db' (Ok (Err e), mkTxn (txn_db t) f').

Lemma faulty_cases {A} (m : Txn -> result goerror A * DB) t :
  faults_ok (txn_faults t) -> call_result t (m t).1 (m t).2 (txn_try (faulty m) t).
Proof.
  intros Hf. unfold txn_try, faulty. destruct (take_fault (txn_faults t)) as [o f'] eqn:E.
  destruct (take_fault_ok _ _ _ E Hf) as [Hf' Ho]. destruct o as [e|]; simpl.
  - by constructor.
  - destruct (m t) as [r db]. by constructor.
Qed.

Lemma faulty_view {A} (m : Txn -> result goerror A * DB) t r db' :
  m t = (r, db') -> faults_ok (txn_faults t) -> call_result t r db' (txn_try (faulty m) t).
Proof. intros E Hf. pose proof (faulty_cases m t Hf) as Hc. by rewrite E in Hc. Qed.

Lemma Get_cases key t : faults_ok (txn_faults t) ->
  call_result t (match txn_db t !! key with Some v => Ok v | None => Err (ESentinel badger_ErrKeyNotFound) end)
    (txn_db t) (txn_try (txn_Get key) t).
Proof. by apply faulty_view. Qed.
Lemma ValueCopy_cases item t : faults_ok (txn_faults t) ->
  call_result t (Ok item) (txn_db t) (txn_try (txn_ValueCopy item) t).
Proof. by apply faulty_view. Qed.
Lemma Set_cases key v t : faults_ok (txn_faults t) ->
  call_result t (Ok tt) (<[key := v]> (txn_db t)) (txn_try (txn_Set key v) t).
Proof. by apply faulty_view. Qed.
Lemma Delete_cases key t : faults_ok (txn_faults t) ->
  call_result t (Ok tt) (delete key (txn_db t)) (txn_try (txn_Delete key) t).
Proof. by apply faulty_view. Qed.

(** [txn_runs P fn db]: every run of [fn] that returns nil ends in a view
    that satisfies [P], whatever calls fail, and only consumes faults. *)
Definition txn_runs {A} (P : A -> DB -> Prop) (fn : txnM A) (db : DB) : Prop :=
  forall f, faults_ok f ->
    let '(r, t) := fn (mkTxn db f) in
    faults_ok (txn_faults t) /\ match r with Ok a => P a (txn_db t) | Err _ => True end.

Lemma runs_ret {A} (P : A -> DB -> Prop) a db : P a db -> txn_runs P (txn_ret a) db.
Proof. by intros HP f Hf. Qed.
Lemma runs_fail {A} (P : A -> DB -> Prop) e db : txn_runs P (txn_fail e) db.
Proof. by intros f Hf. Qed.

Lemma runs_call {A B} (P : B -> DB -> Prop) (m : txnM A) (k : result goerror A -> txnM B) db r db' :
  (forall f, faults_ok f -> call_result (mkTxn db f) r db' (txn_try m (mkTxn db f))) ->
  txn_runs P (k r) db' -> (forall e, Is e badger_ErrKeyNotFound = false -> txn_runs P (k (Err e)) db) ->
  txn_runs P (txn_bind (txn_try m) k) db.
Proof.
  intros Hm Hok Herr f Hf. unfold txn_bind. specialize (Hm f Hf). inversion Hm as [f' Hf' Heq|e f' Hf' He Heq].
  - by apply Hok.
  - by apply Herr.
Qed.

Lemma runs_Get {B} (P : B -> DB -> Prop) key k db :
  txn_runs P (k (match db !! key with Some v => Ok v | None => Err (ESentinel badger_ErrKeyNotFound) end)) db ->
  (forall e, Is e badger_ErrKeyNotFound = false -> txn_runs P (k (Err e)) db) ->
  txn_runs P (txn_bind (txn_try (txn_Get key)) k) db.
Proof. apply runs_call. intros f Hf. apply (Get_cases key (mkTxn db f) Hf). Qed.
Lemma runs_ValueCopy {B} (P : B -> DB -> Prop) item k db :
  txn_runs P (k (Ok item)) db -> (forall e, Is e badger_ErrKeyNotFound = false -> txn_runs P (k (Err e)) db) ->
  txn_runs P (txn_bind (txn_try (txn_ValueCopy item)) k) db.
Proof. apply runs_call. intros f Hf. apply (ValueCopy_cases item (mkTxn db f) Hf). Qed.
Lemma runs_Set {B} (P : B -> DB -> Prop) key v k db :
  txn_runs P (k (Ok tt)) (<[key := v]> db) ->
  (forall e, Is e badger_ErrKeyNotFound = false -> txn_runs P (k (Err e)) db) ->
  txn_runs P (txn_bind (txn_try (txn_Set key v)) k) db.
Proof. apply runs_call. intros f Hf. apply (Set_cases key v (mkTxn db f) Hf). Qed.
Lemma runs_Delete {B} (P : B -> DB -> Prop) key k db :
  txn_runs P (k (Ok tt)) (delete key db) ->
  (forall e, Is e badger_ErrKeyNotFound = false -> txn_runs P (k (Err e)) db) ->
  txn_runs P (txn_bind (txn_try (txn_Delete key)) k) db.
Proof. apply runs_call. intros f Hf. apply (Delete_cases key (mkTxn db f) Hf). Qed.

Lemma Is_self s : Is (ESentinel s) s = true.
Proof. simpl. apply same_mark_refl. Qed.

(** All-or-nothing: a failed update leaves the database as it was. *)
Lemma db_Update_runs (P : DB -> Prop) fn db f :
  txn_runs (fun _ => P) fn db -> faults_ok f ->
  let '(err, db', f') := db_Update fn db f in
  faults_ok f' /\ match err with None => P db' | Some _ => db' = db end.
Proof.
  intros Hfn Hf. specialize (Hfn f Hf). unfold db_Update.
  destruct (fn (mkTxn db f)) as [[u|e] t]; [|naive_solver].
  destruct (take_fault (txn_faults t)) as [o f'] eqn:E. destruct Hfn as [Hf' HP].
  destruct (take_fault_ok _ _ _ E Hf') as [Hf'' _]. by destruct o.
Qed.

Lemma conflict_retry_runs (P : DB -> Prop) fn db n err f :
  txn_runs (fun _ => P) fn db -> faults_ok f -> is_Some err ->
  let '(err', db', _) := conflict_retry n err fn db f in
  match err' with None => P db' | Some _ => db' = db end.
Proof.
  intros Hfn. revert err f. induction n as [|n IH]; intros err f Hf Herr; simpl.
  - by destruct Herr as [e ->].
  - pose proof (db_Update_runs P fn db f Hfn Hf) as Hu.
    destruct (db_Update fn db f) as [[err1 db1] f1]. destruct Hu as [Hf1 Hu].
    destruct (IsOpt err1 badger_ErrConflict) eqn:E; simpl; [|done].
    destruct err1 as [e1|]; [|done]. subst db1. by apply IH.
Qed.

Lemma conflict_retry_S n err fn db f :
  conflict_retry (S n) err fn db f =
  let '(err', db', f') := db_Update fn db f in
  if negb (IsOpt err' badger_ErrConflict) then (err', db', f') else conflict_retry n err' fn db' f'.
Proof. reflexivity. Qed.

Lemma updateWithConflictRetry_runs (P : DB -> Prop) fn db f :
  txn_runs (fun _ => P) fn db -> faults_ok f ->
  let '(err, db', _) := updateWithConflictRetry fn db f in
  match err with None => P db' | Some _ => db' = db end.
Proof.
  intros Hfn Hf. unfold updateWithConflictRetry, maxConflictRetries. rewrite conflict_retry_S.
  pose proof (db_Update_runs P fn db f Hfn Hf) as Hu.
  destruct (db_Update fn db f) as [[err1 db1] f1]. destruct Hu as [Hf1 Hu].
  destruct (IsOpt err1 badger_ErrConflict) eqn:E; simpl negb; cbv iota; [|done].
  destruct err1 as [e1|]; [|done]. subst db1. by apply (conflict_retry_runs P fn db 9 (Some e1) f1).
Qed.

End Transactions.

(** ** The operations refine the abstract repository *)

Section Operations.
Context `{ErrorLib} `{RecordCodec}.

Implicit Types (db : DB) (m : repo) (f : faults).

(** What a write returns, against what its specification says: on success
    the specification succeeded and the new database represents the new
    map; on failure nothing changed; and with no storage fault the error is
    the one of the specification. *)
Definition refines (spec : result sentinel repo) (db : DB) (f : faults) (out : option goerror * DB * faults)
  : Prop :=
  let '(err, db', _) := out in
  match err with
  | None => exists m', spec = Ok m' /\ rep db' m'
  | Some _ => db' = db
  end /\
  (f = [] -> match spec with
             | Ok _ => err = None
             | Err s => exists e, err = Some e /\ Is e s = true
             end).

Lemma store_sentinel_not_conflict s :
  s ∈ [store_ErrMountNotFound; store_ErrMountIDConflict; store_ErrMountPathConflict] ->
  same_mark s badger_ErrConflict = false.
Proof. intros Hs. apply same_mark_ne. set_unfold. by destruct Hs as [->|[->|[->|[]]]]. Qed.

(** A transaction that runs without faults, as one [db_Update]. *)
Lemma updateWithConflictRetry_no_faults fn db r db' :
  fn (mkTxn db []) = (r, mkTxn db' []) -> (forall e, r = Err e -> Is e badger_ErrConflict = false) ->
  updateWithConflictRetry fn db [] = match r with Ok _ => (None, db', []) | Err e => (Some e, db, []) end.
Proof.
  intros E Hr. unfold updateWithConflictRetry, maxConflictRetries. rewrite conflict_retry_S.
  unfold db_Update. rewrite E. destruct r as [u|e]; simpl; [done|]. by rewrite Hr.
Qed.

Ltac no_fault_run :=
  unfold txn_bind, txn_try, txn_Get, txn_ValueCopy, txn_Set, txn_Delete, faulty; simpl.

Lemma create_txn_no_faults db id p data :
  create_txn id p data (mkTxn db []) =
  match db !! mountKey id, db !! mountPathKey p with
  | Some _, _ => (Err (EWrap (ESentinel store_ErrMountIDConflict) ("mount ID " +:+ Quote id)), mkTxn db [])
  | None, Some owner =>
      (Err (EWrap (ESentinel store_ErrMountPathConflict)
              ("mount path " +:+ Quote p +:+ " is owned by " +:+ Quote owner)), mkTxn db [])
  | None, None => (Ok tt, mkTxn (<[mountPathKey p := id]> (<[mountKey id := data]> db)) [])
  end.
Proof.
  unfold create_txn. no_fault_run. destruct (db !! mountKey id); [done|]. simpl. rewrite same_mark_refl. simpl.
  destruct (db !! mountPathKey p); [done|]. simpl. by rewrite same_mark_refl.
Qed.

Lemma update_txn_no_faults db id data :
  update_txn id data (mkTxn db []) =
  match db !! mountKey id with
  | None => (Err (EWrap (ESentinel store_ErrMountNotFound) ("mount ID " +:+ Quote id)), mkTxn db [])
  | Some _ => (Ok tt, mkTxn (<[mountKey id := data]> db) [])
  end.
Proof. unfold update_txn. no_fault_run. destruct (db !! mountKey id); simpl; by rewrite ?same_mark_refl. Qed.

Lemma delete_txn_no_faults db id :
  delete_txn id (mkTxn db []) =
  match db !! mountKey id with
  | None => (Ok tt, mkTxn db [])
  | Some data =>
      match decodeRecord data with
      | Err e => (Err e, mkTxn db [])
      | Ok r => (Ok tt, mkTxn (delete (mountPathKey (Clean (record_path r))) (delete (mountKey id) db)) [])
      end
  end.
Proof.
  unfold delete_txn. no_fault_run. destruct (db !! mountKey id) as [d|]; simpl; [|by rewrite same_mark_refl].
  by destruct (decodeRecord d).
Qed.

Lemma spec_error fn db s msg err db' f' :
  fn (mkTxn db []) = (Err (EWrap (ESentinel s) msg), mkTxn db []) ->
  s ∈ [store_ErrMountNotFound; store_ErrMountIDConflict; store_ErrMountPathConflict] ->
  updateWithConflictRetry fn db [] = (err, db', f') -> exists e, err = Some e /\ Is e s = true.
Proof.
  intros Hr Hs E. erewrite updateWithConflictRetry_no_faults in E.
  2: exact Hr.
  2: { intros e [= <-]. simpl. by apply store_sentinel_not_conflict. }
  simpl in E. simplify_eq. eexists. split; [reflexivity|]. apply same_mark_refl.
Qed.

Lemma spec_success fn db u db1 err db' f' :
  fn (mkTxn db []) = (Ok u, mkTxn db1 []) -> updateWithConflictRetry fn db [] = (err, db', f') -> err = None.
Proof. intros Hr E. rewrite (updateWithConflictRetry_no_faults _ _ _ _ Hr) in E by done. by simplify_eq. Qed.

Lemma create_txn_runs db id p data :
  txn_runs (fun _ db' => db !! mountKey id = None /\ db !! mountPathKey p = None /\
                         db' = <[mountPathKey p := id]> (<[mountKey id := data]> db))
    (create_txn id p data) db.
Proof.
  unfold create_txn. apply runs_Get.
  2: { intros e He. rewrite He. apply runs_fail. }
  destruct (db !! mountKey id) as [v|] eqn:E1; [apply runs_fail|]. rewrite Is_self. simpl negb. cbv iota.
  apply runs_Get.
  2: { intros e He. rewrite He. apply runs_fail. }
  destruct (db !! mountPathKey p) as [v|] eqn:E2.
  { apply runs_ValueCopy; [apply runs_fail|]. intros e _. apply runs_fail. }
  rewrite Is_self. simpl negb. cbv iota.
  apply runs_Set; [|intros e _; apply runs_fail].
  apply runs_Set; [|intros e _; apply runs_fail]. by apply runs_ret.
Qed.

Lemma update_txn_runs db id data :
  txn_runs (fun _ db' => is_Some (db !! mountKey id) /\ db' = <[mountKey id := data]> db)
    (update_txn id data) db.
Proof.
  unfold update_txn. apply runs_Get.
  2: { intros e He. rewrite He. apply runs_fail. }
  destruct (db !! mountKey id) as [v|] eqn:E1; [|rewrite Is_self; apply runs_fail].
  apply runs_Set; [|intros e _; apply runs_fail]. apply runs_ret. by split; [exists v|].
Qed.

Lemma delete_txn_runs db id :
  txn_runs (fun _ db' => match db !! mountKey id with
                         | None => db' = db
                         | Some data => exists r, decodeRecord data = Ok r /\
                             db' = delete (mountPathKey (Clean (record_path r))) (delete (mountKey id) db)
                         end)
    (delete_txn id) db.
Proof.
  unfold delete_txn. apply runs_Get.
  2: { intros e He. rewrite He. apply runs_fail. }
  destruct (db !! mountKey id) as [v|] eqn:E1; [|rewrite Is_self; by apply runs_ret].
  apply runs_ValueCopy; [|intros e _; apply runs_fail].
  destruct (decodeRecord v) as [r|e] eqn:Er; [|apply runs_fail].
  apply runs_Delete; [|intros e _; apply runs_fail].
  apply runs_Delete; [|intros e _; apply runs_fail]. apply runs_ret. by exists r.
Qed.

Lemma validateRecordForWrite_ok info tombstone :
  MountInfo_MountId info <> EmptyString -> IsAbs (GetMountPath info) = true ->
  validateRecordForWrite (Some (mkMountRecord (Some info) tombstone)) = Ok (Clean (GetMountPath info)).
Proof.
  intros Hid Habs. unfold validateRecordForWrite. simpl. apply String.eqb_neq in Hid as ->.
  rewrite Habs. by destruct (String.eqb_spec (GetMountPath info) EmptyString) as [E|]; [rewrite E in Habs|].
Qed.

(** [Create] implements insertion into the abstract repository: it
    fails with the ID conflict or the path conflict exactly when the map has
    the ID or an owner of the canonical path, otherwise record and path
    index are both written; under any storage faults it either does all of
    that or leaves the database unchanged. *)
Lemma Create_refines db m info tombstone data f :
  rep db m -> faults_ok f -> encodeRecord info tombstone = Ok data ->
  MountInfo_MountId info <> EmptyString -> IsAbs (GetMountPath info) = true ->
  refines (create_spec m (MountInfo_MountId info) (Clean (GetMountPath info)) (mkMountRecord (Some info) tombstone))
    db f (Create None (Some (mkMountRecord (Some info) tombstone)) db f).
Proof.
  intros R Hf Hdata Hid Habs. unfold Create. rewrite validateRecordForWrite_ok by done. simpl. rewrite Hdata.
  set (id := MountInfo_MountId info) in *. set (p := Clean (GetMountPath info)).
  pose proof (updateWithConflictRetry_runs _ _ db f (create_txn_runs db id p data) Hf) as Hrun.
  pose proof (path_owner_None db m p R) as Howner. pose proof (rep_None db m id R) as Hnone.
  destruct (updateWithConflictRetry _ db f) as [[err db'] f'] eqn:E. unfold create_spec. split.
  - destruct err as [e|]; [done|]. destruct Hrun as (H1 & H2 & ->).
    apply Hnone in H1 as E1. apply Howner in H2 as E2. rewrite E1, E2. eexists. split; [done|].
    by eapply rep_insert; eauto using decode_encode_record.
  - intros ->. pose proof (create_txn_no_faults db id p data) as Hr.
    destruct (m !! id) as [r|] eqn:Em; [|rewrite (proj2 Hnone eq_refl) in Hr; destruct (path_owner m p) as [o|] eqn:Eo].
    + apply (rep_stored _ _ R) in Em as (_ & d & Hd & _). rewrite Hd in Hr. by eapply spec_error; eauto; set_solver.
    + destruct (db !! mountPathKey p) as [v|]; [|by discriminate (proj2 Howner eq_refl)].
      by eapply spec_error; eauto; set_solver.
    + rewrite (proj1 Howner eq_refl) in Hr. by eapply spec_success; eauto.
Qed.

(** [Update] implements replacement in the abstract repository for a
    record that keeps its mount path: it fails with "not found" exactly when
    the map has no record for the ID, and under storage faults it either
    replaces the record or leaves the database unchanged. *)
Lemma Update_refines db m info tombstone data f :
  rep db m -> faults_ok f -> encodeRecord info tombstone = Ok data ->
  MountInfo_MountId info <> EmptyString -> IsAbs (GetMountPath info) = true ->
  (forall r0, m !! MountInfo_MountId info = Some r0 -> Clean (record_path r0) = Clean (GetMountPath info)) ->
  refines (update_spec m (MountInfo_MountId info) (mkMountRecord (Some info) tombstone))
    db f (Update None (Some (mkMountRecord (Some info) tombstone)) db f).
Proof.
  intros R Hf Hdata Hid Habs Hpath. unfold Update. rewrite validateRecordForWrite_ok by done. simpl. rewrite Hdata.
  set (id := MountInfo_MountId info) in *.
  pose proof (updateWithConflictRetry_runs _ _ db f (update_txn_runs db id data) Hf) as Hrun.
  pose proof (rep_None db m id R) as Hnone.
  destruct (updateWithConflictRetry _ db f) as [[err db'] f'] eqn:E. unfold update_spec. split.
  - destruct err as [e|]; [done|]. destruct Hrun as ([v Hv] & ->).
    destruct (m !! id) as [r0|] eqn:Em; [|by rewrite (proj2 Hnone) in Hv].
    eexists. split; [done|]. eapply rep_replace; eauto using decode_encode_record.
    + by exists info.
    + symmetry. by apply Hpath.
  - intros ->. pose proof (update_txn_no_faults db id data) as Hr. destruct (m !! id) as [r|] eqn:Em.
    + apply (rep_stored _ _ R) in Em as (_ & d & Hd & _). rewrite Hd in Hr. by eapply spec_success; eauto.
    + rewrite (proj2 Hnone eq_refl) in Hr. by eapply spec_error; eauto; set_solver.
Qed.

(** [Delete] implements removal from the abstract repository: record and
    path index go together, deleting an unknown ID succeeds and changes
    nothing, and under storage faults either everything or nothing is
    removed. *)
Lemma Delete_refines db m id f :
  rep db m -> faults_ok f -> id <> EmptyString ->
  refines (Ok (delete id m)) db f (Delete None id db f).
Proof.
  intros R Hf Hid. unfold Delete. apply String.eqb_neq in Hid as ->.
  pose proof (updateWithConflictRetry_runs _ _ db f (delete_txn_runs db id) Hf) as Hrun.
  pose proof (rep_None db m id R) as Hnone.
  destruct (updateWithConflictRetry _ db f) as [[err db'] f'] eqn:E. split.
  - destruct err as [e|]; [done|]. exists (delete id m). split; [done|].
    destruct (db !! mountKey id) as [d|] eqn:Ed.
    + destruct Hrun as (r & Hr & ->). apply (rep_decodes _ _ R) in Ed as (r' & Hr' & Hm). rewrite Hr in Hr'. injection Hr' as <-.
      by apply rep_delete.
    + subst. rewrite delete_id; [done | by apply Hnone].
  - intros ->. pose proof (delete_txn_no_faults db id) as Hr. destruct (m !! id) as [r|] eqn:Em.
    + apply (rep_stored _ _ R) in Em as (_ & d & Hd & Hdec). rewrite Hd, Hdec in Hr. by eapply spec_success; eauto.
    + rewrite (proj2 Hnone eq_refl) in Hr. by eapply spec_success; eauto.
Qed.

Definition record_id (r : MountRecord) : string := from_option MountInfo_MountId EmptyString (Record_Info r).

Lemma list_txn_no_faults db items records :
  Forall2 (fun kv r => decodeRecord (snd kv) = Ok r) items records ->
  list_txn items (mkTxn db []) = (Ok records, mkTxn db []).
Proof.
  induction 1 as [|[k v] r items records Hd _ IH]; [done|]. simpl. simpl in Hd.
  unfold txn_bind, txn_try, txn_ValueCopy, faulty. simpl. rewrite Hd. simpl.
  unfold txn_bind. by rewrite IH.
Qed.

(** Every item under the record prefix belongs to a record of the map. *)
Lemma record_items_spec db m :
  rep db m -> exists records,
    Forall2 (fun kv r => decodeRecord (snd kv) = Ok r /\ fst kv = mountKey (record_id r) /\
                         m !! record_id r = Some r) (record_items db) records.
Proof.
  intros R. assert (Forall (fun kv => exists r, decodeRecord (snd kv) = Ok r /\ fst kv = mountKey (record_id r) /\
                                                m !! record_id r = Some r) (record_items db)) as Hall.
  { apply Forall_forall. intros [k v] Hin. unfold record_items in Hin.
    apply list_elem_of_In, filter_In in Hin as [Hin Hp]. apply list_elem_of_In, elem_of_map_to_list in Hin.
    simpl in Hp. apply HasPrefix_spec in Hp as [id ->].
    destruct (rep_decodes _ _ R id v Hin) as (r & Hd & Hm). exists r.
    destruct (rep_stored _ _ R _ _ Hm) as [(info & Hi & <- & _) _].
    unfold record_id. rewrite Hi. simpl. by rewrite Hd. }
  induction Hall as [|kv l (r & Hr) _ [records IH]]; [by exists []|]. exists (r :: records). by constructor.
Qed.

Lemma map_mountKey_ids (items : list (string * string)) records :
  Forall2 (fun kv r => fst kv = mountKey (record_id r)) items records ->
  items.*1 = mountKey <$> (record_id <$> records).
Proof. induction 1 as [|kv r items records E _ IH]; [done|]. csimpl. by rewrite E, IH. Qed.

(** [List] returns every stored record exactly once: the records of the
    abstract repository, with pairwise different mount IDs; and [Get]
    returns the record of an ID or the not-found error. *)
Lemma List_Get_refine db m :
  rep db m ->
  (exists records, List None db [] = (Ok records, []) /\ NoDup (map record_id records) /\
     forall r, r ∈ records <-> exists id, m !! id = Some r) /\
  (forall id, match m !! id with
              | Some r => Get None id db [] = (Ok r, [])
              | None => exists e, Get None id db [] = (Err e, []) /\ Is e store_ErrMountNotFound = true
              end).
Proof.
  intros R. split.
  - destruct (record_items_spec db m R) as [records Hr]. exists records. split_and!.
    + unfold List, db_View. simpl. rewrite (list_txn_no_faults db _ records); [done|].
      by eapply Forall2_impl; [exact Hr|]; simpl; intros kv r (? & _).
    + apply (NoDup_fmap_1 mountKey). change (map record_id records) with (record_id <$> records).
      rewrite <- (map_mountKey_ids (record_items db) records) by
        (by eapply Forall2_impl; [exact Hr|]; simpl; intros kv r (_ & ? & _)).
      unfold record_items.
      assert (NoDup (map_to_list db).*1) as Hnd by apply NoDup_fst_map_to_list.
      induction (map_to_list db) as [|kv l IH]; simpl in *; [constructor|].
      apply NoDup_cons in Hnd as [Hkv Hnd]. destruct (HasPrefix _ _); simpl; [|by apply IH].
      constructor; [|by apply IH]. contradict Hkv. apply list_elem_of_In, in_map_iff in Hkv as (y & <- & Hy).
      apply filter_In in Hy as [Hy _]. by apply list_elem_of_In, in_map.
    + intros r. split.
      * intros Hin. apply list_elem_of_lookup in Hin as [i Hi].
        destruct (Forall2_lookup_r _ _ _ _ _ Hr Hi) as (kv & _ & _ & _ & Hm). eauto.
      * intros [id Hm]. destruct (rep_stored _ _ R _ _ Hm) as [_ (d & Hd & Hdec)].
        assert ((mountKey id, d) ∈ record_items db) as Hin.
        { unfold record_items. apply list_elem_of_In, filter_In. split.
          - by apply list_elem_of_In, elem_of_map_to_list.
          - apply HasPrefix_spec. by exists id. }
        apply list_elem_of_lookup in Hin as [i Hi].
        destruct (Forall2_lookup_l _ _ _ _ _ Hr Hi) as (r' & Hr' & Hdec' & _). simpl in Hdec'.
        rewrite Hdec in Hdec'. injection Hdec' as <-. by eapply list_elem_of_lookup_2.
  - intros id. unfold Get, db_View, get_txn, txn_bind, txn_try, txn_Get, txn_ValueCopy, faulty. simpl.
    destruct (m !! id) as [r|] eqn:Em.
    + apply (rep_stored _ _ R) in Em as (_ & d & -> & Hd). simpl. by rewrite Hd.
    + rewrite (proj2 (rep_None db m id R) Em). simpl. rewrite same_mark_refl. simpl.
      eexists. split; [reflexivity|]. apply same_mark_refl.
Qed.

(** The operations that change a repository, what they do to the map, and
    what they ask of their arguments. *)
Inductive op : Type :=
| OpCreate (info : MountInfo) (tombstone : bool)
| OpUpdate (info : MountInfo) (tombstone : bool)
| OpDelete (id : string).

Definition op_run (o : op) : DB -> faults -> option goerror * DB * faults :=
  match o with
  | OpCreate info tombstone => Create None (Some (mkMountRecord (Some info) tombstone))
  | OpUpdate info tombstone => Update None (Some (mkMountRecord (Some info) tombstone))
  | OpDelete id => Delete None id
  end.

Definition op_spec (m : repo) (o : op) : result sentinel repo :=
  match o with
  | OpCreate info tombstone =>
      create_spec m (MountInfo_MountId info) (Clean (GetMountPath info)) (mkMountRecord (Some info) tombstone)
  | OpUpdate info tombstone => update_spec m (MountInfo_MountId info) (mkMountRecord (Some info) tombstone)
  | OpDelete id => Ok (delete id m)
  end.

Definition storable (info : MountInfo) (tombstone : bool) : Prop :=
  (exists data, encodeRecord info tombstone = Ok data) /\
  MountInfo_MountId info <> EmptyString /\ IsAbs (GetMountPath info) = true.

Definition op_ok (m : repo) (o : op) : Prop :=
  match o with
  | OpCreate info tombstone => storable info tombstone
  | OpUpdate info tombstone =>
      storable info tombstone /\
      forall r0, m !! MountInfo_MountId info = Some r0 -> Clean (record_path r0) = Clean (GetMountPath info)
  | OpDelete id => id <> EmptyString
  end.

(** C21: The database implements an abstract repository, a map from mount IDs
    to records in which no two records share a canonical path.  [Create]
    inserts and fails exactly on a used ID or path; [Update] replaces a
    record of the same path and fails exactly on an unknown ID; [Delete]
    removes record and path index together and succeeds on an unknown ID.
    Under any storage faults each of them does all of its work or leaves the
    database unchanged.  [List] returns every record once, and [Get] the
    record of an ID or the not-found error. *)
Theorem repository_refines db m :
  rep db m ->
  (forall o f, faults_ok f -> op_ok m o -> refines (op_spec m o) db f (op_run o db f)) /\
  (exists records, List None db [] = (Ok records, []) /\ NoDup (map record_id records) /\
     forall r, r ∈ records <-> exists id, m !! id = Some r) /\
  (forall id, match m !! id with
              | Some r => Get None id db [] = (Ok r, [])
              | None => exists e, Get None id db [] = (Err e, []) /\ Is e store_ErrMountNotFound = true
              end).
Proof.
  intros R. split; [|by apply List_Get_refine]. intros [info t|info t|id] f Hf Ho; simpl in *.
  - destruct Ho as ((data & Hd) & Hid & Habs). by eapply Create_refines.
  - destruct Ho as (((data & Hd) & Hid & Habs) & Hp). by eapply Update_refines.
  - by apply Delete_refines.
Qed.

End Operations.

(** ** The schema version *)

Lemma be_step v k k1 :
  0 <= k -> k1 = k + 1 -> v / 2 ^ (8 * k1) * 256 + v / 2 ^ (8 * k) mod 256 = v / 2 ^ (8 * k).
Proof.
  intros Hk ->. replace (8 * (k + 1)) with (8 * k + 8) by lia. rewrite Z.pow_add_r by lia.
  rewrite <- Z.div_div by lia. change (2 ^ 8) with 256.
  pose proof (Z.div_mod (v / 2 ^ (8 * k)) 256 ltac:(lia)). lia.
Qed.

Lemma byte_value z : 0 <= z < 256 -> Z.of_N (N_of_ascii (ascii_of_N (Z.to_N z))) = z.
Proof. intros Hz. rewrite N_ascii_embedding; lia. Qed.

Lemma decode_encodeUint64 v : 0 <= v < two64 -> decodeUint64 (encodeUint64 v) = v.
Proof.
  intros Hv. unfold decodeUint64, encodeUint64. rewrite String.list_ascii_of_string_of_list_ascii.
  cbn [map fold_left]. rewrite !byte_value by (apply Z.mod_pos_bound; lia).
  assert (v / 2 ^ (8 * 8) = 0) as H8 by (apply Z.div_small; unfold two64 in Hv; lia).
  rewrite <- H8 at 1.
  rewrite (be_step v 7 8), (be_step v 6 7), (be_step v 5 6), (be_step v 4 5), (be_step v 3 4), (be_step v 2 3),
    (be_step v 1 2), (be_step v 0 1) by lia. apply Z.div_1_r.
Qed.

Section Schema.
Context `{ErrorLib}.

Lemma runs_bind {A B} (P : B -> DB -> Prop) (m : txnM A) (k : A -> txnM B) db :
  txn_runs (fun a db' => txn_runs P (k a) db') m db -> txn_runs P (txn_bind m k) db.
Proof.
  intros Hm f Hf. specialize (Hm f Hf). unfold txn_bind. destruct (m (mkTxn db f)) as [[a|e] [db' f']].
  - destruct Hm as [Hf' Hk]. by apply Hk.
  - naive_solver.
Qed.

Lemma runs_last_Set (P : unit -> DB -> Prop) key v db :
  P tt (<[key := v]> db) -> txn_runs P (txn_Set key v) db.
Proof.
  intros HP f Hf. pose proof (Set_cases key v (mkTxn db f) Hf) as Hc. unfold txn_try in Hc.
  destruct (txn_Set key v (mkTxn db f)) as [r t]. by inversion Hc; subst.
Qed.

Definition stored_version (db : DB) (v : Z) : Prop :=
  match db !! metaSchemaVersionKey with
  | None => v = 0
  | Some value => value = encodeUint64 v
  end.

Lemma readSchemaVersion_runs db v :
  0 <= v < two64 -> stored_version db v -> txn_runs (fun v' db' => v' = v /\ db' = db) readSchemaVersion db.
Proof.
  intros Hv Hs. unfold stored_version in Hs. apply runs_Get.
  2: { intros e He. rewrite He. apply runs_fail. }
  destruct (db !! metaSchemaVersionKey) as [value|].
  - subst value. apply runs_ValueCopy; [|intros e _; apply runs_fail].
    change (Z.of_nat (String.length (encodeUint64 v))) with 8. apply runs_ret.
    by rewrite decode_encodeUint64.
  - rewrite Is_self. by apply runs_ret.
Qed.

Lemma readSchemaVersion_no_faults db v :
  0 <= v < two64 -> stored_version db v -> readSchemaVersion (mkTxn db []) = (Ok v, mkTxn db []).
Proof.
  intros Hv Hs. unfold stored_version in Hs.
  unfold readSchemaVersion, txn_bind, txn_try, txn_Get, txn_ValueCopy, faulty. simpl.
  destruct (db !! metaSchemaVersionKey) as [value|]; simpl.
  - subst value. change (Z.of_nat (String.length (encodeUint64 v))) with 8. simpl. unfold txn_ret.
    by rewrite decode_encodeUint64.
  - by rewrite same_mark_refl, Hs.
Qed.

(** Opening a database that has no schema version records version 1 and
    nothing else; a database at version 1 is left alone; one written by a
    newer build is refused without a change; and whatever calls fail,
    either the whole step happens or none of it. *)
Theorem ensureSchema_spec db f v :
  faults_ok f -> 0 <= v < two64 -> stored_version db v ->
  let '(err, db', _) := ensureSchema db f in
  (err = None -> db' = <[metaSchemaVersionKey := encodeUint64 CurrentSchemaVersion]> db) /\
  (err <> None -> db' = db) /\
  (f = [] -> err = None <-> v <= CurrentSchemaVersion).
Proof.
  intros Hf Hv Hs. unfold ensureSchema.
  assert (txn_runs (fun _ db' => db' = <[metaSchemaVersionKey := encodeUint64 CurrentSchemaVersion]> db)
            ensure_schema_txn db) as Hrun.
  { apply runs_bind. intros f' Hf'. pose proof (readSchemaVersion_runs db v Hv Hs f' Hf') as Hr.
    destruct (readSchemaVersion (mkTxn db f')) as [[v'|e] [db' f'']]; [|naive_solver].
    destruct Hr as (Hf'' & -> & Hdb). simpl in Hdb. subst db'. split; [done|]. unfold CurrentSchemaVersion.
    destruct (1 <? v) eqn:E1; [apply runs_fail|]. rewrite migrate_versions_none. apply runs_bind, runs_ret.
    destruct (v =? 1) eqn:E2; bools.
    - apply runs_ret. symmetry. apply insert_id. unfold stored_version in Hs. subst v.
      cbn [txn_db]. destruct (db !! metaSchemaVersionKey) as [x|]; [by rewrite Hs | discriminate Hs].
    - by apply runs_last_Set. }
  pose proof (db_Update_runs _ _ db f Hrun Hf) as Hu.
  destruct (db_Update ensure_schema_txn db f) as [[err db'] f'] eqn:E. destruct Hu as [_ Hu].
  split_and!; [intros ->; exact Hu|destruct err; [intros _; exact Hu | done]|].
  intros ->. unfold db_Update, ensure_schema_txn, txn_bind in E.
  rewrite (readSchemaVersion_no_faults db v Hv Hs), migrate_versions_none in E. unfold CurrentSchemaVersion in *.
  destruct (1 <? v) eqn:E1; bools; simpl in E.
  - simplify_eq. split; [done | lia].
  - destruct (v =? 1); simpl in E; simplify_eq; split; intros; (done || lia).
Qed.

End Schema.

Lemma ensureSchema_spec_witness :
  let '(err, db', _) := @ensureSchema message_errors ∅ [] in
  err = None /\ db' = {[ metaSchemaVersionKey := encodeUint64 1 ]}.
Proof.
  pose proof (@ensureSchema_spec message_errors ∅ [] 0 ltac:(constructor) ltac:(unfold two64; lia) eq_refl) as H.
  destruct (@ensureSchema message_errors ∅ []) as [[err db'] f'].
  destruct H as (H1 & _ & H3). assert (err = None) as -> by (apply H3; [done | unfold CurrentSchemaVersion; lia]).
  split; [done | by apply H1].
Defined.

(** ** Examples: a repository with one record *)

Definition example_info (id path : string) (state : MountState) : MountInfo := {|
  MountInfo_MountId := id;
  MountInfo_State := state;
  MountInfo_Config := Some (mkMountConfig path false [] (Some (MountConfig_Nfs (Some (mkNFSConfig "nas" 0 "/x")))));
  MountInfo_Attempt := 1;
  MountInfo_LastError := None;
  MountInfo_Pid := 0;
  MountInfo_CreatedAt := Some 0;
  MountInfo_UpdatedAt := Some 0;
  MountInfo_MountedAt := None;
  MountInfo_UnmountedAt := None;
  MountInfo_NextRetryAt := None
|}.

Definition example_record (state : MountState) (tombstone : bool) : MountRecord :=
  mkMountRecord (Some (example_info "m1" "/mnt/irods/a" state)) tombstone.

Definition example_data (state : MountState) (tombstone : bool) : string :=
  match encodeRecord (example_info "m1" "/mnt/irods/a" state) tombstone with Ok d => d | Err _ => EmptyString end.

Definition example_db : DB :=
  <[mountPathKey "/mnt/irods/a" := "m1"]>
    (<[mountKey "m1" := example_data MOUNT_STATE_PENDING_MOUNT false]> ∅).

Definition example_repo : repo := <["m1" := example_record MOUNT_STATE_PENDING_MOUNT false]> ∅.

Lemma rep_empty : rep ∅ ∅.
Proof.
  split.
  - intros id d. by rewrite lookup_empty.
  - intros id r. by rewrite lookup_empty.
  - intros p id. rewrite lookup_empty. split; [done|]. intros (r & Hr & _). by rewrite lookup_empty in Hr.
Qed.

Lemma example_rep : rep example_db example_repo.
Proof.
  apply (rep_insert _ _ "m1" "/mnt/irods/a" _ _ (example_info "m1" "/mnt/irods/a" MOUNT_STATE_PENDING_MOUNT)
           rep_empty); try done.
Qed.

(** A witness of the refinement: a database with one record, on which an
    update writes the tombstone and a listing finds the record. *)
Lemma repository_refines_witness :
  (let '(err, db', _) := Update None (Some (example_record MOUNT_STATE_UNMOUNTING true)) example_db [] in
   err = None /\ rep db' (<["m1" := example_record MOUNT_STATE_UNMOUNTING true]> example_repo)) /\
  exists records, List None example_db [] = (Ok records, []) /\
    example_record MOUNT_STATE_PENDING_MOUNT false ∈ records.
Proof.
  destruct (repository_refines example_db example_repo example_rep) as (Hw & (records & Hl & _ & Hr) & _). split.
  - assert (op_ok example_repo (OpUpdate (example_info "m1" "/mnt/irods/a" MOUNT_STATE_UNMOUNTING) true)) as Ho.
    { split; [split; [exists (example_data MOUNT_STATE_UNMOUNTING true); vm_compute; reflexivity|]|].
      - split; [discriminate | reflexivity].
      - intros r0 Hr0. unfold example_repo in Hr0. simpl in Hr0. rewrite lookup_insert_eq in Hr0.
        injection Hr0 as <-. reflexivity. }
    pose proof (Hw _ [] ltac:(constructor) Ho) as H.
    change (op_run _) with (Update None (Some (example_record MOUNT_STATE_UNMOUNTING true))) in H.
    destruct (Update None _ example_db []) as [[err db'] f'].
    destruct H as [H1 H2]. specialize (H2 eq_refl). change (err = None) in H2. subst err. split; [done|].
    destruct H1 as (m' & Hm & R).
    change (Ok (E := sentinel) (<["m1" := example_record MOUNT_STATE_UNMOUNTING true]> example_repo) = Ok m') in Hm.
    injection Hm as <-. exact R.
  - exists records. split; [exact Hl|]. apply Hr. exists "m1". unfold example_repo. apply lookup_insert_eq.
Defined.
