(* ===== verification/Durable.v ===== *)
(** * What a database of the daemon holds

    Whatever calls of the database fail, the repository writes a record only
    under the key of its mount, and only what its callers hand to it.  So a
    property of mount infos that holds of everything written holds of
    everything a later start of the daemon can read back. *)

From S2P Require Import Prelude GoStrings GoPath GoErrors Base64 Api Repository RepositoryFacts.

(** A oneof of the configuration never holds a nil message. *)
Definition client_ok (c : MountConfig) : bool :=
  match MountConfig_ClientConfig c with
  | Some (MountConfig_Davfs None) | Some (MountConfig_Nfs None) => false
  | _ => true
  end.

(** An info that may be mounted again: it has a proper configuration, and
    its attempt counter is an int32 of at most [limit]. *)
Definition good_info (limit : Z) (i : MountInfo) : Prop :=
  (exists c, MountInfo_Config i = Some c /\ client_ok c = true) /\
  -2147483648 <= MountInfo_Attempt i <= 2147483647 /\ MountInfo_Attempt i <= limit.

Section Durable.
Context {errs : ErrorLib} {codec : RecordCodec}.

(** Every record that can be read is stored under its own ID, and its info
    satisfies [P]. *)
Definition stores (P : MountInfo -> Prop) (db : DB) : Prop :=
  forall id data r, db !! mountKey id = Some data -> decodeRecord data = Ok r ->
    exists info, Record_Info r = Some info /\ MountInfo_MountId info = id /\ P info.

Definition sound (limit : Z) : DB -> Prop := stores (good_info limit).

(** No record at all: a database that was just created. *)
Definition blank (db : DB) : Prop := forall id, db !! mountKey id = None.

Lemma blank_stores P db : blank db -> stores P db.
Proof. intros Hb id data r Hd. by rewrite Hb in Hd. Qed.

Lemma good_info_mono a b i : a <= b -> good_info a i -> good_info b i.
Proof. intros Hab (Hc & Hi & Ha). split_and!; [done|lia..]. Qed.

Lemma stores_mono (P P' : MountInfo -> Prop) db : (forall i, P i -> P' i) -> stores P db -> stores P' db.
Proof. intros HP Hs id data r Hd Hr. destruct (Hs id data r Hd Hr) as (i & ? & ? & Hg). eauto. Qed.

(** ** Transactions that keep a property of the database *)

Definition txn_keeps {A} (P : DB -> Prop) (fn : txnM A) : Prop := forall t, P (txn_db t) -> P (txn_db (fn t).2).

Lemma keeps_ret {A} P (a : A) : txn_keeps P (txn_ret a).
Proof. by intros t. Qed.

Lemma keeps_fail {A} P e : txn_keeps P (txn_fail (A := A) e).
Proof. by intros t. Qed.

Lemma keeps_bind {A B} P (m : txnM A) (k : A -> txnM B) :
  txn_keeps P m -> (forall a, txn_keeps P (k a)) -> txn_keeps P (txn_bind m k).
Proof.
  intros Hm Hk t Ht. unfold txn_bind. specialize (Hm t Ht). destruct (m t) as [[a|e] t']; [by apply Hk|done].
Qed.

Lemma keeps_try {A} P (m : txnM A) : txn_keeps P m -> txn_keeps P (txn_try m).
Proof. intros Hm t Ht. unfold txn_try. specialize (Hm t Ht). by destruct (m t). Qed.

Lemma keeps_faulty {A} P (m : Txn -> result goerror A * DB) :
  (forall t, P (txn_db t) -> P (m t).2) -> txn_keeps P (faulty m).
Proof.
  intros Hm t Ht. unfold faulty. destruct (take_fault (txn_faults t)) as [[e|] f]; [done|].
  specialize (Hm t Ht). by destruct (m t).
Qed.

Lemma keeps_Get P key : txn_keeps P (txn_Get key).
Proof. by apply keeps_faulty. Qed.

Lemma keeps_ValueCopy P item : txn_keeps P (txn_ValueCopy item).
Proof. by apply keeps_faulty. Qed.

Lemma keeps_Set (P : DB -> Prop) key v : (forall db, P db -> P (<[key := v]> db)) -> txn_keeps P (txn_Set key v).
Proof. intros HP. apply keeps_faulty. intros t Ht. by apply HP. Qed.

Lemma keeps_Delete (P : DB -> Prop) key : (forall db, P db -> P (delete key db)) -> txn_keeps P (txn_Delete key).
Proof. intros HP. apply keeps_faulty. intros t Ht. by apply HP. Qed.

Lemma keeps_db_Update P fn db f : txn_keeps P fn -> P db -> P (db_Update fn db f).1.2.
Proof.
  intros Hf Hdb. unfold db_Update. specialize (Hf (mkTxn db f) Hdb). destruct (fn (mkTxn db f)) as [[u|e] t]; [|done].
  by destruct (take_fault (txn_faults t)) as [[e|] f'].
Qed.

Lemma keeps_conflict_retry P fn n : forall err db f, txn_keeps P fn -> P db -> P (conflict_retry n err fn db f).1.2.
Proof.
  induction n as [|n IH]; intros err db f Hf Hdb; simpl; [done|].
  pose proof (keeps_db_Update P fn db f Hf Hdb) as Hu. destruct (db_Update fn db f) as [[e db'] f'].
  destruct (negb _); [done|]. by apply IH.
Qed.

(** ** The operations *)

Lemma stores_set P db id data info tombstone :
  encodeRecord info tombstone = Ok data -> MountInfo_MountId info = id -> P info ->
  stores P db -> stores P (<[mountKey id := data]> db).
Proof.
  intros He Hid Hg Hs id' data' r. rewrite lookup_mountKey_insert. case_decide as Hd; [|by apply Hs].
  intros [= <-]. rewrite (decode_encode_record _ _ _ He). intros [= <-]. subst. eauto.
Qed.

Lemma stores_path P db p v : stores P db -> stores P (<[mountPathKey p := v]> db).
Proof. intros Hs id data r. rewrite lookup_mountKey_path. apply Hs. Qed.

Lemma stores_delete P db k : stores P db -> stores P (delete k db).
Proof. intros Hs id data r [_ Hd]%lookup_delete_Some. by apply Hs. Qed.

Lemma stores_Update P ctx record db f :
  (forall i, Record_Info record = Some i -> P i) ->
  stores P db -> stores P (Update ctx (Some record) db f).1.2.
Proof.
  intros Hg Hs. unfold Update. destruct ctx; [done|]. destruct (validateRecordForWrite _); [|done].
  change (Some record ≫= Record_Info) with (Record_Info record).
  destruct (Record_Info record) as [info|] eqn:Ei; [|done]. destruct (encodeRecord info _) as [data|] eqn:Ee; [|done].
  apply (keeps_conflict_retry (stores P)); [|done]. unfold update_txn. apply keeps_bind; [apply keeps_try, keeps_Get|].
  intros [x|e]; [|destruct (Is _ _); apply keeps_fail].
  apply keeps_bind; [|intros []; [apply keeps_ret|apply keeps_fail]].
  apply keeps_try, keeps_Set. intros db'. eapply stores_set; [exact Ee|done|auto].
Qed.

Lemma stores_Create P ctx record db f :
  (forall i, Record_Info record = Some i -> P i) ->
  stores P db -> stores P (Create ctx (Some record) db f).1.2.
Proof.
  intros Hg Hs. unfold Create. destruct ctx; [done|]. destruct (validateRecordForWrite _) as [p|]; [|done].
  change (Some record ≫= Record_Info) with (Record_Info record).
  destruct (Record_Info record) as [info|] eqn:Ei; [|done]. destruct (encodeRecord info _) as [data|] eqn:Ee; [|done].
  apply (keeps_conflict_retry (stores P)); [|done]. unfold create_txn. apply keeps_bind; [apply keeps_try, keeps_Get|].
  intros [x|e]; [apply keeps_fail|]. destruct (negb _); [apply keeps_fail|].
  apply keeps_bind; [apply keeps_try, keeps_Get|]. intros [x|e'].
  { apply keeps_bind; [apply keeps_try, keeps_ValueCopy|]. intros []; apply keeps_fail. }
  destruct (negb _); [apply keeps_fail|]. apply keeps_bind; [apply keeps_try, keeps_Set|].
  { intros db'. eapply stores_set; [exact Ee|done|auto]. }
  intros []; [|apply keeps_fail]. apply keeps_bind; [|intros []; [apply keeps_ret|apply keeps_fail]].
  apply keeps_try, keeps_Set. intros db'. apply stores_path.
Qed.

Lemma stores_Delete P ctx id db f : stores P db -> stores P (Delete ctx id db f).1.2.
Proof.
  intros Hs. unfold Delete. destruct ctx; [done|]. destruct (String.eqb id EmptyString); [done|].
  apply (keeps_conflict_retry (stores P)); [|done]. unfold delete_txn. apply keeps_bind; [apply keeps_try, keeps_Get|].
  intros [x|e]; [|destruct (Is _ _); [apply keeps_ret|apply keeps_fail]].
  apply keeps_bind; [apply keeps_try, keeps_ValueCopy|]. intros [d|e]; [|apply keeps_fail].
  destruct (decodeRecord d); [|apply keeps_fail].
  apply keeps_bind; [apply keeps_try, keeps_Delete; intros ?; apply stores_delete|]. intros []; [|apply keeps_fail].
  apply keeps_bind; [apply keeps_try, keeps_Delete; intros ?; apply stores_delete|]. intros []; [apply keeps_ret|apply keeps_fail].
Qed.

Lemma stores_ensureSchema P db f : stores P db -> stores P (ensureSchema db f).1.2.
Proof.
  apply (keeps_db_Update (stores P)). unfold ensure_schema_txn. apply keeps_bind.
  { unfold readSchemaVersion. apply keeps_bind; [apply keeps_try, keeps_Get|].
    intros [x|e]; [|destruct (Is _ _); [apply keeps_ret|apply keeps_fail]].
    apply keeps_bind; [apply keeps_try, keeps_ValueCopy|]. intros []; [|apply keeps_fail].
    destruct (negb _); [apply keeps_fail|apply keeps_ret]. }
  intros v. destruct (_ <? v); [apply keeps_fail|]. rewrite migrate_versions_none.
  apply keeps_bind; [apply keeps_ret|]. intros _. destruct (v =? _); [apply keeps_ret|]. apply keeps_Set.
  intros db' Hs id data r. rewrite lookup_insert_ne by (apply not_eq_sym, mountKey_ne_meta). apply Hs.
Qed.

(** ** Reading *)

Lemma mountKey_of_prefix k : HasPrefix k mountKeyPrefix = true -> exists id, k = mountKey id.
Proof. intros [t ->]%HasPrefix_spec. by exists t. Qed.

Lemma record_items_lookup db k v : (k, v) ∈ record_items db <-> db !! k = Some v /\ HasPrefix k mountKeyPrefix = true.
Proof.
  unfold record_items. rewrite list_elem_of_In, filter_In, <- list_elem_of_In, elem_of_map_to_list. done.
Qed.

(** What the listing decodes, item by item. *)
Lemma list_txn_items items t records t' :
  list_txn items t = (Ok records, t') -> Forall2 (fun kv r => decodeRecord kv.2 = Ok r) items records.
Proof.
  revert t records. induction items as [|[k v] items IH]; intros t records Hl; simpl in Hl.
  - injection Hl as <- <-. constructor.
  - unfold txn_bind, txn_try, txn_ValueCopy, faulty in Hl. destruct (take_fault (txn_faults t)) as [[e|] f]; [done|].
    destruct (decodeRecord v) as [x|] eqn:Ed; [|done].
    destruct (list_txn items _) as [[l|] t2] eqn:El; [|done]. injection Hl as <- <-. constructor; [done|by eapply IH].
Qed.

(** A listing holds records read under their own IDs. *)
Lemma List_stores P ctx db f records :
  stores P db -> (List ctx db f).1 = Ok records ->
  Forall (fun r => exists info data, Record_Info r = Some info /\ db !! mountKey (MountInfo_MountId info) = Some data /\
    decodeRecord data = Ok r /\ P info) records.
Proof.
  intros Hs. unfold List, db_View. destruct ctx; [done|]. destruct (list_txn _ _) as [x t] eqn:E. simpl. intros ->.
  apply list_txn_items in E. assert (forall kv, kv ∈ record_items db -> exists id, db !! mountKey id = Some kv.2) as Hitems.
  { intros [k v] [Hk [id ->]%mountKey_of_prefix]%record_items_lookup. by exists id. }
  cbn [txn_db] in E. revert Hitems. generalize dependent (record_items db). intros items0 E.
  induction E as [|kv r items records Hd _ IH]; intros Hitems; constructor.
  - destruct (Hitems kv) as [id Hk]; [left|]. destruct (Hs id _ _ Hk Hd) as (info & Hi & <- & Hg). by exists info, kv.2.
  - apply IH. intros kv' Hin. apply Hitems. by right.
Qed.

(** ** How many *)

(** Different IDs with a record are not more than the records. *)
Lemma stored_ids_count {A} (m : gmap string A) db :
  (forall id, is_Some (m !! id) -> is_Some (db !! mountKey id)) -> (size m <= length (record_items db))%nat.
Proof.
  intros Hm. rewrite <- length_map_to_list, <- (length_fmap fst (map_to_list m)), <- (length_fmap fst (record_items db)).
  rewrite <- (length_fmap mountKey). apply submseteq_length, NoDup_submseteq.
  - apply NoDup_fmap; [intros ? ?; apply mountKey_inj|apply NoDup_fst_map_to_list].
  - intros k (id & -> & Hin)%list_elem_of_fmap. apply list_elem_of_fmap in Hin as ([id' a] & -> & Hin).
    apply elem_of_map_to_list in Hin. simpl. destruct (Hm id' ltac:(by exists a)) as [v Hv].
    apply list_elem_of_fmap. exists (mountKey id', v). split; [done|]. apply record_items_lookup. split; [done|].
    apply HasPrefix_spec. by exists id'.
Qed.

End Durable.
