(* ===== verification/Runtime.v ===== *)
(** * Runtime: the daemon as interleaved threads

    The mount manager is a set of goroutines that share a heap of managed
    mounts, a registry and a database.  Each goroutine is a [prog]: a
    sequence of atomic actions on the shared [World].  One action is one
    critical section of a mutex, one channel operation, or one call to the
    outside (database, file system, child process).  Everything the daemon
    does not decide (clock readings, results of system calls, which case of
    a select is ready) comes from an [env], a fresh one for every action,
    so a run is a list of scheduling choices and can be evaluated. *)

From S2P Require Import Prelude GoStrings GoPath GoErrors GoFloat Api Redact Config Policy Repository.

(** ** Heap objects *)

Notation entry_id := nat (only parsing).   (* *managedMount *)
Notation chan := nat (only parsing).   (* chan struct{} *)
Notation proc_id := nat (only parsing).   (* *exec.Cmd after Start *)
Notation timer_id := nat (only parsing).   (* *time.Timer *)
Notation log_id := nat (only parsing).   (* *logstore.MountLog *)

(** context.Context: the background context, or the context of a request,
    which may end at any time. *)
Inductive context : Type :=
| Background
| RequestContext.

(** exec.Cmd; a nil [Env] means that the process inherits the environment
    of the daemon. *)
Record Cmd : Type := mkCmd {
  cmd_Path : string;
  cmd_Args : list string;
  cmd_Env : option (list string);
  cmd_Stdin : option string;
  cmd_Log : option log_id           (* where Stdout and Stderr go *)
}.

(** Everything that runs in a goroutine of its own: API calls, supervisors,
    timer callbacks. *)
Inductive thread : Type :=
| TMount (ctx : context) (request : option MountRequest)
| TUnmount (ctx : context) (request : option UnmountRequest)
| TGetMount (ctx : context) (mountID : string)
| TListMounts (ctx : context) (request : option ListMountsRequest)
| TWatch (rounds : nat) (ctx : context) (request : option WatchMountEventsRequest)
| TReady (ctx : context)
| TSetMetrics
| TReconcile (ctx : context)
| TReconcileTombstones (ctx : context)
| TShutdown (ctx : context)
| TShutdownEntry (ctx : context) (entry : entry_id) (wait : nat)
| TWaitForProcess (entry : entry_id) (generation : Z) (command : proc_id) (exitDone : chan)
| TWaitForMount (entry : entry_id) (generation : Z) (deadline : Z) (exitDone : chan)
| TWaitForMountLoop (entry : entry_id) (generation : Z) (exitDone : option chan)
| TRetryMount (entry : entry_id) (generation : Z)
| TRetryUnmount (entry : entry_id) (generation : Z).

(** managedMount; [mm_operation] is the state of the operation mutex, an
    empty client is [None]. *)
Record managedMount : Type := mkManagedMount {
  mm_operation : bool;
  mm_info : MountInfo;
  mm_command : option proc_id;
  mm_client : option mountClientType;
  mm_persistent : bool;
  mm_exitDone : chan;
  mm_unmounting : bool;
  mm_timedOut : bool;
  mm_stopping : bool;
  mm_generation : Z;
  mm_retryTimer : option timer_id;
  mm_mountLog : option log_id
}.

Record process : Type := mkProcess {
  proc_cmd : Cmd;
  proc_Pid : Z
}.

Record timer : Type := mkTimer {
  timer_active : bool;
  timer_func : thread
}.

Record mount_log : Type := mkMountLog {
  log_path : string;
  log_secrets : list string;
  log_open : bool
}.

(** mountEventSubscriber: an empty filter matches everything; the channel
    is its buffer. *)
Record subscriber : Type := mkSubscriber {
  sub_mountIDs : list string;
  sub_events : list MountEvent
}.

Definition subscriber_buffer : nat := 64.

(** The counters of service/metrics.go, the labelled one and the histogram
    of durations as the sequences of their observations. *)
Record Metrics : Type := mkMetrics {
  mountOperations : list (string * string);
  mountDurations : list (string * Z);
  childCrashes : Z;
  reconcileErrors : Z
}.

(** Calls to the outside and whether they succeeded, the events that are
    offered to subscribers, and what the handler of a stream does with its
    subscription. *)
Inductive effect : Type :=
| FxMkdirAll (path : string) (ok : bool)
| FxRemoveAll (path : string) (ok : bool)
| FxWriteFile (path content : string) (ok : bool)
| FxStart (mountID : string) (command : Cmd)
| FxSignal (command : proc_id)
| FxKill (command : proc_id)
| FxFuseUnmount (path : string) (ok : bool)
| FxSystemUnmount (args : list string) (timeout : Z) (ok : bool)
| FxCreate (mountID : string) (ok : bool)
| FxUpdate (mountID : string) (tombstone : bool) (ok : bool)
| FxDelete (mountID : string) (ok : bool)
| FxPublish (event : MountEvent)
| FxSnapshot (subscriberID : Z) (event : MountEvent)
| FxReceive (subscriberID : Z) (event : MountEvent)
| FxSend (subscriberID : Z) (event : MountEvent) (ok : bool)
| FxUnsubscribe (subscriberID : Z).

(** What an API call returned. *)
Record reply : Type := mkReply {
  reply_mounts : list MountInfo;
  reply_err : option goerror
}.

(** ** The world *)

Record World : Type := mkWorld {
  w_entries : list managedMount;
  w_mounts : gmap string entry_id;
  w_chans : list bool;
  w_procs : list process;
  w_timers : list timer;
  w_logs : list mount_log;
  w_db : DB;
  w_subscribers : gmap Z subscriber;
  w_nextSubscriberID : Z;
  w_eventMutex : bool;
  w_metrics : option Metrics;
  w_waits : list nat;
  w_ready : list thread;
  w_history : list effect;
  w_replies : list reply
}.

Definition set_mm_operation (v : bool) (r : managedMount) : managedMount :=
  let '(mkManagedMount _ x1 x2 x3 x4 x5 x6 x7 x8 x9 x10 x11) := r in mkManagedMount v x1 x2 x3 x4 x5 x6 x7 x8 x9 x10 x11.
Definition set_mm_info (v : MountInfo) (r : managedMount) : managedMount :=
  let '(mkManagedMount x0 _ x2 x3 x4 x5 x6 x7 x8 x9 x10 x11) := r in mkManagedMount x0 v x2 x3 x4 x5 x6 x7 x8 x9 x10 x11.
Definition set_mm_command (v : option proc_id) (r : managedMount) : managedMount :=
  let '(mkManagedMount x0 x1 _ x3 x4 x5 x6 x7 x8 x9 x10 x11) := r in mkManagedMount x0 x1 v x3 x4 x5 x6 x7 x8 x9 x10 x11.
Definition set_mm_client (v : option mountClientType) (r : managedMount) : managedMount :=
  let '(mkManagedMount x0 x1 x2 _ x4 x5 x6 x7 x8 x9 x10 x11) := r in mkManagedMount x0 x1 x2 v x4 x5 x6 x7 x8 x9 x10 x11.
Definition set_mm_persistent (v : bool) (r : managedMount) : managedMount :=
  let '(mkManagedMount x0 x1 x2 x3 _ x5 x6 x7 x8 x9 x10 x11) := r in mkManagedMount x0 x1 x2 x3 v x5 x6 x7 x8 x9 x10 x11.
Definition set_mm_exitDone (v : chan) (r : managedMount) : managedMount :=
  let '(mkManagedMount x0 x1 x2 x3 x4 _ x6 x7 x8 x9 x10 x11) := r in mkManagedMount x0 x1 x2 x3 x4 v x6 x7 x8 x9 x10 x11.
Definition set_mm_unmounting (v : bool) (r : managedMount) : managedMount :=
  let '(mkManagedMount x0 x1 x2 x3 x4 x5 _ x7 x8 x9 x10 x11) := r in mkManagedMount x0 x1 x2 x3 x4 x5 v x7 x8 x9 x10 x11.
Definition set_mm_timedOut (v : bool) (r : managedMount) : managedMount :=
  let '(mkManagedMount x0 x1 x2 x3 x4 x5 x6 _ x8 x9 x10 x11) := r in mkManagedMount x0 x1 x2 x3 x4 x5 x6 v x8 x9 x10 x11.
Definition set_mm_stopping (v : bool) (r : managedMount) : managedMount :=
  let '(mkManagedMount x0 x1 x2 x3 x4 x5 x6 x7 _ x9 x10 x11) := r in mkManagedMount x0 x1 x2 x3 x4 x5 x6 x7 v x9 x10 x11.
Definition set_mm_generation (v : Z) (r : managedMount) : managedMount :=
  let '(mkManagedMount x0 x1 x2 x3 x4 x5 x6 x7 x8 _ x10 x11) := r in mkManagedMount x0 x1 x2 x3 x4 x5 x6 x7 x8 v x10 x11.
Definition set_mm_retryTimer (v : option timer_id) (r : managedMount) : managedMount :=
  let '(mkManagedMount x0 x1 x2 x3 x4 x5 x6 x7 x8 x9 _ x11) := r in mkManagedMount x0 x1 x2 x3 x4 x5 x6 x7 x8 x9 v x11.
Definition set_mm_mountLog (v : option log_id) (r : managedMount) : managedMount :=
  let '(mkManagedMount x0 x1 x2 x3 x4 x5 x6 x7 x8 x9 x10 _) := r in mkManagedMount x0 x1 x2 x3 x4 x5 x6 x7 x8 x9 x10 v.

Definition set_w_entries (v : list managedMount) (r : World) : World :=
  let '(mkWorld _ x1 x2 x3 x4 x5 x6 x7 x8 x9 x10 x11 x12 x13 x14) := r in mkWorld v x1 x2 x3 x4 x5 x6 x7 x8 x9 x10 x11 x12 x13 x14.
Definition set_w_mounts (v : gmap string entry_id) (r : World) : World :=
  let '(mkWorld x0 _ x2 x3 x4 x5 x6 x7 x8 x9 x10 x11 x12 x13 x14) := r in mkWorld x0 v x2 x3 x4 x5 x6 x7 x8 x9 x10 x11 x12 x13 x14.
Definition set_w_chans (v : list bool) (r : World) : World :=
  let '(mkWorld x0 x1 _ x3 x4 x5 x6 x7 x8 x9 x10 x11 x12 x13 x14) := r in mkWorld x0 x1 v x3 x4 x5 x6 x7 x8 x9 x10 x11 x12 x13 x14.
Definition set_w_procs (v : list process) (r : World) : World :=
  let '(mkWorld x0 x1 x2 _ x4 x5 x6 x7 x8 x9 x10 x11 x12 x13 x14) := r in mkWorld x0 x1 x2 v x4 x5 x6 x7 x8 x9 x10 x11 x12 x13 x14.
Definition set_w_timers (v : list timer) (r : World) : World :=
  let '(mkWorld x0 x1 x2 x3 _ x5 x6 x7 x8 x9 x10 x11 x12 x13 x14) := r in mkWorld x0 x1 x2 x3 v x5 x6 x7 x8 x9 x10 x11 x12 x13 x14.
Definition set_w_logs (v : list mount_log) (r : World) : World :=
  let '(mkWorld x0 x1 x2 x3 x4 _ x6 x7 x8 x9 x10 x11 x12 x13 x14) := r in mkWorld x0 x1 x2 x3 x4 v x6 x7 x8 x9 x10 x11 x12 x13 x14.
Definition set_w_db (v : DB) (r : World) : World :=
  let '(mkWorld x0 x1 x2 x3 x4 x5 _ x7 x8 x9 x10 x11 x12 x13 x14) := r in mkWorld x0 x1 x2 x3 x4 x5 v x7 x8 x9 x10 x11 x12 x13 x14.
Definition set_w_subscribers (v : gmap Z subscriber) (r : World) : World :=
  let '(mkWorld x0 x1 x2 x3 x4 x5 x6 _ x8 x9 x10 x11 x12 x13 x14) := r in mkWorld x0 x1 x2 x3 x4 x5 x6 v x8 x9 x10 x11 x12 x13 x14.
Definition set_w_nextSubscriberID (v : Z) (r : World) : World :=
  let '(mkWorld x0 x1 x2 x3 x4 x5 x6 x7 _ x9 x10 x11 x12 x13 x14) := r in mkWorld x0 x1 x2 x3 x4 x5 x6 x7 v x9 x10 x11 x12 x13 x14.
Definition set_w_eventMutex (v : bool) (r : World) : World :=
  let '(mkWorld x0 x1 x2 x3 x4 x5 x6 x7 x8 _ x10 x11 x12 x13 x14) := r in mkWorld x0 x1 x2 x3 x4 x5 x6 x7 x8 v x10 x11 x12 x13 x14.
Definition set_w_metrics (v : option Metrics) (r : World) : World :=
  let '(mkWorld x0 x1 x2 x3 x4 x5 x6 x7 x8 x9 _ x11 x12 x13 x14) := r in mkWorld x0 x1 x2 x3 x4 x5 x6 x7 x8 x9 v x11 x12 x13 x14.
Definition set_w_waits (v : list nat) (r : World) : World :=
  let '(mkWorld x0 x1 x2 x3 x4 x5 x6 x7 x8 x9 x10 _ x12 x13 x14) := r in mkWorld x0 x1 x2 x3 x4 x5 x6 x7 x8 x9 x10 v x12 x13 x14.
Definition set_w_ready (v : list thread) (r : World) : World :=
  let '(mkWorld x0 x1 x2 x3 x4 x5 x6 x7 x8 x9 x10 x11 _ x13 x14) := r in mkWorld x0 x1 x2 x3 x4 x5 x6 x7 x8 x9 x10 x11 v x13 x14.
Definition set_w_history (v : list effect) (r : World) : World :=
  let '(mkWorld x0 x1 x2 x3 x4 x5 x6 x7 x8 x9 x10 x11 x12 _ x14) := r in mkWorld x0 x1 x2 x3 x4 x5 x6 x7 x8 x9 x10 x11 x12 v x14.
Definition set_w_replies (v : list reply) (r : World) : World :=
  let '(mkWorld x0 x1 x2 x3 x4 x5 x6 x7 x8 x9 x10 x11 x12 x13 _) := r in mkWorld x0 x1 x2 x3 x4 x5 x6 x7 x8 x9 x10 x11 x12 x13 v.

(** Applies a function to the info of an entry. *)
Definition on_info (f : MountInfo -> MountInfo) (m : managedMount) : managedMount := set_mm_info (f (mm_info m)) m.

Definition record_effect (x : effect) (w : World) : World := set_w_history (w_history w ++ [x]) w.

(** ** What the daemon does not decide *)

Inductive select_case : Type := CaseExit | CaseTick | CaseTimer | CaseContext.
Inductive umount_end : Type := UExited | UTimedOut | UCanceled.

Record env : Type := mkEnv {
  env_now : nat -> Z;               (* successive readings of the clock *)
  env_rand : float64;               (* randFloat() *)
  env_err : option goerror;         (* result of the system call made *)
  env_cancelled : option goerror;   (* ctx.Err() of a request context *)
  env_case : select_case;           (* the ready case of a select *)
  env_umount : umount_end;          (* why the unmount helper stopped *)
  env_output : string;              (* what it printed *)
  env_pid : Z;
  env_id : string;                  (* xid.New() *)
  env_order : list string;          (* iteration order of a map *)
  env_faults : faults;              (* faults of the database *)
  env_fs : FS                       (* the file system at this moment *)
}.

Definition ctx_Err (ctx : context) (e : env) : option goerror :=
  match ctx with Background => None | RequestContext => env_cancelled e end.

(** Iteration over a map visits its entries in the order of the
    environment, when that lists every key once, and in a fixed order
    otherwise. *)
Definition range_map {A} (e : env) (m : gmap string A) : list (string * A) :=
  let chosen := omap (fun k => (fun a => (k, a)) <$> m !! k) (env_order e) in
  if bool_decide (chosen.*1 ≡ₚ (map_to_list m).*1) then chosen else map_to_list m.

(** ** Programs *)

Inductive outcome (R : Type) : Type :=
| Blocked
| Panics
| Next (r : R) (w : World).
Arguments Blocked {R}.
Arguments Panics {R}.
Arguments Next {R} r w.

Definition action (R : Type) : Type := env -> World -> outcome R.

Inductive prog (A : Type) : Type :=
| Ret (a : A)
| Act {R : Type} (f : action R) (k : R -> prog A).
Arguments Ret {A} a.
Arguments Act {A R} f k.

Fixpoint prog_bind {A B} (p : prog A) (k : A -> prog B) : prog B :=
  match p with
  | Ret a => k a
  | Act f k' => Act f (fun r => prog_bind (k' r) k)
  end.

#[export] Instance prog_ret : MRet prog := fun A a => Ret a.
#[export] Instance prog_mbind : MBind prog := fun A B k p => prog_bind p k.

Definition act {R} (f : action R) : prog R := Act f Ret.

(** ** Actions *)

(** Reads of the environment and of the world. *)
Definition asks {A} (f : env -> A) : prog A := act (fun e w => Next (f e) w).
Definition gets {A} (f : World -> A) : prog A := act (fun _ w => Next (f w) w).

(** A critical section of an entry's mutex.  [f] returns the result, the
    new entry and possibly a channel that the section closes; closing a
    closed channel panics, as does a nil entry. *)
Definition section {R} (entry : entry_id) (f : env -> managedMount -> R * managedMount * option chan) : prog R :=
  act (fun e w =>
    match w_entries w !! entry with
    | None => Panics
    | Some m =>
        let '(r, m', closing) := f e m in
        let w' := set_w_entries (<[entry := m']> (w_entries w)) w in
        match closing with
        | None => Next r w'
        | Some c =>
            match w_chans w !! c with
            | Some false => Next r (set_w_chans (<[c := true]> (w_chans w)) w')
            | _ => Panics
            end
        end
    end).

Definition locked {R} (entry : entry_id) (f : env -> managedMount -> R * managedMount) : prog R :=
  section entry (fun e m => (f e m, None)).

Definition reading {R} (entry : entry_id) (f : managedMount -> R) : prog R :=
  locked entry (fun _ m => (f m, m)).

(** entry.operation.Lock() and Unlock() *)
Definition operation_Lock (entry : entry_id) : prog unit :=
  act (fun _ w =>
    match w_entries w !! entry with
    | None => Panics
    | Some m => if mm_operation m then Blocked
                else Next tt (set_w_entries (<[entry := set_mm_operation true m]> (w_entries w)) w)
    end).

Definition operation_Unlock (entry : entry_id) : prog unit :=
  act (fun _ w =>
    match w_entries w !! entry with
    | None => Panics
    | Some m => if mm_operation m
                then Next tt (set_w_entries (<[entry := set_mm_operation false m]> (w_entries w)) w)
                else Panics
    end).

(** [entry.operation.Lock(); defer entry.operation.Unlock()] around a body. *)
Definition holding_operation {R} (entry : entry_id) (body : prog R) : prog R :=
  operation_Lock entry;; r ← body; operation_Unlock entry;; mret r.

(** [go f()] *)
Definition go (t : thread) : prog unit := act (fun _ w => Next tt (set_w_ready (w_ready w ++ [t]) w)).

(** time.AfterFunc and Timer.Stop *)
Definition AfterFunc (t : thread) : prog timer_id :=
  act (fun _ w => Next (length (w_timers w)) (set_w_timers (w_timers w ++ [mkTimer true t]) w)).

Definition Timer_Stop (t : timer_id) : prog unit :=
  act (fun _ w => Next tt (set_w_timers (alter (fun x => mkTimer false (timer_func x)) t (w_timers w)) w)).

(** Waiting for a channel to be closed. *)
Definition receive (c : chan) : prog unit :=
  act (fun _ w => match w_chans w !! c with Some true => Next tt w | _ => Blocked end).

(** A call to the outside that either succeeds or returns an error. *)
Definition system_call (describe : bool -> effect) : prog (option goerror) :=
  act (fun e w => Next (env_err e)
    (record_effect (describe (match env_err e with None => true | Some _ => false end)) w)).

Definition os_MkdirAll (path : string) : prog (option goerror) := system_call (FxMkdirAll path).
Definition os_RemoveAll (path : string) : prog (option goerror) := system_call (FxRemoveAll path).
Definition os_WriteFile (path content : string) : prog (option goerror) := system_call (FxWriteFile path content).

(** command.Start() *)
Definition command_Start (mountID : string) (command : Cmd) : prog (result goerror proc_id) :=
  act (fun e w =>
    match env_err e with
    | Some err => Next (Err err) w
    | None => Next (Ok (length (w_procs w)))
                (record_effect (FxStart mountID command)
                   (set_w_procs (w_procs w ++ [mkProcess command (env_pid e)]) w))
    end).

Definition Process_Signal (p : proc_id) : prog unit := act (fun _ w => Next tt (record_effect (FxSignal p) w)).
Definition Process_Kill (p : proc_id) : prog unit := act (fun _ w => Next tt (record_effect (FxKill p) w)).

(** command.Wait(): returns when the environment lets the child exit. *)
Definition command_Wait (p : proc_id) : prog (option goerror) := asks env_err.

(** command.Process.Pid *)
Definition process_Pid (w : World) (p : proc_id) : Z :=
  match w_procs w !! p with Some x => proc_Pid x | None => 0 end.

(** ** The database *)

Definition succeeded (err : option goerror) : bool := match err with None => true | Some _ => false end.

Definition info_id (r : MountRecord) : string := from_option MountInfo_MountId EmptyString (Record_Info r).

Section Database.
Context `{ErrorLib} `{RecordCodec}.

Definition repository_Create (ctx : context) (r : MountRecord) : prog (option goerror) :=
  act (fun e w =>
    let '(err, db, _) := Create (ctx_Err ctx e) (Some r) (w_db w) (env_faults e) in
    Next err (record_effect (FxCreate (info_id r) (succeeded err)) (set_w_db db w))).

Definition repository_Update (ctx : context) (r : MountRecord) : prog (option goerror) :=
  act (fun e w =>
    let '(err, db, _) := Update (ctx_Err ctx e) (Some r) (w_db w) (env_faults e) in
    Next err (record_effect (FxUpdate (info_id r) (Record_Tombstone r) (succeeded err)) (set_w_db db w))).

Definition repository_Delete (ctx : context) (mountID : string) : prog (option goerror) :=
  act (fun e w =>
    let '(err, db, _) := Delete (ctx_Err ctx e) mountID (w_db w) (env_faults e) in
    Next err (record_effect (FxDelete mountID (succeeded err)) (set_w_db db w))).

Definition repository_List (ctx : context) : prog (result goerror (list MountRecord)) :=
  act (fun e w => Next (List (ctx_Err ctx e) (w_db w) (env_faults e)).1 w).

End Database.

(** ** Interleavings *)

(** A running system: the shared world and the unfinished goroutines. *)
Record system : Type := mkSystem {
  sys_world : World;
  sys_threads : list (prog unit)
}.

(** One scheduling choice: run an action of a goroutine, begin one that was
    created with [go], fire a timer, or let a request arrive. *)
Inductive choice : Type :=
| Run (i : nat) (e : env)
| Begin
| Fire (t : timer_id)
| Arrive (t : thread).

Inductive step_result : Type :=
| Impossible
| Crashed
| Stepped (s : system).

Section Scheduler.
Variable body : thread -> prog unit.

Definition sys_step (s : system) (c : choice) : step_result :=
  let w := sys_world s in
  match c with
  | Run i e =>
      match sys_threads s !! i with
      | Some (Act f k) =>
          match f e w with
          | Blocked => Impossible
          | Panics => Crashed
          | Next r w' => Stepped (mkSystem w' (<[i := k r]> (sys_threads s)))
          end
      | _ => Impossible
      end
  | Begin =>
      match w_ready w with
      | [] => Impossible
      | t :: rest => Stepped (mkSystem (set_w_ready rest w) (sys_threads s ++ [body t]))
      end
  | Fire t =>
      match w_timers w !! t with
      | Some (mkTimer true f) =>
          Stepped (mkSystem (set_w_timers (<[t := mkTimer false f]> (w_timers w)) w) (sys_threads s ++ [body f]))
      | _ => Impossible
      end
  | Arrive t => Stepped (mkSystem w (sys_threads s ++ [body t]))
  end.

Fixpoint run (s : system) (cs : list choice) : step_result :=
  match cs with
  | [] => Stepped s
  | c :: rest => match sys_step s c with Stepped s' => run s' rest | r => r end
  end.

End Scheduler.

(** A daemon that has just started on a database. *)
Definition initial_world (db : DB) (metrics : option Metrics) : World := {|
  w_entries := [];
  w_mounts := ∅;
  w_chans := [];
  w_procs := [];
  w_timers := [];
  w_logs := [];
  w_db := db;
  w_subscribers := ∅;
  w_nextSubscriberID := 0;
  w_eventMutex := false;
  w_metrics := metrics;
  w_waits := [];
  w_ready := [];
  w_history := [];
  w_replies := []
|}.

Definition initial_system (db : DB) (metrics : option Metrics) : system :=
  mkSystem (initial_world db metrics) [].
