(* ===== verification/Command.v ===== *)
(** * Mount and unmount commands (service/mount_command.go)

    How the command line, the standard input and the DAVFS configuration
    file of a mount client are built, and how a mount is detached. *)

From S2P Require Import Prelude GoStrings GoPath GoSort GoErrors Api Redact Config Policy IrodsfsConfig.
From S2P Require Import Repository Runtime.

(** ** Building the command *)

Definition makeSystemMountArgs (fsType : string) (options : list string) (source target : string) : list string :=
  ["-t"; fsType] ++ (if bool_decide (options = []) then [] else ["-o"; Join "," options]) ++ [source; target].

Definition appendReadOnlyOption (options : list string) (readOnly : bool) : list string :=
  if negb readOnly then options
  else if existsb (String.eqb "ro") options then options
  else options ++ ["ro"].

(** The keys the daemon sets itself. *)
Definition davfs_reserved_key (key : string) : bool :=
  String.eqb key "cache_dir" || String.eqb key "kernel_fs".

Definition davfs_line (key value : string) : string := key +:+ " " +:+ value +:+ str1 ch_newline.

Fixpoint davfs_lines (params : gmap string string) (keys : list string) : string :=
  match keys with
  | [] => EmptyString
  | key :: rest =>
      if davfs_reserved_key key then davfs_lines params rest
      else davfs_line key (default EmptyString (params !! key)) +:+ davfs_lines params rest
  end.

(** The content of the file that [writeDAVFSConfig] writes. *)
Definition davfs_content (params : gmap string string) (cachePath : string) : string :=
  davfs_lines params (sort_strings (map_to_list params).*1) +:+
  davfs_line "cache_dir" cachePath +:+ davfs_line "kernel_fs" "fuse".

Definition writeDAVFSConfig (path : string) (params : gmap string string) (cachePath : string)
  : prog (option goerror) :=
  err ← os_WriteFile path (davfs_content params cachePath);
  mret (WrapOpt err "failed to write DAVFS configuration").

Definition davfs_options (configPath : string) (config : MountConfig) (davfs : DAVFSConfig) : list string :=
  let options := appendReadOnlyOption (("conf=" +:+ configPath) :: MountConfig_MountOptions config)
                   (MountConfig_ReadOnly config) in
  let username := str_or_empty (DAVFSConfig_Username davfs) in
  if negb (String.eqb username EmptyString) && negb (String.eqb username "anonymous")
  then options ++ ["username=" +:+ username] else options.

(** The password goes to the standard input of the mount helper. *)
Definition davfs_stdin (davfs : DAVFSConfig) : option string :=
  let username := str_or_empty (DAVFSConfig_Username davfs) in
  let password := str_or_empty (DAVFSConfig_Password davfs) in
  if negb (String.eqb username EmptyString) && negb (String.eqb username "anonymous")
     && negb (String.eqb password EmptyString)
  then Some (password +:+ str1 ch_newline) else None.

Definition nfs_options (config : MountConfig) (nfs : NFSConfig) : list string :=
  let options := appendReadOnlyOption (MountConfig_MountOptions config) (MountConfig_ReadOnly config) in
  if negb (NFSConfig_Port nfs =? 0) && negb (NFSConfig_Port nfs =? 2049)
  then options ++ ["port=" +:+ Itoa (NFSConfig_Port nfs)] else options.

Section Command.
Variable daemon : Config.

(** A wrapper of the oneof with a nil message is a nil dereference. *)
Definition makeNFSMountCommand (config : MountConfig) (log : option log_id) : prog (option Cmd) :=
  match GetNfs config with
  | None => act (fun _ _ => Panics)
  | Some nfs =>
      let source := NFSConfig_Host nfs +:+ ":" +:+ NFSConfig_Path nfs in
      mret (Some (mkCmd (MountExecutablePath daemon)
        (makeSystemMountArgs "nfs" (nfs_options config nfs) source (MountConfig_MountPath config)) None None log))
  end.

Definition makeDAVFSMountCommand (config : MountConfig) (dataRootPath : string) (log : option log_id)
  : prog (result goerror Cmd) :=
  match GetDavfs config with
  | None => act (fun _ _ => Panics)
  | Some davfs =>
      let cachePath := PathJoin [dataRootPath; "cache"] in
      mkdirErr ← os_MkdirAll cachePath;
      match mkdirErr with
      | Some err => mret (Err (EWrap err "failed to create DAVFS cache directory"))
      | None =>
          let configPath := PathJoin [dataRootPath; "davfs2.conf"] in
          writeErr ← writeDAVFSConfig configPath (DAVFSConfig_Config davfs) cachePath;
          match writeErr with
          | Some err => mret (Err err)
          | None =>
              let args := makeSystemMountArgs "davfs" (davfs_options configPath config davfs)
                            (DAVFSConfig_Url davfs) (MountConfig_MountPath config) in
              mret (Ok (mkCmd (MountExecutablePath daemon) args None (davfs_stdin davfs) log))
          end
      end
  end.

Context `{IrodsfsLib}.

Definition makeMountCommand (config : option MountConfig) (mountID dataRootPath : string) (log : option log_id)
  : prog (result goerror (Cmd * mountClientType)) :=
  match config, clientType config with
  | _, Err err => mret (Err err)
  | None, Ok _ => mret (Err (ENew "mount config is required"))
  | Some c, Ok mountClientIRODSFS =>
      mret (let? configJSON := makeIRODSFSConfigJSON config mountID dataRootPath in
            Ok (mkCmd (IRODSFSExecutablePath daemon) ["-f"; "-c"; "-"; MountConfig_MountPath c]
                  None (Some configJSON) log, mountClientIRODSFS))
  | Some c, Ok mountClientDAVFS =>
      command ← makeDAVFSMountCommand c dataRootPath log;
      mret (let? cmd := command in Ok (cmd, mountClientDAVFS))
  | Some c, Ok mountClientNFS =>
      command ← makeNFSMountCommand c log;
      mret (match command with
            | Some cmd => Ok (cmd, mountClientNFS)
            | None => Err nil_dereference
            end)
  end.

(** ** Detaching a mount *)

Definition defaultUnmountTimeout : Z := 15 * Second.

Definition fuse_Unmount (mountPath : string) : prog (option goerror) := system_call (FxFuseUnmount mountPath).

(** The helper runs under a timeout derived from [ctx]; the environment
    says whether it exited by itself, timed out, or was cancelled with the
    request (never under the background context). *)
Definition runSystemUnmount (ctx : context) (mountPath : string) (lazy : bool) (timeout : Z)
  : prog (option goerror) :=
  let args := if lazy then ["-l"; mountPath] else [mountPath] in
  let timeout := if timeout <=? 0 then defaultUnmountTimeout else timeout in
  act (fun e w =>
    let effect ok := record_effect (FxSystemUnmount args timeout ok) w in
    match env_err e with
    | None => Next None (effect true)
    | Some err =>
        let name := UnmountExecutablePath daemon in
        match env_umount e, ctx with
        | UTimedOut, _ =>
            Next (Some (EWrap (ESentinel context_DeadlineExceeded) (name +:+ " timed out for " +:+ Quote mountPath)))
              (effect false)
        | UCanceled, RequestContext =>
            Next (Some (EWrap (ESentinel context_Canceled) (name +:+ " timed out for " +:+ Quote mountPath)))
              (effect false)
        | UCanceled, Background => Blocked
        | UExited, _ =>
            Next (Some (EWrap err (name +:+ " failed for " +:+ Quote mountPath +:+ ": " +:+
                                   TrimSpace (env_output e))))
              (effect false)
        end
    end).

Context `{ErrorLib}.

(** The unmount helper with the timeout of the client; only a DAVFS unmount
    that timed out falls back to a lazy unmount. *)
Definition unmount_by_helper (ctx : context) (client : option mountClientType) (mountPath : string)
  : prog (option goerror) :=
  let isDAVFS := bool_decide (client = Some mountClientDAVFS) in
  let timeout := if isDAVFS
                 then if DAVFSUnmountTimeout daemon <=? 0 then DAVFSUnmountTimeoutDefault
                      else DAVFSUnmountTimeout daemon
                 else UnmountTimeout daemon in
  err ← runSystemUnmount ctx mountPath false timeout;
  if negb isDAVFS || negb (IsOpt err context_DeadlineExceeded) then mret err
  else
    lazyErr ← fuse_Unmount mountPath;
    match err, lazyErr with
    | Some err, Some lazyErr => mret (Some (ECombine err (EWrap lazyErr "DAVFS lazy unmount failed")))
    | None, Some lazyErr => mret (Some (EWrap lazyErr "DAVFS lazy unmount failed"))
    | _, None =>
        mret (Some (EWrap (ESentinel ErrDAVFSLazyUnmount)
                      "DAVFS cache synchronization exceeded the unmount timeout"))
    end.

Definition unmountByClientType (ctx : context) (client : option mountClientType) (mountPath : string)
  : prog (option goerror) :=
  match client with
  | Some mountClientIRODSFS => fuse_Unmount mountPath
  | _ => unmount_by_helper ctx client mountPath
  end.

Lemma unmountByClientType_helper ctx client mountPath :
  client <> Some mountClientIRODSFS -> unmountByClientType ctx client mountPath = unmount_by_helper ctx client mountPath.
Proof. by destruct client as [[]|]. Qed.

(** [entry.info.Config.MountPath], which panics without a configuration. *)
Definition config_path (entry : entry_id) : prog string :=
  config ← reading entry (fun m => MountInfo_Config (mm_info m));
  match config with
  | Some c => mret (MountConfig_MountPath c)
  | None => act (fun _ _ => Panics)
  end.

Definition unmountClient (ctx : context) (entry : entry_id) : prog (option goerror) :=
  client ← reading entry mm_client;
  mountPath ← config_path entry;
  unmountByClientType ctx client mountPath.

End Command.
