(* ===== verification/CommandFacts.v ===== *)
(** * Theorems about commands

    Credentials never reach a command line, an environment or the disk, the
    DAVFS configuration file has the lines that were asked for, read-only
    requests carry the ro option and allow_other follows the policy. *)

From Stdlib Require Import Sorted.
From S2P Require Import Prelude GoStrings GoPath GoSort GoErrors GoDigits Api Redact Config Policy PolicyFacts.
From S2P Require Import IrodsfsConfig Repository Runtime Command.

(** ** Programs that do the same up to their results *)

(** The two programs perform the same actions, and whenever the answers
    are the same their results are related by [R]. *)
Inductive same_actions {A} (R : A -> A -> Prop) : prog A -> prog A -> Prop :=
| same_ret a b : R a b -> same_actions R (Ret a) (Ret b)
| same_act {X} (f : action X) k k' : (forall x, same_actions R (k x) (k' x)) -> same_actions R (Act f k) (Act f k').

Lemma same_actions_bind {A B} (R : A -> A -> Prop) (S : B -> B -> Prop) p p' k k' :
  same_actions R p p' -> (forall a b, R a b -> same_actions S (k a) (k' b)) ->
  same_actions S (p ≫= k) (p' ≫= k').
Proof. intros Hp Hk. induction Hp as [a b Hab|X f g g' _ IH]; [by apply Hk|]. apply same_act. apply IH. Qed.

Lemma same_mret {A} (R : A -> A -> Prop) a b : R a b -> same_actions R (mret a) (mret b).
Proof. apply same_ret. Qed.

Lemma same_actions_refl {A} (p : prog A) : same_actions eq p p.
Proof. induction p; by constructor. Qed.

(** ** Credentials *)

(** Same executable, same arguments, same environment, same log. *)
Definition same_visible (a b : Cmd) : Prop :=
  cmd_Path a = cmd_Path b /\ cmd_Args a = cmd_Args b /\ cmd_Env a = cmd_Env b /\ cmd_Log a = cmd_Log b.

Definition same_made (a b : result goerror (Cmd * mountClientType)) : Prop :=
  match a, b with
  | Ok (x, t), Ok (y, u) => same_visible x y /\ t = u
  | _, _ => True
  end.

Lemma with_credentials_clientType k c : clientType (Some (with_credentials k c)) = clientType (Some c).
Proof. config_cases c. Qed.

Lemma with_credentials_MountPath k c : MountConfig_MountPath (with_credentials k c) = MountConfig_MountPath c.
Proof. config_cases c. Qed.

Lemma with_credentials_GetNfs k c : GetNfs (with_credentials k c) = GetNfs c.
Proof. config_cases c. Qed.

Lemma with_credentials_GetDavfs k c :
  GetDavfs (with_credentials k c) = set_davfs_password (cred_davfs k) <$> GetDavfs c.
Proof. config_cases c. Qed.

Lemma with_credentials_options k c :
  MountConfig_MountOptions (with_credentials k c) = MountConfig_MountOptions c /\
  MountConfig_ReadOnly (with_credentials k c) = MountConfig_ReadOnly c.
Proof. split; config_cases c. Qed.

Section Credentials.
Variable daemon : Config.
Context `{IrodsfsLib}.

Lemma makeNFSMountCommand_same k k' c log :
  makeNFSMountCommand daemon (with_credentials k c) log = makeNFSMountCommand daemon (with_credentials k' c) log.
Proof.
  unfold makeNFSMountCommand, nfs_options. rewrite !with_credentials_GetNfs, !with_credentials_MountPath.
  by destruct (with_credentials_options k c) as [-> ->], (with_credentials_options k' c) as [-> ->].
Qed.

Lemma makeDAVFSMountCommand_same k k' c root log :
  same_actions (fun a b => match a, b with Ok x, Ok y => same_visible x y | _, _ => True end)
    (makeDAVFSMountCommand daemon (with_credentials k c) root log)
    (makeDAVFSMountCommand daemon (with_credentials k' c) root log).
Proof.
  unfold makeDAVFSMountCommand, davfs_options. rewrite !with_credentials_GetDavfs, !with_credentials_MountPath.
  destruct (with_credentials_options k c) as [-> ->], (with_credentials_options k' c) as [-> ->].
  destruct (GetDavfs c) as [[u n p params]|]; simpl; [|by apply same_act; intros []; apply same_ret].
  apply same_act. intros [err|]; [by apply same_mret|]. apply same_act. intros [err|]; by apply same_mret.
Qed.

(** C28: two requests that differ in credentials only make the daemon
    perform the same actions (directories, configuration files and their
    content) and, when a command comes out, run the same executable with
    the same arguments, environment and log: a credential can reach the
    client through its standard input only. *)
Theorem credentials_only_on_stdin k k' c mountID root log :
  same_actions same_made
    (makeMountCommand daemon (Some (with_credentials k c)) mountID root log)
    (makeMountCommand daemon (Some (with_credentials k' c)) mountID root log).
Proof.
  unfold makeMountCommand. rewrite !with_credentials_clientType, !with_credentials_MountPath.
  destruct (clientType (Some c)) as [[]|err]; [| | |by apply same_mret].
  - apply same_mret. unfold same_made, result_bind. by repeat case_match; simplify_eq.
  - eapply same_actions_bind; [apply makeDAVFSMountCommand_same|]. intros [x|] [y|] Hxy; by apply same_mret.
  - rewrite (makeNFSMountCommand_same k k'). eapply same_actions_bind; [apply same_actions_refl|].
    intros x y <-. apply same_mret. by destruct x as [[]|].
Qed.
End Credentials.

(** ** Redaction *)

(** C29: a redacted message reveals nothing about the credentials beyond
    which of them are set and which are empty, all of them read as empty or
    [REDACTED], and everything that identifies the mount is kept. *)
Theorem redaction_hides_credentials k k' i c :
  MountInfo_Config i = Some c -> same_shapes k k' ->
  redactMountInfo (set_Config (Some (with_credentials k c)) i) =
    redactMountInfo (set_Config (Some (with_credentials k' c)) i) /\
  (forall c', MountInfo_Config (redactMountInfo i) = Some c' ->
     Forall (fun s => s = EmptyString \/ s = redactedValue) (collectMountSecrets c')) /\
  MountInfo_MountId (redactMountInfo i) = MountInfo_MountId i /\
  MountInfo_State (redactMountInfo i) = MountInfo_State i /\
  GetMountPath (redactMountInfo i) = GetMountPath i.
Proof.
  intros Hc Hk. split_and!; autorewrite with go_rw; [|intros c'; rewrite Hc; intros [= <-]; apply redact_config_secrets|done..].
  unfold redactMountInfo. destruct i; simpl. by rewrite (redact_with_credentials k k').
Qed.

Lemma redaction_hides_credentials_witness :
  let i password := mkMountInfo "home" MOUNT_STATE_MOUNTED (Some (irodsfs_request "/mnt/irods/home" None password)) 1 None 0
    None None None None None in
  redactMountInfo (i (Some "tres-secret")) = redactMountInfo (i (Some "hunter2")) /\
  GetMountPath (redactMountInfo (i (Some "hunter2"))) = "/mnt/irods/home".
Proof.
  intros i.
  destruct (redaction_hides_credentials (mkCredentials (Some "tres-secret") None None None None)
    (mkCredentials (Some "hunter2") None None None None) (i (Some "hunter2")) (irodsfs_request "/mnt/irods/home" None (Some "hunter2"))
    eq_refl ltac:(repeat split)) as (H1 & _ & _ & _ & H2).
  split; [exact H1 | exact H2].
Defined.

(** ** The DAVFS configuration file *)

Lemma lacks_app c a b : lacks c (a +:+ b) = lacks c a && lacks c b.
Proof. apply string_forallb_app. Qed.

(** Key and value of a setting that a line of the file can hold. *)
Definition setting_ok (kv : string * string) : Prop :=
  TrimSpace (fst kv) <> EmptyString /\
  Forall (fun c => lacks c (fst kv) = true) [" "%char; ch_tab; ch_cr; ch_newline] /\
  Forall (fun c => lacks c (snd kv) = true) [ch_cr; ch_newline].

Definition setting_line (kv : string * string) : string := fst kv +:+ " " +:+ snd kv.

Lemma davfs_line_Split k v rest :
  lacks ch_newline k = true -> lacks ch_newline v = true ->
  Split ch_newline (davfs_line k v +:+ rest) = setting_line (k, v) :: Split ch_newline rest.
Proof.
  intros Hk Hv. unfold davfs_line, setting_line. simpl.
  replace ((k +:+ String " " (v +:+ str1 ch_newline)) +:+ rest) with ((k +:+ String " " v) +:+ String ch_newline rest)
    by (by rewrite <- !string_app_assoc; simpl; rewrite <- !string_app_assoc).
  rewrite Split_app_sep by (rewrite lacks_app, Hk; unfold lacks; simpl; by apply Hv). done.
Qed.

Definition client_settings (params : gmap string string) (keys : list string) : list (string * string) :=
  (fun k => (k, default EmptyString (params !! k))) <$> List.filter (fun k => negb (davfs_reserved_key k)) keys.

Lemma davfs_lines_Split params keys rest :
  Forall (fun k => setting_ok (k, default EmptyString (params !! k))) keys ->
  Split ch_newline (davfs_lines params keys +:+ rest) = (setting_line <$> client_settings params keys) ++ Split ch_newline rest.
Proof.
  unfold client_settings. induction 1 as [|k keys (_ & Hk & Hv) Hkeys IH]; [done|]. simpl in *.
  rewrite Forall_forall in Hk, Hv. destruct (davfs_reserved_key k); [done|].
  simpl. rewrite <- string_app_assoc, davfs_line_Split by (apply Hk || apply Hv; set_solver). by rewrite IH.
Qed.

Lemma ContainsAny_lacks s chars : ContainsAny s chars = false -> forall c, string_existsb (Ascii.eqb c) chars = true -> lacks c s = true.
Proof.
  intros Hs%ContainsAny_false c Hc. unfold lacks. eapply string_forallb_impl; [|exact Hs]. simpl. intros d Hd.
  destruct (Ascii.eqb_spec d c) as [->|]; [|done]. unfold string_existsb in Hc. by rewrite Hd in Hc.
Qed.

Lemma validate_davfs_params_ok params : validate_davfs_params params = None -> Forall setting_ok params.
Proof.
  induction params as [|[k v] l IH]; [constructor|]. simpl. intros H. repeat case_go_in H. bools.
  constructor; [|auto]. split_and!; simpl; [done|..]; repeat constructor; (eapply ContainsAny_lacks; [eassumption|reflexivity]).
Qed.

Lemma sorted_keys_elem (params : gmap string string) k :
  k ∈ sort_strings (map_to_list params).*1 <-> is_Some (params !! k).
Proof.
  unfold sort_strings. rewrite sort_by_Permutation, list_elem_of_fmap. split.
  - intros ([k' v] & -> & Hin). apply elem_of_map_to_list in Hin. by exists v.
  - intros [v Hv]. exists (k, v). split; [done|]. by apply elem_of_map_to_list.
Qed.

Lemma StronglySorted_filter {A} (R : A -> A -> Prop) (f : A -> bool) l :
  StronglySorted R l -> StronglySorted R (List.filter f l).
Proof.
  induction 1 as [|x l Hl IH Hx]; simpl; [constructor|]. destruct (f x); [|done]. constructor; [done|].
  rewrite List.Forall_forall in *. intros y Hy. apply filter_In in Hy as [Hy _]. auto.
Qed.

Section Davfs.
Context `{UrlLib}.

Lemma validated_settings d :
  validateDAVFSConfig (Some d) = None ->
  Forall (fun k => setting_ok (k, default EmptyString (DAVFSConfig_Config d !! k)))
    (sort_strings (map_to_list (DAVFSConfig_Config d)).*1).
Proof.
  simpl. intros Hv. repeat case_go_in Hv. apply validate_davfs_params_ok in Hv. rewrite Forall_forall in Hv.
  apply Forall_forall. intros k [v Hk]%sorted_keys_elem. rewrite Hk. simpl. apply Hv. by apply elem_of_map_to_list.
Qed.

(** C37: for a request that passes validation, the lines of the DAVFS
    configuration file are exactly one line "key value" for every requested
    setting other than [cache_dir] and [kernel_fs], in the order of their
    keys, followed by the daemon's own lines for these two.  No key has a
    blank, a tab or a line break and no value has a line break, so that no
    setting of a request can become a second line. *)
Theorem davfs_config_lines d cachePath :
  validateDAVFSConfig (Some d) = None -> lacks ch_newline cachePath = true ->
  exists settings,
    Split ch_newline (davfs_content (DAVFSConfig_Config d) cachePath) =
      (setting_line <$> settings ++ [("cache_dir", cachePath); ("kernel_fs", "fuse")]) ++ [EmptyString] /\
    (forall k v, (k, v) ∈ settings <-> DAVFSConfig_Config d !! k = Some v /\ davfs_reserved_key k = false) /\
    StronglySorted str_lt settings.*1 /\ Forall setting_ok settings.
Proof.
  intros Hv Hcache. exists (client_settings (DAVFSConfig_Config d) (sort_strings (map_to_list (DAVFSConfig_Config d)).*1)).
  split_and!.
  - unfold davfs_content. rewrite davfs_lines_Split by (by apply validated_settings).
    rewrite davfs_line_Split by done. rewrite <- (string_app_nil_r (davfs_line "kernel_fs" "fuse")), davfs_line_Split by done.
    by rewrite fmap_app, <- app_assoc.
  - intros k v. unfold client_settings. rewrite list_elem_of_fmap. split.
    + intros (k' & [= -> ->] & Hin). apply list_elem_of_In, filter_In in Hin as [Hin Hr].
      apply list_elem_of_In, sorted_keys_elem in Hin as [v Hk]. rewrite Hk. by bools.
    + intros [Hk Hr]. exists k. split; [by rewrite Hk|]. apply list_elem_of_In, filter_In. rewrite Hr. split; [|done].
      apply list_elem_of_In, sorted_keys_elem. by exists v.
  - unfold client_settings. rewrite <- list_fmap_compose.
    rewrite (list_fmap_ext _ id) by done. rewrite list_fmap_id. apply StronglySorted_filter.
    assert (NoDup (id <$> (map_to_list (DAVFSConfig_Config d)).*1)) as Hnd
      by (rewrite list_fmap_id; apply NoDup_fst_map_to_list).
    exact (sort_by_sorted id _ Hnd).
  - unfold client_settings. apply Forall_fmap, Forall_forall. intros k Hin. apply list_elem_of_In, filter_In in Hin as [Hin _].
    pose proof (validated_settings d Hv) as Hs. rewrite Forall_forall in Hs. by apply Hs, list_elem_of_In.
Qed.
End Davfs.

Lemma davfs_config_lines_witness :
  let d := mkDAVFSConfig "https:data/dav" None None
             (<["cache_dir" := "/etc"]> (<["use_locks" := "0"]> (<["ask_auth" := "no thanks"]> ∅))) in
  exists settings,
    Split ch_newline (davfs_content (DAVFSConfig_Config d) "/var/cache") =
      (setting_line <$> settings ++ [("cache_dir", "/var/cache"); ("kernel_fs", "fuse")]) ++ [EmptyString] /\
    ("use_locks", "0") ∈ settings.
Proof.
  intros d.
  destruct (@davfs_config_lines plain_urls d "/var/cache" ltac:(vm_compute; reflexivity) eq_refl)
    as (settings & Hp & Hs & _).
  exists settings. split; [exact Hp|]. apply Hs. split; vm_compute; reflexivity.
Defined.

(** A key may look like the header of a section, which davfs2.conf(5) gives
    to the lines after it: the daemon's own lines then follow that header. *)
Lemma section_keys_are_accepted :
  let d := mkDAVFSConfig "https:data/dav" None None (<["[/other]" := EmptyString]> ∅) in
  @validateDAVFSConfig plain_urls (Some d) = None /\
  Split ch_newline (davfs_content (DAVFSConfig_Config d) "/var/cache") =
    ["[/other] "; "cache_dir /var/cache"; "kernel_fs fuse"; EmptyString].
Proof. split; vm_compute; reflexivity. Qed.

(** ** Mount options *)

Lemma Split_app_any c a b : Split c (a +:+ String c b) = Split c a ++ Split c b.
Proof.
  induction a as [|d a IH]; simpl; [by rewrite Ascii.eqb_refl|]. rewrite IH.
  destruct (Ascii.eqb d c); [done|]. pose proof (Split_nonempty c a). by destruct (Split c a).
Qed.

Lemma Split_Join_elem c x l : x ∈ l -> lacks c x = true -> x ∈ Split c (Join (str1 c) l).
Proof.
  intros Hx Hl. induction l as [|y l IH]; [by apply elem_of_nil in Hx|]. destruct (decide (l = [])) as [->|Hne].
  - apply list_elem_of_singleton in Hx as <-. simpl. rewrite Split_lacks_id by done. by apply list_elem_of_singleton.
  - rewrite Join_cons by done. change (str1 c +:+ ?s) with (String c s). rewrite Split_app_any, elem_of_app.
    apply elem_of_cons in Hx as [<-|Hx]; [left|right; auto]. rewrite Split_lacks_id by done. by apply list_elem_of_singleton.
Qed.

Lemma appendReadOnlyOption_ro options : "ro" ∈ appendReadOnlyOption options true.
Proof.
  unfold appendReadOnlyOption. simpl. destruct (existsb _ options) eqn:E; [by apply existsb_eqb_elem|].
  apply elem_of_app. right. by apply list_elem_of_singleton.
Qed.

Lemma system_mount_options fsType options x source target :
  x ∈ options -> lacks "," x = true ->
  exists o, makeSystemMountArgs fsType options source target = ["-t"; fsType; "-o"; o; source; target] /\
    x ∈ Split "," o.
Proof.
  intros Hx Hl. unfold makeSystemMountArgs. rewrite bool_decide_eq_false_2 by (by intros ->; apply elem_of_nil in Hx).
  exists (Join "," options). split; [done|]. by apply (Split_Join_elem "," x).
Qed.

Section ReadOnly.
Variable daemon : Config.

(** Every result that [p] can return satisfies [P]. *)
Fixpoint returns {A} (p : prog A) (P : A -> Prop) : Prop :=
  match p with
  | Ret a => P a
  | Act f k => forall e w x w', f e w = Next x w' -> returns (k x) P
  end.

(** The command of a read-only NFS or DAVFS request is a call of the
    configured mount executable whose comma-separated [-o] list has [ro],
    whatever options the client asked for. *)
Theorem read_only_requests_mount_read_only `{IrodsfsLib} c client mountID root log :
  MountConfig_ReadOnly c = true -> clientType (Some c) = Ok client -> client <> mountClientIRODSFS ->
  returns (makeMountCommand daemon (Some c) mountID root log) (fun made =>
    forall cmd t, made = Ok (cmd, t) ->
      cmd_Path cmd = MountExecutablePath daemon /\
      exists fsType o source, cmd_Args cmd = ["-t"; fsType; "-o"; o; source; MountConfig_MountPath c] /\
        "ro" ∈ Split "," o).
Proof.
  intros Hro Ht Hc. unfold makeMountCommand. rewrite Ht. destruct client; [done|..].
  - unfold makeDAVFSMountCommand, davfs_options. destruct (GetDavfs c) as [d|]; [|by intros ? ? ? ? [=]].
    rewrite Hro. intros e1 w1 [err|] ? _; [by intros ? ? [=]|]. intros e2 w2 [err|] ? _; [by intros ? ? [=]|].
    intros cmd t [= <- <-].
    split; [done|]. simpl cmd_Args. exists "davfs". edestruct (system_mount_options "davfs") with (x := "ro") as (o & -> & Ho).
    3: by exists o, (DAVFSConfig_Url d). 2: done.
    pose proof (appendReadOnlyOption_ro (("conf=" +:+ PathJoin [root; "davfs2.conf"]) :: MountConfig_MountOptions c)).
    destruct (_ && _); [|done]. apply elem_of_app. by left.
  - unfold makeNFSMountCommand, nfs_options. destruct (GetNfs c) as [n|]; [|by intros ? ? ? ? [=]].
    rewrite Hro. intros cmd t [= <- <-].
    split; [done|]. simpl cmd_Args. exists "nfs". edestruct (system_mount_options "nfs") with (x := "ro") as (o & -> & Ho).
    3: by eexists o, _. 2: done.
    pose proof (appendReadOnlyOption_ro (MountConfig_MountOptions c)).
    destruct (_ && _); [|done]. apply elem_of_app. by left.
Qed.
End ReadOnly.

Lemma read_only_requests_mount_read_only_witness :
  returns (@makeMountCommand example_config plain_irodsfs (Some (nfs_request "/mnt/irods/a")) "m" "/d" None) (fun made =>
    forall cmd t, made = Ok (cmd, t) -> cmd_Path cmd = "/usr/bin/mount" /\
      exists fsType o source, cmd_Args cmd = ["-t"; fsType; "-o"; o; source; "/mnt/irods/a"] /\ "ro" ∈ Split "," o).
Proof.
  exact (@read_only_requests_mount_read_only example_config plain_irodsfs (nfs_request "/mnt/irods/a") mountClientNFS
    "m" "/d" None eq_refl eq_refl ltac:(discriminate)).
Defined.

(** ** allow_other *)

(** What a list of options means to a client that reads them at commas. *)
Definition option_words (options : list string) : list string := options ≫= Split ",".

(** The options a client is given: mount reads the text after -o at its
    commas, irodsfs the list of the configuration on its standard input. *)
Definition receives `{IrodsfsLib} (client : mountClientType) (cmd : Cmd) (words : list string) : Prop :=
  match client with
  | mountClientIRODSFS => exists input json,
      cmd_Stdin cmd = Some json /\ json_Marshal input = Ok json /\ words = option_words (ic_FuseOptions input)
  | _ => exists fsType source target,
      (cmd_Args cmd = ["-t"; fsType; source; target] /\ words = []) \/
      exists o, cmd_Args cmd = ["-t"; fsType; "-o"; o; source; target] /\ words = Split "," o
  end.

(** Neither an option of the request nor what the daemon adds to the list
    has a comma. *)
Definition comma_free (client : mountClientType) (c : MountConfig) (root : string) : bool :=
  forallb (lacks ",") (effective_options client c) &&
  match client, GetDavfs c with
  | mountClientDAVFS, Some d =>
      lacks "," (PathJoin [root; "davfs2.conf"]) && lacks "," (str_or_empty (DAVFSConfig_Username d))
  | _, _ => true
  end.

Lemma Split_Join_words l : l <> [] -> Split "," (Join "," l) = option_words l.
Proof.
  unfold option_words. induction l as [|x l IH]; [done|]. intros _. destruct (decide (l = [])) as [->|Hne].
  - simpl. by rewrite app_nil_r.
  - rewrite Join_cons by done. change ("," +:+ ?s) with (String "," s). rewrite Split_app_any, IH by done. done.
Qed.

Lemma option_words_plain l : forallb (lacks ",") l = true -> option_words l = l.
Proof.
  unfold option_words. induction l as [|x l IH]; [done|]. intros [Hx Hl]%andb_prop. by rewrite bind_cons, Split_lacks_id, IH.
Qed.

Lemma receives_system `{IrodsfsLib} client path fsType options source target env stdin log :
  client <> mountClientIRODSFS -> forallb (lacks ",") options = true ->
  receives client (mkCmd path (makeSystemMountArgs fsType options source target) env stdin log) options.
Proof.
  intros Hc Hl. destruct client; [done|..]; exists fsType, source, target; unfold makeSystemMountArgs; simpl;
    (destruct (decide (options = [])) as [->|Hne]; [by left|right]); rewrite bool_decide_eq_false_2 by done;
    exists (Join "," options); split; try done; rewrite Split_Join_words by done; by rewrite option_words_plain.
Qed.

Lemma appendReadOnlyOption_elem o options b : o <> "ro" -> o ∈ appendReadOnlyOption options b <-> o ∈ options.
Proof. intros Ho. unfold appendReadOnlyOption. destruct b, (existsb _ _); simpl; set_solver. Qed.

Lemma appendReadOnlyOption_lacks options b :
  forallb (lacks ",") options = true -> forallb (lacks ",") (appendReadOnlyOption options b) = true.
Proof. intros Hl. unfold appendReadOnlyOption. destruct b, (existsb _ _); simpl; try done. by rewrite forallb_app, Hl. Qed.

Lemma Itoa_lacks_comma z : lacks "," (Itoa z) = true.
Proof.
  assert (forall n, 0 <= n -> lacks "," (Itoa n) = true) as Hpos.
  { intros n Hn. unfold lacks. eapply string_forallb_impl; [|exact (Itoa_digits n Hn)]. by intros [[] [] [] [] [] [] [] []]. }
  destruct z as [|p|p]; [done|apply Hpos; lia|]. change (lacks "," (String "-" (Itoa (Z.pos p))) = true). simpl. by apply (Hpos (Z.pos p)).
Qed.

Lemma effective_options_lacks daemon client c root :
  clientType (Some c) = Ok client -> validateFuseAllowOtherPolicy (AllowFuseAllowOther daemon) client c = None ->
  comma_free client c root = true -> forallb (lacks ",") (effective_options client (applyFuseAllowOtherPolicy daemon c)) = true.
Proof.
  intros Hc Hv [Hl _]%andb_prop. destruct (allow_other_listed daemon client c Hc Hv) as (_ & Hsame & _).
  rewrite forallb_forall in Hl. apply forallb_forall. intros o Ho%list_elem_of_In. destruct (decide (o = allow_other)) as [->|Hne]; [done|].
  by apply Hl, list_elem_of_In, (Hsame o Hne).
Qed.

Lemma applyFuse_keeps daemon c :
  clientType (Some (applyFuseAllowOtherPolicy daemon c)) = clientType (Some c) /\
  GetDavfs (applyFuseAllowOtherPolicy daemon c) = GetDavfs c.
Proof.
  unfold applyFuseAllowOtherPolicy. cbn [clientType]. destruct c as [p ro o [[]|]], (AllowFuseAllowOther daemon); try done;
    cbn [negb MountConfig_ClientConfig MountConfig_MountOptions]; by destruct (existsb (String.eqb allow_other) o).
Qed.

Section AllowOther.
Variable daemon : Config.
Context `{IrodsfsLib}.

(** The list of a system mount: what the daemon adds to the options of the
    request is neither allow_other nor has a comma. *)
Definition same_but_extras (client : mountClientType) (c : MountConfig) (options : list string) : Prop :=
  (allow_other ∈ options <-> allow_other ∈ effective_options client c) /\
  (forall o, o ∈ effective_options client c -> o ∈ options) /\
  (forallb (lacks ",") (effective_options client c) = true -> forallb (lacks ",") options = true).

Lemma appendReadOnlyOption_keeps o options b : o ∈ options -> o ∈ appendReadOnlyOption options b.
Proof. intros Ho. unfold appendReadOnlyOption. destruct b, (existsb _ _); simpl; set_solver. Qed.

Lemma effective_system client c : client <> mountClientIRODSFS -> effective_options client c = MountConfig_MountOptions c.
Proof. intros Hc. unfold effective_options. destruct client; [done|..]; apply app_nil_r. Qed.

Lemma nfs_options_extras c n : same_but_extras mountClientNFS c (nfs_options c n).
Proof.
  unfold same_but_extras. rewrite effective_system by done. unfold nfs_options.
  pose proof (appendReadOnlyOption_elem allow_other (MountConfig_MountOptions c) (MountConfig_ReadOnly c) ltac:(done)) as Ha.
  split_and!.
  - destruct (_ && _); rewrite ?elem_of_app, ?list_elem_of_singleton, Ha; [|done]. split; [intros [?|?]; done|by left].
  - intros o Ho. apply (appendReadOnlyOption_keeps o _ (MountConfig_ReadOnly c)) in Ho.
    destruct (_ && _); rewrite ?elem_of_app; auto.
  - intros Hl. apply (appendReadOnlyOption_lacks _ (MountConfig_ReadOnly c)) in Hl.
    destruct (_ && _); [|done]. rewrite forallb_app, Hl. cbn [forallb]. by rewrite lacks_app, Itoa_lacks_comma.
Qed.

Lemma davfs_options_extras c d path :
  lacks "," path = true -> lacks "," (str_or_empty (DAVFSConfig_Username d)) = true ->
  same_but_extras mountClientDAVFS c (davfs_options path c d).
Proof.
  intros Hp Hu. unfold same_but_extras. rewrite effective_system by done. unfold davfs_options.
  set (options := ("conf=" +:+ path) :: MountConfig_MountOptions c).
  pose proof (appendReadOnlyOption_elem allow_other options (MountConfig_ReadOnly c) ltac:(done)) as Ha.
  assert (allow_other ∈ options <-> allow_other ∈ MountConfig_MountOptions c) as Ho.
  { unfold options. rewrite elem_of_cons. split; [intros [?|?]; done|by right]. }
  split_and!.
  - destruct (_ && _); rewrite ?elem_of_app, ?list_elem_of_singleton, Ha, Ho; [|done]. split; [intros [?|?]; done|by left].
  - intros o Hin. assert (o ∈ appendReadOnlyOption options (MountConfig_ReadOnly c)) by (apply appendReadOnlyOption_keeps; by right).
    destruct (_ && _); rewrite ?elem_of_app; auto.
  - intros Hl. assert (forallb (lacks ",") (appendReadOnlyOption options (MountConfig_ReadOnly c)) = true) as Hr.
    { apply appendReadOnlyOption_lacks. unfold options. cbn [forallb]. by rewrite lacks_app, Hp. }
    destruct (_ && _); [|done]. rewrite forallb_app, Hr. cbn [forallb]. by rewrite lacks_app, Hu.
Qed.

(** C27: for a request that the policy check accepts, and whose options,
    user name and configuration path have no comma, the options that reach
    the client by its command (the words of the -o text of mount, or the
    list in the configuration of irodsfs) contain allow_other exactly when
    the daemon allows it and the client is a FUSE one, never for NFS and
    never when the daemon forbids it; and every option of the request
    reaches the client.  Options with a comma escape the check
    ([commas_hide_allow_other]). *)
Theorem allow_other_policy client c mountID root log :
  clientType (Some c) = Ok client ->
  validateFuseAllowOtherPolicy (AllowFuseAllowOther daemon) client c = None -> comma_free client c root = true ->
  returns (makeMountCommand daemon (Some (applyFuseAllowOtherPolicy daemon c)) mountID root log) (fun made =>
    forall cmd t, made = Ok (cmd, t) -> t = client /\ exists words, receives client cmd words /\
      (allow_other ∈ words <-> AllowFuseAllowOther daemon = true /\ client <> mountClientNFS) /\
      (forall o, o ∈ effective_options client c -> o ∈ words)).
Proof.
  intros Hc Hv Hcomma. pose proof (effective_options_lacks daemon client c root Hc Hv Hcomma) as Hl.
  destruct (allow_other_listed daemon client c Hc Hv) as (Hiff & Hsame & _).
  assert (forall words, same_but_extras client (applyFuseAllowOtherPolicy daemon c) words ->
    (allow_other ∈ words <-> AllowFuseAllowOther daemon = true /\ client <> mountClientNFS) /\
    (forall o, o ∈ effective_options client c -> o ∈ words) /\ forallb (lacks ",") words = true) as Hwords.
  { intros words (H1 & H2 & H3). split_and!; [by rewrite H1|intros o Ho|by apply H3]. destruct (decide (o = allow_other)) as [->|Hne].
    - apply H1, Hiff. by apply (validateFuse_spec (AllowFuseAllowOther daemon) client c).
    - by apply H2, Hsame. }
  destruct (applyFuse_keeps daemon c) as [Ht Hd]. set (c' := applyFuseAllowOtherPolicy daemon c) in *.
  unfold makeMountCommand. rewrite Ht, Hc. unfold comma_free in Hcomma. apply andb_prop in Hcomma as [_ Hcomma]. destruct client.
  - intros cmd t Hmade. unfold makeIRODSFSConfigJSON, result_bind in Hmade. destruct (GetIrodsfs c') as [i|] eqn:Ei; [|done].
    destruct (IRODSFSConfig_Account i) as [account|]; [|done]. destruct (irodsfs_input _ _ _ _ _) as [input|] eqn:Ein; [|done].
    destruct (json_Marshal input) as [json|] eqn:Ej; [|done]. injection Hmade as <- <-. split; [done|].
    assert (ic_FuseOptions input = effective_options mountClientIRODSFS c') as Hf.
    { unfold irodsfs_input, result_bind in Ein. unfold effective_options. rewrite Ei. by repeat case_match; simplify_eq. }
    exists (effective_options mountClientIRODSFS c'). split.
    + exists input, json. split_and!; [done..|]. by rewrite Hf, option_words_plain.
    + destruct (Hwords (effective_options mountClientIRODSFS c')) as (H1 & H2 & _); [by split_and!|]. by split.
  - unfold makeDAVFSMountCommand. rewrite Hd in *. destruct (GetDavfs c) as [d|] eqn:Ed; [|by intros ? ? ? ? [=]].
    apply andb_prop in Hcomma as [Hp Hu]. destruct (Hwords _ (davfs_options_extras c' d _ Hp Hu)) as (H1 & H2 & H3).
    intros e1 w1 [err|] ? _; [by intros ? ? [=]|]. intros e2 w2 [err|] ? _; [by intros ? ? [=]|].
    intros cmd t [= <- <-]. split; [done|]. eexists. split; [by apply receives_system|by split].
  - unfold makeNFSMountCommand. destruct (GetNfs c') as [n|]; [|by intros ? ? ? ? [=]].
    destruct (Hwords _ (nfs_options_extras c' n)) as (H1 & H2 & H3).
    intros cmd t [= <- <-]. split; [done|]. eexists. split; [by apply receives_system|by split].
Qed.
End AllowOther.

(** The counterpart with a comma: the daemon forbids allow_other and its
    check accepts the DAVFS request, whose option reaches mount as one more
    option of the comma-separated list; so does a part of a user name. *)
Definition davfs_request (options : list string) (username : option string) : MountConfig :=
  mkMountConfig "/mnt/irods/dav" false options (Some (MountConfig_Davfs (Some (mkDAVFSConfig "https:data/dav" username None ∅)))).

Lemma commas_hide_allow_other :
  AllowFuseAllowOther example_config = false /\
  Forall (fun c =>
    @validateMountConfig plain_urls plain_fs example_config (Some c) = None /\
    returns (@makeMountCommand example_config plain_irodsfs (Some (applyFuseAllowOtherPolicy example_config c)) "m" "/d" None) (fun made =>
      forall cmd t, made = Ok (cmd, t) ->
        exists o, cmd_Args cmd = ["-t"; "davfs"; "-o"; o; "https:data/dav"; "/mnt/irods/dav"] /\ allow_other ∈ Split "," o))
    [davfs_request ["rw,allow_other"] None; davfs_request [] (Some "jo,allow_other")].
Proof.
  split; [done|]. repeat constructor; try (vm_compute; reflexivity);
    (intros e1 w1 [err|] ? _; [by intros ? ? [=]|]; intros e2 w2 [err|] ? _; [by intros ? ? [=]|]; intros cmd t [= <- <-];
     eexists; split; [reflexivity|]; apply (bool_decide_eq_true_1 _); vm_compute; reflexivity).
Qed.

Lemma allow_other_policy_witness :
  returns (@makeMountCommand example_config plain_irodsfs (Some (applyFuseAllowOtherPolicy example_config (davfs_request ["rw"] (Some "jo"))))
      "m" "/d" None) (fun made =>
    forall cmd t, made = Ok (cmd, t) -> t = mountClientDAVFS /\ exists words, @receives plain_irodsfs mountClientDAVFS cmd words /\
      (allow_other ∈ words <-> false = true /\ mountClientDAVFS <> mountClientNFS) /\
      (forall o, o ∈ ["rw"] -> o ∈ words)).
Proof.
  exact (@allow_other_policy example_config plain_irodsfs mountClientDAVFS (davfs_request ["rw"] (Some "jo")) "m" "/d" None
    eq_refl eq_refl ltac:(vm_compute; reflexivity)).
Defined.
