(* ===== verification/Manager.v ===== *)
(** * The mount manager (service/mount_manager.go)

    One definition per method of MountManager, as a program over the shared
    world.  A result of a mount info and an error is a pair of options.  Logging
    is left out. *)

From S2P Require Import Prelude GoStrings GoPath GoSort GoErrors GoFloat Api Redact Config Retry Policy.
From S2P Require Import IrodsfsConfig Repository Runtime Command.

Definition mount_result : Type := option MountInfo * option goerror.

Definition defaultMountTimeout : Z := 30 * Second.

(** ** Metrics and events *)

Definition observeMountOperation (operation result : string) (duration : Z) (m : Metrics) : Metrics :=
  mkMetrics (mountOperations m ++ [(operation, result)]) (mountDurations m ++ [(operation, duration)])
    (childCrashes m) (reconcileErrors m).
Definition metrics_recordChildCrash (m : Metrics) : Metrics :=
  mkMetrics (mountOperations m) (mountDurations m) (childCrashes m + 1) (reconcileErrors m).
Definition metrics_recordReconcileError (m : Metrics) : Metrics :=
  mkMetrics (mountOperations m) (mountDurations m) (childCrashes m) (reconcileErrors m + 1).

(** Counters start at zero. *)
Definition NewMetrics : Metrics := mkMetrics [] [] 0 0.

(** [manager.metrics = NewMetrics(manager)] *)
Definition set_metrics : prog unit := act (fun _ w => Next tt (set_w_metrics (Some NewMetrics) w)).

(** A no-op without metrics. *)
Definition with_metrics (f : env -> Metrics -> Metrics) : prog unit :=
  act (fun e w => Next tt (set_w_metrics (f e <$> w_metrics w) w)).

(** Time.Sub, which saturates. *)
Definition time_Sub (t u : Z) : Z := Z.max (- two63) (Z.min (two63 - 1) (t - u)).

Definition recordMountOperation (operation : string) (err : option goerror) (start : Z) : prog unit :=
  with_metrics (fun e =>
    observeMountOperation operation (match err with Some _ => "rejected" | None => "accepted" end) (time_Sub (env_now e 0%nat) start)).
Definition recordChildCrash : prog unit := with_metrics (fun _ => metrics_recordChildCrash).
Definition recordReconcileError : prog unit := with_metrics (fun _ => metrics_recordReconcileError).

Definition matches (s : subscriber) (mountID : string) : bool :=
  bool_decide (sub_mountIDs s = []) || existsb (String.eqb mountID) (sub_mountIDs s).

(** The non-blocking send of publishMountEvent: a full channel drops the
    event. *)
Definition deliver (event : MountEvent) (s : subscriber) : subscriber :=
  if matches s (MountInfo_MountId (MountEvent_Mount event))
     && bool_decide (length (sub_events s) < subscriber_buffer)%nat
  then mkSubscriber (sub_mountIDs s) (sub_events s ++ [event])
  else s.

Definition publishMountEvent (eventType : MountEventType) (mount : option MountInfo) : prog unit :=
  match mount with
  | None => mret tt
  | Some info =>
      act (fun _ w =>
        if w_eventMutex w then Blocked
        else Next tt (record_effect (FxPublish (mkMountEvent eventType info))
               (set_w_subscribers (deliver (mkMountEvent eventType info) <$> w_subscribers w) w)))
  end.

Definition snapshot (entry : entry_id) : prog MountInfo := reading entry (fun m => redactMountInfo (mm_info m)).

(** [manager.publishMountEvent(UPDATED, manager.snapshot(entry))] *)
Definition publish_updated (entry : entry_id) : prog unit :=
  info ← snapshot entry; publishMountEvent MOUNT_EVENT_TYPE_UPDATED (Some info).

Definition cancelRetryTimer (entry : entry_id) : prog unit :=
  timer ← locked entry (fun _ m => (mm_retryTimer m, set_mm_retryTimer None m));
  match timer with
  | Some t => Timer_Stop t
  | None => mret tt
  end.

Definition entry_mountPath (entry : entry_id) : prog string := config_path entry.
Definition entry_mountID (entry : entry_id) : prog string := reading entry (fun m => MountInfo_MountId (mm_info m)).

(** time.Now() *)
Definition time_Now : prog Z := asks (fun e => env_now e 0%nat).

(** manager.probe(path), which is [isMountPoint] *)
Definition probe (mountPath : string) : prog (result goerror bool) := asks (fun e => isMountPoint (env_fs e) mountPath).

(** entry := &managedMount{info: ..., exitDone: make(chan struct{}), generation: 1} *)
Definition new_entry (info : MountInfo) (exitDone : chan) : managedMount := {|
  mm_operation := false;
  mm_info := info;
  mm_command := None;
  mm_client := None;
  mm_persistent := false;
  mm_exitDone := exitDone;
  mm_unmounting := false;
  mm_timedOut := false;
  mm_stopping := false;
  mm_generation := 1;
  mm_retryTimer := None;
  mm_mountLog := None
|}.

(** Adds an entry and its channel to the heap. *)
Definition alloc (m : chan -> managedMount) (w : World) : entry_id * World :=
  (length (w_entries w),
   set_w_entries (w_entries w ++ [m (length (w_chans w))]) (set_w_chans (w_chans w ++ [false]) w)).

(** [entry := &managedMount{...}; entry.operation.Lock()]: nobody else can
    see the entry yet, so the two are one step. *)
Definition new_locked_entry (info : env -> MountInfo) : prog entry_id :=
  act (fun e w => let '(entry, w') := alloc (fun c => set_mm_operation true (new_entry (info e) c)) w in Next entry w').

(** logstore.Open *)
Definition logstore_Open (path : string) (secrets : list string) : prog (result goerror log_id) :=
  act (fun e w =>
    match env_err e with
    | Some err => Next (Err err) w
    | None => Next (Ok (length (w_logs w)))
                (set_w_logs (w_logs w ++ [mkMountLog path (List.filter (fun s => negb (String.eqb s EmptyString)) secrets) true]) w)
    end).

(** mountLog.Close(); its error is only logged *)
Definition mountLog_Close (log : log_id) : prog unit :=
  act (fun _ w => Next tt (set_w_logs (alter (fun l => mkMountLog (log_path l) (log_secrets l) false) log (w_logs w)) w)).

Section Manager.
Variable daemon : Config.
Context `{UrlLib} `{ErrorLib} `{RecordCodec} `{IrodsfsLib}.

Definition mount_timeout : Z := if MountTimeout daemon <=? 0 then defaultMountTimeout else MountTimeout daemon.

Definition mount_data_root (mountID : string) : string := PathJoin [GetMountRootPath daemon; mountID].

(** ** Persisting *)

Definition persistRecord (ctx : context) (entry : entry_id) : prog (option goerror) :=
  record ← locked entry (fun _ m => (mkMountRecord (Some (mm_info m)) (mm_unmounting m), m));
  repository_Update ctx record.

Definition persistBestEffort (entry : entry_id) : prog unit :=
  err ← persistRecord Background entry; mret tt.

(** ** Failures *)

(** The critical section of recordMountFailure: [None] for a superseded
    attempt, otherwise whether a retry is due. *)
Definition mount_failure_section (generation : Z) (code message : string) (details : list (string * string))
    (e : env) (m : managedMount) : option bool * managedMount :=
  if negb (mm_generation m =? generation) || mm_unmounting m then (None, m)
  else
    let attempt := MountInfo_Attempt (mm_info m) in
    let hadMounted := match MountInfo_MountedAt (mm_info m) with Some _ => true | None => false end in
    let retrying := mount_retrying daemon code attempt hadMounted in
    let delay := computeRetryDelay (Retry daemon) attempt (Some (env_rand e)) in
    let info := set_LastError (Some (mkAPIError code message retrying details))
                  (set_UpdatedAt (env_now e 0%nat) (mm_info m)) in
    let info := if retrying
                then set_NextRetryAt (Some (env_now e 1%nat + delay)) (set_State MOUNT_STATE_RETRY_WAIT info)
                else set_NextRetryAt None (set_State MOUNT_STATE_FAILED info) in
    (Some retrying, set_mm_info info m).

(** [timer := time.AfterFunc(...); entry.retryTimer = timer] *)
Definition schedule_retry (entry : entry_id) (t : thread) : prog unit :=
  timer ← AfterFunc t; locked entry (fun _ m => (tt, set_mm_retryTimer (Some timer) m)).

Definition recordMountFailure (entry : entry_id) (generation : Z) (code message : string)
    (details : list (string * string)) : prog unit :=
  outcome ← locked entry (mount_failure_section generation code message details);
  match outcome with
  | None => mret tt
  | Some retrying =>
      persistBestEffort entry;;
      publish_updated entry;;
      if negb retrying then mret tt else schedule_retry entry (TRetryMount entry generation)
  end.

Definition terminal_failure_section (generation : Z) (code message : string) (e : env) (m : managedMount)
  : bool * managedMount :=
  if negb (mm_generation m =? generation) || mm_unmounting m then (false, m)
  else (true, on_info (fun info => set_NextRetryAt None
                        (set_LastError (Some (mkAPIError code message false []))
                          (set_UpdatedAt (env_now e 0%nat) (set_State MOUNT_STATE_FAILED info)))) m).

Definition recordTerminalMountFailure (entry : entry_id) (generation : Z) (code message : string) : prog unit :=
  recorded ← locked entry (terminal_failure_section generation code message);
  if negb recorded then mret tt
  else persistBestEffort entry;; publish_updated entry.

Definition finishMountStartFailure (entry : entry_id) (generation : Z) (code message : string) : prog unit :=
  section entry (fun _ m => (tt, m, Some (mm_exitDone m)));;
  recordMountFailure entry generation code message [].

Definition failMountBeforeStart (entry : entry_id) (generation : Z) (dataRootPath : string) : prog mount_result :=
  let timeoutErr := ENew "timed out while preparing filesystem mount" in
  locked entry (fun _ m => (tt, set_mm_timedOut true m));;
  removeErr ← os_RemoveAll dataRootPath;
  let message := match removeErr with
                 | Some err => Error timeoutErr +:+ "; cleanup failed: " +:+ Error err
                 | None => Error timeoutErr
                 end in
  finishMountStartFailure entry generation "MOUNT_TIMEOUT" message;;
  info ← snapshot entry; mret (Some info, Some timeoutErr).

(** ** Starting a mount *)

(** An attempt that fails before a process exists. *)
Definition start_failure (entry : entry_id) (generation : Z) (code : string) (err returned : goerror)
  : prog mount_result :=
  finishMountStartFailure entry generation code (Error err);;
  info ← snapshot entry; mret (Some info, Some returned).

Definition started_section (command : proc_id) (pid : Z) (client : mountClientType) (e : env) (m : managedMount)
  : chan * managedMount :=
  let persistent := bool_decide (client = mountClientIRODSFS) in
  let info := if persistent then set_Pid pid (mm_info m) else mm_info m in
  let info := set_UpdatedAt (env_now e 0%nat) (set_State MOUNT_STATE_MOUNTING info) in
  (mm_exitDone m, set_mm_info info (set_mm_persistent persistent
                    (set_mm_client (Some client) (set_mm_command (Some command) m)))).

Definition client_name (client : mountClientType) : string :=
  match client with mountClientIRODSFS => "irodsfs" | mountClientDAVFS => "davfs" | mountClientNFS => "nfs" end.

(** From the opened log to the running supervisors. *)
Definition launch (entry : entry_id) (generation : Z) (dataRootPath : string) (mountDeadline : Z) (mountLog : log_id)
  : prog mount_result :=
  info ← reading entry mm_info;
  made ← makeMountCommand daemon (MountInfo_Config info) (MountInfo_MountId info) dataRootPath (Some mountLog);
  match made with
  | Err err => start_failure entry generation "MOUNT_CONFIGURATION_FAILED" err err
  | Ok (command, client) =>
      now ← time_Now;
      if negb (now <? mountDeadline) then failMountBeforeStart entry generation dataRootPath
      else
        started ← command_Start (MountInfo_MountId info) command;
        match started with
        | Err err =>
            start_failure entry generation "MOUNT_COMMAND_START_FAILED" err
              (EWrap err ("failed to start " +:+ client_name client +:+ " mount command"))
        | Ok proc =>
            pid ← gets (fun w => process_Pid w proc);
            exitDone ← locked entry (started_section proc pid client);
            persistBestEffort entry;;
            publish_updated entry;;
            go (TWaitForProcess entry generation proc exitDone);;
            go (TWaitForMount entry generation mountDeadline exitDone);;
            info ← snapshot entry; mret (Some info, None)
        end
  end.

Definition startMount (entry : entry_id) (generation : Z) (dataRootPath : string) (mountDeadline : Z)
  : prog mount_result :=
  mountPath ← reading entry (fun m => GetMountPath (mm_info m));
  mkdirErr ← os_MkdirAll mountPath;
  match mkdirErr with
  | Some err =>
      let startErr := EWrap err ("failed to create mount directory " +:+ Quote mountPath) in
      start_failure entry generation "MOUNT_DIRECTORY_FAILED" startErr startErr
  | None =>
      dataErr ← os_MkdirAll dataRootPath;
      match dataErr with
      | Some err =>
          let startErr := EWrap err ("failed to create mount data directory " +:+ Quote dataRootPath) in
          start_failure entry generation "MOUNT_DATA_DIRECTORY_FAILED" startErr startErr
      | None =>
          now ← time_Now;
          if negb (now <? mountDeadline) then failMountBeforeStart entry generation dataRootPath
          else
            mountLog ← reading entry mm_mountLog;
            match mountLog with
            | Some log => launch entry generation dataRootPath mountDeadline log
            | None =>
                info ← reading entry mm_info;
                opened ← logstore_Open (GetMountLogPath daemon (MountInfo_MountId info))
                           (match MountInfo_Config info with Some c => collectMountSecrets c | None => [] end);
                match opened with
                | Err err => start_failure entry generation "MOUNT_LOG_OPEN_FAILED" err err
                | Ok log =>
                    locked entry (fun _ m => (tt, set_mm_mountLog (Some log) m));;
                    launch entry generation dataRootPath mountDeadline log
                end
            end
      end
  end.

(** ** Mount *)

(** The critical section of the registry in Mount. *)
Definition register_mount (entry : entry_id) (mountID mountPath : string) : prog (option goerror) :=
  act (fun e w =>
    match w_mounts w !! mountID with
    | Some _ => Next (Some (EWrap (ESentinel ErrMountIDConflict) ("mount ID " +:+ Quote mountID))) w
    | None =>
        if (0 <? MaxConcurrentMounts daemon) && (MaxConcurrentMounts daemon <=? Z.of_nat (size (w_mounts w)))
        then Next (Some (ESentinel ErrMountLimitReached)) w
        else
          let owns (kv : string * entry_id) :=
            match w_entries w !! snd kv with
            | Some m => String.eqb (Clean (GetMountPath (mm_info m))) mountPath
            | None => false
            end in
          match List.find owns (range_map e (w_mounts w)) with
          | Some (existingID, _) =>
              Next (Some (EWrap (ESentinel ErrMountPathConflict)
                ("mount path " +:+ Quote mountPath +:+ " is owned by " +:+ Quote existingID))) w
          | None => Next None (set_w_mounts (<[mountID := entry]> (w_mounts w)) w)
          end
    end).

(** The section of Mount after a failed Create. *)
Definition persist_failed_section (persistErr : goerror) (e : env) (m : managedMount)
  : MountInfo * managedMount * option chan :=
  let info := set_LastError (Some (mkAPIError "MOUNT_PERSIST_FAILED" (Error persistErr) false []))
                (set_UpdatedAt (env_now e 0%nat) (set_State MOUNT_STATE_FAILED (mm_info m))) in
  (redactMountInfo info, set_mm_info info m, Some (mm_exitDone m)).

(** Mount with the operation mutex of its new entry held. *)
Definition mount_registered (ctx : context) (entry : entry_id) (mountID mountPath : string) (mountDeadline : Z)
  : prog mount_result :=
  conflict ← register_mount entry mountID mountPath;
  match conflict with
  | Some err => mret (None, Some err)
  | None =>
      initialRecord ← reading entry (fun m => mkMountRecord (Some (mm_info m)) false);
      createErr ← repository_Create ctx initialRecord;
      match createErr with
      | Some err =>
          let persistErr := EWrap err "failed to persist mount record" in
          result ← section entry (persist_failed_section persistErr);
          mret (Some result, Some persistErr)
      | None =>
          generation ← reading entry mm_generation;
          startMount entry generation (mount_data_root mountID) mountDeadline
      end
  end.

Definition initial_info (mountID : string) (config : MountConfig) (now : Z) : MountInfo := {|
  MountInfo_MountId := mountID;
  MountInfo_State := MOUNT_STATE_PENDING_MOUNT;
  MountInfo_Config := Some config;
  MountInfo_Attempt := 1;
  MountInfo_LastError := None;
  MountInfo_Pid := 0;
  MountInfo_CreatedAt := Some now;
  MountInfo_UpdatedAt := Some now;
  MountInfo_MountedAt := None;
  MountInfo_UnmountedAt := None;
  MountInfo_NextRetryAt := None
|}.

(** The stored configuration: cleaned path, allow_other policy applied. *)
Definition stored_config (config : MountConfig) : MountConfig :=
  applyFuseAllowOtherPolicy daemon (set_MountPath (Clean (MountConfig_MountPath config)) config).

Definition mount_body (ctx : context) (request : option MountRequest) : prog mount_result :=
  ctxErr ← asks (ctx_Err ctx);
  match ctxErr, request with
  | Some err, _ => mret (None, Some err)
  | None, None => mret (None, Some (ENew "mount request is required"))
  | None, Some r =>
      invalid ← asks (fun e => validateMountConfig (env_fs e) daemon (MountRequest_Config r));
      match invalid, MountRequest_Config r with
      | Some err, _ => mret (None, Some err)
      | None, None => mret (None, Some (ENew "mount config is required"))
      | None, Some config =>
          start ← time_Now;
          let mountDeadline := start + mount_timeout in
          generated ← asks env_id;
          let mountID := if String.eqb (GetMountId r) EmptyString then generated else GetMountId r in
          match (if String.eqb (GetMountId r) EmptyString then None else validateMountID mountID) with
          | Some err => mret (None, Some err)
          | None =>
              let storedConfig := stored_config config in
              entry ← new_locked_entry (fun e => initial_info mountID storedConfig (env_now e 0%nat));
              result ← mount_registered ctx entry mountID (Clean (MountConfig_MountPath config)) mountDeadline;
              operation_Unlock entry;;
              mret result
          end
      end
  end.

Definition Mount (ctx : context) (request : option MountRequest) : prog mount_result :=
  start ← time_Now;
  result ← mount_body ctx request;
  recordMountOperation "mount" (snd result) start;;
  mret result.

(** ** Unmount *)

Definition unmount_failure_section (generation : Z) (code message : string) (e : env) (m : managedMount)
  : option bool * managedMount :=
  if negb (mm_generation m =? generation) then (None, m)
  else
    let attempt := MountInfo_Attempt (mm_info m) in
    let retrying := attempt <? maxAttempts daemon in
    let delay := computeRetryDelay (Retry daemon) attempt (Some (env_rand e)) in
    let info := set_LastError (Some (mkAPIError code message retrying []))
                  (set_UpdatedAt (env_now e 0%nat) (mm_info m)) in
    let info := if retrying
                then set_NextRetryAt (Some (env_now e 1%nat + delay)) (set_State MOUNT_STATE_RETRY_WAIT info)
                else set_NextRetryAt None (set_State MOUNT_STATE_FAILED info) in
    (Some retrying, set_mm_info info m).

Definition recordUnmountFailure (entry : entry_id) (generation : Z) (code message : string) : prog unit :=
  outcome ← locked entry (unmount_failure_section generation code message);
  match outcome with
  | None => mret tt
  | Some retrying =>
      persistBestEffort entry;;
      publish_updated entry;;
      if negb retrying then mret tt else schedule_retry entry (TRetryUnmount entry generation)
  end.

(** [recordUnmountFailure(...); return manager.snapshot(entry), err] *)
Definition unmount_failure (entry : entry_id) (generation : Z) (code : string) (err : goerror) : prog mount_result :=
  recordUnmountFailure entry generation code (Error err);;
  info ← snapshot entry; mret (Some info, Some err).

(** The select of performUnmountAttempt and shutdownEntry. *)
Inductive waited : Type := Exited | TimerFired | ContextDone (err : goerror).

Definition select_exit (ctx : context) (exitDone : chan) : prog waited :=
  act (fun e w =>
    match env_case e with
    | CaseExit => match w_chans w !! exitDone with Some true => Next Exited w | _ => Blocked end
    | CaseTimer => Next TimerFired w
    | CaseContext => match ctx_Err ctx e with Some err => Next (ContextDone err) w | None => Blocked end
    | CaseTick => Blocked
    end).

(** The inner select, without the timer. *)
Definition select_exit_or_done (ctx : context) (exitDone : chan) : prog waited :=
  act (fun e w =>
    match env_case e with
    | CaseExit => match w_chans w !! exitDone with Some true => Next Exited w | _ => Blocked end
    | CaseContext => match ctx_Err ctx e with Some err => Next (ContextDone err) w | None => Blocked end
    | _ => Blocked
    end).

Definition Signal_if (persistent : bool) (command : option proc_id) : prog unit :=
  match command with
  | Some p => if persistent then Process_Signal p else mret tt
  | None => mret tt
  end.

Definition Kill_if (command : option proc_id) : prog unit :=
  match command with Some p => Process_Kill p | None => mret tt end.

(** Waits for the client to stop: [None] once it has, or the error of an
    ended context. *)
Definition await_exit (ctx : context) (command : option proc_id) (exitDone : chan) : prog (option goerror) :=
  first ← select_exit ctx exitDone;
  match first with
  | Exited => mret None
  | ContextDone err => mret (Some err)
  | TimerFired =>
      Kill_if command;;
      second ← select_exit_or_done ctx exitDone;
      match second with
      | ContextDone err => mret (Some err)
      | _ => mret None
      end
  end.

Definition unmounted_section (e : env) (m : managedMount) : (MountInfo * option log_id) * managedMount :=
  let info := set_UpdatedAt (env_now e 0%nat) (set_UnmountedAt (env_now e 0%nat) (mm_info m)) in
  ((redactMountInfo info, mm_mountLog m), set_mm_info info m).

Definition close_log (log : option log_id) : prog unit :=
  match log with Some l => mountLog_Close l | None => mret tt end.

(** [persistent, command, exitDone] read under the entry's mutex *)
Definition running_attempt (m : managedMount) : bool * option proc_id * chan :=
  (mm_persistent m, mm_command m, mm_exitDone m).

(** The part of performUnmountAttempt after the mount is detached. *)
Definition finish_unmount (ctx : context) (entry : entry_id) (generation : Z) : prog mount_result :=
  attempt ← reading entry running_attempt;
  let '(persistent, command, exitDone) := attempt in
  Signal_if persistent command;;
  stopped ← await_exit ctx command exitDone;
  match stopped with
  | Some err => unmount_failure entry generation "UNMOUNT_FAILED" err
  | None =>
      mountID ← entry_mountID entry;
      let dataRootPath := mount_data_root mountID in
      removeErr ← os_RemoveAll dataRootPath;
      match removeErr with
      | Some err =>
          unmount_failure entry generation "UNMOUNT_FAILED"
            (EWrap err ("failed to delete mount data directory " +:+ Quote dataRootPath))
      | None =>
          done ← locked entry unmounted_section;
          let '(result, mountLog) := done in
          close_log mountLog;;
          deleteErr ← repository_Delete ctx mountID;
          act (fun _ w => Next tt (set_w_mounts (delete mountID (w_mounts w)) w));;
          publishMountEvent MOUNT_EVENT_TYPE_REMOVED (Some result);;
          mret (Some result, None)
      end
  end.

Definition performUnmountAttempt (ctx : context) (entry : entry_id) (generation : Z) : prog mount_result :=
  mountPath ← entry_mountPath entry;
  probed ← probe mountPath;
  match probed with
  | Err probeErr =>
      unmount_failure entry generation "UNMOUNT_FAILED"
        (EWrap probeErr "failed to check the mount table before unmount")
  | Ok mounted =>
      unmountErr ← (match mounted with true => unmountClient daemon ctx entry | false => mret None end);
      match unmountErr with
      | Some err =>
          if Is err ErrDAVFSLazyUnmount then unmount_failure entry generation "DAVFS_LAZY_UNMOUNT" err
          else unmount_failure entry generation "UNMOUNT_FAILED" (EWrap err "failed to unmount mount")
      | None => finish_unmount ctx entry generation
      end
  end.

(** What the accepting section of Unmount remembers. *)
Record accepted : Type := mkAccepted {
  wasUnmounting : bool;
  previousState : MountState;
  acceptedGeneration : Z;
  tombstoneRecord : MountRecord
}.

Definition accept_unmount_section (e : env) (m : managedMount) : accepted * managedMount :=
  let generation := wrap_u64 (mm_generation m + 1) in
  let info := set_State MOUNT_STATE_UNMOUNTING (mm_info m) in
  let info := if negb (mm_unmounting m) then set_Attempt 1 info else info in
  let info := set_UpdatedAt (env_now e 0%nat) info in
  (mkAccepted (mm_unmounting m) (MountInfo_State (mm_info m)) generation (mkMountRecord (Some info) true),
   set_mm_info info (set_mm_unmounting true (set_mm_generation generation m))).

Definition reject_unmount_section (was : bool) (previous : MountState) (e : env) (m : managedMount)
  : unit * managedMount :=
  (tt, on_info (fun info => set_UpdatedAt (env_now e 0%nat) (set_State previous info)) (set_mm_unmounting was m)).

(** [exists && current == entry] *)
Definition same_entry (current : option entry_id) (entry : entry_id) : bool :=
  match current with Some e => Nat.eqb e entry | None => false end.

(** Unmount with the operation mutex held. *)
Definition unmount_locked (ctx : context) (entry : entry_id) (mountID : string) : prog mount_result :=
  current ← gets (fun w => w_mounts w !! mountID);
  if negb (same_entry current entry)
  then mret (None, Some (EWrap (ESentinel ErrMountNotFound) ("mount ID " +:+ Quote mountID)))
  else
    cancelRetryTimer entry;;
    a ← locked entry accept_unmount_section;
    publish_updated entry;;
    updateErr ← repository_Update ctx (tombstoneRecord a);
    match updateErr with
    | Some err =>
        locked entry (reject_unmount_section (wasUnmounting a) (previousState a));;
        mret (None, Some (EWrap err "failed to persist unmount tombstone"))
    | None => performUnmountAttempt ctx entry (acceptedGeneration a)
    end.

Definition unmount_body (ctx : context) (request : option UnmountRequest) : prog mount_result :=
  ctxErr ← asks (ctx_Err ctx);
  match ctxErr, request with
  | Some err, _ => mret (None, Some err)
  | None, None => mret (None, Some (ENew "mount ID is required"))
  | None, Some r =>
      let mountID := UnmountRequest_MountId r in
      if String.eqb mountID EmptyString then mret (None, Some (ENew "mount ID is required"))
      else
        found ← gets (fun w => w_mounts w !! mountID);
        match found with
        | None => mret (None, Some (EWrap (ESentinel ErrMountNotFound) ("mount ID " +:+ Quote mountID)))
        | Some entry => holding_operation entry (unmount_locked ctx entry mountID)
        end
  end.

Definition Unmount (ctx : context) (request : option UnmountRequest) : prog mount_result :=
  start ← time_Now;
  result ← unmount_body ctx request;
  recordMountOperation "unmount" (snd result) start;;
  mret result.

(** ** Scheduled retries *)

Definition retry_mount_section (generation : Z) (exitDone : chan) (e : env) (m : managedMount)
  : option Z * managedMount :=
  if negb (mm_generation m =? generation) || mm_unmounting m then (None, m)
  else
    let newGeneration := wrap_u64 (mm_generation m + 1) in
    let info := set_UpdatedAt (env_now e 0%nat)
                  (set_State MOUNT_STATE_PENDING_MOUNT
                    (set_Attempt (wrap_i32 (MountInfo_Attempt (mm_info m) + 1)) (mm_info m))) in
    (Some newGeneration,
     set_mm_persistent false (set_mm_client None (set_mm_command None (set_mm_timedOut false
       (set_mm_exitDone exitDone (set_mm_info info (set_mm_generation newGeneration (set_mm_retryTimer None m)))))))).

(** The section makes the channel of the new attempt. *)
Definition begin_retry (entry : entry_id) (generation : Z) : prog (option Z) :=
  act (fun e w =>
    match w_entries w !! entry with
    | None => Panics
    | Some m =>
        let '(newGeneration, m') := retry_mount_section generation (length (w_chans w)) e m in
        match newGeneration with
        | None => Next None w
        | Some g => Next (Some g) (set_w_entries (<[entry := m']> (w_entries w)) (set_w_chans (w_chans w ++ [false]) w))
        end
    end).

Definition retry_mount_locked (entry : entry_id) (generation : Z) : prog unit :=
  started ← begin_retry entry generation;
  match started with
  | None => mret tt
  | Some newGeneration =>
      persistBestEffort entry;;
      publish_updated entry;;
      now ← time_Now;
      mountID ← entry_mountID entry;
      result ← startMount entry newGeneration (mount_data_root mountID) (now + mount_timeout);
      mret tt
  end.

Definition retryMount (entry : entry_id) (generation : Z) : prog unit :=
  holding_operation entry (retry_mount_locked entry generation).

Definition retry_unmount_section (generation : Z) (e : env) (m : managedMount) : option Z * managedMount :=
  if negb (mm_generation m =? generation) || negb (mm_unmounting m) then (None, m)
  else
    let newGeneration := wrap_u64 (mm_generation m + 1) in
    let info := set_UpdatedAt (env_now e 0%nat)
                  (set_State MOUNT_STATE_UNMOUNTING
                    (set_Attempt (wrap_i32 (MountInfo_Attempt (mm_info m) + 1)) (mm_info m))) in
    (Some newGeneration, set_mm_info info (set_mm_generation newGeneration (set_mm_retryTimer None m))).

Definition retry_unmount_locked (entry : entry_id) (generation : Z) : prog unit :=
  resumed ← locked entry (retry_unmount_section generation);
  match resumed with
  | None => mret tt
  | Some newGeneration =>
      persistBestEffort entry;;
      publish_updated entry;;
      result ← performUnmountAttempt Background entry newGeneration;
      mret tt
  end.

Definition retryUnmount (entry : entry_id) (generation : Z) : prog unit :=
  holding_operation entry (retry_unmount_locked entry generation).

(** ** Supervision *)

Definition process_exit_section (generation : Z) (exitDone : chan) (err : option goerror) (m : managedMount)
  : (bool * option mountClientType * string) * managedMount * option chan :=
  let stale := negb (mm_generation m =? generation) in
  let m' := if negb stale && negb (mm_persistent m) then on_info (set_Pid 0) m else m in
  let crashed := negb stale && negb (mm_unmounting m) && negb (mm_timedOut m) && negb (mm_stopping m)
                 && (mm_persistent m || negb (succeeded err)) in
  ((crashed, mm_client m, GetMountPath (mm_info m)), m', Some exitDone).

Definition waitForProcess (entry : entry_id) (generation : Z) (command : proc_id) (exitDone : chan) : prog unit :=
  err ← command_Wait command;
  exited ← section entry (fun _ m => process_exit_section generation exitDone err m);
  let '(crashed, client, mountPath) := exited in
  if negb crashed then mret tt
  else
    recordChildCrash;;
    let message := processExitMessage err in
    let failureCode := mountFailureCode client err in
    probed ← probe mountPath;
    unmountErr ← (match probed with
                  | Ok true => unmountByClientType daemon Background client mountPath
                  | _ => mret None
                  end);
    match unmountErr with
    | Some e =>
        recordTerminalMountFailure entry generation failureCode
          (message +:+ "; failed to clean up the broken mount: " +:+ Error e)
    | None => recordMountFailure entry generation failureCode message []
    end.

(** The result is [(preserved, error)]. *)
Definition cleanupTimedOutMount (client : option mountClientType) (mountPath mountID : string)
  : prog (bool * option goerror) :=
  probed ← probe mountPath;
  match probed with
  | Err err => mret (false, Some (EWrap err "failed to check timed-out mount"))
  | Ok mounted =>
      detached ← (match mounted, client with
                  | true, Some mountClientIRODSFS =>
                      err ← fuse_Unmount mountPath;
                      mret (false, WrapOpt err "failed to lazily unmount timed-out FUSE mount")
                  | true, Some mountClientDAVFS =>
                      err ← fuse_Unmount mountPath;
                      mret (true, WrapOpt err "failed to lazily unmount timed-out DAVFS mount")
                  | true, Some mountClientNFS =>
                      err ← runSystemUnmount daemon Background mountPath true (UnmountTimeout daemon);
                      mret (false, WrapOpt err "failed to lazily unmount timed-out NFS mount")
                  | _, _ => mret (false, None)
                  end);
      match detached with
      | (preserve, Some err) => mret (preserve, Some err)
      | (true, None) => mret (true, None)
      | (false, None) =>
          let dataRootPath := mount_data_root mountID in
          removeErr ← os_RemoveAll dataRootPath;
          mret (false, WrapOpt removeErr ("failed to delete mount data directory " +:+ Quote dataRootPath))
      end
  end.

Definition timeout_section (generation : Z) (m : managedMount)
  : option (option proc_id * option mountClientType * option MountConfig * string) * managedMount :=
  if negb (mm_generation m =? generation) || mm_unmounting m
     || bool_decide (MountInfo_State (mm_info m) = MOUNT_STATE_MOUNTED)
  then (None, m)
  else (Some (mm_command m, mm_client m, MountInfo_Config (mm_info m), MountInfo_MountId (mm_info m)),
        set_mm_timedOut true m).

Definition mount_timeout_locked (entry : entry_id) (generation : Z) : prog unit :=
  timedOut ← locked entry (fun _ m => timeout_section generation m);
  match timedOut with
  | None => mret tt
  | Some (_, _, None, _) => act (fun _ _ => Panics)
  | Some (command, client, Some config, mountID) =>
      Kill_if command;;
      cleaned ← cleanupTimedOutMount client (MountConfig_MountPath config) mountID;
      match cleaned with
      | (_, Some err) =>
          recordTerminalMountFailure entry generation "MOUNT_TIMEOUT"
            ("timed out waiting for filesystem mount; cleanup failed: " +:+ Error err)
      | (preserved, None) =>
          let details := if Bool.eqb preserved true
                         then [("davfs_cache", "preserved for recovery after lazy unmount")] else [] in
          recordMountFailure entry generation "MOUNT_TIMEOUT" "timed out waiting for filesystem mount" details
      end
  end.

Definition handleMountTimeout (entry : entry_id) (generation : Z) : prog unit :=
  holding_operation entry (mount_timeout_locked entry generation).

Definition mounted_section (generation : Z) (e : env) (m : managedMount) : bool * managedMount :=
  if (mm_generation m =? generation) && bool_decide (MountInfo_State (mm_info m) = MOUNT_STATE_MOUNTING)
     && negb (mm_unmounting m)
  then (true, on_info (fun info => set_UpdatedAt (env_now e 0%nat)
                         (set_MountedAt (env_now e 0%nat) (set_State MOUNT_STATE_MOUNTED info))) m)
  else (false, m).

(** The closure [check] of waitForMount. *)
Definition check_mounted (entry : entry_id) (generation : Z) : prog bool :=
  mountPath ← entry_mountPath entry;
  probed ← probe mountPath;
  match probed with
  | Ok true =>
      transitioned ← locked entry (mounted_section generation);
      (match transitioned with
       | true => persistBestEffort entry;; publish_updated entry
       | false => mret tt
       end);;
      mret true
  | _ => mret false
  end.

Definition waitForMount (entry : entry_id) (generation deadline : Z) (exitDone : chan) : prog unit :=
  now ← time_Now;
  if deadline - now <=? 0 then handleMountTimeout entry generation
  else
    found ← check_mounted entry generation;
    match found with
    | true => mret tt
    | false => go (TWaitForMountLoop entry generation (Some exitDone))
    end.

(** The loop's select; [exitDone] is nil once it has been seen closed. *)
Definition select_loop (exitDone : option chan) : prog select_case :=
  act (fun e w =>
    match env_case e with
    | CaseExit => match exitDone with
                  | Some c => match w_chans w !! c with Some true => Next CaseExit w | _ => Blocked end
                  | None => Blocked
                  end
    | CaseTick => Next CaseTick w
    | CaseTimer => Next CaseTimer w
    | CaseContext => Blocked
    end).

Definition attempt_stopped (generation : Z) (m : managedMount) : bool :=
  mm_persistent m || negb (mm_generation m =? generation)
  || bool_decide (MountInfo_State (mm_info m) = MOUNT_STATE_FAILED)
  || bool_decide (MountInfo_State (mm_info m) = MOUNT_STATE_RETRY_WAIT).

(** One iteration of the loop of waitForMount; the next iteration is handed
    to a goroutine of the same name. *)
Definition waitForMount_loop (entry : entry_id) (generation : Z) (exitDone : option chan) : prog unit :=
  ready ← select_loop exitDone;
  match ready with
  | CaseExit =>
      stopped ← reading entry (attempt_stopped generation);
      match stopped with
      | true => mret tt
      | false => go (TWaitForMountLoop entry generation None)
      end
  | CaseTick =>
      found ← check_mounted entry generation;
      match found with
      | true => mret tt
      | false => go (TWaitForMountLoop entry generation exitDone)
      end
  | CaseTimer => handleMountTimeout entry generation
  | CaseContext => mret tt
  end.

(** ** Queries *)

Definition GetMount (ctx : context) (mountID : string) : prog mount_result :=
  ctxErr ← asks (ctx_Err ctx);
  match ctxErr with
  | Some err => mret (None, Some err)
  | None =>
      found ← gets (fun w => w_mounts w !! mountID);
      match found with
      | None => mret (None, Some (EWrap (ESentinel ErrMountNotFound) ("mount ID " +:+ Quote mountID)))
      | Some entry => info ← snapshot entry; mret (Some info, None)
      end
  end.

(** The entries of the registry, read under its mutex. *)
Definition registered_entries : prog (list entry_id) := act (fun e w => Next (range_map e (w_mounts w)).*2 w).

Fixpoint snapshots (entries : list entry_id) : prog (list MountInfo) :=
  match entries with
  | [] => mret []
  | entry :: rest => info ← snapshot entry; infos ← snapshots rest; mret (info :: infos)
  end.

Definition snapshotMounts : prog (list MountInfo) :=
  entries ← registered_entries; snapshots entries.

(** The filters of a list request.  A snapshot of an entry has a
    configuration ([ok_config] of [Invariant]), so [GetMountPath] is
    info.Config.MountPath. *)
Definition list_matches (r : ListMountsRequest) (info : MountInfo) : bool :=
  (bool_decide (ListMountsRequest_States r = [])
   || existsb (fun s => bool_decide (s = MountInfo_State info)) (ListMountsRequest_States r))
  && (match ListMountsRequest_MountPathPrefix r with
      | Some prefix => HasPrefix (GetMountPath info) prefix
      | None => true
      end)
  && (match ListMountsRequest_ClientUser r with
      | Some user => String.eqb (accountClientUser (MountInfo_Config info ≫= GetAccount)) user
      | None => true
      end).

Definition empty_list_request : ListMountsRequest := mkListMountsRequest [] None None.

Definition ListMounts (ctx : context) (request : option ListMountsRequest)
  : prog (list MountInfo * option goerror) :=
  ctxErr ← asks (ctx_Err ctx);
  match ctxErr with
  | Some err => mret ([], Some err)
  | None =>
      let r := default empty_list_request request in
      infos ← snapshotMounts;
      mret (sort_by MountInfo_MountId (List.filter (list_matches r) infos), None)
  end.

(** ** Subscriptions *)

Definition event_Lock : prog unit :=
  act (fun _ w => if w_eventMutex w then Blocked else Next tt (set_w_eventMutex true w)).
Definition event_Unlock : prog unit :=
  act (fun _ w => if w_eventMutex w then Next tt (set_w_eventMutex false w) else Panics).

Definition new_subscriber (filter : list string) : prog Z :=
  act (fun _ w =>
    let id := wrap_u64 (w_nextSubscriberID w + 1) in
    Next id (set_w_subscribers (<[id := mkSubscriber filter []]> (w_subscribers w))
              (set_w_nextSubscriberID id w))).

(** The blocking send of an initial snapshot. *)
Definition send_snapshot (subscriberID : Z) (info : MountInfo) : prog unit :=
  act (fun _ w =>
    match w_subscribers w !! subscriberID with
    | None => Blocked
    | Some s =>
        if negb (matches s (MountInfo_MountId info)) then Next tt w
        else if bool_decide (length (sub_events s) < subscriber_buffer)%nat
        then
          let event := mkMountEvent MOUNT_EVENT_TYPE_SNAPSHOT info in
          Next tt (record_effect (FxSnapshot subscriberID event)
            (set_w_subscribers (<[subscriberID := mkSubscriber (sub_mountIDs s) (sub_events s ++ [event])]> (w_subscribers w)) w))
        else Blocked
    end).

Fixpoint send_snapshots (subscriberID : Z) (infos : list MountInfo) : prog unit :=
  match infos with
  | [] => mret tt
  | info :: rest => send_snapshot subscriberID info;; send_snapshots subscriberID rest
  end.

Definition SubscribeMountEvents (request : option WatchMountEventsRequest) : prog Z :=
  let r := default (mkWatchMountEventsRequest [] false) request in
  let filter := List.filter (fun id => negb (String.eqb id EmptyString)) (WatchMountEventsRequest_MountIds r) in
  event_Lock;;
  subscriberID ← new_subscriber filter;
  (if WatchMountEventsRequest_IncludeCurrent r
   then infos ← snapshotMounts; send_snapshots subscriberID infos
   else mret tt);;
  event_Unlock;;
  mret subscriberID.

(** The cancel function that SubscribeMountEvents returns. *)
Definition cancel_subscription (subscriberID : Z) : prog unit :=
  act (fun _ w => if w_eventMutex w then Blocked
                  else Next tt (record_effect (FxUnsubscribe subscriberID)
                         (set_w_subscribers (delete subscriberID (w_subscribers w)) w))).

(** ** Streams (WatchMountEvents of service/server.go) *)

(** What the select of the loop found: the context of the stream has ended,
    the channel is closed, or it has an event. *)
Inductive watched : Type :=
| StreamDone (err : goerror)
| ChannelClosed
| EventReceived (event : MountEvent).

(** Only the handler itself closes the channel, after the loop. *)
Definition watch_select (ctx : context) (subscriberID : Z) : prog watched :=
  act (fun e w =>
    match env_case e with
    | CaseContext => match ctx_Err ctx e with Some err => Next (StreamDone err) w | None => Blocked end
    | _ =>
        match w_subscribers w !! subscriberID with
        | None => Next ChannelClosed w
        | Some s =>
            match sub_events s with
            | [] => Blocked
            | event :: rest =>
                Next (EventReceived event)
                  (record_effect (FxReceive subscriberID event)
                     (set_w_subscribers (<[subscriberID := mkSubscriber (sub_mountIDs s) rest]> (w_subscribers w)) w))
            end
        end
    end).

Definition stream_Send (subscriberID : Z) (event : MountEvent) : prog (option goerror) :=
  system_call (FxSend subscriberID event).

(** The loop has no bound of its own; after [rounds] rounds the handler
    stands still, so a run of any length is one of enough rounds. *)
Fixpoint watch_loop (rounds : nat) (ctx : context) (subscriberID : Z) : prog (option goerror) :=
  match rounds with
  | O => act (fun _ _ => Blocked)
  | S rounds =>
      found ← watch_select ctx subscriberID;
      match found with
      | StreamDone err => mret (Some err)
      | ChannelClosed => mret None
      | EventReceived event =>
          err ← stream_Send subscriberID event;
          match err with
          | Some err => mret (Some err)
          | None => watch_loop rounds ctx subscriberID
          end
      end
  end.

(** The manager of the daemon has the events interface that the handler
    asks for. *)
Definition WatchMountEvents (rounds : nat) (ctx : context) (request : option WatchMountEventsRequest) : prog (option goerror) :=
  subscriberID ← SubscribeMountEvents request;
  err ← watch_loop rounds ctx subscriberID;
  cancel_subscription subscriberID;;
  mret err.

(** ** Readiness *)

Definition Ready (ctx : context) : prog (option goerror) :=
  listed ← repository_List ctx;
  match listed with
  | Err err => mret (Some (EWrap err "mount repository is not ready"))
  | Ok _ =>
      fuseErr ← asks env_err;
      match fuseErr with
      | Some err => mret (Some (EWrap err "FUSE is not ready"))
      | None =>
          executables ← asks (fun e =>
            err? validateExecutable (env_fs e) (IRODSFSExecutablePath daemon) else
            err? validateExecutable (env_fs e) (MountExecutablePath daemon) else
            validateExecutable (env_fs e) (UnmountExecutablePath daemon));
          match executables with
          | Some err => mret (Some err)
          | None =>
              allowOther ← asks (fun e =>
                if AllowFuseAllowOther daemon then checkUserAllowOtherEnabled (env_fs e) fuseConfPath else None);
              mret (WrapOpt allowOther "allow_fuse_allow_other is enabled but the system is not configured for it")
          end
      end
  end.

(** ** Reconciliation *)

Definition remount_info (info : MountInfo) (now : Z) : MountInfo :=
  set_UpdatedAt now (set_NextRetryAt None (set_LastError None (set_Pid 0 (set_State MOUNT_STATE_PENDING_MOUNT info)))).

(** The registry section of remount. *)
Definition register_remount (info : MountInfo) : prog (option entry_id) :=
  act (fun e w =>
    let mountID := MountInfo_MountId info in
    match w_mounts w !! mountID with
    | Some _ => Next None w
    | None =>
        let '(entry, w') := alloc (new_entry (remount_info info (env_now e 0%nat))) w in
        Next (Some entry) (set_w_mounts (<[mountID := entry]> (w_mounts w')) w')
    end).

Definition remount (ctx : context) (info : MountInfo) : prog unit :=
  registered ← register_remount info;
  match registered with
  | None => mret tt
  | Some entry =>
      holding_operation entry (
        persistErr ← persistRecord ctx entry;
        (match persistErr with Some _ => recordReconcileError | None => mret tt end);;
        now ← time_Now;
        generation ← reading entry mm_generation;
        result ← startMount entry generation (mount_data_root (MountInfo_MountId info)) (now + mount_timeout);
        match snd result with Some _ => recordReconcileError | None => mret tt end)
  end.

Definition reconcileTombstone (ctx : context) (info : MountInfo) (mounted : bool) : prog unit :=
  let mountID := MountInfo_MountId info in
  detached ← (match mounted, clientType (MountInfo_Config info) with
              | false, _ => mret true
              | true, Err _ => recordReconcileError;; mret false
              | true, Ok client =>
                  err ← unmountByClientType daemon ctx (Some client) (GetMountPath info);
                  match err with
                  | None => mret true
                  | Some err => (if Is err ErrDAVFSLazyUnmount then mret tt else recordReconcileError);; mret false
                  end
              end);
  match detached with
  | false => mret tt
  | true =>
      removeErr ← os_RemoveAll (mount_data_root mountID);
      match removeErr with
      | Some _ => recordReconcileError
      | None =>
          deleteErr ← repository_Delete ctx mountID;
          match deleteErr with Some _ => recordReconcileError | None => mret tt end
      end
  end.

Definition reconcileOrdinaryRecord (ctx : context) (info : MountInfo) (mounted : bool) : prog unit :=
  match mounted, clientType (MountInfo_Config info) with
  | false, _ => remount ctx info
  | true, Err _ => recordReconcileError
  | true, Ok client =>
      err ← unmountByClientType daemon ctx (Some client) (GetMountPath info);
      match err with
      | Some _ => recordReconcileError
      | None => remount ctx info
      end
  end.

(** A decoded record always has an info. *)
Definition reconcileRecord (ctx : context) (record : MountRecord) : prog unit :=
  match Record_Info record with
  | None => act (fun _ _ => Panics)
  | Some info =>
      managed ← gets (fun w => w_mounts w !! MountInfo_MountId info);
      match managed with
      | Some _ => mret tt
      | None =>
          probed ← probe (GetMountPath info);
          match probed with
          | Err _ => recordReconcileError
          | Ok mounted =>
              if Record_Tombstone record then reconcileTombstone ctx info mounted
              else reconcileOrdinaryRecord ctx info mounted
          end
      end
  end.

Fixpoint reconcile_all (ctx : context) (records : list MountRecord) : prog unit :=
  match records with
  | [] => mret tt
  | record :: rest => reconcileRecord ctx record;; reconcile_all ctx rest
  end.

Definition reconcile_listed (ctx : context) (keep : MountRecord -> bool) : prog (option goerror) :=
  listed ← repository_List ctx;
  match listed with
  | Err err => mret (Some (EWrap err "failed to list mount records for reconciliation"))
  | Ok records => reconcile_all ctx (List.filter keep records);; mret None
  end.

Definition Reconcile (ctx : context) : prog (option goerror) := reconcile_listed ctx (fun _ => true).
Definition ReconcileTombstones (ctx : context) : prog (option goerror) := reconcile_listed ctx Record_Tombstone.

(** ** Shutdown *)

(** [true] when the mount is already being unmounted. *)
Definition stop_section (m : managedMount) : bool * managedMount :=
  if mm_unmounting m then (true, m) else (false, set_mm_stopping true m).

Definition shutdown_section (e : env) (m : managedMount) : unit * managedMount :=
  (tt, on_info (fun info => remount_info info (env_now e 0%nat)) m).

(** Waits for the child to exit and kills it after the grace period. *)
Definition await_shutdown (command : option proc_id) (exitDone : chan) : prog unit :=
  first ← select_exit Background exitDone;
  match first with
  | TimerFired => Kill_if command;; receive exitDone
  | _ => mret tt
  end.

(** The part of shutdownEntry after the mount is detached. *)
Definition finish_shutdown (entry : entry_id) : prog unit :=
  attempt ← reading entry running_attempt;
  let '(persistent, command, exitDone) := attempt in
  Signal_if persistent command;;
  await_shutdown command exitDone;;
  locked entry shutdown_section;;
  persistBestEffort entry;;
  mountLog ← locked entry (fun _ m => (mm_mountLog m, set_mm_mountLog None m));
  close_log mountLog.

Definition shutdown_locked (ctx : context) (entry : entry_id) : prog unit :=
  unmounting ← locked entry (fun _ m => stop_section m);
  match unmounting with
  | true => mret tt
  | false =>
      mountPath ← entry_mountPath entry;
      probed ← probe mountPath;
      unmountErr ← (match probed with Ok true => unmountClient daemon ctx entry | _ => mret None end);
      finish_shutdown entry
  end.

Definition shutdownEntry (ctx : context) (entry : entry_id) : prog unit :=
  cancelRetryTimer entry;;
  holding_operation entry (shutdown_locked ctx entry).

(** sync.WaitGroup *)
Definition wait_Add (n : nat) : prog nat :=
  act (fun _ w => Next (length (w_waits w)) (set_w_waits (w_waits w ++ [n]) w)).
Definition wait_Done (wait : nat) : prog unit :=
  act (fun _ w => Next tt (set_w_waits (alter pred wait (w_waits w)) w)).
Definition wait_Wait (wait : nat) : prog unit :=
  act (fun _ w => match w_waits w !! wait with Some O => Next tt w | _ => Blocked end).

Fixpoint go_all (threads : list thread) : prog unit :=
  match threads with
  | [] => mret tt
  | t :: rest => go t;; go_all rest
  end.

Definition Shutdown (ctx : context) : prog unit :=
  entries ← registered_entries;
  wait ← wait_Add (length entries);
  go_all ((fun entry => TShutdownEntry ctx entry wait) <$> entries);;
  wait_Wait wait.

(** ** Goroutines *)

Definition replying (r : reply) : prog unit := act (fun _ w => Next tt (set_w_replies (w_replies w ++ [r]) w)).
Definition reply_mount (r : mount_result) : prog unit := replying (mkReply (option_list (fst r)) (snd r)).

Definition body (t : thread) : prog unit :=
  match t with
  | TMount ctx request => r ← Mount ctx request; reply_mount r
  | TUnmount ctx request => r ← Unmount ctx request; reply_mount r
  | TGetMount ctx mountID => r ← GetMount ctx mountID; reply_mount r
  | TListMounts ctx request => r ← ListMounts ctx request; replying (mkReply (fst r) (snd r))
  | TWatch rounds ctx request => err ← WatchMountEvents rounds ctx request; replying (mkReply [] err)
  | TReady ctx => err ← Ready ctx; replying (mkReply [] err)
  | TSetMetrics => set_metrics
  | TReconcile ctx => err ← Reconcile ctx; replying (mkReply [] err)
  | TReconcileTombstones ctx => err ← ReconcileTombstones ctx; replying (mkReply [] err)
  | TShutdown ctx => Shutdown ctx
  | TShutdownEntry ctx entry wait => shutdownEntry ctx entry;; wait_Done wait
  | TWaitForProcess entry generation command exitDone => waitForProcess entry generation command exitDone
  | TWaitForMount entry generation deadline exitDone => waitForMount entry generation deadline exitDone
  | TWaitForMountLoop entry generation exitDone => waitForMount_loop entry generation exitDone
  | TRetryMount entry generation => retryMount entry generation
  | TRetryUnmount entry generation => retryUnmount entry generation
  end.

End Manager.

(** ** Construction *)

(** NewMountManager: newMountManager with the system's FUSE controller,
    probe and clock; [fuseErr] is what fuse.Check answered, [repository]
    whether the repository is not nil.  The result is the configuration with
    the resolved irodsfs executable. *)
Definition NewMountManager (config : option Config) (repository : bool) (fuseErr : option goerror) (fs : FS)
  : result goerror Config :=
  match config with
  | None => Err (ENew "daemon config is required")
  | Some c =>
      if negb repository then Err (ENew "mount repository is required")
      else match fuseErr with
      | Some err => Err (EWrap err "FUSE is unavailable")
      | None =>
          let c' := set_IRODSFSExecutablePath (resolveIRODSFSExecutablePath fs (IRODSFSExecutablePath c)) c in
          match (err? validateExecutable fs (IRODSFSExecutablePath c') else
                 err? validateExecutable fs (MountExecutablePath c') else
                 validateExecutable fs (UnmountExecutablePath c')) with
          | Some err => Err err
          | None =>
              match (if AllowFuseAllowOther c' then checkUserAllowOtherEnabled fs fuseConfPath else None) with
              | Some err => Err (EWrap err "allow_fuse_allow_other is enabled but the system is not configured for it")
              | None => Ok c'
              end
          end
      end
  end.
