(* ===== verification/Metrics.v ===== *)
(** * Metrics that are read off the manager (service/metrics.go)

    The counters live in the manager's world ([Runtime.Metrics]); here is
    the collector of irodsfsd_mounts, which asks the manager on every
    scrape, and what its gauges say. *)

From S2P Require Import Prelude GoStrings GoPath GoSort GoErrors GoFloat GoFloatFacts Api Redact Config Retry Policy.
From S2P Require Import IrodsfsConfig Repository Runtime Command Manager.

(** irodsfsd_mount_operations_total for one pair of labels. *)
Definition mountOperationsTotal (operation result : string) (m : Metrics) : Z :=
  Z.of_nat (length (List.filter (fun x => String.eqb (fst x) operation && String.eqb (snd x) result) (mountOperations m))).

(** Duration.Seconds *)
Definition Duration_Seconds (d : Z) : float64 :=
  f64_add (f64_of_Z (Z.quot d Second)) (f64_div (f64_of_Z (Z.rem d Second)) (f64_of_Z 1000000000)).

(** The observations of irodsfsd_mount_operation_duration_seconds for one
    label; Prometheus sorts them into its buckets. *)
Definition mountOperationDuration (operation : string) (m : Metrics) : list float64 :=
  (fun x => Duration_Seconds (snd x)) <$> List.filter (fun x => String.eqb (fst x) operation) (mountDurations m).

(** counts[mount.GetState().String()]++ for every mount *)
Definition count_state (counts : gmap string Z) (info : MountInfo) : gmap string Z :=
  let state := MountState_name (MountInfo_State info) in
  <[state := default 0 (counts !! state) + 1]> counts.

Definition count_states (infos : list MountInfo) : gmap string Z := fold_left count_state infos ∅.

(** One gauge: its label and its value. *)
Definition gauges (e : env) (infos : list MountInfo) : list (string * float64) :=
  (fun kv => (fst kv, f64_of_Z (snd kv))) <$> range_map e (count_states infos).

Section Collector.
Variable daemon : Config.
Context `{UrlLib} `{ErrorLib} `{RecordCodec} `{IrodsfsLib}.

Definition Collect : prog (list (string * float64)) :=
  listed ← ListMounts Background None;
  match snd listed with
  | Some _ => mret []
  | None => asks (fun e => gauges e (fst listed))
  end.

End Collector.

(** ** Facts *)

(** The counter and the histogram of operations go together: for every
    operation there are as many observed durations as results. *)
Definition in_step (m : Metrics) : Prop := (mountOperations m).*1 = (mountDurations m).*1.

Lemma in_step_kept m operation result d :
  in_step NewMetrics /\ (in_step m -> in_step (observeMountOperation operation result d m)) /\
  (in_step m -> in_step (metrics_recordChildCrash m)) /\ (in_step m -> in_step (metrics_recordReconcileError m)).
Proof.
  split_and!; [done| |done|done]. unfold in_step. simpl. intros Hm. by rewrite !fmap_app, Hm.
Qed.

Lemma filter_fst_length {B} (p : string -> bool) (l : list (string * B)) :
  length (List.filter (fun x => p (fst x)) l) = length (List.filter p l.*1).
Proof. induction l as [|[k b] l IH]; [done|]. simpl. destruct (p k); simpl; by rewrite IH. Qed.

Lemma durations_counted m operation :
  in_step m ->
  length (mountOperationDuration operation m) =
  length (List.filter (fun x => String.eqb (fst x) operation) (mountOperations m)).
Proof.
  intros Hm. unfold mountOperationDuration. rewrite length_fmap.
  by rewrite !(filter_fst_length (fun k => String.eqb k operation)), Hm.
Qed.

(** Half a second and a little more than an hour, as Prometheus gets them. *)
Example seconds_observed :
  Duration_Seconds 500000000 = f64_0_5 /\ Duration_Seconds (3601 * Second) = f64_of_Z 3601.
Proof. by vm_compute. Qed.

Definition in_state (state : string) (infos : list MountInfo) : list MountInfo :=
  List.filter (fun i => String.eqb (MountState_name (MountInfo_State i)) state) infos.

Lemma count_states_from infos counts state :
  (forall s n, counts !! s = Some n -> 0 < n) ->
  fold_left count_state infos counts !! state =
  match in_state state infos with
  | [] => counts !! state
  | l => Some (default 0 (counts !! state) + Z.of_nat (length l))
  end.
Proof.
  revert counts. induction infos as [|i infos IH]; intros counts Hc; [done|].
  cbn [fold_left in_state List.filter]. rewrite IH.
  - unfold count_state. destruct (String.eqb _ state) eqn:E; bools.
    + subst. rewrite lookup_insert_eq. unfold in_state. destruct (List.filter _ infos); simpl; f_equal; lia.
    + rewrite lookup_insert_ne by done. done.
  - intros s n. unfold count_state. intros [[<- <-]|[_ Hn]]%lookup_insert_Some; [|by eapply Hc].
    destruct (counts !! _) eqn:El; simpl; [apply Hc in El|]; lia.
Qed.

Lemma count_states_spec infos state n :
  count_states infos !! state = Some n <-> n = Z.of_nat (length (in_state state infos)) /\ 0 < n.
Proof.
  unfold count_states. rewrite count_states_from by (intros s m; by rewrite lookup_empty).
  rewrite lookup_empty. destruct (in_state state infos) eqn:E; simpl; split; [done|lia|intros [= <-]; lia|intros [-> _]; f_equal; lia].
Qed.

Lemma range_map_perm {A} e (m : gmap string A) : range_map e m ≡ₚ map_to_list m.
Proof.
  unfold range_map. case_bool_decide as Hb; [|done].
  assert (forall order : list string, omap (fun k => (fun a => (k, a)) <$> m !! k) order =
            omap (fun k => (fun a => (k, a)) <$> m !! k) (omap (fun k => (fun a => (k, a)) <$> m !! k) order).*1) as Hself.
  { induction order as [|k order IH]; [done|]. simpl. destruct (m !! k) eqn:Ek; simpl; [by rewrite Ek; simpl; f_equal|done]. }
  assert (omap (fun k => (fun a => (k, a)) <$> m !! k) (map_to_list m).*1 = map_to_list m) as Hlist.
  { assert (forall l : list (string * A), (forall k a, (k, a) ∈ l -> m !! k = Some a) ->
      omap (fun k => (fun a => (k, a)) <$> m !! k) l.*1 = l) as Hl.
    { induction l as [|[k a] l IH]; intros Hin; [done|]. simpl. rewrite (Hin k a) by left. simpl. f_equal. apply IH. intros. apply Hin. by right. }
    apply Hl. intros k a. by rewrite elem_of_map_to_list. }
  rewrite Hself. rewrite <- Hlist. by apply omap_Permutation.
Qed.

(** A scrape reports one gauge for each state that some mount is in, and no
    other; its value is the number of mounts in that state, exactly as long
    as there are fewer than 2^53. *)
Theorem gauges_count_mounts e infos :
  Z.of_nat (length infos) < 2 ^ 53 ->
  NoDup (gauges e infos).*1 /\
  (forall i, i ∈ infos -> MountState_name (MountInfo_State i) ∈ (gauges e infos).*1) /\
  (forall state value, (state, value) ∈ gauges e infos ->
     represents (Z.of_nat (length (in_state state infos))) value).
Proof.
  intros Hlen.
  assert ((gauges e infos).*1 ≡ₚ (map_to_list (count_states infos)).*1) as Hp.
  { unfold gauges. rewrite <- list_fmap_compose. by rewrite <- (range_map_perm e). }
  split_and!.
  - rewrite Hp. apply NoDup_fst_map_to_list.
  - intros i Hi. rewrite Hp. apply list_elem_of_fmap.
    assert (i ∈ in_state (MountState_name (MountInfo_State i)) infos) as Hin
      by (apply list_elem_of_In, filter_In; split; [by apply list_elem_of_In|apply String.eqb_refl]).
    exists (MountState_name (MountInfo_State i), Z.of_nat (length (in_state (MountState_name (MountInfo_State i)) infos))).
    split; [done|]. apply elem_of_map_to_list, count_states_spec. split; [done|].
    destruct (in_state _ infos); [by apply not_elem_of_nil in Hin|simpl; lia].
  - intros state value. unfold gauges. rewrite list_elem_of_fmap. intros ([s n] & [= -> ->] & Hin).
    rewrite range_map_perm in Hin. apply elem_of_map_to_list, count_states_spec in Hin as [-> Hn].
    apply f64_of_Z_exact. split; [done|]. enough (length (in_state s infos) <= length infos)%nat by lia.
    unfold in_state. apply List.filter_length_le.
Qed.
