(* ===== verification/Logic.v ===== *)
(** * Rely-guarantee reasoning about the threads of the daemon

    A thread owns a resource (mutexes it holds, channels it must close).
    [safe] says that from a world the thread has seen, whatever other
    threads do in between, each of its actions does not panic, keeps the
    global invariant and does not disturb what other threads own.  The
    adequacy theorem turns safe thread bodies into a property of every
    interleaving.  The clock [tau] counts scheduling steps, so invariants
    may bound counters by the length of the run. *)

From S2P Require Import Prelude Runtime.

Lemma Forall2_impl_r {A B} (P Q : A -> B -> Prop) l k :
  Forall2 P l k -> (forall x y, y ∈ k -> P x y -> Q x y) -> Forall2 Q l k.
Proof.
  induction 1 as [|x y l k Hxy _ IH]; intros HQ; constructor; [apply HQ; [left|done]|].
  apply IH. intros x' y' Hy. apply HQ. by right.
Qed.

(** ** Pairwise separate resources *)

Section Separate.
Context {res : Type} (disj : res -> res -> Prop) `{!Symmetric disj}.

Fixpoint separate (l : list res) : Prop :=
  match l with
  | [] => True
  | a :: l => Forall (disj a) l /\ separate l
  end.

#[export] Instance separate_Permutation : Proper ((≡ₚ) ==> iff) separate.
Proof.
  assert (forall l l', l ≡ₚ l' -> separate l -> separate l') as Hp.
  { induction 1 as [|a l l' Hl IH|a b l|l1 l2 l3 _ IH1 _ IH2]; simpl; [done| | |auto].
    - intros [Ha Hs]. split; [by rewrite <- Hl | by apply IH].
    - rewrite !Forall_cons. intros [[Hba Hb] [Ha Hs]]. auto. }
  intros l l' Hl. split; apply Hp; [done | by symmetry].
Qed.

Lemma separate_app l1 l2 :
  separate (l1 ++ l2) <-> separate l1 /\ separate l2 /\ Forall (fun a => Forall (disj a) l2) l1.
Proof.
  induction l1 as [|a l1 IH]; simpl.
  - split; [by intros Hs; repeat split | tauto].
  - rewrite IH, Forall_app, Forall_cons. tauto.
Qed.

(** Replacing one resource by others that keep clear of the rest. *)
Lemma separate_replace l1 a l2 l3 b new :
  separate ((l1 ++ a :: l2) ++ l3) -> separate (b :: new) ->
  (forall c, c ∈ (l1 ++ l2) ++ l3 -> disj c a -> disj c b /\ Forall (disj c) new) ->
  separate ((l1 ++ b :: l2) ++ (l3 ++ new)).
Proof.
  intros Hs Hn Hc.
  assert ((l1 ++ a :: l2) ++ l3 ≡ₚ a :: ((l1 ++ l2) ++ l3)) as E1 by (by rewrite <- Permutation_middle).
  assert ((l1 ++ b :: l2) ++ (l3 ++ new) ≡ₚ ((l1 ++ l2) ++ l3) ++ (b :: new)) as E2.
  { rewrite <- Permutation_middle. rewrite <- (Permutation_middle _ new b). simpl. by rewrite <- !(assoc_L (++)). }
  rewrite E1 in Hs. rewrite E2. simpl in Hs. destruct Hs as [Ha Hs]. apply separate_app.
  split_and!; [done..|]. apply Forall_forall. intros c Hin. rewrite Forall_forall in Ha.
  destruct (Hc c Hin) as [Hb Hnew]; [by symmetry; apply Ha|]. by constructor.
Qed.
End Separate.

(** ** Safety of a program *)

Section Logic.
Context {res : Type} (disj : res -> res -> Prop) `{!Symmetric disj} (no_res : res).
Variable Inv : Z -> World -> Prop.
Variable holds : res -> World -> Prop.
Variable rely : res -> World -> World -> Prop.
Variable pre : thread -> res -> World -> Prop.
Variable body : thread -> prog unit.
Variable limit : Z.

(** What one action owes to the rest of the system: the thread ends up
    owning [r'], hands the resources [sp] to the goroutines it starts, and
    leaves every resource owned by others intact. *)
Record framed (r r' : res) (sp : list res) (w w' : World) : Prop := {
  framed_holds : Forall (fun s => holds s w') (r' :: sp);
  framed_separate : separate disj (r' :: sp);
  framed_others : forall o, disj o r -> holds o w ->
    holds o w' /\ rely o w w' /\ disj o r' /\ Forall (disj o) sp;
  framed_spawned : exists ts, w_ready w' = w_ready w ++ ts /\ Forall2 (fun t s => pre t s w') ts sp
}.

Fixpoint safe {A} (r : res) (w0 : World) (p : prog A) (Q : A -> res -> World -> Prop) : Prop :=
  match p with
  | Ret a => Q a r w0
  | Act f k =>
      forall tau e w, 0 <= tau < limit -> rely r w0 w -> Inv tau w -> holds r w ->
      match f e w with
      | Blocked => True
      | Panics => False
      | Next x w' =>
          Inv (tau + 1) w' /\
          exists r' sp, framed r r' sp w w' /\ safe r' w' (k x) Q
      end
  end.

Lemma safe_bind {A B} r w (p : prog A) (k : A -> prog B) Q :
  safe r w p (fun a r' w' => safe r' w' (k a) Q) -> safe r w (p ≫= k) Q.
Proof.
  revert r w. induction p as [a|R f k' IH]; intros r w Hp; simpl in *; [done|].
  intros tau e w1 Ht Hr Hi Hh. specialize (Hp tau e w1 Ht Hr Hi Hh).
  destruct (f e w1) as [| |x w']; [done..|]. destruct Hp as [Hi' (r' & sp & Hf & Hs)].
  split; [done|]. exists r', sp. split; [done|]. by apply IH.
Qed.

Lemma safe_mono {A} r w (p : prog A) (Q Q' : A -> res -> World -> Prop) :
  (forall a r' w', Q a r' w' -> Q' a r' w') -> safe r w p Q -> safe r w p Q'.
Proof.
  intros HQ. revert r w. induction p as [a|R f k IH]; intros r w Hp; simpl in *; [auto|].
  intros tau e w1 Ht Hr Hi Hh. specialize (Hp tau e w1 Ht Hr Hi Hh).
  destruct (f e w1) as [| |x w']; [done..|]. destruct Hp as [Hi' (r' & sp & Hf & Hs)].
  split; [done|]. exists r', sp. split; [done|]. by apply IH.
Qed.

(** ** Adequacy *)

Hypothesis rely_refl : forall r w, rely r w w.
Hypothesis rely_trans : forall r w1 w2 w3, rely r w1 w2 -> rely r w2 w3 -> rely r w1 w3.
Hypothesis pre_stable : forall t r w w', rely r w w' -> pre t r w -> pre t r w'.
Hypothesis pre_safe : forall t r w, pre t r w -> safe r w (body t) (fun _ _ _ => True).
Hypothesis no_res_disj : forall r, disj r no_res.
Hypothesis no_res_holds : forall w, holds no_res w.

(** The moves of the scheduler itself, as changes of the world. *)
Inductive scheduler_move (w : World) : World -> Prop :=
| move_ready t rest : w_ready w = t :: rest -> scheduler_move w (set_w_ready rest w)
| move_timer i f : w_timers w !! i = Some (mkTimer true f) ->
    scheduler_move w (set_w_timers (<[i := mkTimer false f]> (w_timers w)) w)
| move_idle : scheduler_move w w.

Hypothesis move_Inv : forall tau w w', scheduler_move w w' -> Inv tau w -> Inv (tau + 1) w'.
Hypothesis move_rely : forall r w w', scheduler_move w w' -> holds r w -> holds r w' /\ rely r w w'.
Hypothesis timer_pre : forall tau w i f,
  Inv tau w -> w_timers w !! i = Some (mkTimer true f) -> pre f no_res w.

Definition thread_ok (w : World) (p : prog unit) (r : res) : Prop :=
  exists w0, rely r w0 w /\ safe r w0 p (fun _ _ _ => True).

Definition good (tau : Z) (s : system) : Prop :=
  let w := sys_world s in
  Inv tau w /\
  exists rs qs, Forall2 (thread_ok w) (sys_threads s) rs /\ Forall2 (fun t q => pre t q w) (w_ready w) qs /\
    Forall (fun r => holds r w) (rs ++ qs) /\ separate disj (rs ++ qs).

(** Which requests may arrive, and when. *)
Variable may_arrive : thread -> World -> Prop.
Hypothesis arrive_pre : forall t w, may_arrive t w -> pre t no_res w.

Definition choice_ok (w : World) (c : choice) : Prop :=
  match c with Arrive t => may_arrive t w | _ => True end.

Fixpoint choices_ok (s : system) (cs : list choice) : Prop :=
  match cs with
  | [] => True
  | c :: cs => choice_ok (sys_world s) c /\
      match sys_step body s c with Stepped s' => choices_ok s' cs | _ => True end
  end.

Lemma thread_ok_rely w w' p r : rely r w w' -> thread_ok w p r -> thread_ok w' p r.
Proof. intros Hr (w0 & H0 & Hs). exists w0. split; [by eapply rely_trans | done]. Qed.

(** What [good] says of the resources, moved to a later world. *)
Lemma good_move tau s w' :
  good tau s -> scheduler_move (sys_world s) w' ->
  Inv (tau + 1) w' /\
  exists rs qs, Forall2 (thread_ok w') (sys_threads s) rs /\
    Forall2 (fun t q => pre t q w') (w_ready (sys_world s)) qs /\
    Forall (fun r => holds r w') (rs ++ qs) /\ separate disj (rs ++ qs).
Proof.
  intros (Hi & rs & qs & Ht & Hq & Hh & Hs) Hm.
  assert (forall r, r ∈ rs ++ qs -> holds r w' /\ rely r (sys_world s) w') as Hrel.
  { intros r Hr. apply move_rely; [done|]. rewrite Forall_forall in Hh. auto. }
  split; [by eapply move_Inv|]. exists rs, qs. split_and!; [..|done].
  - eapply Forall2_impl_r; [exact Ht|]. intros p r Hr Hp.
    apply (thread_ok_rely (sys_world s)); [|done]. apply Hrel. set_solver.
  - eapply Forall2_impl_r; [exact Hq|]. intros t q Hr Hp.
    apply (pre_stable t q (sys_world s)); [|done]. apply Hrel. set_solver.
  - apply Forall_forall. intros r Hr. by apply Hrel.
Qed.

(** A new thread that owns nothing. *)
Lemma good_new_thread tau s w' t :
  good tau s -> scheduler_move (sys_world s) w' -> w_ready w' = w_ready (sys_world s) ->
  pre t no_res w' -> good (tau + 1) (mkSystem w' (sys_threads s ++ [body t])).
Proof.
  intros Hg Hm Hready Hpre. destruct (good_move _ _ _ Hg Hm) as (Hi & rs & qs & Ht & Hq & Hh & Hs).
  split; [done|]. exists (rs ++ [no_res]), qs. simpl. rewrite Hready.
  assert ((rs ++ [no_res]) ++ qs ≡ₚ no_res :: (rs ++ qs)) as Ep by (by rewrite Permutation_middle, <- (assoc_L (++))).
  split_and!; [|done| |].
  - apply Forall2_app; [done|]. constructor; [|constructor]. exists w'. auto.
  - rewrite Ep. by constructor.
  - rewrite Ep. split; [|done]. apply Forall_forall. intros r _. symmetry. apply no_res_disj.
Qed.

Lemma good_begin tau s t rest :
  good tau s -> w_ready (sys_world s) = t :: rest ->
  good (tau + 1) (mkSystem (set_w_ready rest (sys_world s)) (sys_threads s ++ [body t])).
Proof.
  intros Hg Hr. destruct (good_move _ _ _ Hg (move_ready _ t rest Hr)) as (Hi & rs & qs & Ht & Hq & Hh & Hs).
  rewrite Hr in Hq. inversion Hq as [|t' q l qs' Hpre Hq' E1 E2]; subst. split; [done|].
  exists (rs ++ [q]), qs'. rewrite <- !(assoc_L (++)). simpl.
  replace (w_ready (set_w_ready rest (sys_world s))) with rest by (by destruct (sys_world s)).
  split_and!; [|done..]. apply Forall2_app; [done|]. constructor; [|constructor]. eexists. eauto.
Qed.

Lemma good_run tau s i e :
  0 <= tau < limit -> good tau s ->
  match sys_step body s (Run i e) with
  | Impossible => True
  | Crashed => False
  | Stepped s' => good (tau + 1) s'
  end.
Proof.
  intros Htau (Hi & rs & qs & Ht & Hq & Hh & Hs). simpl.
  destruct (sys_threads s !! i) as [[|R f k]|] eqn:Ei; [done| |done].
  destruct (Forall2_lookup_l _ _ _ _ _ Ht Ei) as (r & Er & w0 & Hr0 & Hsafe).
  rewrite Forall_forall in Hh.
  specialize (Hsafe tau e (sys_world s) Htau Hr0 Hi (Hh r ltac:(apply elem_of_app; left; by eapply list_elem_of_lookup_2))).
  destruct (f e (sys_world s)) as [| |x w']; [done..|].
  destruct Hsafe as (Hi' & r' & sp & [Fh Fs Fo (ts & Fr & Fp)] & Hk).
  destruct (list_elem_of_split_length _ _ _ Er) as (l1 & l2 & -> & Hl).
  destruct (list_elem_of_split_length _ _ _ Ei) as (p1 & p2 & Ep & Hp).
  assert (forall o, o ∈ (l1 ++ l2) ++ qs -> disj o r -> holds o w' /\ rely o (sys_world s) w' /\ disj o r' /\ Forall (disj o) sp)
    as Hother by (intros o Ho Hd; apply Fo; [done|]; apply Hh; set_solver).
  assert (forall o, o ∈ (l1 ++ l2) ++ qs -> disj o r) as Hdis.
  { intros o Ho. assert ((l1 ++ r :: l2) ++ qs ≡ₚ r :: ((l1 ++ l2) ++ qs)) as E by (by rewrite <- Permutation_middle).
    rewrite E in Hs. destruct Hs as [Hs _]. rewrite Forall_forall in Hs. symmetry. auto. }
  assert (<[i := k x]> (sys_threads s) = p1 ++ k x :: p2) as ->.
  { rewrite Ep, Hp, <- (Nat.add_0_r (length p1)), insert_app_r. done. }
  rewrite Ep in Ht. apply Forall2_app_inv in Ht as [Ht1 Ht2]; [|congruence].
  inversion Ht2 as [|? ? ? ? _ Ht2' E1 E2]; subst.
  assert (forall o, o ∈ (l1 ++ l2) ++ qs -> rely o (sys_world s) w') as Hrel by (intros o Ho; by apply Hother, Hdis).
  split; [done|]. exists (l1 ++ r' :: l2), (qs ++ sp). simpl. rewrite Fr. split_and!.
  - apply Forall2_app; [|constructor].
    + eapply Forall2_impl_r; [exact Ht1|]. intros p o Ho Hp'. eapply thread_ok_rely; [apply Hrel; set_solver|done].
    + exists w'. auto.
    + eapply Forall2_impl_r; [exact Ht2'|]. intros p o Ho Hp'. eapply thread_ok_rely; [apply Hrel; set_solver|done].
  - apply Forall2_app; [|done]. eapply Forall2_impl_r; [exact Hq|]. intros t o Ho Hp'.
    eapply pre_stable; [apply Hrel; set_solver|done].
  - inversion Fh as [|? ? Fr' Fsp]; subst. apply Forall_forall. intros o Ho. rewrite Forall_forall in Fsp.
    assert (o ∈ (l1 ++ l2) ++ qs \/ o = r' \/ o ∈ sp) as [Ho'|[->|Ho']] by set_solver.
    + by apply Hother, Hdis.
    + done.
    + auto.
  - eapply separate_replace; [done|exact Hs|exact Fs|]. intros o Ho Hd.
    by destruct (Hother o Ho Hd) as (_ & _ & ? & ?).
Qed.

(** Every step of a good system that respects [choice_ok] is not a panic and
    leads to a good system. *)
Lemma good_step tau s c :
  0 <= tau < limit -> good tau s -> choice_ok (sys_world s) c ->
  match sys_step body s c with
  | Impossible => True
  | Crashed => False
  | Stepped s' => good (tau + 1) s'
  end.
Proof.
  intros Htau Hg Hc. destruct c as [i e| |i|t]; [by apply good_run|..]; simpl.
  - destruct (w_ready (sys_world s)) as [|t rest] eqn:E; [done|]. by apply good_begin.
  - destruct (w_timers (sys_world s) !! i) as [[[] f]|] eqn:E; [|done..].
    pose proof (move_timer (sys_world s) i f E) as Hm.
    apply good_new_thread; [done..|by destruct (sys_world s)|].
    apply (pre_stable _ _ (sys_world s)); [by apply (move_rely no_res _ _ Hm)|].
    by eapply timer_pre; [apply Hg|exact E].
  - apply (good_new_thread tau s (sys_world s)); [done|constructor|done|]. by apply arrive_pre.
Qed.

(** What a thread that owns nothing may rely on across a step. *)
Lemma good_step_rely tau s c s' :
  0 <= tau < limit -> good tau s -> sys_step body s c = Stepped s' -> rely no_res (sys_world s) (sys_world s').
Proof.
  intros Htau (Hi & rs & qs & Ht & Hq & Hh & Hs) Hstep.
  assert (forall w', scheduler_move (sys_world s) w' -> rely no_res (sys_world s) w') as Hm
    by (intros w' Hm; by apply (move_rely no_res _ _ Hm)).
  destruct c as [i e| |i|t]; simpl in Hstep.
  - destruct (sys_threads s !! i) as [[|R f k]|] eqn:Ei; [done| |done].
    destruct (Forall2_lookup_l _ _ _ _ _ Ht Ei) as (r & Er & w0 & Hr0 & Hsafe). rewrite Forall_forall in Hh.
    specialize (Hsafe tau e (sys_world s) Htau Hr0 Hi (Hh r ltac:(apply elem_of_app; left; by eapply list_elem_of_lookup_2))).
    destruct (f e (sys_world s)) as [| |x w']; [done..|]. injection Hstep as <-. simpl.
    destruct Hsafe as (_ & r' & sp & Hf & _). by apply (framed_others _ _ _ _ _ Hf no_res); [symmetry; apply no_res_disj|].
  - destruct (w_ready (sys_world s)) as [|t rest] eqn:E; [done|]. injection Hstep as <-. by eapply Hm, move_ready.
  - destruct (w_timers (sys_world s) !! i) as [[[] f]|] eqn:E; [|done..]. injection Hstep as <-. by eapply Hm, move_timer.
  - injection Hstep as <-. apply rely_refl.
Qed.

Lemma good_run_all tau s cs :
  0 <= tau -> tau + Z.of_nat (length cs) <= limit -> good tau s -> choices_ok s cs ->
  match run body s cs with
  | Impossible => True
  | Crashed => False
  | Stepped s' => good (tau + Z.of_nat (length cs)) s'
  end.
Proof.
  revert tau s. induction cs as [|c cs IH]; intros tau s H0 Hlim Hg Hc; simpl.
  - by rewrite Z.add_0_r.
  - destruct Hc as [Hc1 Hc2]. simpl in Hlim.
    pose proof (good_step tau s c ltac:(lia) Hg Hc1) as Hstep.
    destruct (sys_step body s c) as [| |s']; [done..|].
    specialize (IH (tau + 1) s' ltac:(lia) ltac:(lia) Hstep Hc2).
    replace (tau + Z.of_nat (S (length cs))) with (tau + 1 + Z.of_nat (length cs)) by lia. done.
Qed.

(** [good_run_all] is adequacy: no run of at most [limit] choices from a good
    system panics, and it ends in a good one.  Systems with at most one
    thread are good as soon as the invariant holds. *)
Lemma good_idle w : Inv 0 w -> w_ready w = [] -> good 0 (mkSystem w []).
Proof. intros Hi Hr. split; [done|]. exists [], []. simpl. rewrite Hr. by repeat constructor. Qed.

Lemma good_single w t r : Inv 0 w -> w_ready w = [] -> holds r w -> pre t r w -> good 0 (mkSystem w [body t]).
Proof.
  intros Hi Hr Hh Hp. split; [done|]. exists [r], []. simpl. rewrite Hr. split_and!; repeat constructor; try done.
  exists w. auto.
Qed.

End Logic.
