(* ===== verification/Invariant.v ===== *)
(** * The invariant of the mount manager

    What every world of a running daemon satisfies, what a thread may rely
    on, and the rules that reduce each kind of action to a condition on the
    state it changes.

    A daemon may begin by restoring the mounts of its database (Reconcile),
    before any request is served.  How it began is the class [Birth]; that
    it serves requests is visible in the world, because Reconcile answers
    when it has ended.  An entry that Reconcile has registered and not yet
    locked is [r_fresh]; goroutines that belong to an attempt of an entry
    know that it is [r_begun], so nobody but its owner touches the channel of
    a fresh entry. *)

From S2P Require Import Prelude GoStrings GoPath GoErrors Api Redact Config Retry Policy Repository Durable Runtime.
From S2P Require Import Command Manager Logic.

(** ** Resources *)

Record res : Type := mkRes {
  r_locks : gset entry_id;   (* entries whose operation mutex the thread holds *)
  r_chans : gset chan;       (* channels that only this thread may close *)
  r_fresh : gset entry_id;   (* entries whose first attempt is the thread's to begin *)
  r_begun : gset entry_id;   (* entries known not to be fresh *)
  r_startup : bool;          (* the thread restores the mounts before requests are served *)
  r_event : bool             (* the thread holds eventMutex *)
}.

Definition disj (a b : res) : Prop :=
  (r_locks a ## r_locks b /\ r_chans a ## r_chans b) /\
  (r_fresh a ## r_fresh b /\ r_fresh a ## r_begun b /\ r_begun a ## r_fresh b) /\
  ~ (r_startup a = true /\ r_startup b = true) /\
  ~ (r_event a = true /\ r_event b = true).
Definition no_res : res := mkRes ∅ ∅ ∅ ∅ false false.
Definition attempt_res (e : entry_id) (cs : gset chan) : res := mkRes ∅ cs ∅ {[e]} false false.
Definition startup_res : res := mkRes ∅ ∅ ∅ ∅ true false.

#[export] Instance disj_sym : Symmetric disj.
Proof.
  intros a b ((H1 & H2) & (H3 & H4 & H5) & H6 & H7). split_and!; try (by symmetry); intros [? ?]; [by apply H6|by apply H7].
Qed.

Definition lock_res (e : entry_id) (r : res) : res :=
  mkRes ({[e]} ∪ r_locks r) (r_chans r) (r_fresh r) (r_begun r) (r_startup r) (r_event r).
Definition unlock_res (e : entry_id) (r : res) : res :=
  mkRes (r_locks r ∖ {[e]}) (r_chans r) (r_fresh r) (r_begun r) (r_startup r) (r_event r).
Definition chan_res (c : chan) (r : res) : res :=
  mkRes (r_locks r) ({[c]} ∪ r_chans r) (r_fresh r) (r_begun r) (r_startup r) (r_event r).
Definition unchan_res (c : chan) (r : res) : res :=
  mkRes (r_locks r) (r_chans r ∖ {[c]}) (r_fresh r) (r_begun r) (r_startup r) (r_event r).
Definition fresh_res (e : entry_id) (r : res) : res :=
  mkRes (r_locks r) (r_chans r) ({[e]} ∪ r_fresh r) (r_begun r) (r_startup r) (r_event r).
(** The first attempt of [e] begins. *)
Definition begin_res (e : entry_id) (r : res) : res :=
  mkRes (r_locks r) (r_chans r) (r_fresh r ∖ {[e]}) ({[e]} ∪ r_begun r) (r_startup r) (r_event r).
Definition end_startup (r : res) : res := mkRes (r_locks r) (r_chans r) (r_fresh r) (r_begun r) false (r_event r).
Definition event_res (held : bool) (r : res) : res :=
  mkRes (r_locks r) (r_chans r) (r_fresh r) (r_begun r) (r_startup r) held.

(** ** Stable facts *)

(** How an entry may change from one moment to another. *)
Record entry_step (m m' : managedMount) : Prop := {
  step_id : MountInfo_MountId (mm_info m') = MountInfo_MountId (mm_info m);
  step_config : MountInfo_Config (mm_info m') = MountInfo_Config (mm_info m);
  step_generation : mm_generation m <= mm_generation m';
  step_attempt : mm_generation m' = mm_generation m ->
    MountInfo_Attempt (mm_info m') = MountInfo_Attempt (mm_info m)
}.

Lemma entry_step_refl m : entry_step m m.
Proof. by constructor. Qed.

Lemma entry_step_trans m1 m2 m3 : entry_step m1 m2 -> entry_step m2 m3 -> entry_step m1 m3.
Proof.
  intros [a1 b1 c1 d1] [a2 b2 c2 d2]. constructor; [congruence..|lia|].
  intros H. rewrite d2, d1; lia.
Qed.

Record mono (w w' : World) : Prop := {
  mono_entries : forall e m, w_entries w !! e = Some m ->
    exists m', w_entries w' !! e = Some m' /\ entry_step m m';
  mono_history : w_history w `prefix_of` w_history w';
  mono_timers : timer_func <$> w_timers w `prefix_of` timer_func <$> w_timers w';
  mono_replies : w_replies w `prefix_of` w_replies w'
}.

Lemma mono_refl w : mono w w.
Proof. split; [|done..]. eauto using entry_step_refl. Qed.

Lemma mono_trans w1 w2 w3 : mono w1 w2 -> mono w2 w3 -> mono w1 w3.
Proof.
  intros [a1 b1 c1 d1] [a2 b2 c2 d2]. split; [|by etransitivity..]. intros e m Hm.
  destruct (a1 e m Hm) as (m2 & Hm2 & H12). destruct (a2 e m2 Hm2) as (m3 & Hm3 & H23).
  eauto using entry_step_trans.
Qed.

(** The fields that only the holder of the operation mutex changes. *)
Definition prot (m : managedMount) : chan * Z * bool := (mm_exitDone m, mm_generation m, mm_unmounting m).

(** A retry of the mount was scheduled at some time. *)
Definition scheduled (w : World) (e : entry_id) : Prop :=
  exists g, TRetryMount e g ∈ timer_func <$> w_timers w.

Definition rely (r : res) (w w' : World) : Prop :=
  mono w w' /\
  (forall e m, e ∈ r_locks r -> w_entries w !! e = Some m ->
     exists m', w_entries w' !! e = Some m' /\ prot m' = prot m) /\
  (forall e m, e ∈ r_fresh r -> w_entries w !! e = Some m ->
     exists m', w_entries w' !! e = Some m' /\ mm_exitDone m' = mm_exitDone m).

Lemma rely_refl r w : rely r w w.
Proof. split_and!; [apply mono_refl | eauto..]. Qed.

Lemma rely_trans r w1 w2 w3 : rely r w1 w2 -> rely r w2 w3 -> rely r w1 w3.
Proof.
  intros (m1 & p1 & f1) (m2 & p2 & f2). split_and!; [by eapply mono_trans|..]; intros e m He Hm.
  - destruct (p1 e m He Hm) as (x & Hx & E1). destruct (p2 e x He Hx) as (y & Hy & E2).
    exists y. split; [done | congruence].
  - destruct (f1 e m He Hm) as (x & Hx & E1). destruct (f2 e x He Hx) as (y & Hy & E2).
    exists y. split; [done | congruence].
Qed.

(** A thread relies on less when it owns less. *)
Lemma rely_weaken r r' w w' :
  r_locks r' ⊆ r_locks r -> r_fresh r' ⊆ r_fresh r -> rely r w w' -> rely r' w w'.
Proof. intros H1 H2 (Hm & Hp & Hf). split_and!; [done|eauto..]. Qed.

Lemma no_res_disj r : disj r no_res.
Proof. split_and!; try apply disjoint_empty_r; by intros [_ [=]]. Qed.

Lemma scheduled_mono w w' e : mono w w' -> scheduled w e -> scheduled w' e.
Proof. intros Hm [g Hg]. exists g. destruct (mono_timers _ _ Hm) as [l ->]. apply elem_of_app. by left. Qed.

Definition redacted (i : MountInfo) : Prop := redactMountInfo i = i.

Lemma redactMountInfo_redacted i : redacted (redactMountInfo i).
Proof.
  unfold redacted, redactMountInfo. destruct i as [? ? [c|] ? ? ? ? ? ? ? ?]; [|done]. simpl.
  by rewrite redact_config_idem.
Qed.

(** ** The beginning *)

(** The database at the start, whether the daemon restores its mounts, and a
    bound on the attempts recorded there. *)
Class Birth : Type := mkBirth {
  b_db : DB;
  b_restoring : bool;
  b_attempts : Z
}.

Section Startup.
Context {birth : Birth} {errs : ErrorLib} {codec : RecordCodec}.

(** Requests are served. *)
Definition started (w : World) : Prop := b_restoring = false \/ w_replies w <> [].

Lemma started_dec w : started w \/ (~ started w /\ b_restoring = true).
Proof.
  unfold started. destruct b_restoring; [|by left; left]. destruct (w_replies w); [right|by left; right].
  split; [|done]. by intros [[=]|[]].
Qed.

Lemma started_mono w w' : mono w w' -> started w -> started w'.
Proof.
  intros Hm [Hb|Hr]; [by left|right]. destruct (mono_replies _ _ Hm) as [l ->]. by destruct (w_replies w).
Qed.

(** The record of that ID at the start has the same configuration. *)
Definition from_store (i : MountInfo) : Prop :=
  b_restoring = true /\ exists data x i0, b_db !! mountKey (MountInfo_MountId i) = Some data /\
    decodeRecord data = Ok x /\ Record_Info x = Some i0 /\ MountInfo_Config i0 = MountInfo_Config i.

Lemma from_store_same i i' :
  MountInfo_MountId i' = MountInfo_MountId i -> MountInfo_Config i' = MountInfo_Config i ->
  from_store i -> from_store i'.
Proof. unfold from_store. by intros -> ->. Qed.

(** How many records there were to restore. *)
Definition restored_count : Z := if b_restoring then Z.of_nat (length (record_items b_db)) else 0.

(** The mount has a record: it was created in this run or before it. *)
Definition known (w : World) (id : string) : Prop :=
  FxCreate id true ∈ w_history w \/ (b_restoring = true /\ is_Some (b_db !! mountKey id)).

Lemma known_mono w w' id : mono w w' -> known w id -> known w' id.
Proof. intros Hm [Hk|Hk]; [left|by right]. destruct (mono_history _ _ Hm) as [l ->]. apply elem_of_app. by left. Qed.

Lemma from_store_known w i : from_store i -> known w (MountInfo_MountId i).
Proof. intros (Hb & data & x & i0 & Hd & _). right. split; [done|by exists data]. Qed.

Definition holds (r : res) (w : World) : Prop :=
  (forall e, e ∈ r_locks r -> exists m, w_entries w !! e = Some m /\ mm_operation m = true) /\
  (forall c, c ∈ r_chans r -> w_chans w !! c = Some false) /\
  (forall e, e ∈ r_fresh r -> is_Some (w_entries w !! e) /\ ~ scheduled w e) /\
  (forall e, e ∈ r_begun r -> is_Some (w_entries w !! e)) /\
  (r_startup r = true -> ~ started w) /\
  (r_event r = true -> w_eventMutex w = true).

Lemma no_res_holds w : holds no_res w.
Proof. split_and!; try (intros ? H; by apply elem_of_empty in H); done. Qed.

End Startup.

(** ** The invariant *)

Section Invariant.
Variable daemon : Config.
Context {birth : Birth} {errs : ErrorLib} {codec : RecordCodec}.

(** No attempt counter exceeds this. *)
Definition ceiling : Z := if b_restoring then Z.max (maxAttempts daemon) b_attempts else maxAttempts daemon.

Lemma ceiling_attempts : maxAttempts daemon <= ceiling.
Proof. unfold ceiling. destruct b_restoring; lia. Qed.

Definition valid (w : World) (e : entry_id) : Prop := is_Some (w_entries w !! e).

(** The entry's mount has a record. *)
Definition created (w : World) (e : entry_id) : Prop :=
  exists m, w_entries w !! e = Some m /\ known w (MountInfo_MountId (mm_info m)).

(** If generation [g] is still current, another attempt is allowed. *)
Definition attempt_left (w : World) (e : entry_id) (g : Z) : Prop :=
  exists m, w_entries w !! e = Some m /\ g <= mm_generation m /\
    (mm_generation m = g -> MountInfo_Attempt (mm_info m) < maxAttempts daemon).

(** What a goroutine may assume when it begins, and what it owns. *)
Definition pre (t : thread) (r : res) (w : World) : Prop :=
  match t with
  | TReconcile _ => r = startup_res /\ sound ceiling b_db
  | TSetMetrics => r = no_res
  | TShutdownEntry _ e _ => r = no_res /\ valid w e
  | TWaitForProcess e _ _ c => r = attempt_res e {[c]} /\ created w e
  | TWaitForMount e _ _ _ | TWaitForMountLoop e _ _ => r = attempt_res e ∅ /\ created w e
  | TRetryMount e g => r = no_res /\ scheduled w e /\ created w e /\ attempt_left w e g
  | TRetryUnmount e g => r = no_res /\ valid w e /\ attempt_left w e g
  | _ => r = no_res /\ started w
  end.

Record entry_ok (tau : Z) (m : managedMount) : Prop := {
  ok_generation : 1 <= mm_generation m <= tau + 1;
  ok_attempt : -2147483648 <= MountInfo_Attempt (mm_info m) <= ceiling;
  ok_int32 : MountInfo_Attempt (mm_info m) <= 2147483647;
  ok_config : exists c, MountInfo_Config (mm_info m) = Some c /\ client_ok c = true
}.

Record registry_ok (w : World) : Prop := {
  reg_entry : forall id e, w_mounts w !! id = Some e ->
    exists m, w_entries w !! e = Some m /\ MountInfo_MountId (mm_info m) = id;
  reg_paths : forall id1 id2 e1 e2 m1 m2,
    w_mounts w !! id1 = Some e1 -> w_mounts w !! id2 = Some e2 ->
    w_entries w !! e1 = Some m1 -> w_entries w !! e2 = Some m2 ->
    Clean (GetMountPath (mm_info m1)) = Clean (GetMountPath (mm_info m2)) ->
    id1 = id2 \/ (from_store (mm_info m1) /\ from_store (mm_info m2));
  reg_capacity : 0 < MaxConcurrentMounts daemon ->
    Z.of_nat (size (w_mounts w)) <= Z.max (MaxConcurrentMounts daemon) restored_count
}.

(** What is offered to subscribers and goes over a stream is redacted. *)
Definition stream_ok (x : effect) : Prop :=
  match x with FxPublish ev | FxSnapshot _ ev | FxReceive _ ev | FxSend _ ev _ => redacted (MountEvent_Mount ev) | _ => True end.

(** A process is only ever started for a mount whose record was created in
    this run, or was there when the daemon began to restore its mounts. *)
Record history_ok (h : list effect) : Prop := {
  hist_start : forall i id cmd, h !! i = Some (FxStart id cmd) ->
    (exists j, (j < i)%nat /\ h !! j = Some (FxCreate id true)) \/
    (b_restoring = true /\ is_Some (b_db !! mountKey id));
  hist_streams : Forall stream_ok h
}.

(** Before requests are served there is nothing but what is restored. *)
Record startup_ok (w : World) : Prop := {
  su_entries : forall e m, w_entries w !! e = Some m -> from_store (mm_info m);
  su_records : stores from_store (w_db w)
}.

Definition subscriber_ok (s : subscriber) : Prop :=
  (length (sub_events s) <= subscriber_buffer)%nat /\
  Forall (fun ev => redacted (MountEvent_Mount ev)) (sub_events s).

Record Inv (tau : Z) (w : World) : Prop := {
  inv_entries : forall e m, w_entries w !! e = Some m -> entry_ok tau m;
  inv_registry : registry_ok w;
  inv_timers : forall f, f ∈ timer_func <$> w_timers w -> pre f no_res w;
  inv_subscribers : forall id s, w_subscribers w !! id = Some s -> subscriber_ok s;
  inv_replies : Forall (fun r => Forall redacted (reply_mounts r)) (w_replies w);
  inv_history : history_ok (w_history w);
  inv_startup : ~ started w -> startup_ok w;
  inv_sound : forall a, ceiling <= a -> sound a b_db -> sound a (w_db w)
}.

(** What may be written to the database: the info of an entry. *)
Definition writable (w : World) (i : MountInfo) : Prop :=
  good_info ceiling i /\ (started w \/ from_store i).

Lemma writable_mono w w' i : mono w w' -> writable w i -> writable w' i.
Proof. intros Hm [Hg [Hs|Hs]]; split; [done|left; by eapply started_mono|done|by right]. Qed.

Lemma entry_writable tau w e m : Inv tau w -> w_entries w !! e = Some m -> writable w (mm_info m).
Proof.
  intros Hi He. destruct (inv_entries _ _ Hi e m He) as [_ Ha Hb Hc]. split; [split_and!; [done|lia..]|].
  destruct (started_dec w) as [Hs|[Hs _]]; [by left|right]. by eapply su_entries, He; apply (inv_startup _ _ Hi).
Qed.


(** ** Stability *)

Lemma valid_mono w w' e : mono w w' -> valid w e -> valid w' e.
Proof. intros Hm [m He]. destruct (mono_entries _ _ Hm e m He) as (m' & Hm' & _). by exists m'. Qed.

Lemma created_mono w w' e : mono w w' -> created w e -> created w' e.
Proof.
  intros Hm (m & He & Hc). destruct (mono_entries _ _ Hm e m He) as (m' & Hm' & Hs). exists m'. split; [done|].
  rewrite (step_id _ _ Hs). by eapply known_mono.
Qed.

Lemma attempt_left_mono w w' e g : mono w w' -> attempt_left w e g -> attempt_left w' e g.
Proof.
  intros Hm (m & He & Hg & Hl). destruct (mono_entries _ _ Hm e m He) as (m' & Hm' & Hs). exists m'. split; [done|].
  pose proof (step_generation _ _ Hs). split; [lia|]. intros E.
  rewrite (step_attempt _ _ Hs) by lia. apply Hl. lia.
Qed.

Lemma created_valid w e : created w e -> valid w e.
Proof. intros (m & He & _). by exists m. Qed.

Lemma pre_mono t r w w' : mono w w' -> pre t r w -> pre t r w'.
Proof.
  destruct t; simpl; naive_solver eauto using valid_mono, created_mono, attempt_left_mono, scheduled_mono, started_mono.
Qed.

Lemma pre_stable t r w w' : rely r w w' -> pre t r w -> pre t r w'.
Proof. intros [Hm _]. by apply pre_mono. Qed.

(** A retry was only ever scheduled for an entry. *)
Lemma scheduled_valid tau w e : Inv tau w -> scheduled w e -> valid w e.
Proof. intros Hi [g Hg]. apply (inv_timers _ _ Hi) in Hg as (_ & _ & Hc & _). by apply created_valid. Qed.

Lemma entry_ok_later tau m : entry_ok tau m -> entry_ok (tau + 1) m.
Proof. intros [a b c d]. constructor; [lia|done..]. Qed.

(** ** Framing *)

(** What others own stays as it is: the protected fields of an entry that
    another thread holds, open channels, the channel of a fresh entry, that
    no request is served yet, and eventMutex. *)
Record undisturbed (r : res) (w w' : World) : Prop := {
  un_locks : forall e m, w_entries w !! e = Some m -> e ∉ r_locks r -> mm_operation m = true ->
    exists m', w_entries w' !! e = Some m' /\ mm_operation m' = true /\ prot m' = prot m;
  un_open : forall c, c ∉ r_chans r -> w_chans w !! c = Some false -> w_chans w' !! c = Some false;
  un_fresh : forall e m, w_entries w !! e = Some m -> e ∉ r_fresh r -> e ∉ r_begun r -> ~ scheduled w e ->
    exists m', w_entries w' !! e = Some m' /\ mm_exitDone m' = mm_exitDone m /\ ~ scheduled w' e;
  un_startup : r_startup r = false -> started w' -> started w;
  un_event : r_event r = false -> w_eventMutex w = true -> w_eventMutex w' = true
}.

(** [s] owns nothing but what [r] owned and what nobody did. *)
Record within (r : res) (w : World) (s : res) : Prop := {
  in_locks : forall e, e ∈ r_locks s -> e ∈ r_locks r \/ forall m, w_entries w !! e = Some m -> mm_operation m = false;
  in_chans : forall c, c ∈ r_chans s -> c ∈ r_chans r \/ w_chans w !! c = None;
  in_fresh : forall e, e ∈ r_fresh s -> e ∈ r_fresh r \/ w_entries w !! e = None;
  in_begun : forall e, e ∈ r_begun s -> e ∈ r_begun r ∪ r_fresh r \/ w_entries w !! e = None \/ scheduled w e;
  in_startup : r_startup s = true -> r_startup r = true;
  in_event : r_event s = true -> r_event r = true \/ w_eventMutex w = false
}.

Lemma within_disj r w s o : within r w s -> disj o r -> holds o w -> disj o s.
Proof.
  intros [W1 W2 W3 W4 W5 W6] ((D1 & D2) & (D3 & D4 & D5) & D6 & D7) (O1 & O2 & O3 & O4 & O5 & O6).
  assert (forall x, x ∈ r_fresh o -> w_entries w !! x <> None) as F1
    by (intros x Hx E; destruct (O3 x Hx) as [[? ?] _]; congruence).
  assert (forall x, x ∈ r_begun o -> w_entries w !! x <> None) as F2
    by (intros x Hx E; destruct (O4 x Hx); congruence).
  split_and!; [..|intros [Ho Hs]; apply D6; auto|intros [Ho Hs]; destruct (W6 Hs) as [Hr|Hf]; [by apply D7|by rewrite O6 in Hf]];
    intros x Ho Hs.
  - destruct (W1 x Hs) as [Hr|Hf]; [by apply (D1 x)|]. destruct (O1 x Ho) as (m & Hm & Ht).
    rewrite (Hf m Hm) in Ht. done.
  - destruct (W2 x Hs) as [Hr|Hf]; [by apply (D2 x)|]. by rewrite (O2 x Ho) in Hf.
  - destruct (W3 x Hs) as [Hr|Hf]; [by apply (D3 x)|by apply (F1 x)].
  - destruct (W4 x Hs) as [[Hr|Hr]%elem_of_union|[Hf|Hf]]; [by apply (D4 x)|by apply (D3 x)|by apply (F1 x)|].
    by apply (proj2 (O3 x Ho)).
  - destruct (W3 x Hs) as [Hr|Hf]; [by apply (D5 x)|by apply (F2 x)].
Qed.

Lemma undisturbed_others r w w' o :
  mono w w' -> undisturbed r w w' -> disj o r -> holds o w -> holds o w' /\ rely o w w'.
Proof.
  intros Hmono [U1 U2 U3 U4 U5] ((D1 & D2) & (D3 & D4 & D5) & D6 & D7) (O1 & O2 & O3 & O4 & O5 & O6).
  assert (forall e m, e ∈ r_fresh o -> w_entries w !! e = Some m ->
            exists m', w_entries w' !! e = Some m' /\ mm_exitDone m' = mm_exitDone m /\ ~ scheduled w' e) as Hfresh.
  { intros e m He Hm. destruct (O3 e He) as [_ Hs]. apply U3; [done|by intros Hr; apply (D3 e)|by intros Hr; apply (D4 e)|done]. }
  split; [split_and!|split_and!; [done|..]].
  - intros e He. destruct (O1 e He) as (m & Hm & Ht).
    destruct (U1 e m Hm (fun Hr => D1 e He Hr) Ht) as (m' & Hm' & Ht' & _). by exists m'.
  - intros c Hc. apply U2; [intros Hr; by apply (D2 c) | by apply O2].
  - intros e He. destruct (O3 e He) as [[m Hm] _]. destruct (Hfresh e m He Hm) as (m' & Hm' & _ & Hs). by split; [exists m'|].
  - intros e He. destruct (O4 e He) as [m Hm]. destruct (mono_entries _ _ Hmono e m Hm) as (m' & Hm' & _). by exists m'.
  - intros Ho Hs. apply (O5 Ho), U4; [|done]. destruct (r_startup r) eqn:E; [|done]. by destruct D6.
  - intros Ho. apply U5; [|auto]. destruct (r_event r) eqn:E; [|done]. by destruct D7.
  - intros e m He Hm. destruct (O1 e He) as (m0 & Hm0 & Ht). simplify_eq.
    destruct (U1 e m Hm (fun Hr => D1 e He Hr) Ht) as (m' & Hm' & _ & Hp). by exists m'.
  - intros e m He Hm. destruct (Hfresh e m He Hm) as (m' & Hm' & Hx & _). by exists m'.
Qed.

Lemma framed_intro r r' sp ts w w' :
  mono w w' -> undisturbed r w w' -> w_ready w' = w_ready w ++ ts ->
  Forall2 (fun t s => pre t s w') ts sp ->
  Forall (fun s => holds s w' /\ within r w s) (r' :: sp) -> separate disj (r' :: sp) ->
  framed disj holds rely pre r r' sp w w'.
Proof.
  intros Hmono Hu Hready Hts Hsp Hsep. split; [by eapply Forall_impl; [exact Hsp|]; intros ? [? _]|done| |eauto].
  intros o Hd Ho.
  assert (forall s, s ∈ r' :: sp -> disj o s) as Hds.
  { intros s Hs. rewrite Forall_forall in Hsp. destruct (Hsp s Hs) as [_ Hw]. by eapply within_disj. }
  destruct (undisturbed_others r w w' o Hmono Hu Hd Ho) as [Hh Hr].
  split_and!; [done|done|apply Hds; left|]. apply Forall_forall. intros s Hs. apply Hds. by right.
Qed.

Lemma within_refl r w : within r w r.
Proof. split; eauto. intros e He. left. apply elem_of_union. by left. Qed.

(** The common case: nothing is acquired, released or started. *)
Lemma framed_same r w w' :
  mono w w' -> undisturbed r w w' -> w_ready w' = w_ready w -> holds r w' ->
  framed disj holds rely pre r r [] w w'.
Proof.
  intros Hm Hu Hr Hh. apply (framed_intro r r [] []); [done|done|by rewrite app_nil_r|constructor| |by repeat split].
  constructor; [|constructor]. split; [done | apply within_refl].
Qed.

(** ** Changes beside the heap of entries *)

(** [beside r w w']: entries, channels and ready list are the same, and what
    grows is not what another thread relies on. *)
Record beside (r : res) (w w' : World) : Prop := {
  be_entries : w_entries w' = w_entries w;
  be_chans : w_chans w' = w_chans w;
  be_ready : w_ready w' = w_ready w;
  be_history : w_history w `prefix_of` w_history w';
  be_timers : timer_func <$> w_timers w `prefix_of` timer_func <$> w_timers w';
  be_replies : w_replies w `prefix_of` w_replies w';
  be_scheduled : forall e, scheduled w' e -> scheduled w e \/ (e ∈ r_begun r /\ e ∉ r_fresh r);
  be_started : started w' -> started w;
  be_event : w_eventMutex w' = w_eventMutex w
}.

(** The common case: timers and replies stay as well. *)
Record aside (w w' : World) : Prop := {
  aside_entries : w_entries w' = w_entries w;
  aside_chans : w_chans w' = w_chans w;
  aside_ready : w_ready w' = w_ready w;
  aside_history : w_history w `prefix_of` w_history w';
  aside_timers : timer_func <$> w_timers w' = timer_func <$> w_timers w;
  aside_replies : w_replies w' = w_replies w;
  aside_event : w_eventMutex w' = w_eventMutex w
}.

Lemma aside_beside r w w' : aside w w' -> beside r w w'.
Proof.
  intros [a b c d x y v]. split; [done..|by rewrite x|by rewrite y|unfold scheduled; rewrite x; auto|unfold started; by rewrite y|done].
Qed.

Lemma beside_mono r w w' : beside r w w' -> mono w w'.
Proof. intros [a b c d x y z q v]. split; [|done..]. rewrite a. eauto using entry_step_refl. Qed.

Lemma aside_mono w w' : aside w w' -> mono w w'.
Proof. intros Ha. by eapply beside_mono, (aside_beside no_res). Qed.

Lemma beside_holds r w w' : beside r w w' -> holds r w -> holds r w'.
Proof.
  intros [a b c d x y z q v] (h1 & h2 & h3 & h4 & h5 & h6).
  split_and!; rewrite ?a, ?b, ?v; [done..| |done|by intros Hs Hst; apply (h5 Hs), q|done].
  intros e He. destruct (h3 e He) as [Hv Hs]. split; [done|]. intros [?|[_ ?]]%z; done.
Qed.

Lemma beside_rely r w w' : beside r w w' -> rely r w w'.
Proof. intros Hb. split_and!; [by eapply beside_mono|..]; rewrite (be_entries _ _ _ Hb); eauto. Qed.

Lemma beside_framed r w w' : beside r w w' -> holds r w -> framed disj holds rely pre r r [] w w'.
Proof.
  intros Ha Hh. apply framed_same; [by eapply beside_mono| |by eapply be_ready|by eapply beside_holds].
  destruct Ha as [a b c d x y z q v]. split; [|by rewrite b| |done|by rewrite v].
  - intros e m Hm _ Ht. rewrite a. by exists m.
  - intros e m Hm _ Hb Hs. rewrite a. exists m. split_and!; [done..|]. intros [?|[? _]]%z; done.
Qed.

Lemma registry_ok_same w w' :
  w_entries w' = w_entries w -> w_mounts w' = w_mounts w -> registry_ok w -> registry_ok w'.
Proof. intros E1 E2 [a b c]. split; rewrite ?E1, ?E2; done. Qed.

(** How the database may change. *)
Definition db_step (w w' : World) : Prop :=
  (~ started w -> stores from_store (w_db w) -> stores from_store (w_db w')) /\
  (forall a, ceiling <= a -> sound a (w_db w) -> sound a (w_db w')).

Lemma db_step_same w w' : w_db w' = w_db w -> db_step w w'.
Proof. intros E. split; by rewrite E. Qed.

(** The invariant when no entry and no channel changes. *)
Lemma Inv_beside tau w w' :
  mono w w' -> w_entries w' = w_entries w -> w_mounts w' = w_mounts w -> db_step w w' -> Inv tau w ->
  (forall f, f ∈ timer_func <$> w_timers w' -> pre f no_res w') ->
  (forall id s, w_subscribers w' !! id = Some s -> subscriber_ok s) ->
  Forall (fun r => Forall redacted (reply_mounts r)) (w_replies w') ->
  history_ok (w_history w') -> Inv (tau + 1) w'.
Proof.
  intros Hmono a Hm [D1 D2] [i1 i2 i3 i4 i5 i6 i7 i8] Ht Hs Hr Hh. split; [|by eapply registry_ok_same|done..| |].
  - intros e m He. rewrite a in He. apply entry_ok_later. eauto.
  - intros Hn. assert (~ started w) as Hn' by (intros ?; by apply Hn, (started_mono w)).
    destruct (i7 Hn') as [s1 s2]. split; [by rewrite a|auto].
  - intros b Hb Hd. apply D2; auto.
Qed.

Lemma Inv_aside tau w w' :
  aside w w' -> w_mounts w' = w_mounts w -> w_db w' = w_db w -> Inv tau w ->
  (forall id s, w_subscribers w' !! id = Some s -> subscriber_ok s) ->
  history_ok (w_history w') -> Inv (tau + 1) w'.
Proof.
  intros Ha Hm Hd Hi Hs Hh. pose proof (aside_mono _ _ Ha) as Hmono.
  apply (Inv_beside tau w); [done|by apply aside_entries|done|by apply db_step_same|done| |done| |done].
  - intros f. rewrite (aside_timers _ _ Ha). intros Hf. apply (pre_mono _ _ w); [done|]. by apply (inv_timers _ _ Hi).
  - rewrite (aside_replies _ _ Ha). apply (inv_replies _ _ Hi).
Qed.

Lemma history_ok_snoc w x :
  history_ok (w_history w) -> (forall id cmd, x = FxStart id cmd -> known w id) -> stream_ok x ->
  history_ok (w_history w ++ [x]).
Proof.
  intros [Hh Hf] Hx Hs0. split; [|apply Forall_app; by repeat constructor]. intros i id cmd Hi. apply lookup_app_Some in Hi as [Hi|[Hlen Hi]].
  - destruct (Hh i id cmd Hi) as [(j & Hj & Hc)|Hs]; [left|by right]. exists j. split; [done|]. by apply lookup_app_l_Some.
  - apply list_lookup_singleton_Some in Hi as [Hi ->]. destruct (Hx _ _ eq_refl) as [Hk|Hk]; [left|by right].
    destruct (list_elem_of_lookup_1 _ _ Hk) as [j Hj].
    exists j. split; [apply lookup_lt_Some in Hj; lia | by apply lookup_app_l_Some].
Qed.

End Invariant.
