(* ===== verification/Rules.v ===== *)
(** * Proof rules for the actions of the manager

    One rule per kind of action: what the surrounding program must know
    before it, and what it knows afterwards. *)

From S2P Require Import Prelude GoStrings GoPath GoErrors Api Redact Config Retry Policy Repository Durable Runtime.
From S2P Require Import Command Manager Logic Invariant.

(** Enough scheduling steps for any run; generations stay below 2^64. *)
Definition limit : Z := two64 - 2.

Notation safe daemon := (Logic.safe disj (Inv daemon) holds rely (pre daemon) limit).

(** Projections of updated worlds and entries compute. *)
Ltac wsimpl := cbn [w_entries w_mounts w_chans w_procs w_timers w_logs w_db w_subscribers w_nextSubscriberID
  w_eventMutex w_metrics w_waits w_ready w_history w_replies set_w_entries set_w_mounts set_w_chans set_w_procs
  set_w_timers set_w_logs set_w_db set_w_subscribers set_w_nextSubscriberID set_w_eventMutex set_w_metrics
  set_w_waits set_w_ready set_w_history set_w_replies record_effect] in *.

Section Rules.
Variable daemon : Config.
Context {birth : Birth} {errs : ErrorLib} {codec : RecordCodec}.
Implicit Types (r : res) (w : World).

Local Notation safe := (safe daemon).
Local Notation Inv := (Inv daemon).

(** ** Reads *)

Lemma Inv_later tau w : Inv tau w -> Inv (tau + 1) w.
Proof. intros [a b c d x y z q]. split; [|done..]. intros e m He. by apply entry_ok_later, a with e. Qed.

Lemma framed_refl r w : holds r w -> framed disj holds rely (pre daemon) r r [] w w.
Proof. intros Hh. apply beside_framed; [by apply aside_beside|done]. Qed.

Lemma safe_asks {A} r w0 (f : env -> A) Q :
  (forall x w, rely r w0 w -> Q x r w) -> safe r w0 (asks f) Q.
Proof.
  intros HQ tau e w Ht Hr Hi Hh. split; [by apply Inv_later|]. exists r, []. split; [by apply framed_refl|].
  by apply HQ.
Qed.

(** An answer of the environment that depends on it only. *)
Lemma safe_asks_env {A} r w0 (f : env -> A) Q :
  (forall en w, rely r w0 w -> Q (f en) r w) -> safe r w0 (asks f) Q.
Proof.
  intros HQ tau e w Ht Hr Hi Hh. split; [by apply Inv_later|]. exists r, []. split; [by apply framed_refl|].
  by apply HQ.
Qed.

Lemma safe_gets {A} r w0 (f : World -> A) Q :
  (forall tau w, rely r w0 w -> Inv tau w -> Q (f w) r w) -> safe r w0 (gets f) Q.
Proof.
  intros HQ tau e w Ht Hr Hi Hh. split; [by apply Inv_later|]. exists r, []. split; [by apply framed_refl|].
  by eapply HQ.
Qed.

(** ** Actions beside the entries *)

Lemma safe_beside {A} r w0 (f : action A) (Q : A -> res -> World -> Prop) :
  (forall tau e w, rely r w0 w -> Inv tau w -> holds r w ->
     match f e w with
     | Blocked => True
     | Panics => False
     | Next x w' => beside r w w' /\ Inv (tau + 1) w' /\ (rely r w0 w' -> Q x r w')
     end) -> safe r w0 (act f) Q.
Proof.
  intros Hf tau e w Ht Hr Hi Hh. specialize (Hf tau e w Hr Hi Hh). destruct (f e w) as [| |x w']; [done..|].
  destruct Hf as (Ha & Hi' & HQ). split; [done|]. exists r, []. split; [by apply beside_framed|].
  apply HQ. eapply rely_trans; [exact Hr|]. by apply beside_rely.
Qed.

Lemma safe_aside {A} r w0 (f : action A) (Q : A -> res -> World -> Prop) :
  (forall tau e w, rely r w0 w -> Inv tau w ->
     match f e w with
     | Blocked => True
     | Panics => False
     | Next x w' => aside w w' /\ Inv (tau + 1) w' /\ (rely r w0 w' -> Q x r w')
     end) -> safe r w0 (act f) Q.
Proof.
  intros Hf. apply safe_beside. intros tau e w Hr Hi Hh. specialize (Hf tau e w Hr Hi). destruct (f e w) as [| |x w']; [done..|].
  destruct Hf as (Ha & Hi' & HQ). split_and!; [by apply aside_beside|done|done].
Qed.

(** At most one effect is recorded, not the start of a process. *)
Definition recorded (w w' : World) : Prop :=
  w_history w' = w_history w \/
  exists x, w_history w' = w_history w ++ [x] /\ (forall id cmd, x <> FxStart id cmd) /\ stream_ok x.

Lemma recorded_ok w w' : recorded w w' -> history_ok (w_history w) -> history_ok (w_history w').
Proof.
  intros [->|(x & -> & Hx & Hs)] Hh; [done|]. apply history_ok_snoc; [done| |done]. intros id cmd ->. by destruct (Hx id cmd).
Qed.

(** Only fields that the invariant does not mention change, and effects
    other than process starts are recorded. *)
Record unrelated (w w' : World) : Prop := {
  un_entries : w_entries w' = w_entries w;
  un_chans : w_chans w' = w_chans w;
  un_ready : w_ready w' = w_ready w;
  un_mounts : w_mounts w' = w_mounts w;
  un_timers : w_timers w' = w_timers w;
  un_subscribers : w_subscribers w' = w_subscribers w;
  un_replies : w_replies w' = w_replies w;
  un_eventMutex : w_eventMutex w' = w_eventMutex w;
  un_history : recorded w w';
  un_db : w_db w' = w_db w \/ db_step daemon w w'
}.

Lemma unrelated_aside w w' : unrelated w w' -> aside w w'.
Proof.
  intros [a b c d x y z v h q]. split; [done..| |by rewrite x|done|done]. destruct h as [->|(ef & -> & _)]; [done|]. by exists [ef].
Qed.

Lemma unrelated_Inv tau w w' : unrelated w w' -> Inv tau w -> Inv (tau + 1) w'.
Proof.
  intros Hu Hi. pose proof (aside_mono _ _ (unrelated_aside _ _ Hu)) as Hm. destruct Hu as [a b c d x y z v h q].
  apply (Inv_beside daemon tau w); [done..| |done| |by rewrite y; apply (inv_subscribers _ _ _ Hi)|by rewrite z; apply (inv_replies _ _ _ Hi)|].
  - destruct q as [q|q]; [by apply db_step_same|done].
  - intros f Hf. rewrite x in Hf. apply (pre_mono daemon _ _ w); [done|]. by eapply (inv_timers _ _ _ Hi).
  - by eapply recorded_ok, inv_history.
Qed.

Lemma safe_unrelated {A} r w0 (f : action A) (Q : A -> res -> World -> Prop) :
  (forall e w, match f e w with Blocked => True | Panics => False | Next _ w' => unrelated w w' end) ->
  (forall x w', rely r w0 w' -> Q x r w') -> safe r w0 (act f) Q.
Proof.
  intros Hf HQ. apply safe_aside. intros tau e w Hr Hi. specialize (Hf e w). destruct (f e w) as [| |x w']; [done..|].
  split_and!; [by apply unrelated_aside|by eapply unrelated_Inv|]. apply HQ.
Qed.

Ltac unrelated_effect :=
  constructor; wsimpl; try reflexivity; try (left; reflexivity);
  try (right; eexists; split; [reflexivity | split; [intros; discriminate|exact I]]).

Lemma safe_system_call r w0 d (Q : option goerror -> res -> World -> Prop) :
  (forall ok, (forall id cmd, d ok <> FxStart id cmd) /\ stream_ok (d ok)) -> (forall x w', rely r w0 w' -> Q x r w') ->
  safe r w0 (system_call d) Q.
Proof.
  intros Hd HQ. apply safe_unrelated; [|done]. intros e w. destruct w. constructor; wsimpl; try done; [|by left].
  right. eexists. split; [done | apply Hd].
Qed.

Lemma safe_Signal r w0 p (Q : unit -> res -> World -> Prop) :
  (forall w', rely r w0 w' -> Q tt r w') -> safe r w0 (Process_Signal p) Q.
Proof. intros HQ. apply safe_unrelated; [|by intros []]. intros e w. destruct w. unrelated_effect. Qed.

Lemma safe_Kill r w0 p (Q : unit -> res -> World -> Prop) :
  (forall w', rely r w0 w' -> Q tt r w') -> safe r w0 (Process_Kill p) Q.
Proof. intros HQ. apply safe_unrelated; [|by intros []]. intros e w. destruct w. unrelated_effect. Qed.

Lemma safe_with_metrics r w0 f (Q : unit -> res -> World -> Prop) :
  (forall w', rely r w0 w' -> Q tt r w') -> safe r w0 (with_metrics f) Q.
Proof. intros HQ. apply safe_unrelated; [|by intros []]. intros e w. destruct w. unrelated_effect. Qed.

Lemma safe_set_metrics r w0 (Q : unit -> res -> World -> Prop) :
  (forall w', rely r w0 w' -> Q tt r w') -> safe r w0 set_metrics Q.
Proof. intros HQ. apply safe_unrelated; [|by intros []]. intros e w. destruct w. unrelated_effect. Qed.

Lemma safe_mountLog_Close r w0 l (Q : unit -> res -> World -> Prop) :
  (forall w', rely r w0 w' -> Q tt r w') -> safe r w0 (mountLog_Close l) Q.
Proof. intros HQ. apply safe_unrelated; [|by intros []]. intros e w. destruct w. unrelated_effect. Qed.

Lemma safe_logstore_Open r w0 p s (Q : result goerror log_id -> res -> World -> Prop) :
  (forall x w', rely r w0 w' -> Q x r w') -> safe r w0 (logstore_Open p s) Q.
Proof.
  intros HQ. apply safe_unrelated; [|done]. intros e w. destruct (env_err e), w; unrelated_effect.
Qed.

(** The database takes over what is written. *)
Lemma safe_repository_Update r w0 ctx record (Q : option goerror -> res -> World -> Prop) :
  (forall i, Record_Info record = Some i -> writable daemon w0 i) ->
  (forall x w', rely r w0 w' -> Q x r w') -> safe r w0 (repository_Update ctx record) Q.
Proof.
  intros Hw HQ. apply safe_aside. intros tau e w Hr Hi. simpl.
  assert (forall i, Record_Info record = Some i -> writable daemon w i) as Hw'
    by (intros i Hi'; eapply writable_mono; [apply Hr|auto]).
  pose proof (fun P => stores_Update P (ctx_Err ctx e) record (w_db w) (env_faults e)) as Hs.
  destruct (Update _ _ _ _) as [[err db] f]. simpl in Hs. match goal with |- aside _ ?x /\ _ => set (w' := x) end.
  assert (unrelated w w') as Hu.
  { constructor; try (by destruct w); [right; eexists; split_and!; [by destruct w|discriminate|done]|right].
    replace (w_db w') with db by (by destruct w). split; replace (w_db w') with db by (by destruct w).
    - intros Hn. apply Hs. intros i Hi'. destruct (Hw' i Hi') as [_ [?|?]]; done.
    - intros a Ha. apply Hs. intros i Hi'. by eapply good_info_mono, Hw'. }
  split_and!; [by apply unrelated_aside|by eapply unrelated_Inv|]. apply HQ.
Qed.

Lemma safe_repository_Delete r w0 ctx id (Q : option goerror -> res -> World -> Prop) :
  (forall x w', rely r w0 w' -> Q x r w') -> safe r w0 (repository_Delete ctx id) Q.
Proof.
  intros HQ. apply safe_unrelated; [|done]. intros e w. simpl.
  pose proof (fun P => stores_Delete P (ctx_Err ctx e) id (w_db w) (env_faults e)) as Hs.
  destruct (Delete _ _ _ _) as [[err db] f]. simpl in Hs. destruct w. constructor; wsimpl; try done.
  - right. eexists. split_and!; [done|discriminate|done].
  - right. split; simpl; [intros _|intros a _]; apply Hs.
Qed.

Lemma decodeRecord_info data record : decodeRecord data = Ok record -> is_Some (Record_Info record).
Proof. unfold decodeRecord. intros Hd. repeat case_match; by simplify_eq. Qed.

Lemma list_txn_info items t records t' :
  list_txn items t = (Ok records, t') -> Forall (fun x => is_Some (Record_Info x)) records.
Proof.
  revert t records. induction items as [|[k v] items IH]; intros t records Hl; simpl in Hl.
  - injection Hl as <- <-. constructor.
  - unfold txn_bind in Hl. destruct (txn_try (txn_ValueCopy v) t) as [[[d|]|] t1]; try done.
    destruct (decodeRecord d) as [x|] eqn:Ed; [|done].
    destruct (list_txn items t1) as [[l|] t2] eqn:El; [|done]. injection Hl as <- <-.
    constructor; [by eapply decodeRecord_info | by eapply IH].
Qed.

(** Listed records always carry an info. *)
Lemma safe_repository_List r w0 ctx (Q : result goerror (list MountRecord) -> res -> World -> Prop) :
  (forall x w', rely r w0 w' -> (forall l, x = Ok l -> Forall (fun y => is_Some (Record_Info y)) l) -> Q x r w') ->
  safe r w0 (repository_List ctx) Q.
Proof.
  intros HQ. apply safe_aside. intros tau e w Hr Hi. split_and!; [by constructor|by apply Inv_later|]. intros Hr'.
  apply HQ; [done|]. intros l. unfold List, db_View. destruct (ctx_Err ctx e); [done|].
  destruct (list_txn _ _) as [x t] eqn:E. simpl. intros ->. by eapply list_txn_info.
Qed.

(** While nothing else is served, the listed records are those of the start. *)
Lemma safe_repository_List_startup r w0 ctx (Q : result goerror (list MountRecord) -> res -> World -> Prop) :
  r_startup r = true -> sound (ceiling daemon) b_db ->
  (forall x w', rely r w0 w' -> (forall l, x = Ok l -> Forall (fun y => exists i, Record_Info y = Some i /\
      from_store i /\ good_info (ceiling daemon) i) l) -> Q x r w') ->
  safe r w0 (repository_List ctx) Q.
Proof.
  intros Hsu Hb HQ. apply safe_beside. intros tau e w Hr Hi Hh.
  split_and!; [by apply aside_beside|by apply Inv_later|]. intros Hr'. apply HQ; [done|]. intros l Hl.
  destruct Hh as (_ & _ & _ & _ & Hn & _). specialize (Hn Hsu). destruct (inv_startup _ _ _ Hi Hn) as [_ Hst].
  pose proof (inv_sound _ _ _ Hi (ceiling daemon) (Z.le_refl _) Hb) as Hso.
  assert (stores (fun i => from_store i /\ good_info (ceiling daemon) i) (w_db w)) as Hboth.
  { intros id data x Hd Hx. destruct (Hst id data x Hd Hx) as (i & Hi1 & Hid & Hf).
    destruct (Hso id data x Hd Hx) as (i' & Hi2 & _ & Hg). simplify_eq. by eexists. }
  eapply Forall_impl; [by eapply List_stores; [exact Hboth|exact Hl]|]. intros x (i & data & Hx & _ & _ & Hf & Hg). by exists i.
Qed.

(** A successful Create leaves its trace in the history. *)
Lemma safe_repository_Create r w0 ctx record (Q : option goerror -> res -> World -> Prop) :
  started w0 -> (forall i, Record_Info record = Some i -> writable daemon w0 i) ->
  (forall x w', rely r w0 w' -> (x = None -> FxCreate (info_id record) true ∈ w_history w') -> Q x r w') ->
  safe r w0 (repository_Create ctx record) Q.
Proof.
  intros Hst Hw HQ. apply safe_aside. intros tau e w Hr Hi. simpl.
  pose proof (fun P => stores_Create P (ctx_Err ctx e) record (w_db w) (env_faults e)) as Hs.
  destruct (Create _ _ _ _) as [[err db] f]. simpl in Hs. match goal with |- aside _ ?x /\ _ => set (w' := x) end.
  assert (unrelated w w') as Hu.
  { constructor; try (by destruct w); [right; eexists; split_and!; [by destruct w|discriminate|done]|right].
    split; replace (w_db w') with db by (by destruct w).
    - intros []. eapply started_mono; [apply Hr|done].
    - intros a Ha. apply Hs. intros i Hi'. by eapply good_info_mono, (Hw i Hi'). }
  split_and!; [by apply unrelated_aside|by eapply unrelated_Inv|]. intros Hr'. apply HQ; [done|].
  intros ->. subst w'. destruct w. wsimpl. apply elem_of_app. right. by apply list_elem_of_singleton.
Qed.

(** ** What follows from the logic alone *)

(** A program may count on the world having grown when it ends. *)
Lemma safe_grows {A} r w0 (p : prog A) (Q : A -> res -> World -> Prop) :
  safe r w0 p (fun x r' w' => mono w0 w' -> Q x r' w') -> safe r w0 p Q.
Proof.
  enough (forall w00, mono w00 w0 -> safe r w0 p (fun x r' w' => mono w00 w' -> Q x r' w') -> safe r w0 p Q) as H
    by (apply H, mono_refl).
  revert r w0. induction p as [a|R f k IH]; intros r w0 w00 M0 Hp; simpl in *; [by apply Hp|].
  intros tau e w Ht Hr Hi Hh. specialize (Hp tau e w Ht Hr Hi Hh). destruct (f e w) as [| |x w']; [done..|].
  destruct Hp as (Hi' & r' & sp & Hf & Hs). split; [done|]. exists r', sp. split; [done|]. apply (IH x r' w' w00); [|done].
  destruct (framed_others _ _ _ _ _ _ _ _ _ Hf no_res) as (_ & Hm & _); [symmetry; apply no_res_disj|apply no_res_holds|].
  eapply mono_trans; [exact M0|]. eapply mono_trans; [apply Hr|apply Hm].
Qed.

(** ** Owning less or more *)

Lemma within_sub r w s :
  r_locks s ⊆ r_locks r -> r_chans s ⊆ r_chans r -> r_fresh s ⊆ r_fresh r -> r_begun s ⊆ r_begun r ->
  (r_startup s = true -> r_startup r = true) -> (r_event s = true -> r_event r = true) -> within r w s.
Proof.
  intros H1 H2 H3 H4 H5 H6. split; [by left; apply H1|by left; apply H2|by left; apply H3| |done|auto]. intros e He. left. set_solver.
Qed.

Lemma within_unchan r w c : within r w (unchan_res c r).
Proof. apply within_sub; simpl; set_solver. Qed.

Lemma within_unlock r w e : within r w (unlock_res e r).
Proof. apply within_sub; simpl; set_solver. Qed.

(** ** Critical sections *)

(** A world where entry [e] was replaced by [m'] and possibly some channels
    changed. *)
Definition with_entry (e : entry_id) (m' : managedMount) (chans : list bool) (w : World) : World :=
  set_w_entries (<[e := m']> (w_entries w)) (set_w_chans chans w).

Lemma with_entry_entries e m' chans w : w_entries (with_entry e m' chans w) = <[e := m']> (w_entries w).
Proof. by destruct w. Qed.

Lemma with_entry_lookup e m m' chans w :
  w_entries w !! e = Some m -> w_entries (with_entry e m' chans w) !! e = Some m'.
Proof.
  intros He. destruct w. wsimpl. apply list_lookup_insert_eq. by eapply lookup_lt_Some.
Qed.

Lemma with_entry_other e m' chans w e' m :
  w_entries w !! e' = Some m -> e' <> e -> w_entries (with_entry e m' chans w) !! e' = Some m.
Proof. intros He Hne. rewrite with_entry_entries. by rewrite list_lookup_insert_ne. Qed.

Lemma with_entry_cases e m m' chans w e' x :
  w_entries w !! e = Some m -> w_entries (with_entry e m' chans w) !! e' = Some x ->
  (e' = e /\ x = m') \/ (e' <> e /\ w_entries w !! e' = Some x).
Proof.
  intros He Hx. destruct (decide (e' = e)) as [->|Hne].
  - rewrite (with_entry_lookup _ _ _ _ _ He) in Hx. left. by simplify_eq.
  - right. split; [done|]. rewrite with_entry_entries in Hx. by rewrite list_lookup_insert_ne in Hx.
Qed.

Lemma with_entry_mono e m m' chans w :
  w_entries w !! e = Some m -> entry_step m m' -> mono w (with_entry e m' chans w).
Proof.
  intros He Hs. split; [|by destruct w..]. intros e' x Hx. destruct (decide (e' = e)) as [->|Hne].
  - simplify_eq. exists m'. split; [by eapply with_entry_lookup | done].
  - exists x. split; [by apply with_entry_other | apply entry_step_refl].
Qed.

Lemma GetMountPath_config i j : MountInfo_Config i = MountInfo_Config j -> GetMountPath i = GetMountPath j.
Proof. unfold GetMountPath. by intros ->. Qed.

Lemma with_entry_Inv tau e m m' chans w :
  w_entries w !! e = Some m -> entry_step m m' -> entry_ok daemon (tau + 1) m' -> Inv tau w ->
  Inv (tau + 1) (with_entry e m' chans w).
Proof.
  intros He Hs Hok [i1 i2 i3 i4 i5 i6 i7 i8].
  pose proof (with_entry_mono e m m' chans w He Hs) as Hmono.
  assert (forall e' x, w_entries (with_entry e m' chans w) !! e' = Some x ->
            exists y, w_entries w !! e' = Some y /\ entry_step y x) as Hback.
  { intros e' x Hx. destruct (with_entry_cases _ _ _ _ _ _ _ He Hx) as [[-> ->]|[_ Hx']]; [eauto|].
    eauto using entry_step_refl. }
  split.
  - intros e' x Hx. destruct (with_entry_cases _ _ _ _ _ _ _ He Hx) as [[-> ->]|[_ Hx']]; [done|].
    apply entry_ok_later. eauto.
  - destruct i2 as [b1 b2 b3].
    assert (w_mounts (with_entry e m' chans w) = w_mounts w) as Em by (by destruct w). split; rewrite Em.
    + intros id e' Hid. destruct (b1 id e' Hid) as (x & Hx & Hxid). destruct (mono_entries _ _ Hmono e' x Hx) as (y & Hy & Hxy).
      exists y. split; [done|]. by rewrite (step_id _ _ Hxy).
    + intros id1 id2 e1 e2 m1 m2 H1 H2 Hm1 Hm2 Hp.
      destruct (Hback e1 m1 Hm1) as (y1 & Hy1 & S1). destruct (Hback e2 m2 Hm2) as (y2 & Hy2 & S2).
      rewrite (GetMountPath_config _ _ (step_config _ _ S1)), (GetMountPath_config _ _ (step_config _ _ S2)) in Hp.
      destruct (b2 _ _ _ _ _ _ H1 H2 Hy1 Hy2 Hp) as [->|[F1 F2]]; [by left|right].
      split; [by eapply from_store_same, F1; [apply S1|apply S1]|by eapply from_store_same, F2; [apply S2|apply S2]].
    + done.
  - intros f Hf. apply (pre_mono daemon _ _ w); [done|]. apply i3. by destruct w.
  - intros id x Hx. apply (i4 id). by destruct w.
  - by destruct w.
  - by destruct w.
  - intros Hn. assert (~ started w) as Hn' by (intros ?; by apply Hn, (started_mono w)). destruct (i7 Hn') as [s1 s2].
    split; [|by destruct w]. intros e' x Hx. destruct (Hback e' x Hx) as (y & Hy & S).
    by eapply from_store_same, s1, Hy; apply S.
  - by destruct w.
Qed.

(** What a section does to an entry of a thread that owns [r]. *)
Record section_ok (tau : Z) (r : res) (e : entry_id) (m m' : managedMount) : Prop := {
  sec_step : entry_step m m';
  sec_ok : entry_ok daemon (tau + 1) m';
  sec_operation : mm_operation m' = mm_operation m;
  sec_prot : e ∉ r_locks r -> prot m' = prot m;
  sec_exitDone : e ∉ r_begun r -> mm_exitDone m' = mm_exitDone m
}.

Lemma with_entry_scheduled e m' chans w e' : scheduled (with_entry e m' chans w) e' <-> scheduled w e'.
Proof. by destruct w. Qed.

Lemma with_entry_started e m' chans w : started (with_entry e m' chans w) <-> started w.
Proof. by destruct w. Qed.

Lemma with_entry_valid e m m' chans w e' :
  w_entries w !! e = Some m -> is_Some (w_entries w !! e') -> is_Some (w_entries (with_entry e m' chans w) !! e').
Proof.
  intros He [x Hx]. destruct (decide (e' = e)) as [->|Hne]; [by eexists; eapply with_entry_lookup|].
  exists x. by apply with_entry_other.
Qed.

(** The parts of [holds] and [undisturbed] that do not depend on mutexes. *)
Lemma with_entry_holds_rest r e m m' chans w :
  w_entries w !! e = Some m -> holds r w -> let w' := with_entry e m' chans w in
  (forall e, e ∈ r_fresh r -> is_Some (w_entries w' !! e) /\ ~ scheduled w' e) /\
  (forall e, e ∈ r_begun r -> is_Some (w_entries w' !! e)) /\
  (r_startup r = true -> ~ started w') /\
  (r_event r = true -> w_eventMutex w' = true).
Proof.
  intros He (_ & _ & h3 & h4 & h5 & h6) w'. subst w'. split_and!.
  - intros e' He'. destruct (h3 e' He') as [Hv Hs]. split; [by eapply with_entry_valid|by rewrite with_entry_scheduled].
  - intros e' He'. eapply with_entry_valid; [done|auto].
  - intros Hsu. by rewrite with_entry_started; auto.
  - intros Hev. destruct w. by apply h6.
Qed.

Lemma with_entry_undisturbed r tau e m m' chans w :
  w_entries w !! e = Some m -> section_ok tau r e m m' ->
  (forall c, c ∉ r_chans r -> w_chans w !! c = Some false -> chans !! c = Some false) ->
  undisturbed r w (with_entry e m' chans w).
Proof.
  intros He [a b c d f] Hc. split.
  - intros e' x Hx Hr Ht. destruct (decide (e' = e)) as [->|Hne].
    + simplify_eq. exists m'. split_and!; [by eapply with_entry_lookup|congruence|by apply d].
    + exists x. split_and!; [by apply with_entry_other|done..].
  - intros x Hx Ho. replace (w_chans (with_entry e m' chans w)) with chans by (by destruct w). by apply Hc.
  - intros e' x Hx Hf Hb Hs. destruct (decide (e' = e)) as [->|Hne].
    + simplify_eq. exists m'. split_and!; [by eapply with_entry_lookup|by apply f|by rewrite with_entry_scheduled].
    + exists x. split_and!; [by apply with_entry_other|done|by rewrite with_entry_scheduled].
  - intros _. by rewrite with_entry_started.
  - intros _. by destruct w.
Qed.

Lemma with_entry_holds r tau e m m' chans w :
  w_entries w !! e = Some m -> section_ok tau r e m m' -> holds r w ->
  (forall c, c ∈ r_chans r -> chans !! c = Some false) -> holds r (with_entry e m' chans w).
Proof.
  intros He [a b c d f] Hh Hc. pose proof Hh as (h1 & h2 & _).
  split; [|split; [|exact (with_entry_holds_rest r e m m' chans w He Hh)]].
  - intros e' He'. destruct (h1 e' He') as (x & Hx & Ht). destruct (decide (e' = e)) as [->|Hne].
    + simplify_eq. exists m'. split; [by eapply with_entry_lookup | congruence].
    + exists x. split; [by apply with_entry_other | done].
  - intros c' Hc'. replace (w_chans (with_entry e m' chans w)) with chans by (by destruct w). by apply Hc.
Qed.

Lemma valid_rely r w w' e : rely r w w' -> valid w e -> valid w' e.
Proof. intros [Hm _]. by apply valid_mono. Qed.

(** A change of one entry, as others rely on it. *)
Lemma with_entry_rely r e m m' chans w :
  w_entries w !! e = Some m -> entry_step m m' -> prot m' = prot m -> rely r w (with_entry e m' chans w).
Proof.
  intros He Hs Hp. split; [by eapply with_entry_mono|]. assert (forall e' y, w_entries w !! e' = Some y ->
    exists y', w_entries (with_entry e m' chans w) !! e' = Some y' /\ prot y' = prot y) as Hk.
  { intros e' y Hy. destruct (decide (e' = e)) as [->|Hne].
    - rewrite He in Hy. injection Hy as <-. exists m'. split; [by eapply with_entry_lookup | exact Hp].
    - exists y. split; [by apply with_entry_other | done]. }
  split; [eauto|]. intros e' y _ Hy. destruct (Hk e' y Hy) as (y' & Hy' & E). exists y'. split; [done|].
  unfold prot in E. by injection E.
Qed.

(** The rule of a section that closes no channel. *)
Lemma safe_locked {A} r w0 e (f : env -> managedMount -> A * managedMount) (Q : A -> res -> World -> Prop) :
  valid w0 e ->
  (forall tau en w m, 0 <= tau < limit -> rely r w0 w -> Inv tau w -> w_entries w !! e = Some m ->
     section_ok tau r e m (f en m).2 /\
     forall w', mono w w' -> w_entries w' !! e = Some (f en m).2 -> Inv (tau + 1) w' ->
       (prot (f en m).2 = prot m -> rely r w0 w') -> Q (f en m).1 r w') ->
  safe r w0 (locked e f) Q.
Proof.
  intros Hv Hf tau en w Ht Hr Hi Hh. destruct (valid_rely _ _ _ _ Hr Hv) as [m He]. simpl. rewrite He.
  specialize (Hf tau en w m Ht Hr Hi He). destruct (f en m) as [x m']. simpl in Hf. destruct Hf as [Hs HQ].
  assert (set_w_entries (<[e := m']> (w_entries w)) w = with_entry e m' (w_chans w) w) as -> by (by destruct w).
  pose proof (with_entry_mono e m m' (w_chans w) w He (sec_step _ _ _ _ _ Hs)) as Hmono.
  assert (Inv (tau + 1) (with_entry e m' (w_chans w) w)) as Hi' by (by eapply with_entry_Inv; eauto using sec_step, sec_ok).
  split; [done|]. exists r, []. split.
  - apply framed_same; [done| | |].
    + by eapply with_entry_undisturbed.
    + by destruct w.
    + eapply with_entry_holds; [done..|]. apply Hh.
  - apply HQ; [done|by eapply with_entry_lookup|done|]. intros Hp. eapply rely_trans; [exact Hr|].
    eapply with_entry_rely; [done|apply Hs|done].
Qed.

(** The rule of a section that closes a channel the thread owns. *)
Lemma safe_section_close {A} r w0 e (f : env -> managedMount -> A * managedMount * option chan)
    (Q : A -> res -> World -> Prop) :
  valid w0 e ->
  (forall tau en w m, 0 <= tau < limit -> rely r w0 w -> Inv tau w -> w_entries w !! e = Some m ->
     exists x m' c, f en m = (x, m', Some c) /\ c ∈ r_chans r /\ section_ok tau r e m m' /\
     forall w', mono w w' -> w_entries w' !! e = Some m' ->
       (prot m' = prot m -> rely (unchan_res c r) w0 w') -> Q x (unchan_res c r) w') ->
  safe r w0 (section e f) Q.
Proof.
  intros Hv Hf tau en w Ht Hr Hi Hh. destruct (valid_rely _ _ _ _ Hr Hv) as [m He]. simpl. rewrite He.
  destruct (Hf tau en w m Ht Hr Hi He) as (x & m' & c & -> & Hc & Hs & HQ).
  pose proof Hh as (h1 & h2 & h3). rewrite (h2 c Hc).
  set (chans := <[c := true]> (w_chans w)).
  assert (set_w_chans chans (set_w_entries (<[e := m']> (w_entries w)) w) = with_entry e m' chans w) as ->
    by (by destruct w).
  pose proof (with_entry_mono e m m' chans w He (sec_step _ _ _ _ _ Hs)) as Hmono.
  assert (section_ok tau (unchan_res c r) e m m') as Hs' by (destruct Hs; by constructor).
  assert (forall c', c' ≠ c -> w_chans w !! c' = Some false -> chans !! c' = Some false) as Hkeep
    by (intros c' Hne Ho; unfold chans; by rewrite list_lookup_insert_ne).
  split; [by eapply with_entry_Inv; eauto using sec_step, sec_ok|]. exists (unchan_res c r), []. split.
  - apply (framed_intro daemon _ _ [] []); [done| | |constructor| |by repeat split].
    + eapply with_entry_undisturbed; [done..|]. intros c' Hc' Ho. apply Hkeep; [|done]. intros E. apply Hc'. by rewrite E.
    + rewrite app_nil_r. by destruct w.
    + constructor; [|constructor]. split.
      * eapply with_entry_holds; [done|exact Hs'|split; [done|]; split; [|done]; simpl; intros c' Hc'; apply h2; set_solver|].
        simpl. intros c' Hc'. apply elem_of_difference in Hc' as [Hc' Hne].
        apply Hkeep; [set_solver | by apply h2].
      * by apply within_unchan.
  - apply HQ; [done|by eapply with_entry_lookup|]. intros Hp. eapply (rely_trans _ _ w); [by eapply rely_weaken, Hr|].
    eapply with_entry_rely; [done|apply Hs|done].
Qed.

(** Reading an entry. *)
Lemma safe_reading {A} r w0 e (f : managedMount -> A) (Q : A -> res -> World -> Prop) :
  valid w0 e ->
  (forall tau w m, rely r w0 w -> Inv tau w -> w_entries w !! e = Some m -> Q (f m) r w) ->
  safe r w0 (reading e f) Q.
Proof.
  intros Hv HQ tau en w Ht Hr Hi Hh. destruct (valid_rely _ _ _ _ Hr Hv) as [m He]. simpl. rewrite He.
  replace (set_w_entries (<[e := m]> (w_entries w)) w) with w
    by (destruct w; unfold set_w_entries; wsimpl; by rewrite list_insert_id).
  split; [by apply Inv_later|]. exists r, []. split; [by apply framed_refl|]. by eapply HQ.
Qed.

(** ** The operation mutex *)

(** A thread that holds the mutex of [e] knows its channel and generation. *)
Definition owns (r : res) (w : World) (e : entry_id) (c : chan) (g : Z) : Prop :=
  e ∈ r_locks r /\ exists m, w_entries w !! e = Some m /\ mm_exitDone m = c /\ mm_generation m = g.

Lemma owns_rely r w w' e c g : rely r w w' -> owns r w e c g -> owns r w' e c g.
Proof.
  intros (_ & Hp & _) (He & m & Hm & <- & <-). split; [done|]. destruct (Hp e m He Hm) as (m' & Hm' & Epr).
  exists m'. split; [done|]. unfold prot in Epr. by injection Epr as -> -> _.
Qed.

Lemma operation_step b m : entry_step m (set_mm_operation b m).
Proof. by destruct m; constructor. Qed.

Lemma operation_ok tau b m : entry_ok daemon tau m -> entry_ok daemon (tau + 1) (set_mm_operation b m).
Proof. intros [o1 o2 o3 o4]. destruct m; constructor; simpl in *; [lia|done..]. Qed.

Lemma set_entries_with_entry e m w : set_w_entries (<[e := m]> (w_entries w)) w = with_entry e m (w_chans w) w.
Proof. by destruct w. Qed.

(** Taking or releasing the mutex of [e]: nothing of others is disturbed. *)
Lemma operation_undisturbed r e m b w :
  w_entries w !! e = Some m -> (mm_operation m = true -> e ∈ r_locks r) ->
  undisturbed r w (with_entry e (set_mm_operation b m) (w_chans w) w).
Proof.
  intros Hm Hop. split.
  - intros e' x Hx Hr Hop'. exists x. split_and!; [|done..]. apply with_entry_other; [done|].
    intros ->. simplify_eq. by apply Hr, Hop.
  - intros c _ Ho. by destruct w.
  - intros e' x Hx _ _ Hs. destruct (decide (e' = e)) as [->|Hne].
    + simplify_eq. eexists. split_and!; [by eapply with_entry_lookup|by destruct m|by rewrite with_entry_scheduled].
    + exists x. split_and!; [by apply with_entry_other|done|by rewrite with_entry_scheduled].
  - intros _. by rewrite with_entry_started.
  - intros _. by destruct w.
Qed.

(** What the thread may begin once it has the mutex. *)
Definition may_begin (r : res) (w : World) (e : entry_id) : Prop := e ∈ r_fresh r \/ scheduled w e.

Lemma lock_holds r e m w :
  w_entries w !! e = Some m -> mm_operation m = false -> holds r w ->
  holds (lock_res e r) (with_entry e (set_mm_operation true m) (w_chans w) w).
Proof.
  intros Hm Eop Hh. pose proof Hh as (h1 & h2 & _).
  split; [|split; [|exact (with_entry_holds_rest r e m _ (w_chans w) w Hm Hh)]]; simpl.
  - intros e' [->%elem_of_singleton|He']%elem_of_union.
    + exists (set_mm_operation true m). split; [by eapply with_entry_lookup | by destruct m].
    + destruct (h1 e' He') as (x & Hx & Hop). exists x. split; [|done]. apply with_entry_other; [done|]. intros ->. congruence.
  - intros c Hc. by destruct w; apply h2.
Qed.

(** The common part of the two rules for taking the mutex. *)
Lemma safe_lock_as r r' w0 e (Q : unit -> res -> World -> Prop) :
  valid w0 e ->
  (forall w m, rely r w0 w -> w_entries w !! e = Some m -> mm_operation m = false -> holds r w ->
     holds r' (with_entry e (set_mm_operation true m) (w_chans w) w) /\ within r w r') ->
  (forall w m, rely r w0 w -> w_entries w !! e = Some m -> Q tt r' (with_entry e (set_mm_operation true m) (w_chans w) w)) ->
  safe r w0 (operation_Lock e) Q.
Proof.
  intros Hv Hr' HQ tau en w Ht Hr Hi Hh. destruct (valid_rely _ _ _ _ Hr Hv) as [m Hm]. simpl. rewrite Hm.
  destruct (mm_operation m) eqn:Eop; [done|]. rewrite set_entries_with_entry.
  pose proof (with_entry_mono e m _ (w_chans w) w Hm (operation_step true m)) as Hmono.
  split; [eapply with_entry_Inv; eauto using operation_step; by eapply operation_ok, (inv_entries _ _ _ Hi)|].
  exists r', []. split; [|by apply HQ].
  apply (framed_intro daemon _ _ [] []); [done|apply operation_undisturbed; [done|congruence]| |constructor| |by repeat split].
  - rewrite app_nil_r. by destruct w.
  - constructor; [|constructor]. by apply Hr'.
Qed.

Lemma within_lock r e w m : w_entries w !! e = Some m -> mm_operation m = false -> within r w (lock_res e r).
Proof.
  intros Hm Eop. split; simpl; [|by left|by left|intros e' He'; left; set_solver|done|by left].
  intros e' [->%elem_of_singleton|He']%elem_of_union; [|by left]. right. intros x Hx. by simplify_eq.
Qed.

Lemma safe_operation_Lock r w0 e (Q : unit -> res -> World -> Prop) :
  valid w0 e -> (forall w', mono w0 w' -> Q tt (lock_res e r) w') -> safe r w0 (operation_Lock e) Q.
Proof.
  intros Hv HQ. apply (safe_lock_as r (lock_res e r)); [done| |].
  - intros w m Hr Hm Eop Hh. split; [by apply lock_holds|by eapply within_lock].
  - intros w m Hr Hm. apply HQ. eapply mono_trans; [apply Hr|]. by eapply with_entry_mono; [|apply operation_step].
Qed.

(** The mutex of an entry whose next attempt is the thread's to begin. *)
Lemma safe_operation_Lock_begin r w0 e (Q : unit -> res -> World -> Prop) :
  valid w0 e -> may_begin r w0 e ->
  (forall w' m m', mono w0 w' -> w_entries w0 !! e = Some m -> w_entries w' !! e = Some m' ->
     (e ∈ r_fresh r -> mm_exitDone m' = mm_exitDone m) -> Q tt (lock_res e (begin_res e r)) w') ->
  safe r w0 (operation_Lock e) Q.
Proof.
  intros Hv Hb HQ. apply (safe_lock_as r (lock_res e (begin_res e r))); [done| |].
  - intros w m Hr Hm Eop Hh. split.
    + apply lock_holds; [done..|]. destruct Hh as (h1 & h2 & h3 & h4 & h5 & h6). split_and!; simpl; [done|done| | |done|done].
      * intros e' [He' _]%elem_of_difference. by apply h3.
      * intros e' [->%elem_of_singleton|He']%elem_of_union; [by exists m|by apply h4].
    + pose proof (within_lock r e w m Hm Eop) as [W1 W2 W3 W4 W5 W6]. split; simpl; [done|done| | |done|done].
      * intros e' [He' _]%elem_of_difference. by left.
      * intros e' [->%elem_of_singleton|He']%elem_of_union; [|left; set_solver].
        destruct Hb as [Hb|Hb]; [left; set_solver|right; right; eapply scheduled_mono; [apply Hr|done]].
  - intros w m Hr Hm. destruct Hv as [m0 Hm0]. eapply HQ; [|exact Hm0|by eapply with_entry_lookup|].
    + eapply mono_trans; [apply Hr|]. by eapply with_entry_mono; [|apply operation_step].
    + intros Hf. destruct Hr as (_ & _ & Hfr). destruct (Hfr e m0 Hf Hm0) as (m1 & Hm1 & E). rewrite Hm in Hm1. injection Hm1 as <-. by destruct m.
Qed.

Lemma safe_operation_Unlock r w0 e (Q : unit -> res -> World -> Prop) :
  e ∈ r_locks r -> (forall w', mono w0 w' -> Q tt (unlock_res e r) w') -> safe r w0 (operation_Unlock e) Q.
Proof.
  intros He HQ tau en w Ht Hr Hi Hh. pose proof Hh as (h1 & h2 & _). destruct (h1 e He) as (m & Hm & Hop).
  simpl. rewrite Hm, Hop. rewrite set_entries_with_entry.
  pose proof (with_entry_mono e m _ (w_chans w) w Hm (operation_step false m)) as Hmono.
  split; [eapply with_entry_Inv; eauto using operation_step; by eapply operation_ok, (inv_entries _ _ _ Hi)|].
  exists (unlock_res e r), []. split.
  - apply (framed_intro daemon _ _ [] []); [done|by apply operation_undisturbed| |constructor| |by repeat split].
    + rewrite app_nil_r. by destruct w.
    + constructor; [|constructor]. split; [|apply within_unlock].
      split; [|split; [|exact (with_entry_holds_rest (unlock_res e r) e m _ (w_chans w) w Hm
        (conj (fun e' He' => h1 e' (proj1 (proj1 (elem_of_difference _ _ _) He'))) (proj2 Hh)))]]; simpl.
      * intros e' [He' Hne]%elem_of_difference. destruct (h1 e' He') as (x & Hx & Hop'). exists x.
        split; [|done]. apply with_entry_other; [done|]. set_solver.
      * intros c Hc. by destruct w; apply h2.
  - apply HQ. eapply mono_trans; [apply Hr | done].
Qed.

(** ** Goroutines and timers *)

Lemma safe_go r r' s w0 t (Q : unit -> res -> World -> Prop) :
  (forall w, mono w0 w -> pre daemon t s w) ->
  (forall w, within r w r' /\ within r w s) -> r_begun r' ∪ r_begun s ⊆ r_begun r ->
  r_locks r' ∪ r_locks s ⊆ r_locks r -> r_chans r' ∪ r_chans s ⊆ r_chans r -> r_fresh r' ∪ r_fresh s ⊆ r_fresh r -> disj r' s ->
  (r_event r' = true \/ r_event s = true -> r_event r = true) ->
  (forall w', rely r w0 w' -> Q tt r' w') -> safe r w0 (go t) Q.
Proof.
  intros Hpre Hw Hb Hl Hc Hf Hd Hevent HQ tau en w Ht Hr Hi Hh. simpl.
  set (w' := set_w_ready (w_ready w ++ [t]) w).
  assert (w_entries w' = w_entries w /\ w_chans w' = w_chans w /\ w_timers w' = w_timers w /\ w_replies w' = w_replies w)
    as (E1 & E2 & E3 & E4) by (by destruct w).
  assert (mono w w') as Hmono by (split; [rewrite E1; eauto using entry_step_refl | by destruct w..]).
  assert (forall e, scheduled w' e <-> scheduled w e) as Hsch by (intros e; unfold scheduled; by rewrite E3).
  assert (started w' <-> started w) as Hsta by (unfold started; by rewrite E4).
  split.
  { eapply (Inv_beside daemon tau w); [done|done|by destruct w|apply db_step_same; by destruct w|done| | |by rewrite E4;
    apply (inv_replies _ _ _ Hi)|].
    - intros f Hf'. rewrite E3 in Hf'. apply (pre_mono daemon _ _ w); [done|]. by apply (inv_timers _ _ _ Hi).
    - intros id x Hx. apply (inv_subscribers _ _ _ Hi id). by destruct w.
    - pose proof (inv_history _ _ _ Hi). by destruct w. }
  exists r', [s]. split.
  - apply (framed_intro daemon _ _ _ [t]); [done| |by destruct w| | |].
    + split; rewrite ?E1, ?E2; [|done| |by rewrite Hsta|by destruct w]; intros e m He; [intros _ Hop|intros _ _ Hs]; exists m; by rewrite ?Hsch.
    + constructor; [|constructor]. apply Hpre. eapply mono_trans; [apply Hr | done].
    + assert (forall x, within r w x -> r_begun x ⊆ r_begun r -> r_locks x ⊆ r_locks r -> r_chans x ⊆ r_chans r -> r_fresh x ⊆ r_fresh r ->
                (r_event x = true -> r_event r = true) -> holds x w' /\ within r w x) as Hsub.
      { intros x Hx H0 H1 H2 H3 H4. destruct Hh as (h1 & h2 & h3 & h4 & h5 & h6). split; [|done]. split_and!; rewrite ?E1, ?E2.
        - intros e He. by apply h1, H1.
        - intros c Hc'. by apply h2, H2.
        - intros e He. rewrite Hsch. by apply h3, H3.
        - intros e He. by apply h4, H0.
        - intros Hsu. rewrite Hsta. by apply h5, (in_startup _ _ _ Hx).
        - intros Hev. replace (w_eventMutex w') with (w_eventMutex w) by (by destruct w). by apply h6, H4. }
      constructor; [|constructor; [|constructor]]; apply Hsub; try apply Hw; set_solver.
    + simpl. split; [|by split]. by constructor.
  - apply HQ. eapply rely_trans; [exact Hr|]. split; [done|]. rewrite E1. split; eauto.
Qed.

(** A timer for a retry of a mount belongs to an attempt that has begun. *)
Lemma safe_AfterFunc r w0 t (Q : timer_id -> res -> World -> Prop) :
  (forall w, mono w0 w -> t ∈ timer_func <$> w_timers w -> pre daemon t no_res w) ->
  (forall e g, t = TRetryMount e g -> e ∈ r_begun r /\ e ∉ r_fresh r) ->
  (forall x w', rely r w0 w' -> Q x r w') -> safe r w0 (AfterFunc t) Q.
Proof.
  intros Hpre Hbeg HQ. apply safe_beside. intros tau en w Hr Hi _.
  set (w' := set_w_timers (w_timers w ++ [mkTimer true t]) w).
  assert (w_timers w' = w_timers w ++ [mkTimer true t]) as Et by (by destruct w).
  assert (timer_func <$> w_timers w' = (timer_func <$> w_timers w) ++ [t]) as Ef by (by rewrite Et, fmap_app).
  assert (beside r w w') as Hb.
  { split; try (by destruct w).
    - rewrite Ef. by eexists.
    - intros e [g Hg]. rewrite Ef in Hg. apply elem_of_app in Hg as [Hg|Hg%list_elem_of_singleton]; [left; by exists g|right].
      by eapply Hbeg. }
  pose proof (beside_mono _ _ _ Hb) as Hmono. split_and!; [done| |apply HQ].
  eapply (Inv_beside daemon tau w); [done|by destruct w|by destruct w|apply db_step_same; by destruct w|done| | | |].
  - intros f Hf. rewrite Ef in Hf. apply elem_of_app in Hf as [Hf|Hf%list_elem_of_singleton]; [|subst f].
    + apply (pre_mono daemon _ _ w); [done|]. by apply (inv_timers _ _ _ Hi).
    + apply Hpre; [eapply mono_trans; [apply Hr|done]|]. rewrite Ef. apply elem_of_app. right. by left.
  - intros id x Hx. apply (inv_subscribers _ _ _ Hi id). by destruct w.
  - pose proof (inv_replies _ _ _ Hi). by destruct w.
  - pose proof (inv_history _ _ _ Hi). by destruct w.
Qed.

Lemma safe_Timer_Stop r w0 t (Q : unit -> res -> World -> Prop) :
  (forall w', rely r w0 w' -> Q tt r w') -> safe r w0 (Timer_Stop t) Q.
Proof.
  intros HQ. apply safe_aside. intros tau en w Hr Hi.
  set (w' := set_w_timers (alter (fun x => mkTimer false (timer_func x)) t (w_timers w)) w).
  assert (w_timers w' = alter (fun x => mkTimer false (timer_func x)) t (w_timers w)) as Et by (by destruct w).
  assert (aside w w') as Ha.
  { split; try (by destruct w). rewrite Et. apply list_eq. intros i. rewrite !list_lookup_fmap.
    destruct (decide (t = i)) as [->|Hne]; [|by rewrite list_lookup_alter_ne].
    rewrite list_lookup_alter_eq. by destruct (w_timers w !! i) as [[]|]. }
  split_and!; [done| |apply HQ]. pose proof Hi as [i1 i2 i3 i4 i5 i6 i7 i8].
  eapply Inv_aside; [done|by destruct w|by destruct w|exact Hi|by destruct w..].
Qed.

(** ** Events and replies *)

Lemma deliver_ok ev sub : redacted (MountEvent_Mount ev) -> subscriber_ok sub -> subscriber_ok (deliver ev sub).
Proof.
  intros Hev [Hl Hf]. unfold deliver. destruct (matches _ _); simpl; [|done].
  case_bool_decide as Hlt; [|done]. split; simpl.
  - rewrite length_app. simpl. lia.
  - apply Forall_app. by repeat constructor.
Qed.

Lemma safe_publish r w0 t info (Q : unit -> res -> World -> Prop) :
  redacted info -> (forall w', rely r w0 w' -> Q tt r w') -> safe r w0 (publishMountEvent t (Some info)) Q.
Proof.
  intros Hred HQ. apply safe_aside. intros tau en w Hr Hi. destruct (w_eventMutex w); [done|].
  set (w' := record_effect _ _). assert (aside w w') as Ha by (destruct w; constructor; try done; by eexists [_]).
  split_and!; [done| |apply HQ]. pose proof Hi as [i1 i2 i3 i4 i5 i6 i7 i8].
  eapply Inv_aside; [done|by destruct w|by destruct w|exact Hi| |].
  2: { apply (recorded_ok w); [|done]. right. exists (FxPublish (mkMountEvent t info)). destruct w. by split_and!. }
  - intros id x Hx. replace (w_subscribers w') with (deliver (mkMountEvent t info) <$> w_subscribers w) in Hx by (by destruct w).
    rewrite lookup_fmap in Hx. destruct (w_subscribers w !! id) as [y|] eqn:Ey; [|done]. simpl in Hx.
    injection Hx as <-. apply deliver_ok; [done | by apply (i4 id)].
Qed.

(** What a reply does to the invariant. *)
Lemma reply_Inv tau w w' rep :
  Forall redacted (reply_mounts rep) -> w' = set_w_replies (w_replies w ++ [rep]) w -> Inv tau w ->
  mono w w' /\ Inv (tau + 1) w'.
Proof.
  intros Hred -> Hi. set (w' := set_w_replies _ w).
  assert (w_replies w' = w_replies w ++ [rep]) as Er by (by destruct w).
  assert (mono w w') as Hmono.
  { split; try (by destruct w); [destruct w; eauto using entry_step_refl|rewrite Er; by eexists]. }
  split; [done|]. eapply (Inv_beside daemon tau w); [done|by destruct w|by destruct w|apply db_step_same; by destruct w|done| | | |].
  - intros f Hf. apply (pre_mono daemon _ _ w); [done|]. apply (inv_timers _ _ _ Hi). by destruct w.
  - intros id x Hx. apply (inv_subscribers _ _ _ Hi id). by destruct w.
  - rewrite Er. apply Forall_app. split; [apply (inv_replies _ _ _ Hi)|by repeat constructor].
  - pose proof (inv_history _ _ _ Hi). by destruct w.
Qed.

Lemma safe_replying r w0 rep (Q : unit -> res -> World -> Prop) :
  started w0 -> Forall redacted (reply_mounts rep) -> (forall w', rely r w0 w' -> Q tt r w') -> safe r w0 (replying rep) Q.
Proof.
  intros Hst Hred HQ. apply safe_beside. intros tau en w Hr Hi _. destruct (reply_Inv tau w _ rep Hred eq_refl Hi) as [Hm Hi'].
  split_and!; [|done|apply HQ]. split; try (by destruct w); try apply Hm.
  - intros e He. left. by destruct w.
  - intros _. eapply started_mono; [apply Hr|done].
Qed.

(** The answer of Reconcile, after which requests are served. *)
Lemma safe_replying_startup r w0 rep (Q : unit -> res -> World -> Prop) :
  r_startup r = true -> Forall redacted (reply_mounts rep) -> (forall w', mono w0 w' -> Q tt (end_startup r) w') ->
  safe r w0 (replying rep) Q.
Proof.
  intros Hsu Hred HQ tau en w Ht Hr Hi Hh. simpl. destruct (reply_Inv tau w _ rep Hred eq_refl Hi) as [Hm Hi'].
  set (w' := set_w_replies _ w) in *. split; [done|].
  assert (w_entries w' = w_entries w /\ w_chans w' = w_chans w /\ w_timers w' = w_timers w) as (E1 & E2 & E3) by (by destruct w).
  assert (forall e, scheduled w' e <-> scheduled w e) as Hsch by (intros e; unfold scheduled; by rewrite E3).
  exists (end_startup r), []. split; [|apply HQ; eapply mono_trans; [apply Hr|done]].
  apply (framed_intro daemon _ _ [] []); [done| |by destruct w; rewrite app_nil_r|constructor| |by repeat split].
  - split; rewrite ?E1, ?E2, ?Hsu; [|done| |done|by destruct w]; intros e m He; [intros _ Hop|intros _ _ Hs]; exists m; by rewrite ?Hsch.
  - constructor; [|constructor]. split; [|by apply within_sub]. destruct Hh as (h1 & h2 & h3 & h4 & h5 & h6).
    split_and!; rewrite ?E1, ?E2; [done|done| |done|done|by destruct w]. simpl. intros e He. rewrite Hsch. by apply h3.
Qed.

(** A process may be started for an entry whose record was created. *)
Lemma safe_command_Start r w0 id cmd (Q : result goerror proc_id -> res -> World -> Prop) :
  known w0 id -> (forall x w', rely r w0 w' -> Q x r w') -> safe r w0 (command_Start id cmd) Q.
Proof.
  intros Hc HQ. apply safe_aside. intros tau en w Hr Hi. destruct (env_err en) as [err|].
  - split_and!; [by constructor|by apply Inv_later|apply HQ].
  - match goal with |- aside _ ?x /\ _ => set (w' := x) end.
    assert (aside w w') as Ha by (destruct w; constructor; try done; by eexists [_]). split_and!; [done| |apply HQ].
    pose proof Hi as [i1 i2 i3 i4 i5 i6 i7 i8].
    eapply Inv_aside; [done|by destruct w|by destruct w|exact Hi|by destruct w|].
    + replace (w_history w') with (w_history w ++ [FxStart id cmd]) by (by destruct w).
      apply history_ok_snoc; [done| |done]. intros id' cmd' [= <- <-]. eapply known_mono; [apply Hr|done].
Qed.

(** Actions that only look at the world. *)
Lemma safe_observe {A} r w0 (f : action A) (Q : A -> res -> World -> Prop) :
  (forall e w, match f e w with Blocked => True | Panics => False | Next _ w' => w' = w end) ->
  (forall x w', rely r w0 w' -> Q x r w') -> safe r w0 (act f) Q.
Proof.
  intros Hf HQ. apply safe_unrelated; [|done]. intros e w. specialize (Hf e w). destruct (f e w); [done..|].
  subst. constructor; try done; by left.
Qed.

(** ** New entries *)

Lemma alloc_mono m w e w' : alloc m w = (e, w') -> mono w w'.
Proof.
  intros [= <- <-]. split; [|by destruct w..]. intros e x Hx. exists x. split; [|apply entry_step_refl].
  destruct w. by apply lookup_app_l_Some.
Qed.

Lemma alloc_lookup m w e w' :
  alloc m w = (e, w') -> w_entries w' !! e = Some (m (length (w_chans w))) /\ w_entries w !! e = None.
Proof.
  intros [= <- <-]. split; [|apply lookup_ge_None; lia]. destruct w. wsimpl. by apply list_lookup_middle.
Qed.

Lemma alloc_cases m w e w' e' x :
  alloc m w = (e, w') -> w_entries w' !! e' = Some x ->
  w_entries w !! e' = Some x \/ (e' = e /\ x = m (length (w_chans w))).
Proof.
  intros [= <- <-] Hx. replace (w_entries _) with (w_entries w ++ [m (length (w_chans w))]) in Hx by (by destruct w).
  apply lookup_app_Some in Hx as [Hx|[Hl Hx]]; [by left|]. right.
  apply list_lookup_singleton_Some in Hx as [Hx <-]. split; [lia | done].
Qed.

Lemma alloc_Inv tau m w e w' :
  alloc m w = (e, w') -> entry_ok daemon (tau + 1) (m (length (w_chans w))) ->
  started w \/ from_store (mm_info (m (length (w_chans w)))) -> Inv tau w -> Inv (tau + 1) w'.
Proof.
  intros Ha Hok Hst [i1 i2 i3 i4 i5 i6 i7 i8]. pose proof (alloc_mono _ _ _ _ Ha) as Hmono.
  assert (w_mounts w' = w_mounts w /\ w_timers w' = w_timers w /\ w_subscribers w' = w_subscribers w /\
          w_replies w' = w_replies w /\ w_history w' = w_history w /\ w_db w' = w_db w) as (E1 & E2 & E3 & E4 & E5 & E6)
    by (injection Ha as _ <-; by destruct w).
  split; rewrite ?E2, ?E3, ?E4, ?E5, ?E6; [| | |done..| |done].
  - intros e' x Hx. destruct (alloc_cases _ _ _ _ _ _ Ha Hx) as [Hx'|[_ ->]]; [|done]. by eapply entry_ok_later, i1.
  - destruct i2 as [b1 b2 b3].
    assert (forall id e' x, w_mounts w !! id = Some e' -> w_entries w' !! e' = Some x -> w_entries w !! e' = Some x) as Hold.
    { intros id e' x Hid Hx. destruct (alloc_cases _ _ _ _ _ _ Ha Hx) as [Hx'|[-> _]]; [done|].
      destruct (b1 id _ Hid) as (y & Hy & _). destruct (alloc_lookup _ _ _ _ Ha). congruence. }
    split; rewrite E1; [| |done].
    + intros id e' Hid. destruct (b1 id e' Hid) as (x & Hx & Hxid).
      destruct (mono_entries _ _ Hmono e' x Hx) as (y & Hy & S). exists y. split; [done|]. by rewrite (step_id _ _ S).
    + intros id1 id2 e1 e2 m1 m2 H1 H2 Hm1 Hm2. eauto.
  - intros f Hf. apply (pre_mono daemon _ _ w); [done|]. eauto.
  - intros Hn. assert (~ started w) as Hn' by (intros ?; by apply Hn, (started_mono w)). destruct (i7 Hn') as [s1 s2].
    split; [|by rewrite E6]. intros e' x Hx. destruct (alloc_cases _ _ _ _ _ _ Ha Hx) as [Hx'|[_ ->]]; [eauto|].
    by destruct Hst.
Qed.

(** The thread that allocates an entry owns its channel; nobody else is
    concerned. *)
Lemma alloc_framed r m w e w' :
  alloc m w = (e, w') -> holds r w -> let c := length (w_chans w) in
  undisturbed r w w' /\ holds (chan_res c r) w' /\ within r w (chan_res c r) /\
  e ∉ r_locks r /\ e ∉ r_fresh r.
Proof.
  intros Ha Hh c. destruct (alloc_lookup _ _ _ _ Ha) as [Hnew Hold].
  assert (w_chans w' = w_chans w ++ [false] /\ w_timers w' = w_timers w /\ w_replies w' = w_replies w /\
    w_eventMutex w' = w_eventMutex w) as (E2 & E3 & E4 & E5)
    by (injection Ha as _ <-; by destruct w).
  assert (forall e' x, w_entries w !! e' = Some x -> w_entries w' !! e' = Some x) as Hkeep
    by (injection Ha as _ <-; destruct w; intros; by apply lookup_app_l_Some).
  assert (forall e', scheduled w' e' <-> scheduled w e') as Hsch by (intros e'; unfold scheduled; by rewrite E3).
  assert (started w' <-> started w) as Hsta by (unfold started; by rewrite E4).
  split_and!.
  - split; [| | |by rewrite Hsta|by rewrite E5].
    + intros e' x Hx _ Hop. exists x. auto.
    + intros c' _ Ho. rewrite E2. by apply lookup_app_l_Some.
    + intros e' x Hx _ _ Hs. exists x. rewrite Hsch. auto.
  - destruct Hh as (h1 & h2 & h3 & h4 & h5 & h6). split_and!; simpl.
    + intros e' He'. destruct (h1 e' He') as (x & Hx & Hop). eauto.
    + intros c' [->%elem_of_singleton|Hc']%elem_of_union; rewrite E2; [by apply list_lookup_middle|].
      apply lookup_app_l_Some. by apply h2.
    + intros e' He'. rewrite Hsch. destruct (h3 e' He') as [[x Hx] Hs]. split; [exists x; auto|done].
    + intros e' He'. destruct (h4 e' He') as [x Hx]. exists x. auto.
    + rewrite Hsta. done.
    + by rewrite E5.
  - split; simpl; [by left| |by left|intros e' He'; left; set_solver|done|by left].
    intros c' [->%elem_of_singleton|Hc']%elem_of_union; [|by left]. right. apply lookup_ge_None. unfold c. lia.
  - intros He. destruct Hh as [h1 _]. destruct (h1 e He) as (x & Hx & _). congruence.
  - intros He. destruct Hh as (_ & _ & h3 & _). destruct (h3 e He) as [[x Hx] _]. congruence.
Qed.

Lemma safe_new_locked_entry r w0 info (Q : entry_id -> res -> World -> Prop) :
  started w0 ->
  (forall en, MountInfo_Attempt (info en) = 1 /\
              exists c, MountInfo_Config (info en) = Some c /\ client_ok c = true) ->
  (forall en c e w', mono w0 w' -> e ∉ r_locks r -> e ∉ r_fresh r ->
     w_entries w' !! e = Some (set_mm_operation true (new_entry (info en) c)) ->
     Q e (lock_res e (begin_res e (chan_res c r))) w') ->
  safe r w0 (new_locked_entry info) Q.
Proof.
  intros Hst Hinfo HQ tau en w Ht Hr Hi Hh. simpl.
  set (m := fun c => set_mm_operation true (new_entry (info en) c)).
  match goal with |- Invariant.Inv _ _ ?x /\ _ => set (w' := x) end. set (e := length (w_entries w)).
  assert (alloc m w = (e, w')) as Ha by reflexivity. clearbody e w'.
  pose proof (alloc_mono _ _ _ _ Ha) as Hmono. destruct (alloc_lookup _ _ _ _ Ha) as [Hnew Hold].
  destruct (alloc_framed r _ _ _ _ Ha Hh) as (Hu & Hh' & [W1 W2 W3 W4 W5 W6] & F1 & F2). set (c := length (w_chans w)) in *.
  split.
  { eapply alloc_Inv; [exact Ha| |left; eapply started_mono; [apply Hr|done]|exact Hi].
    destruct (Hinfo en) as [Hat Hcfg]. constructor; simpl; [lia| |lia|done].
    rewrite Hat. pose proof (maxAttempts_pos daemon). unfold ceiling. destruct b_restoring; lia. }
  exists (lock_res e (begin_res e (chan_res c r))), []. split; [|apply (HQ en c); [eapply mono_trans; [apply Hr|done]|done..]].
  apply (framed_intro daemon _ _ [] []); [done|done|by injection Ha as _ <-; destruct w; rewrite app_nil_r|constructor| |by repeat split].
  constructor; [|constructor]. destruct Hh' as (h1 & h2 & h3 & h4 & h5 & h6).
  split; [split_and!|split]; simpl in *; [|done| | |done|done| |done| | |done|done].
  - intros e' [->%elem_of_singleton|He']%elem_of_union; [by eexists|by apply h1].
  - intros e' [He' _]%elem_of_difference. by apply h3.
  - intros e' [->%elem_of_singleton|He']%elem_of_union; [by eexists|by apply h4].
  - intros e' [->%elem_of_singleton|He']%elem_of_union; [|by apply W1]. right. intros x Hx. congruence.
  - intros e' [He' _]%elem_of_difference. by left.
  - intros e' [->%elem_of_singleton|He']%elem_of_union; [by right; left|]. left. set_solver.
Qed.

(** ** The registry *)

Lemma range_map_sound {A} en (m : gmap string A) k a : (k, a) ∈ range_map en m -> m !! k = Some a.
Proof.
  unfold range_map. case_bool_decide.
  - intros Hin. apply list_elem_of_omap in Hin as (k' & _ & Hk).
    destruct (m !! k') eqn:E; simpl in Hk; [|done]. by simplify_eq.
  - apply elem_of_map_to_list.
Qed.

Lemma range_map_complete {A} en (m : gmap string A) k a : m !! k = Some a -> (k, a) ∈ range_map en m.
Proof.
  unfold range_map. case_bool_decide as Hp; intros Hk; [|by apply elem_of_map_to_list].
  assert (k ∈ (map_to_list m).*1) as Hin.
  { apply list_elem_of_fmap. exists (k, a). split; [done|]. by apply elem_of_map_to_list. }
  rewrite <- Hp in Hin. apply list_elem_of_fmap in Hin as ([k' a'] & -> & Hin). simpl in *.
  pose proof Hin as Hin'. apply list_elem_of_omap in Hin as (k2 & _ & Hk2).
  destruct (m !! k2) eqn:E; simpl in Hk2; [|done]. simplify_eq. by simplify_eq.
Qed.

Lemma safe_register_mount r w0 e id path (Q : option goerror -> res -> World -> Prop) :
  started w0 ->
  (exists m, w_entries w0 !! e = Some m /\ MountInfo_MountId (mm_info m) = id /\
             Clean (GetMountPath (mm_info m)) = path) ->
  (forall x w', rely r w0 w' -> Q x r w') -> safe r w0 (register_mount daemon e id path) Q.
Proof.
  intros Hst (m0 & Hm0 & Hid & Hpath) HQ. apply safe_aside. intros tau en w Hr Hi.
  assert (forall x, aside w w /\ Inv (tau + 1) w /\ (rely r w0 w -> Q x r w)) as Hsame
    by (intros x; split_and!; [by constructor|by apply Inv_later|apply HQ]).
  cbv beta zeta. destruct (w_mounts w !! id) eqn:Eid; [apply Hsame|].
  destruct (_ && _) eqn:Ecap; [apply Hsame|].
  match goal with |- context [List.find ?f ?l] => destruct (List.find f l) as [[k a]|] eqn:Ef end; [apply Hsame|].
  set (w' := set_w_mounts _ w). assert (aside w w') as Ha by (by destruct w; constructor).
  split_and!; [done| |apply HQ]. pose proof Hi as [i1 i2 i3 i4 i5 i6 i7 i8].
  assert (started w) as Hst' by (eapply started_mono; [apply Hr|done]). destruct Hr as [Hmono _].
  destruct (mono_entries _ _ Hmono e m0 Hm0) as (m & Hm & Hs).
  assert (w_entries w' = w_entries w) as Ee by (by destruct w).
  assert (w_mounts w' = <[id := e]> (w_mounts w)) as Em by (by destruct w).
  split; try (by destruct w).
  - intros e' x Hx. rewrite Ee in Hx. by eapply entry_ok_later, i1.
  - destruct i2 as [b1 b2 b3]. split; rewrite Em, ?Ee.
    + intros id' e'. destruct (decide (id' = id)) as [->|Hne].
      * rewrite lookup_insert_eq. intros [= <-]. exists m. split; [done|]. by rewrite (step_id _ _ Hs).
      * rewrite lookup_insert_ne by done. apply b1.
    + assert (forall id' e' x, w_mounts w !! id' = Some e' -> w_entries w !! e' = Some x ->
                Clean (GetMountPath (mm_info x)) <> Clean (GetMountPath (mm_info m))) as Hfree.
      { intros id' e' x Hid' Hx Hc.
        pose proof (find_none _ _ Ef (id', e') ltac:(by apply list_elem_of_In, range_map_complete)) as Hf.
        simpl in Hf. rewrite Hx in Hf. bools. apply Hf. rewrite Hc.
        by rewrite (GetMountPath_config _ _ (step_config _ _ Hs)). }
      intros id1 id2 e1 e2 m1 m2 H1 H2 Hm1 Hm2 Hp.
      apply lookup_insert_Some in H1 as [[<- <-]|[Hn1 H1]], H2 as [[<- <-]|[Hn2 H2]].
      * by left.
      * simplify_eq. by destruct (Hfree id2 e2 m2 H2 Hm2).
      * simplify_eq. by destruct (Hfree id1 e1 m1 H1 Hm1).
      * by eapply b2.
    + intros Hmax. rewrite map_size_insert_None by done. apply andb_false_iff in Ecap as [Ecap|Ecap]; bools; lia.
Qed.

(** A registration while mounts are restored. *)
Lemma fresh_registered tau w id e m :
  Inv tau w -> w_entries w !! e = Some m -> MountInfo_MountId (mm_info m) = id -> ~ started w ->
  let w' := set_w_mounts (<[id := e]> (w_mounts w)) w in
  Inv tau w' /\ mono w w' /\ (w_entries w' = w_entries w /\ w_chans w' = w_chans w /\ w_timers w' = w_timers w /\
    w_replies w' = w_replies w /\ w_ready w' = w_ready w /\ w_eventMutex w' = w_eventMutex w).
Proof.
  intros [i1 i2 i3 i4 i5 i6 i7 i8] He Hid Hn w'. destruct (i7 Hn) as [s1 s2].
  assert (w_mounts w' = <[id := e]> (w_mounts w)) as Em by (by destruct w).
  assert (w_entries w' = w_entries w) as Ee by (by destruct w).
  assert (mono w w') as Hmono by (split; [rewrite Ee; eauto using entry_step_refl|by destruct w..]).
  assert (forall id' e', w_mounts w' !! id' = Some e' ->
            exists x, w_entries w' !! e' = Some x /\ MountInfo_MountId (mm_info x) = id') as Hreg.
  { intros id' e'. rewrite Em, Ee. intros [[<- <-]|[_ Hx]]%lookup_insert_Some; [by exists m|]. by apply (reg_entry _ _ i2). }
  split_and!; [|done|by destruct w..]. split; try (by destruct w).
  - split; [done| |].
    + intros id1 id2 e1 e2 m1 m2 _ _. rewrite Ee. intros Hm1 Hm2 _. right. split; by eapply s1.
    + intros _. unfold restored_count. destruct (started_dec w) as [?|[_ ->]]; [done|].
      pose proof (stored_ids_count (w_mounts w') b_db) as Hc. enough (size (w_mounts w') <= length (record_items b_db))%nat by lia.
      apply Hc. intros id' [e' He']. destruct (Hreg id' e' He') as (x & Hx & <-). rewrite Ee in Hx.
      destruct (s1 e' x Hx) as (_ & data & _ & _ & Hd & _). by exists data.
Qed.

(** Reconcile registers a stored mount: the entry is new, and its first
    attempt is the thread's to begin. *)
Lemma safe_register_remount r w0 info (Q : option entry_id -> res -> World -> Prop) :
  r_startup r = true -> from_store info -> good_info (ceiling daemon) info ->
  (forall w', rely r w0 w' -> Q None r w') ->
  (forall e m w', mono w0 w' -> e ∉ r_locks r -> w_entries w' !! e = Some m ->
     MountInfo_MountId (mm_info m) = MountInfo_MountId info -> from_store (mm_info m) ->
     Q (Some e) (fresh_res e (chan_res (mm_exitDone m) r)) w') ->
  safe r w0 (register_remount info) Q.
Proof.
  intros Hsu Hfs Hg HN HS tau en w Ht Hr Hi Hh. simpl. set (id := MountInfo_MountId info).
  destruct (w_mounts w !! id) eqn:Eid.
  { split; [by apply Inv_later|]. exists r, []. split; [by apply framed_refl|by apply HN]. }
  set (m := new_entry (remount_info info (env_now en 0%nat))).
  assert (exists e w1, alloc m w = (e, w1)) as (e & w1 & Ha) by (by eexists _, _). unfold alloc in Ha.
  injection Ha as Ee Ew. rewrite Ee, Ew. set (w' := set_w_mounts _ w1).
  assert (alloc m w = (e, w1)) as Ha by (unfold alloc; by rewrite Ee, Ew). clear Ee Ew.
  pose proof (alloc_mono _ _ _ _ Ha) as Hmono. destruct (alloc_lookup _ _ _ _ Ha) as [Hnew Hold].
  destruct (alloc_framed r _ _ _ _ Ha Hh) as (Hu & Hh' & [W1 W2 W3 W4 W5 W6] & F1 & F2). set (c := length (w_chans w)) in *.
  assert (from_store (mm_info (m c))) as Hfs' by (by apply (from_store_same info); destruct info).
  assert (~ started w) as Hns by (by apply Hh). destruct (inv_startup _ _ _ Hi Hns) as [S1 S2].
  assert (Inv (tau + 1) w1) as Hi1.
  { eapply alloc_Inv; [exact Ha| |by right|exact Hi]. destruct Hg as (Hcfg & Hat).
    constructor; [simpl; lia|by destruct info; simpl in *; lia..|by destruct info]. }
  destruct (fresh_registered (tau + 1) w1 id e (m c) Hi1 Hnew ltac:(by destruct info)) as (Hi' & Hm' & Hsame).
  { injection Ha as _ <-. by destruct w. }
  fold w' in Hi', Hm', Hsame. destruct Hsame as (E1 & E2 & E3 & E4 & E5 & E6).
  assert (forall e', scheduled w' e' <-> scheduled w1 e') as Hsch by (intros e'; unfold scheduled; by rewrite E3).
  assert (started w' <-> started w1) as Hsta by (unfold started; by rewrite E4).
  assert (forall e', scheduled w1 e' <-> scheduled w e') as Hsch1 by (injection Ha as _ <-; by destruct w).
  split; [done|]. exists (fresh_res e (chan_res c r)), []. split.
  - apply (framed_intro daemon _ _ [] []); [by eapply mono_trans| | |constructor| |by repeat split].
    + destruct Hu as [U1 U2 U3 U4 U5]. split; rewrite ?E1, ?E2, ?Hsta, ?E6; [done|done| |done|done]. intros e' x Hx Hf Hb Hs.
      destruct (U3 e' x Hx Hf Hb Hs) as (y & Hy & Ey & Hn). exists y. by rewrite Hsch.
    + rewrite E5. injection Ha as _ <-. by destruct w; rewrite app_nil_r.
    + constructor; [|constructor]. destruct Hh' as (h1 & h2 & h3 & h4 & h5 & h6).
      split; [split_and!|split]; simpl in *; rewrite ?E1, ?E2, ?Hsta, ?E6; try done.
      * intros e' He'. rewrite Hsch. apply elem_of_union in He' as [->%elem_of_singleton|He']; [|by apply h3].
        split; [by eexists|]. rewrite Hsch1. intros Hs. destruct (scheduled_valid _ _ _ _ Hi Hs) as [x Hx]. congruence.
      * intros e' [->%elem_of_singleton|He']%elem_of_union; [by right|by left].
  - apply (HS e (m c)); [eapply mono_trans; [apply Hr|by eapply mono_trans]|done|by rewrite E1|by destruct info|done].
Qed.

Lemma safe_unregister r w0 id (Q : unit -> res -> World -> Prop) :
  (forall w', rely r w0 w' -> Q tt r w') ->
  safe r w0 (act (fun _ w => Next tt (set_w_mounts (delete id (w_mounts w)) w))) Q.
Proof.
  intros HQ. apply safe_aside. intros tau en w Hr Hi.
  set (w' := set_w_mounts _ w). assert (aside w w') as Ha by (by destruct w; constructor).
  split_and!; [done| |apply HQ]. pose proof Hi as [i1 i2 i3 i4 i5 i6 i7 i8].
  assert (w_entries w' = w_entries w) as Ee by (by destruct w).
  assert (w_mounts w' = delete id (w_mounts w)) as Em by (by destruct w).
  split; try (by destruct w); [| |intros Hn; destruct (i7 ltac:(by destruct w)); split; by destruct w].
  - intros e' x Hx. rewrite Ee in Hx. by eapply entry_ok_later, i1.
  - destruct i2 as [b1 b2 b3]. split; rewrite Em, ?Ee.
    + intros id' e' [_ Hid]%lookup_delete_Some. by apply b1.
    + intros id1 id2 e1 e2 m1 m2 [_ H1]%lookup_delete_Some [_ H2]%lookup_delete_Some. by apply b2.
    + intros Hmax. specialize (b3 Hmax). rewrite map_size_delete. destruct (w_mounts w !! id); simpl; lia.
Qed.

(** ** Subscribers *)

Lemma safe_streams {A} (P : A -> Prop) r w0 (f : action A) (Q : A -> res -> World -> Prop) :
  (forall e w, (forall id x, w_subscribers w !! id = Some x -> subscriber_ok x) ->
     match f e w with
     | Blocked => True
     | Panics => False
     | Next x w' => aside w w' /\ w_mounts w' = w_mounts w /\ w_db w' = w_db w /\ recorded w w' /\
         (forall id s, w_subscribers w' !! id = Some s -> subscriber_ok s) /\ P x
     end) ->
  (forall x w', P x -> rely r w0 w' -> Q x r w') -> safe r w0 (act f) Q.
Proof.
  intros Hf HQ. apply safe_aside. intros tau en w Hr Hi. specialize (Hf en w (inv_subscribers _ _ _ Hi)).
  destruct (f en w) as [| |x w']; [done..|]. destruct Hf as (Ha & E1 & E2 & E3 & Hs & HP). split_and!; [done| |by apply HQ].
  eapply Inv_aside; [done|done|done|exact Hi|done|]. by eapply recorded_ok, inv_history.
Qed.

(** The same for an action without an effect. *)
Lemma safe_subscribers {A} r w0 (f : action A) (Q : A -> res -> World -> Prop) :
  (forall e w, (forall id x, w_subscribers w !! id = Some x -> subscriber_ok x) ->
     match f e w with
     | Blocked => True
     | Panics => False
     | Next _ w' => aside w w' /\ w_mounts w' = w_mounts w /\ w_db w' = w_db w /\ w_history w' = w_history w /\
         (forall id s, w_subscribers w' !! id = Some s -> subscriber_ok s)
     end) ->
  (forall x w', rely r w0 w' -> Q x r w') -> safe r w0 (act f) Q.
Proof.
  intros Hf HQ. apply (safe_streams (fun _ => True)); [|by intros x w' _; apply HQ]. intros e w Hs. specialize (Hf e w Hs).
  destruct (f e w) as [| |x w']; [done..|]. destruct Hf as (? & ? & ? & ? & ?). split_and!; [done..|by left|done|done].
Qed.

(** ** The mutex of the subscribers *)

Lemma event_mono b w : mono w (set_w_eventMutex b w).
Proof. split; [|by destruct w..]. intros e m He. exists m. split; [by destruct w|apply entry_step_refl]. Qed.

Lemma event_framed r b w :
  holds r w -> (r_event r = true \/ w_eventMutex w = false) ->
  framed disj holds rely (pre daemon) r (event_res b r) [] w (set_w_eventMutex b w).
Proof.
  intros (h1 & h2 & h3 & h4 & h5 & h6) Hb. apply (framed_intro daemon _ _ [] []); [apply event_mono| | |constructor| |by repeat split].
  - split; [destruct w; eauto..|]. intros Hn Ho. destruct Hb; congruence.
  - rewrite app_nil_r. by destruct w.
  - constructor; [|constructor]. split; [split_and!; destruct w; auto|]. split; [by left..| |done|].
    + intros e He. left. set_solver.
    + intros _. destruct Hb; auto.
Qed.

Lemma event_Inv tau b w : Inv tau w -> Inv (tau + 1) (set_w_eventMutex b w).
Proof.
  intros Hi. eapply (Inv_beside daemon tau w);
    [apply event_mono|by destruct w|by destruct w|apply db_step_same; by destruct w|exact Hi| |
     |pose proof (inv_replies _ _ _ Hi); by destruct w|pose proof (inv_history _ _ _ Hi); by destruct w].
  - intros f Hf. apply (pre_mono daemon _ _ w); [apply event_mono|]. apply (inv_timers _ _ _ Hi). by destruct w.
  - intros id x Hx. apply (inv_subscribers _ _ _ Hi id). by destruct w.
Qed.

Lemma safe_event_Lock r w0 (Q : unit -> res -> World -> Prop) :
  (forall w', Q tt (event_res true r) w') -> safe r w0 event_Lock Q.
Proof.
  intros HQ tau en w Ht Hr Hi Hh. simpl. destruct (w_eventMutex w) eqn:E; [done|]. split; [by apply event_Inv|].
  exists (event_res true r), []. split; [apply event_framed; auto|apply HQ].
Qed.

Lemma safe_event_Unlock r w0 (Q : unit -> res -> World -> Prop) :
  r_event r = true -> (forall w', Q tt (event_res false r) w') -> safe r w0 event_Unlock Q.
Proof.
  intros He HQ tau en w Ht Hr Hi Hh. simpl. pose proof Hh as (_ & _ & _ & _ & _ & h6). rewrite (h6 He).
  split; [by apply event_Inv|]. exists (event_res false r), []. split; [apply event_framed; auto|apply HQ].
Qed.

End Rules.
