(* ===== verification/ManagerSafe.v ===== *)
(** * Every method of the manager is safe

    The programs of [Manager] against the rules of [Rules]: no panic, the
    invariant is kept, resources are respected, and what is returned to a
    client is redacted. *)

From S2P Require Import Prelude GoStrings GoPath GoSort GoErrors Api Redact Config Retry Policy IrodsfsConfig.
From S2P Require Import Repository Durable Runtime Command Manager Logic Invariant Rules.

Section Safe.
Variable daemon : Config.
Context {birth : Birth} {url : UrlLib} {errs : ErrorLib} {codec : RecordCodec} {irods : IrodsfsLib}.
Implicit Types (r : res) (w : World).

Local Notation safe := (safe daemon).
Local Notation Inv := (Inv daemon).

(** ** Sections that leave the protected fields alone *)

Lemma section_ok_quiet tau r e m m' :
  entry_ok daemon tau m -> mm_operation m' = mm_operation m -> prot m' = prot m ->
  MountInfo_MountId (mm_info m') = MountInfo_MountId (mm_info m) ->
  MountInfo_Config (mm_info m') = MountInfo_Config (mm_info m) ->
  MountInfo_Attempt (mm_info m') = MountInfo_Attempt (mm_info m) -> section_ok daemon tau r e m m'.
Proof.
  intros [o1 o2 o3 o4] Hop Hp Hid Hcfg Hat. unfold prot in Hp. injection Hp as Ex Eg Eu. split; [| |done| |done].
  - constructor; [done..|lia|done].
  - constructor; [rewrite Eg; lia|by rewrite Hat..|by rewrite Hcfg].
  - intros _. unfold prot. congruence.
Qed.

(** A section whose effect on the entry is quiet, whatever the entry. *)
Lemma safe_locked_entry {A} r w0 e (f : env -> managedMount -> A * managedMount) (Q : A -> res -> World -> Prop) :
  valid w0 e ->
  (forall en m, mm_operation (f en m).2 = mm_operation m /\ prot (f en m).2 = prot m /\
     MountInfo_MountId (mm_info (f en m).2) = MountInfo_MountId (mm_info m) /\
     MountInfo_Config (mm_info (f en m).2) = MountInfo_Config (mm_info m) /\
     MountInfo_Attempt (mm_info (f en m).2) = MountInfo_Attempt (mm_info m)) ->
  (forall tau en m w', rely r w0 w' -> w_entries w' !! e = Some (f en m).2 -> entry_ok daemon tau m -> Q (f en m).1 r w') ->
  safe r w0 (locked e f) Q.
Proof.
  intros Hv Hf HQ. apply safe_locked; [done|]. intros tau en w m Ht Hr Hi He.
  destruct (Hf en m) as (Hop & Hp & Hid & Hcfg & Hat).
  split; [eapply section_ok_quiet; try done; by eapply inv_entries|].
  intros w' Hmono He' _ Hr'. eapply HQ; [by apply Hr' | done|by eapply inv_entries].
Qed.

Lemma safe_locked_quiet {A} r w0 e (f : env -> managedMount -> A * managedMount) (Q : A -> res -> World -> Prop) :
  valid w0 e ->
  (forall en m, mm_operation (f en m).2 = mm_operation m /\ prot (f en m).2 = prot m /\
     MountInfo_MountId (mm_info (f en m).2) = MountInfo_MountId (mm_info m) /\
     MountInfo_Config (mm_info (f en m).2) = MountInfo_Config (mm_info m) /\
     MountInfo_Attempt (mm_info (f en m).2) = MountInfo_Attempt (mm_info m)) ->
  (forall en m w', rely r w0 w' -> w_entries w' !! e = Some (f en m).2 -> Q (f en m).1 r w') ->
  safe r w0 (locked e f) Q.
Proof. intros Hv Hf HQ. apply safe_locked_entry; [done..|]. intros tau en m w' Hr He _. by apply HQ. Qed.

(** Every entry has a configuration. *)
Lemma safe_config_path r w0 e (Q : string -> res -> World -> Prop) :
  valid w0 e -> (forall path w', rely r w0 w' -> Q path r w') -> safe r w0 (config_path e) Q.
Proof.
  intros Hv HQ. apply safe_bind, safe_reading; [done|]. intros tau w m Hr Hi He.
  destruct (ok_config _ _ _ (inv_entries _ _ _ Hi e m He)) as (c & -> & _). by apply HQ.
Qed.

(** Solves the side conditions of quiet sections by computation. *)
Ltac quiet := intros ? [? [? ? ? ? ? ? ? ? ? ? ?] ? ? ? ? ? ? ? ? ? ?]; by repeat split.

Lemma safe_snapshot r w0 e (Q : MountInfo -> res -> World -> Prop) :
  valid w0 e -> (forall i w', rely r w0 w' -> redacted i -> Q i r w') -> safe r w0 (snapshot e) Q.
Proof.
  intros Hv HQ. apply safe_reading; [done|]. intros tau w m Hr Hi He. apply HQ; [done|].
  apply redactMountInfo_redacted.
Qed.

Lemma safe_publish_updated r w0 e (Q : unit -> res -> World -> Prop) :
  valid w0 e -> (forall w', rely r w0 w' -> Q tt r w') -> safe r w0 (publish_updated e) Q.
Proof.
  intros Hv HQ. apply safe_bind, safe_snapshot; [done|]. intros i w Hr Hred.
  apply safe_publish; [done|]. intros w' Hr'. apply HQ. by eapply rely_trans.
Qed.

Lemma safe_persistRecord r w0 ctx e (Q : option goerror -> res -> World -> Prop) :
  valid w0 e -> (forall x w', rely r w0 w' -> Q x r w') -> safe r w0 (persistRecord ctx e) Q.
Proof.
  intros Hv HQ. apply safe_bind, safe_reading; [done|]. intros tau w m Hr Hi He.
  apply safe_repository_Update; [intros i [= <-]; by eapply entry_writable|]. intros x w' Hr'. apply HQ. by eapply rely_trans.
Qed.

Lemma safe_persistBestEffort r w0 e (Q : unit -> res -> World -> Prop) :
  valid w0 e -> (forall w', rely r w0 w' -> Q tt r w') -> safe r w0 (persistBestEffort e) Q.
Proof. intros Hv HQ. apply safe_bind, safe_persistRecord; [done|]. intros x w' Hr'. by apply HQ. Qed.

(** [persistBestEffort(entry); publishMountEvent(UPDATED, snapshot(entry))] *)
Lemma safe_persist_publish {A} r w0 e (k : prog A) (Q : A -> res -> World -> Prop) :
  valid w0 e -> (forall w', rely r w0 w' -> safe r w' k Q) ->
  safe r w0 (persistBestEffort e;; publish_updated e;; k) Q.
Proof.
  intros Hv HQ. apply safe_bind, safe_persistBestEffort; [done|]. intros w1 H1.
  apply safe_bind, safe_publish_updated; [by eapply valid_rely|]. intros w2 H2. apply HQ. by eapply rely_trans.
Qed.

Lemma safe_cancelRetryTimer r w0 e (Q : unit -> res -> World -> Prop) :
  valid w0 e -> (forall w', rely r w0 w' -> Q tt r w') -> safe r w0 (cancelRetryTimer e) Q.
Proof.
  intros Hv HQ. apply safe_bind, safe_locked_quiet; [done|quiet|]. intros en m w' Hr He. simpl.
  destruct (mm_retryTimer m) as [t|]; [|by apply HQ].
  apply safe_Timer_Stop. intros w2 H2. apply HQ. by eapply rely_trans.
Qed.

(** ** Failures *)

(** The thread belongs to an attempt of [e]. *)
Definition begun (r : res) (e : entry_id) : Prop := e ∈ r_begun r /\ e ∉ r_fresh r.

Lemma safe_schedule_retry r w0 e t (Q : unit -> res -> World -> Prop) :
  valid w0 e -> (forall w, mono w0 w -> t ∈ timer_func <$> w_timers w -> pre daemon t no_res w) ->
  (forall e g, t = TRetryMount e g -> begun r e) -> (forall w', rely r w0 w' -> Q tt r w') ->
  safe r w0 (schedule_retry e t) Q.
Proof.
  intros Hv Hpre Hb HQ. apply safe_bind, safe_AfterFunc; [done..|].
  intros x w1 H1. apply safe_locked_quiet; [by eapply valid_rely|quiet|].
  intros en m w2 H2 _. apply HQ. by eapply rely_trans.
Qed.

Lemma safe_recordMountFailure r w0 e g code msg details (Q : unit -> res -> World -> Prop) :
  created w0 e -> begun r e -> (forall w', rely r w0 w' -> Q tt r w') ->
  safe r w0 (recordMountFailure daemon e g code msg details) Q.
Proof.
  intros Hc Hb HQ. pose proof (created_valid _ _ Hc) as Hv. apply safe_bind, safe_locked; [done|].
  intros tau en w m Ht Hr Hi He. pose proof (inv_entries _ _ _ Hi e m He) as Hok.
  unfold mount_failure_section. destruct (_ || _) eqn:Est; simpl.
  - split; [by apply section_ok_quiet|]. intros w' Hm He' _ Hr'. by apply HQ, Hr'.
  - bools. set (retrying := mount_retrying _ _ _ _). split.
    { apply section_ok_quiet; try done; destruct m as [? [? ? ? ? ? ? ? ? ? ? ?] ? ? ? ? ? ? ? ? ? ?];
        by destruct retrying. }
    intros w' Hm He' _ Hr'. assert (rely r w0 w') as Hrel.
    { apply Hr'. destruct m as [? [? ? ? ? ? ? ? ? ? ? ?] ? ? ? ? ? ? ? ? ? ?]; by destruct retrying. }
    apply safe_persist_publish; [by eapply valid_rely|]. intros w1 H1.
    destruct retrying eqn:Er; simpl; [|apply HQ; by eapply rely_trans].
    apply safe_schedule_retry.
    + eapply valid_rely; [exact H1|]. by eapply valid_rely.
    + intros w2 H2 Hin. assert (mono w' w2) as M2 by (eapply mono_trans; [apply H1|done]).
      split_and!; [done|by exists g|eapply created_mono; [eapply mono_trans; [apply Hrel|done]|done]|].
      apply (attempt_left_mono daemon w'); [done|]. eexists. split; [exact He'|]. apply mount_retrying_attempt in Er.
      destruct m as [? [? ? ? ? ? ? ? ? ? ? ?] ? ? ? ? ? ? ? ? ? ?]; simpl in *. split; [lia | done].
    + by intros e' g' [= <- _].
    + intros w2 H2. apply HQ. by do 2 (eapply rely_trans; [done|]).
Qed.

Lemma safe_recordTerminalMountFailure r w0 e g code msg (Q : unit -> res -> World -> Prop) :
  valid w0 e -> (forall w', rely r w0 w' -> Q tt r w') ->
  safe r w0 (recordTerminalMountFailure e g code msg) Q.
Proof.
  intros Hv HQ. apply safe_bind, safe_locked_quiet; [done| |].
  - intros en m. unfold terminal_failure_section. destruct (_ || _); [done|].
    destruct m as [? [? ? ? ? ? ? ? ? ? ? ?] ? ? ? ? ? ? ? ? ? ?]; by repeat split.
  - intros en m w1 H1 _. destruct (negb _); [by apply HQ|].
    apply safe_bind, safe_persistBestEffort; [by eapply valid_rely|]. intros w2 H2.
    apply safe_publish_updated; [eapply valid_rely; [exact H2|]; by eapply valid_rely|].
    intros w3 H3. apply HQ. by do 2 (eapply rely_trans; [done|]).
Qed.

Lemma safe_recordUnmountFailure r w0 e g code msg (Q : unit -> res -> World -> Prop) :
  valid w0 e -> (forall w', rely r w0 w' -> Q tt r w') ->
  safe r w0 (recordUnmountFailure daemon e g code msg) Q.
Proof.
  intros Hv HQ. apply safe_bind, safe_locked; [done|].
  intros tau en w m Ht Hr Hi He. pose proof (inv_entries _ _ _ Hi e m He) as Hok.
  unfold unmount_failure_section. destruct (negb (_ =? _)) eqn:Est; simpl.
  - split; [by apply section_ok_quiet|]. intros w' Hm He' _ Hr'. by apply HQ, Hr'.
  - bools. destruct (_ <? _) eqn:Er; (split;
      [apply section_ok_quiet; try done; by destruct m as [? [? ? ? ? ? ? ? ? ? ? ?] ? ? ? ? ? ? ? ? ? ?]|]).
    all: intros w' Hm He' _ Hr'; assert (rely r w0 w') as Hrel
      by (apply Hr'; by destruct m as [? [? ? ? ? ? ? ? ? ? ? ?] ? ? ? ? ? ? ? ? ? ?]).
    all: apply safe_persist_publish; [by eapply valid_rely|]; intros w1 H1; simpl.
    2: apply HQ; by eapply rely_trans.
    bools. apply safe_schedule_retry.
    + eapply valid_rely; [exact H1|]. by eapply valid_rely.
    + intros w2 H2 _. apply (pre_mono daemon _ _ w'); [eapply mono_trans; [apply H1|done]|].
      simpl. split_and!; [done|by eapply valid_rely|]. eexists. split; [exact He'|].
      destruct m as [? [? ? ? ? ? ? ? ? ? ? ?] ? ? ? ? ? ? ? ? ? ?]; simpl in *. split; [lia | done].
    + done.
    + intros w2 H2. apply HQ. by do 2 (eapply rely_trans; [done|]).
Qed.

(** ** Starting a mount *)

(** A result that may be returned to a client. *)
Definition result_ok (x : mount_result) : Prop := forall i, fst x = Some i -> redacted i.

(** The thread runs an attempt of entry [e]: it holds the operation mutex,
    and the attempt's channel is its own to close. *)
Definition attempting (r : res) (w : World) (e : entry_id) (c : chan) (g : Z) : Prop :=
  owns r w e c g /\ c ∈ r_chans r /\ created w e /\ begun r e.

Lemma attempting_rely r w w' e c g : rely r w w' -> attempting r w e c g -> attempting r w' e c g.
Proof.
  intros Hr (Ho & Hc & Hcr & Hb). split_and!; [by eapply owns_rely|done| |apply Hb..]. eapply created_mono; [apply Hr|done].
Qed.

Lemma attempting_valid r w e c g : attempting r w e c g -> valid w e.
Proof. intros (_ & _ & Hc & _). by apply created_valid. Qed.

Lemma safe_finishMountStartFailure r w0 e c g g' code msg (Q : unit -> res -> World -> Prop) :
  attempting r w0 e c g -> (forall w', rely r w0 w' -> Q tt (unchan_res c r) w') ->
  safe r w0 (finishMountStartFailure daemon e g' code msg) Q.
Proof.
  intros Ha HQ. apply safe_bind, safe_section_close; [by eapply attempting_valid|].
  intros tau en w m Ht Hr Hi He. destruct (attempting_rely _ _ _ _ _ _ Hr Ha) as ((Hl & m' & He' & Hex & _) & Hc & _).
  rewrite He in He'. injection He' as <-. exists tt, m, c. split_and!; [by rewrite Hex|done| |].
  - apply section_ok_quiet; try done. by eapply inv_entries.
  - intros w' Hm He' Hr'. specialize (Hr' eq_refl).
    apply safe_recordMountFailure; [eapply created_mono; [apply Hr'|apply Ha]|apply Ha|].
    intros w2 H2. apply HQ. by apply (rely_trans (unchan_res c r) w0 w' w2).
Qed.

Lemma safe_start_failure r w0 e c g g' code err ret (Q : mount_result -> res -> World -> Prop) :
  attempting r w0 e c g -> (forall x w', rely r w0 w' -> result_ok x -> Q x (unchan_res c r) w') ->
  safe r w0 (start_failure daemon e g' code err ret) Q.
Proof.
  intros Ha HQ. apply safe_bind. eapply safe_finishMountStartFailure; [exact Ha|]. intros w1 H1.
  apply safe_bind, safe_snapshot; [eapply valid_rely; [exact H1|by eapply attempting_valid]|].
  intros i w2 H2 Hi. apply HQ; [by eapply rely_trans|]. by intros ? [= <-].
Qed.

Lemma safe_failMountBeforeStart r w0 e c g g' root (Q : mount_result -> res -> World -> Prop) :
  attempting r w0 e c g -> (forall x w', rely r w0 w' -> result_ok x -> Q x (unchan_res c r) w') ->
  safe r w0 (failMountBeforeStart daemon e g' root) Q.
Proof.
  intros Ha HQ. apply safe_bind, safe_locked_quiet; [by eapply attempting_valid|quiet|]. intros en m w1 H1 _.
  apply safe_bind, safe_system_call; [done|]. intros x w2 H2.
  assert (rely r w0 w2) as H02 by (by eapply rely_trans).
  apply safe_bind. eapply safe_finishMountStartFailure; [by eapply attempting_rely|]. intros w3 H3.
  apply safe_bind, safe_snapshot.
  { eapply valid_rely; [exact H3|]. eapply valid_rely; [exact H02|by eapply attempting_valid]. }
  intros i w4 H4 Hi. apply HQ; [by do 2 (eapply rely_trans; [done|])|]. by intros ? [= <-].
Qed.

Lemma safe_makeMountCommand r w0 config id root log (Q : result goerror (Cmd * mountClientType) -> res -> World -> Prop) :
  (exists c, config = Some c /\ client_ok c = true) -> (forall x w', rely r w0 w' -> Q x r w') ->
  safe r w0 (makeMountCommand daemon config id root log) Q.
Proof.
  intros (c & -> & Hc) HQ. unfold makeMountCommand, client_ok, clientType in *.
  destruct (MountConfig_ClientConfig c) as [[i|[d|]|[n|]]|] eqn:E; try done.
  - apply HQ, rely_refl.
  - apply safe_bind. unfold makeDAVFSMountCommand, GetDavfs. rewrite E.
    apply safe_bind, safe_system_call; [done|]. intros [err|] w1 H1; [by apply HQ|].
    apply safe_bind, safe_bind, safe_system_call; [done|]. intros x w2 H2.
    assert (rely r w0 w2) by (by eapply rely_trans). destruct (WrapOpt _ _); by apply HQ.
  - unfold makeNFSMountCommand, GetNfs. rewrite E. apply HQ, rely_refl.
  - apply HQ, rely_refl.
Qed.

(** The goroutine that supervises the process takes over the channel. *)
Lemma safe_go_waitForProcess r w0 e g p c (Q : unit -> res -> World -> Prop) :
  created w0 e -> begun r e -> c ∈ r_chans r -> (forall w', rely r w0 w' -> Q tt (unchan_res c r) w') ->
  safe r w0 (go (TWaitForProcess e g p c)) Q.
Proof.
  intros Hcr [Hb Hf] Hc HQ.
  apply (safe_go daemon r (unchan_res c r) (attempt_res e {[c]})); [| |simpl; set_solver..| |by intros [?|?]|done].
  - intros w Hm. split; [done|]. by eapply created_mono.
  - intros w. split; [apply within_unchan|]. apply within_sub; simpl; set_solver.
  - split_and!; simpl; set_solver.
Qed.

Lemma safe_go_attempt r w0 e t (Q : unit -> res -> World -> Prop) :
  pre daemon t (attempt_res e ∅) w0 -> begun r e -> (forall w', rely r w0 w' -> Q tt r w') -> safe r w0 (go t) Q.
Proof.
  intros Hp [Hb Hf] HQ. apply (safe_go daemon r r (attempt_res e ∅)); [| |simpl; set_solver..| |by intros [?|?]|done].
  - intros w Hm. by eapply pre_mono.
  - intros w. split; [apply within_refl|]. apply within_sub; simpl; set_solver.
  - split_and!; simpl; set_solver.
Qed.

Lemma safe_go_same r w0 t (Q : unit -> res -> World -> Prop) :
  pre daemon t no_res w0 -> (forall w', rely r w0 w' -> Q tt r w') -> safe r w0 (go t) Q.
Proof.
  intros Hp HQ. apply (safe_go daemon r r no_res); [| |simpl; set_solver..|apply no_res_disj|by intros [?|?]|done].
  - intros w Hm. by eapply pre_mono.
  - intros w. split; [apply within_refl|]. apply within_sub; simpl; set_solver.
Qed.

Lemma safe_launch r w0 e c g g' root deadline log (Q : mount_result -> res -> World -> Prop) :
  attempting r w0 e c g -> (forall x w', rely r w0 w' -> result_ok x -> Q x (unchan_res c r) w') ->
  safe r w0 (launch daemon e g' root deadline log) Q.
Proof.
  intros Ha HQ. apply safe_bind, safe_reading; [by eapply attempting_valid|]. intros tau w1 m H1 Hi1 He1.
  apply safe_bind, safe_makeMountCommand; [by eapply ok_config, inv_entries|]. intros x w2 H2.
  assert (attempting r w1 e c g) as A1 by (by eapply attempting_rely).
  assert (attempting r w2 e c g) as A2 by (by eapply attempting_rely).
  assert (rely r w0 w2) as H02 by (by eapply rely_trans).
  destruct x as [[cmd client]|err].
  2: { eapply safe_start_failure; [exact A2|]. intros x w3 H3 Hx. apply HQ; [by eapply rely_trans|done]. }
  apply safe_bind, safe_asks. intros now w3 H3.
  assert (attempting r w3 e c g) as A3 by (by eapply attempting_rely).
  assert (rely r w0 w3) as H03 by (by eapply rely_trans).
  destruct (negb _).
  { eapply safe_failMountBeforeStart; [exact A3|]. intros x w4 H4 Hx. apply HQ; [by eapply rely_trans|done]. }
  apply safe_bind, safe_command_Start.
  { destruct A1 as (_ & _ & (m' & He' & Hcr) & _). rewrite He1 in He'. injection He' as <-.
    eapply known_mono; [|exact Hcr]. eapply mono_trans; [apply H2|apply H3]. }
  intros started w4 H4. assert (attempting r w4 e c g) as A4 by (by eapply attempting_rely).
  assert (rely r w0 w4) as H04 by (by eapply rely_trans).
  destruct started as [proc|err].
  2: { eapply safe_start_failure; [exact A4|]. intros x w5 H5 Hx. apply HQ; [by eapply rely_trans|done]. }
  apply safe_bind, safe_gets. intros tau5 w5 H5 Hi5. assert (attempting r w5 e c g) as A5 by (by eapply attempting_rely).
  assert (rely r w0 w5) as H05 by (by eapply rely_trans). generalize (process_Pid w5 proc) as pid. intros pid.
  apply safe_bind, safe_locked; [by eapply attempting_valid|].
  intros tau6 en w6 m6 Ht6 H6 Hi6 He6. pose proof (inv_entries _ _ _ Hi6 e m6 He6) as Hok6.
  destruct (attempting_rely _ _ _ _ _ _ H6 A5) as ((_ & m' & He' & Hex & _) & _ & _).
  rewrite He6 in He'. injection He' as <-. unfold started_section. cbn [fst snd]. split.
  { apply section_ok_quiet; try done; destruct m6 as [? [? ? ? ? ? ? ? ? ? ? ?] ? ? ? ? ? ? ? ? ? ?];
      by destruct (bool_decide _). }
  intros w7 Hm7 He7 _ Hr7. assert (rely r w5 w7) as H57.
  { apply Hr7. destruct m6 as [? [? ? ? ? ? ? ? ? ? ? ?] ? ? ? ? ? ? ? ? ? ?]; by destruct (bool_decide _). }
  clear Hr7. assert (attempting r w7 e c g) as A7 by (by eapply attempting_rely). rewrite Hex.
  apply safe_persist_publish; [by eapply attempting_valid|]. intros w8 H8.
  assert (attempting r w8 e c g) as A8 by (by eapply attempting_rely).
  apply safe_bind, safe_go_waitForProcess; [apply A8..|]. intros w9 H9.
  assert (created w9 e) as C9 by (eapply created_mono; [apply H9|apply A8]).
  apply safe_bind, (safe_go_attempt _ _ e); [by split|apply A8|]. intros w10 H10.
  apply safe_bind, safe_snapshot; [eapply valid_rely; [exact H10|by apply created_valid]|].
  intros i w11 H11 Hred. apply HQ; [|by intros ? [= <-]].
  by do 5 (eapply rely_trans; [done|]).
Qed.

Lemma safe_startMount r w0 e c g g' root deadline (Q : mount_result -> res -> World -> Prop) :
  attempting r w0 e c g -> (forall x w', rely r w0 w' -> result_ok x -> Q x (unchan_res c r) w') ->
  safe r w0 (startMount daemon e g' root deadline) Q.
Proof.
  intros Ha HQ. apply safe_bind, safe_reading; [by eapply attempting_valid|]. intros tau w1 m H1 _ _.
  apply safe_bind, safe_system_call; [done|]. intros x w2 H2.
  assert (rely r w0 w2) as H02 by (by eapply rely_trans).
  assert (attempting r w2 e c g) as A2 by (by eapply attempting_rely).
  destruct x as [err|].
  { eapply safe_start_failure; [exact A2|]. intros x w3 H3 Hx. apply HQ; [by eapply rely_trans|done]. }
  apply safe_bind, safe_system_call; [done|]. intros x w3 H3.
  assert (rely r w0 w3) as H03 by (by eapply rely_trans).
  assert (attempting r w3 e c g) as A3 by (by eapply attempting_rely).
  destruct x as [err|].
  { eapply safe_start_failure; [exact A3|]. intros x w4 H4 Hx. apply HQ; [by eapply rely_trans|done]. }
  apply safe_bind, safe_asks. intros now w4 H4.
  assert (rely r w0 w4) as H04 by (by eapply rely_trans).
  assert (attempting r w4 e c g) as A4 by (by eapply attempting_rely). destruct (negb _).
  { eapply safe_failMountBeforeStart; [exact A4|]. intros x w5 H5 Hx. apply HQ; [by eapply rely_trans|done]. }
  apply safe_bind, safe_reading; [by eapply attempting_valid|]. intros tau5 w5 m5 H5 _ _.
  assert (rely r w0 w5) as H05 by (by eapply rely_trans).
  assert (attempting r w5 e c g) as A5 by (by eapply attempting_rely).
  destruct (mm_mountLog m5) as [log|].
  { eapply safe_launch; [exact A5|]. intros x w6 H6 Hx. apply HQ; [by eapply rely_trans|done]. }
  apply safe_bind, safe_reading; [by eapply attempting_valid|]. intros tau6 w6 m6 H6 _ _.
  assert (rely r w0 w6) as H06 by (by eapply rely_trans).
  apply safe_bind, safe_logstore_Open. intros opened w7 H7.
  assert (rely r w0 w7) as H07 by (by eapply rely_trans).
  assert (attempting r w7 e c g) as A7 by (by eapply attempting_rely).
  destruct opened as [log|err].
  2: { eapply safe_start_failure; [exact A7|]. intros x w8 H8 Hx. apply HQ; [by eapply rely_trans|done]. }
  apply safe_bind, safe_locked_quiet; [by eapply attempting_valid|quiet|]. intros en m8 w8 H8 _.
  assert (rely r w0 w8) as H08 by (by eapply rely_trans).
  eapply safe_launch; [by eapply attempting_rely; [exact H8|]|].
  intros x w9 H9 Hx. apply HQ; [by eapply rely_trans|done].
Qed.

(** ** Mount *)

Lemma validate_client_ok fs c : validateMountConfig fs daemon (Some c) = None -> client_ok c = true.
Proof.
  unfold validateMountConfig, client_ok, clientType. destruct (MountConfig_ClientConfig c) as [[i|[d|]|[n|]]|] eqn:E; try done.
  - unfold validate_client, GetDavfs. by rewrite E.
  - unfold validate_client, GetNfs. by rewrite E.
Qed.

Lemma stored_config_facts c :
  client_ok (stored_config daemon c) = client_ok c /\
  MountConfig_MountPath (stored_config daemon c) = Clean (MountConfig_MountPath c).
Proof.
  unfold stored_config, applyFuseAllowOtherPolicy, client_ok. destruct c as [p ro o k]. simpl.
  by destruct (AllowFuseAllowOther daemon), k as [[]|]; simpl; repeat case_match.
Qed.

Lemma result_ok_error err : result_ok (None, err).
Proof. by intros ? [=]. Qed.
Hint Resolve result_ok_error : core.

Lemma safe_mount_registered r w0 ctx e c id path deadline m0 (Q : mount_result -> res -> World -> Prop) :
  w_entries w0 !! e = Some m0 -> mm_exitDone m0 = c -> MountInfo_MountId (mm_info m0) = id ->
  Clean (GetMountPath (mm_info m0)) = path -> e ∈ r_locks r -> c ∈ r_chans r -> begun r e -> started w0 ->
  (forall x r' w', result_ok x -> e ∈ r_locks r' -> Q x r' w') ->
  safe r w0 (mount_registered daemon ctx e id path deadline) Q.
Proof.
  intros He Hex Hid Hp Hl Hc Hb Hst HQ.
  assert (owns r w0 e c (mm_generation m0)) as Ho by (split; [done|]; by exists m0).
  assert (valid w0 e) as Hv by (by exists m0).
  apply safe_bind, safe_register_mount; [done|by exists m0|]. intros [err|] w1 H1; [by apply HQ|].
  apply safe_bind, safe_reading; [by eapply valid_rely|]. intros tau w2 m2 H2 Hi2 He2.
  apply safe_bind, safe_repository_Create.
  { eapply started_mono; [eapply mono_trans; [apply H1|apply H2]|done]. }
  { intros i [= <-]. by eapply entry_writable. }
  intros x w3 H3 Hcr.
  assert (rely r w0 w3) as H03 by (by do 2 (eapply rely_trans; [done|])). destruct x as [err|].
  - apply safe_bind, safe_section_close; [by eapply valid_rely|]. intros tau4 en w4 m4 Ht H4 Hi4 He4.
    assert (owns r w4 e c (mm_generation m0)) as (_ & m' & He' & Hex' & _)
      by (eapply owns_rely; [|exact Ho]; by eapply rely_trans).
    rewrite He4 in He'. injection He' as <-. unfold persist_failed_section. rewrite Hex'. do 3 eexists.
    split_and!; [done|done| |].
    + apply section_ok_quiet; [by eapply inv_entries|..];
        by destruct m4 as [? [? ? ? ? ? ? ? ? ? ? ?] ? ? ? ? ? ? ? ? ? ?].
    + intros w5 _ _ _. apply HQ; [|done]. intros i [= <-]. apply redactMountInfo_redacted.
  - apply safe_bind, safe_reading; [by eapply valid_rely|]. intros tau4 w4 m4 H4 _ He4.
    apply (safe_startMount r w4 e c (mm_generation m0)).
    + split_and!; [eapply owns_rely; [|exact Ho]; by eapply rely_trans|done| |apply Hb..].
      eapply created_mono; [apply H4|]. destruct H3 as [Hm3 _].
      destruct (mono_entries _ _ Hm3 e m2 He2) as (m3 & He3 & S3). exists m3. split; [done|].
      rewrite (step_id _ _ S3). left. by apply Hcr.
    + intros x w5 _ Hx. by apply HQ.
Qed.

Lemma safe_mount_body w0 ctx request (Q : mount_result -> res -> World -> Prop) :
  started w0 -> (forall x r' w', result_ok x -> Q x r' w') -> safe no_res w0 (mount_body daemon ctx request) Q.
Proof.
  intros Hst HQ. apply safe_bind, safe_asks. intros [err|] w1 H1; [by apply HQ|].
  destruct request as [req|]; [|by apply HQ].
  apply safe_bind, safe_asks_env. intros en w2 H2.
  destruct (validateMountConfig _ _ _) as [err|] eqn:Ev; [by apply HQ|].
  destruct (MountRequest_Config req) as [config|]; [|by apply HQ]. apply validate_client_ok in Ev.
  apply safe_bind, safe_asks. intros start w3 H3. apply safe_bind, safe_asks. intros generated w4 H4.
  assert (started w4) as S4.
  { eapply started_mono; [|exact Hst]. apply (rely_trans no_res w0 w3 w4); [|done]. by do 2 (eapply rely_trans; [done|]). }
  cbv zeta. set (id := if String.eqb (GetMountId req) EmptyString then generated else GetMountId req).
  match goal with |- context [match ?x with Some _ => _ | None => _ end] => destruct x as [err|] end; [by apply HQ|].
  destruct (stored_config_facts config) as [Hok Hpath].
  apply safe_bind, safe_new_locked_entry; [done| |].
  { intros en'. split; [done|]. eexists. split; [done|]. by rewrite Hok. }
  intros en' c e w5 M5 _ _ He. apply safe_bind. eapply safe_mount_registered; [exact He|done|done| | | | | |].
  - simpl. unfold GetMountPath. simpl. rewrite Hpath. apply Clean_idem.
  - simpl. set_solver.
  - simpl. set_solver.
  - split; simpl; set_solver.
  - by eapply started_mono.
  - intros x r' w6 Hx Hl. apply safe_bind, safe_operation_Unlock; [done|]. intros w7 _. by apply HQ.
Qed.

Lemma safe_Mount w0 ctx request (Q : mount_result -> res -> World -> Prop) :
  started w0 -> (forall x r' w', result_ok x -> Q x r' w') -> safe no_res w0 (Mount daemon ctx request) Q.
Proof.
  intros Hst HQ. apply safe_bind, safe_asks. intros start w H1. apply safe_bind, safe_mount_body; [eapply started_mono; [apply H1|done]|].
  intros x r' w1 Hx.
  apply safe_bind, safe_with_metrics. intros w2 _. by apply HQ.
Qed.

(** ** Unmount *)

Lemma safe_holding_operation {A} r w0 e (p : prog A) (Q : A -> res -> World -> Prop) :
  valid w0 e ->
  (forall w, mono w0 w -> safe (lock_res e r) w p (fun x r' w' =>
     e ∈ r_locks r' /\ forall w'', mono w' w'' -> Q x (unlock_res e r') w'')) ->
  safe r w0 (holding_operation e p) Q.
Proof.
  intros Hv Hp. apply safe_bind, safe_operation_Lock; [done..|]. intros w1 H1. apply safe_bind.
  eapply safe_mono; [|by apply Hp]. intros x r' w2 [Hl HQ].
  apply safe_bind, safe_operation_Unlock; [done|]. intros w3 H3. by apply HQ.
Qed.

(** The same, when the thread begins the next attempt of the entry. *)
Lemma safe_holding_begin {A} r w0 e (p : prog A) (Q : A -> res -> World -> Prop) :
  valid w0 e -> may_begin r w0 e ->
  (forall w m m', mono w0 w -> w_entries w0 !! e = Some m -> w_entries w !! e = Some m' ->
     (e ∈ r_fresh r -> mm_exitDone m' = mm_exitDone m) ->
     safe (lock_res e (begin_res e r)) w p (fun x r' w' =>
       e ∈ r_locks r' /\ forall w'', mono w' w'' -> Q x (unlock_res e r') w'')) ->
  safe r w0 (holding_operation e p) Q.
Proof.
  intros Hv Hb Hp. apply safe_bind, safe_operation_Lock_begin; [done..|]. intros w1 m m' H1 Hm Hm' Hex. apply safe_bind.
  eapply safe_mono; [|by eapply Hp]. intros x r' w2 [Hl HQ].
  apply safe_bind, safe_operation_Unlock; [done|]. intros w3 H3. by apply HQ.
Qed.

Lemma safe_runSystemUnmount r w0 ctx path lazy timeout (Q : option goerror -> res -> World -> Prop) :
  (forall x w', rely r w0 w' -> Q x r w') -> safe r w0 (runSystemUnmount daemon ctx path lazy timeout) Q.
Proof.
  intros HQ. apply safe_unrelated; [|done]. intros e w.
  destruct (env_err e), (env_umount e), ctx; try done; destruct w; constructor; wsimpl; try done; try (by left);
    right; eexists; (split_and!; [done | discriminate | done]).
Qed.

Lemma safe_unmountByClientType r w0 ctx client path (Q : option goerror -> res -> World -> Prop) :
  (forall x w', rely r w0 w' -> Q x r w') -> safe r w0 (unmountByClientType daemon ctx client path) Q.
Proof.
  intros HQ. destruct (decide (client = Some mountClientIRODSFS)) as [->|Hc]; [by apply safe_system_call|].
  rewrite unmountByClientType_helper by done. apply safe_bind, safe_runSystemUnmount. intros x w1 H1.
  destruct (_ || _); [by apply HQ|]. apply safe_bind, safe_system_call; [done|]. intros y w2 H2.
  assert (rely r w0 w2) by (by eapply rely_trans). destruct x, y; by apply HQ.
Qed.

Lemma safe_unmountClient r w0 ctx e (Q : option goerror -> res -> World -> Prop) :
  valid w0 e -> (forall x w', rely r w0 w' -> Q x r w') -> safe r w0 (unmountClient daemon ctx e) Q.
Proof.
  intros Hv HQ. apply safe_bind, safe_reading; [done|]. intros tau w1 m1 H1 _ _.
  apply safe_bind, safe_config_path; [by eapply valid_rely|]. intros path w2 H2.
  apply safe_unmountByClientType. intros x w3 H3. apply HQ. by do 2 (eapply rely_trans; [done|]).
Qed.

Lemma safe_unmount_failure r w0 e g code err (Q : mount_result -> res -> World -> Prop) :
  valid w0 e -> (forall x w', rely r w0 w' -> result_ok x -> Q x r w') ->
  safe r w0 (unmount_failure daemon e g code err) Q.
Proof.
  intros Hv HQ. apply safe_bind, safe_recordUnmountFailure; [done|]. intros w1 H1.
  apply safe_bind, safe_snapshot; [by eapply valid_rely|]. intros i w2 H2 Hi.
  apply HQ; [by eapply rely_trans|]. by intros ? [= <-].
Qed.

Lemma safe_Signal_if r w0 b command (Q : unit -> res -> World -> Prop) :
  (forall w', rely r w0 w' -> Q tt r w') -> safe r w0 (Signal_if b command) Q.
Proof. intros HQ. destruct command as [p|], b; simpl; try (apply HQ, rely_refl). by apply safe_Signal. Qed.

Lemma safe_Kill_if r w0 command (Q : unit -> res -> World -> Prop) :
  (forall w', rely r w0 w' -> Q tt r w') -> safe r w0 (Kill_if command) Q.
Proof. intros HQ. destruct command as [p|]; [by apply safe_Kill | apply HQ, rely_refl]. Qed.

Lemma safe_close_log r w0 log (Q : unit -> res -> World -> Prop) :
  (forall w', rely r w0 w' -> Q tt r w') -> safe r w0 (close_log log) Q.
Proof. intros HQ. destruct log as [l|]; [by apply safe_mountLog_Close | apply HQ, rely_refl]. Qed.

Lemma safe_select_exit r w0 ctx c (Q : waited -> res -> World -> Prop) :
  (forall x w', rely r w0 w' -> Q x r w') -> safe r w0 (select_exit ctx c) Q.
Proof.
  intros HQ. apply safe_observe; [|done]. intros e w.
  by destruct (env_case e); [destruct (w_chans w !! c) as [[]|]| | |destruct (ctx_Err ctx e)].
Qed.

Lemma safe_await_exit r w0 ctx command c (Q : option goerror -> res -> World -> Prop) :
  (forall x w', rely r w0 w' -> Q x r w') -> safe r w0 (await_exit ctx command c) Q.
Proof.
  intros HQ. apply safe_bind, safe_select_exit. intros [| |err] w1 H1; try (by apply HQ).
  apply safe_bind, safe_Kill_if. intros w2 H2. apply safe_bind, safe_observe.
  { intros e w. by destruct (env_case e); [destruct (w_chans w !! c) as [[]|]| | |destruct (ctx_Err ctx e)]. }
  intros x w3 H3. assert (rely r w0 w3) by (by do 2 (eapply rely_trans; [done|])). destruct x; by apply HQ.
Qed.

Lemma safe_finish_unmount r w0 ctx e g (Q : mount_result -> res -> World -> Prop) :
  valid w0 e -> (forall x w', rely r w0 w' -> result_ok x -> Q x r w') ->
  safe r w0 (finish_unmount daemon ctx e g) Q.
Proof.
  intros Hv HQ. apply safe_bind, safe_reading; [done|]. intros tau w1 m H1 _ _.
  destruct (running_attempt m) as [[persistent command] exitDone].
  apply safe_bind, safe_Signal_if. intros w2 H2. apply safe_bind, safe_await_exit. intros stopped w3 H3.
  assert (rely r w0 w3) as H03 by (by do 2 (eapply rely_trans; [done|])).
  assert (valid w3 e) as V3 by (by eapply valid_rely). destruct stopped as [err|].
  { apply safe_unmount_failure; [done|]. intros x w4 H4 Hx. apply HQ; [by eapply rely_trans|done]. }
  apply safe_bind, safe_reading; [done|]. intros tau4 w4 m4 H4 _ _.
  apply safe_bind, safe_system_call; [done|]. intros removeErr w5 H5.
  assert (rely r w0 w5) as H05 by (by do 2 (eapply rely_trans; [done|])).
  assert (valid w5 e) as V5 by (by eapply valid_rely). destruct removeErr as [err|].
  { apply safe_unmount_failure; [done|]. intros x w6 H6 Hx. apply HQ; [by eapply rely_trans|done]. }
  apply safe_bind, safe_locked_quiet; [done|quiet|]. intros en m6 w6 H6 _. unfold unmounted_section. cbn [fst snd].
  apply safe_bind, safe_close_log. intros w7 H7. apply safe_bind, safe_repository_Delete. intros y w8 H8.
  apply safe_bind, safe_unregister. intros w9 H9.
  apply safe_bind, safe_publish; [apply redactMountInfo_redacted|]. intros w10 H10.
  apply HQ; [by do 5 (eapply rely_trans; [done|])|]. intros i [= <-]. apply redactMountInfo_redacted.
Qed.

Lemma safe_performUnmountAttempt r w0 ctx e g (Q : mount_result -> res -> World -> Prop) :
  valid w0 e -> (forall x w', rely r w0 w' -> result_ok x -> Q x r w') ->
  safe r w0 (performUnmountAttempt daemon ctx e g) Q.
Proof.
  intros Hv HQ. apply safe_bind, safe_config_path; [done|]. intros path w1 H1.
  apply safe_bind, safe_asks. intros probed w2 H2. assert (rely r w0 w2) as H02 by (by eapply rely_trans).
  assert (valid w2 e) as V2 by (by eapply valid_rely). destruct probed as [mounted|err].
  2: { apply safe_unmount_failure; [done|]. intros x w3 H3 Hx. apply HQ; [by eapply rely_trans|done]. }
  apply safe_bind.
  assert (forall x w, rely r w2 w ->
    safe r w (match x with
              | Some err => if Is err ErrDAVFSLazyUnmount then unmount_failure daemon e g "DAVFS_LAZY_UNMOUNT" err
                            else unmount_failure daemon e g "UNMOUNT_FAILED" (EWrap err "failed to unmount mount")
              | None => finish_unmount daemon ctx e g
              end) Q) as Hk.
  { intros x w H3. assert (rely r w0 w) as H03 by (by eapply rely_trans).
    assert (valid w e) as V3 by (by eapply valid_rely). destruct x as [err|].
    - destruct (Is _ _); apply safe_unmount_failure; try done; intros x w4 H4 Hx;
        (apply HQ; [by eapply rely_trans|done]).
    - apply safe_finish_unmount; [done|]. intros x w4 H4 Hx. apply HQ; [by eapply rely_trans|done]. }
  destruct mounted; [|by apply Hk, rely_refl]. apply safe_unmountClient; [done|]. auto.
Qed.

(** A section under the operation mutex that starts a new generation. *)
Lemma section_ok_bump tau r e m m' :
  entry_ok daemon tau m -> 0 <= tau < limit -> e ∈ r_locks r ->
  mm_operation m' = mm_operation m -> mm_generation m' = wrap_u64 (mm_generation m + 1) ->
  MountInfo_MountId (mm_info m') = MountInfo_MountId (mm_info m) ->
  MountInfo_Config (mm_info m') = MountInfo_Config (mm_info m) ->
  -2147483648 <= MountInfo_Attempt (mm_info m') <= ceiling daemon -> MountInfo_Attempt (mm_info m') <= 2147483647 ->
  (e ∉ r_begun r -> mm_exitDone m' = mm_exitDone m) -> section_ok daemon tau r e m m'.
Proof.
  intros [o1 o2 o3 o4] Ht Hl Hop Hg Hid Hcfg Hat H32 Hex. unfold limit in Ht.
  rewrite wrap_u64_id in Hg by (unfold two64 in *; lia). split; [| |done|done|done].
  - constructor; [done..|lia|lia].
  - constructor; [lia|done..|by rewrite Hcfg].
Qed.

Lemma safe_unmount_locked r w0 ctx e id (Q : mount_result -> res -> World -> Prop) :
  valid w0 e -> e ∈ r_locks r -> (forall x w', mono w0 w' -> result_ok x -> Q x r w') ->
  safe r w0 (unmount_locked daemon ctx e id) Q.
Proof.
  intros Hv Hl HQ. apply safe_bind, safe_gets. intros tau w1 H1 _.
  destruct (negb _); [by apply HQ; [apply H1|]|].
  apply safe_bind, safe_cancelRetryTimer; [by eapply valid_rely|]. intros w2 H2.
  assert (rely r w0 w2) as H02 by (by eapply rely_trans). assert (valid w2 e) as V2 by (by eapply valid_rely).
  apply safe_bind, safe_locked; [done|]. intros tau3 en w3 m3 Ht3 H3 Hi3 He3.
  pose proof (inv_entries _ _ _ Hi3 e m3 He3) as Hok. unfold accept_unmount_section. cbn [fst snd]. split.
  { pose proof (maxAttempts_pos daemon). pose proof (ceiling_attempts daemon). pose proof (ok_attempt _ _ _ Hok).
    pose proof (ok_int32 _ _ _ Hok).
    apply section_ok_bump; try done; destruct m3 as [? [? ? ? ? ? ? ? ? ? ? ?] ? ? ? ? u ? ? ? ? ?];
      destruct u; simpl in *; try done; lia. }
  intros w4 Hm4 He4 Hi4 _. assert (valid w4 e) as V4 by (by eexists).
  assert (mono w0 w4) as M4 by (eapply mono_trans; [apply H02|]; eapply mono_trans; [apply H3|done]).
  apply safe_bind, safe_publish_updated; [done|]. intros w5 H5.
  apply safe_bind, safe_repository_Update.
  { intros i [= <-]. eapply writable_mono; [apply H5|]. pose proof (entry_writable _ _ _ _ _ Hi4 He4). by destruct m3. }
  intros x w6 H6. assert (rely r w4 w6) as H46 by (by eapply rely_trans). assert (valid w6 e) as V6 by (by eapply valid_rely).
  assert (mono w0 w6) as M6 by (eapply mono_trans; [exact M4|apply H46]). destruct x as [err|].
  - apply safe_bind, safe_locked; [done|]. intros tau7 en7 w7 m7 Ht7 H7 Hi7 He7.
    pose proof (inv_entries _ _ _ Hi7 e m7 He7) as [o1 o2 o3 o4]. split.
    + destruct m7 as [? [? ? ? ? ? ? ? ? ? ? ?] ? ? ? ? ? ? ? ? ? ?]. split; [by constructor| |done|done|done].
      constructor; simpl in *; [lia|done..].
    + intros w8 Hm8 _ _ _. apply HQ; [|done]. eapply mono_trans; [exact M6|]. eapply mono_trans; [apply H7|done].
  - apply safe_performUnmountAttempt; [done|]. intros x w7 H7 Hx. apply HQ; [|done]. eapply mono_trans; [exact M6|apply H7].
Qed.

Lemma safe_Unmount w0 ctx request (Q : mount_result -> res -> World -> Prop) :
  (forall x r' w', result_ok x -> Q x r' w') -> safe no_res w0 (Unmount daemon ctx request) Q.
Proof.
  intros HQ. apply safe_bind, safe_asks. intros start w _.
  apply safe_bind. apply (safe_mono _ _ _ _ _ _ _ _ _ (fun x _ _ => result_ok x)).
  { intros x r' w1 Hx. apply safe_bind, safe_with_metrics. intros w2 _. by apply HQ. }
  apply safe_bind, safe_asks. intros [err|] w1 _; [done|]. destruct request as [req|]; [|done].
  cbv zeta. destruct (String.eqb _ _); [done|]. apply safe_bind, safe_gets. intros tau w2 _ Hi.
  destruct (w_mounts w2 !! _) as [e|] eqn:Ee; [|done].
  destruct (reg_entry _ _ (inv_registry _ _ _ Hi) _ _ Ee) as (m & He & _).
  apply safe_holding_operation; [by exists m|]. intros w3 M3.
  apply safe_unmount_locked; [eapply valid_mono; [exact M3|by exists m]|simpl; set_solver|].
  intros x w4 _ Hx. split; [simpl; set_solver | done].
Qed.

(** ** Scheduled retries *)

Lemma wrap_i32_succ a : -2147483648 <= a -> -2147483648 <= wrap_i32 (a + 1) <= a + 1 /\ wrap_i32 (a + 1) <= 2147483647.
Proof.
  intros Ha. unfold wrap_i32, two32.
  pose proof (Z.mod_pos_bound (a + 1 + 2147483648) 4294967296 ltac:(lia)).
  pose proof (Z.mod_le (a + 1 + 2147483648) 4294967296 ltac:(lia) ltac:(lia)). lia.
Qed.

(** The next attempt stays within the configured number of attempts. *)
Lemma next_attempt_ok tau w e g m :
  attempt_left daemon w e g -> w_entries w !! e = Some m -> entry_ok daemon tau m -> mm_generation m = g ->
  -2147483648 <= wrap_i32 (MountInfo_Attempt (mm_info m) + 1) <= ceiling daemon /\
  wrap_i32 (MountInfo_Attempt (mm_info m) + 1) <= 2147483647.
Proof.
  intros (m' & He' & _ & Hl) He Hok Hg. rewrite He in He'. injection He' as <-. specialize (Hl Hg).
  pose proof (ok_attempt _ _ _ Hok). pose proof (ceiling_attempts daemon).
  pose proof (wrap_i32_succ (MountInfo_Attempt (mm_info m)) ltac:(lia)). lia.
Qed.

(** A retry that is due makes a fresh channel and owns it. *)
Lemma safe_begin_retry r w0 e g (Q : option Z -> res -> World -> Prop) :
  e ∈ r_locks r -> begun r e -> created w0 e -> attempt_left daemon w0 e g ->
  (forall w', rely r w0 w' -> Q None r w') ->
  (forall c g' w', attempting (chan_res c r) w' e c g' -> Q (Some g') (chan_res c r) w') ->
  safe r w0 (begin_retry e g) Q.
Proof.
  intros Hl Hb Hcr Hal HN HS tau en w Ht Hr Hi Hh. destruct (valid_rely _ _ _ _ Hr (created_valid _ _ Hcr)) as [m He].
  simpl. rewrite He. pose proof (inv_entries _ _ _ Hi e m He) as Hok. unfold retry_mount_section.
  destruct (_ || _) eqn:Est; simpl.
  { split; [by apply Inv_later|]. exists r, []. split; [by apply framed_refl | by apply HN]. }
  bools. apply attempt_left_mono with (w' := w) in Hal; [|apply Hr]. set (c := length (w_chans w)).
  match goal with |- Invariant.Inv _ _ (set_w_entries (<[_ := ?x]> _) _) /\ _ => set (m' := x) end.
  assert (forall chans, set_w_entries (<[e := m']> (w_entries w)) (set_w_chans chans w) = with_entry e m' chans w) as ->
    by done.
  assert (section_ok daemon tau r e m m') as Hs.
  { destruct (next_attempt_ok _ _ _ _ _ Hal He Hok ltac:(done)).
    apply section_ok_bump; try done; unfold m'; [by destruct m as [? [? ? ? ? ? ? ? ? ? ? ?] ? ? ? ? ? ? ? ? ? ?]..|].
    intros []. apply Hb. }
  pose proof (with_entry_mono e m m' (w_chans w ++ [false]) w He (sec_step _ _ _ _ _ _ Hs)) as Hmono.
  split; [by eapply with_entry_Inv; eauto using sec_step, sec_ok|].
  assert (forall c', w_chans w !! c' = Some false -> (w_chans w ++ [false]) !! c' = Some false) as Hopen
    by (intros c' Hc'; by apply lookup_app_l_Some).
  exists (chan_res c r), []. split.
  - apply (framed_intro daemon _ _ [] []); [done| | |constructor| |by repeat split].
    + eapply with_entry_undisturbed; [done..|]. auto.
    + rewrite app_nil_r. by destruct w.
    + constructor; [|constructor]. split; [|split; simpl; [by left| |by left|intros e' He'; left; set_solver|done|by left]].
      * destruct (with_entry_holds daemon r tau e m m' (w_chans w ++ [false]) w He Hs Hh) as (h1 & h2 & h3).
        { intros c' Hc'. by apply Hopen, Hh. }
        split; [done|]. split; [|done]. simpl. intros c' [->%elem_of_singleton|Hc']%elem_of_union; [|by apply h2].
        destruct w. by apply list_lookup_middle.
      * intros c' [->%elem_of_singleton|Hc']%elem_of_union; [|by left]. right. apply lookup_ge_None. unfold c. lia.
  - apply HS. split_and!; [|simpl; set_solver|eapply created_mono; [|exact Hcr]; eapply mono_trans; [apply Hr|done]|apply Hb..].
    split; [done|]. exists m'. split; [by eapply with_entry_lookup|]. unfold m'. by destruct m.
Qed.

Lemma safe_retryMount w0 e g :
  scheduled w0 e -> created w0 e -> attempt_left daemon w0 e g ->
  safe no_res w0 (retryMount daemon e g) (fun _ _ _ => True).
Proof.
  intros Hs Hc Hal. apply safe_holding_begin; [by apply created_valid|by right|]. intros w1 m m1 M1 _ _ _.
  apply safe_bind, safe_begin_retry;
    [simpl; set_solver|split; simpl; set_solver|by eapply created_mono|by eapply attempt_left_mono| |].
  { intros w2 _. split; [simpl; set_solver | done]. }
  intros c g' w2 A2. apply safe_persist_publish; [by eapply attempting_valid|]. intros w3 H3.
  apply safe_bind, safe_asks. intros now w4 H4. assert (attempting _ w4 e c g') as A4
    by (eapply attempting_rely; [|exact A2]; by eapply rely_trans).
  apply safe_bind, safe_reading; [by eapply attempting_valid|]. intros tau w5 m5 H5 _ _.
  apply safe_bind. eapply safe_startMount; [by eapply attempting_rely|].
  intros x w6 _ _. split; [simpl; set_solver | done].
Qed.

Lemma safe_retryUnmount w0 e g :
  valid w0 e -> attempt_left daemon w0 e g -> safe no_res w0 (retryUnmount daemon e g) (fun _ _ _ => True).
Proof.
  intros Hv Hal. apply safe_holding_operation; [done|]. intros w1 M1.
  apply safe_bind, safe_locked; [by eapply valid_mono|]. intros tau en w m Ht Hr Hi He.
  pose proof (inv_entries _ _ _ Hi e m He) as Hok. unfold retry_unmount_section.
  destruct (_ || _) eqn:Est; cbn [fst snd].
  - split; [by apply section_ok_quiet|]. intros w' _ _ _ _. split; [simpl; set_solver | done].
  - bools. split.
    + assert (attempt_left daemon w e g) as Hal'
        by (eapply attempt_left_mono; [|exact Hal]; eapply mono_trans; [exact M1|apply Hr]).
      destruct (next_attempt_ok _ _ _ _ _ Hal' He Hok ltac:(done)).
      apply section_ok_bump; try done; [simpl; set_solver|..];
        by destruct m as [? [? ? ? ? ? ? ? ? ? ? ?] ? ? ? ? ? ? ? ? ? ?].
    + intros w' Hm He' _ _. apply safe_persist_publish; [by eexists|]. intros w3 H3.
      apply safe_bind, safe_performUnmountAttempt; [eapply valid_rely; [exact H3|by eexists]|].
      intros x w4 _ _. split; [simpl; set_solver | done].
Qed.

(** ** Supervision *)

Lemma safe_waitForProcess w0 e g p c :
  created w0 e -> safe (attempt_res e {[c]}) w0 (waitForProcess daemon e g p c) (fun _ _ _ => True).
Proof.
  intros Hc. apply safe_bind, safe_asks. intros err w1 H1.
  assert (created w1 e) as C1 by (eapply created_mono; [apply H1|done]).
  apply safe_bind, safe_section_close; [by apply created_valid|]. intros tau en w m Ht Hr Hi He.
  unfold process_exit_section. do 3 eexists. split_and!; [done|simpl; set_solver| |].
  { apply section_ok_quiet; [by eapply inv_entries|..];
      by destruct m as [? [? ? ? ? ? ? ? ? ? ? ?] ? ? ? ? ? ? ? ? ? ?], (_ && _). }
  intros w2 M2 _ _. assert (created w2 e) as C2 by (eapply created_mono; [|exact C1]; eapply mono_trans; [apply Hr|done]).
  destruct (_ && (mm_persistent m || _)); [|done]. apply safe_bind, safe_with_metrics. intros w3 H3.
  apply safe_bind, safe_asks. intros probed w4 H4.
  assert (forall x w, mono w4 w -> safe (unchan_res c (attempt_res e {[c]})) w
    (match x with
     | Some err' => recordTerminalMountFailure e g (mountFailureCode (mm_client m) err)
                      (processExitMessage err +:+ "; failed to clean up the broken mount: " +:+ Error err')
     | None => recordMountFailure daemon e g (mountFailureCode (mm_client m) err) (processExitMessage err) []
     end) (fun _ _ _ => True)) as Hk.
  { intros x w5 M5. assert (created w5 e) as C5.
    { eapply created_mono; [exact M5|]. eapply created_mono; [apply H4|]. eapply created_mono; [apply H3|done]. }
    destruct x; [by apply safe_recordTerminalMountFailure; [apply created_valid|]|].
    apply safe_recordMountFailure; [done|split; simpl; set_solver|done]. }
  apply safe_bind. destruct probed as [[]|]; [|by apply Hk, mono_refl..].
  apply safe_unmountByClientType. intros x w5 H5. apply Hk, H5.
Qed.

Lemma safe_cleanupTimedOutMount r w0 client path id (Q : bool * option goerror -> res -> World -> Prop) :
  (forall x w', rely r w0 w' -> Q x r w') -> safe r w0 (cleanupTimedOutMount daemon client path id) Q.
Proof.
  intros HQ. apply safe_bind, safe_asks. intros [mounted|err] w1 H1; [|by apply HQ].
  assert (forall (x : bool * option goerror) w, rely r w1 w -> safe r w
    (match x with
     | (preserve, Some err) => mret (preserve, Some err)
     | (true, None) => mret (true, None)
     | (false, None) =>
         removeErr ← os_RemoveAll (mount_data_root daemon id);
         mret (false, WrapOpt removeErr ("failed to delete mount data directory " +:+ Quote (mount_data_root daemon id)))
     end) Q) as Hk.
  { intros [[] [err|]] w2 H2; try (apply HQ; by eapply rely_trans).
    apply safe_bind, safe_system_call; [done|]. intros y w3 H3. apply HQ. by do 2 (eapply rely_trans; [done|]). }
  apply safe_bind. destruct mounted, client as [[]|]; try (apply Hk, rely_refl).
  1,2: apply safe_bind, safe_system_call; [done|]; intros x w2 H2; by apply Hk.
  apply safe_bind, safe_runSystemUnmount. intros x w2 H2. by apply Hk.
Qed.

Lemma safe_handleMountTimeout w0 e g :
  created w0 e -> safe (attempt_res e ∅) w0 (handleMountTimeout daemon e g) (fun _ _ _ => True).
Proof.
  intros Hc. apply safe_holding_operation; [by apply created_valid|]. intros w1 M1.
  assert (created w1 e) as C1 by (by eapply created_mono).
  apply safe_bind, safe_locked_entry; [by apply created_valid| |].
  { intros en m. unfold timeout_section. destruct (_ || _); [done|].
    by destruct m as [? [? ? ? ? ? ? ? ? ? ? ?] ? ? ? ? ? ? ? ? ? ?]. }
  intros tau en m w2 H2 _ Hok. unfold timeout_section. destruct (_ || _); cbn [fst snd].
  { split; [simpl; set_solver | done]. }
  destruct (ok_config _ _ _ Hok) as (config & -> & _).
  apply safe_bind, safe_Kill_if. intros w3 H3. apply safe_bind, safe_cleanupTimedOutMount.
  intros [preserved x] w4 H4. assert (created w4 e) as C4.
  { eapply created_mono; [apply H4|]. eapply created_mono; [apply H3|]. eapply created_mono; [apply H2|done]. }
  destruct x as [err|].
  - apply safe_recordTerminalMountFailure; [by apply created_valid|]. intros w5 _. split; [simpl; set_solver | done].
  - apply safe_recordMountFailure; [done|split; simpl; set_solver|]. intros w5 _. split; [simpl; set_solver | done].
Qed.

Lemma safe_check_mounted r w0 e g (Q : bool -> res -> World -> Prop) :
  valid w0 e -> (forall x w', rely r w0 w' -> Q x r w') -> safe r w0 (check_mounted e g) Q.
Proof.
  intros Hv HQ. apply safe_bind, safe_config_path; [done|]. intros path w1 H1.
  apply safe_bind, safe_asks. intros probed w2 H2. assert (rely r w0 w2) as H02 by (by eapply rely_trans).
  destruct probed as [[]|]; try (by apply HQ).
  apply safe_bind, safe_locked_quiet; [by eapply valid_rely| |].
  { intros en m. unfold mounted_section. destruct (_ && _); [|done].
    by destruct m as [? [? ? ? ? ? ? ? ? ? ? ?] ? ? ? ? ? ? ? ? ? ?]. }
  intros en m w3 H3 _. assert (rely r w0 w3) as H03 by (by eapply rely_trans).
  apply safe_bind. destruct (mounted_section g en m).1; [|by apply HQ].
  apply safe_bind, safe_persistBestEffort; [by eapply valid_rely|]. intros w4 H4.
  assert (rely r w0 w4) as H04 by (by eapply rely_trans).
  apply safe_publish_updated; [by eapply valid_rely|]. intros w5 H5. apply HQ. by eapply rely_trans.
Qed.

Lemma safe_waitForMount w0 e g deadline c :
  created w0 e -> safe (attempt_res e ∅) w0 (waitForMount daemon e g deadline c) (fun _ _ _ => True).
Proof.
  intros Hc. apply safe_bind, safe_asks. intros now w1 H1.
  assert (created w1 e) as C1 by (eapply created_mono; [apply H1|done]).
  destruct (_ <=? _); [by apply safe_handleMountTimeout|].
  apply safe_bind, safe_check_mounted; [by apply created_valid|]. intros [] w2 H2; [done|].
  apply (safe_go_attempt _ _ e); [|split; simpl; set_solver|done]. split; [done|]. eapply created_mono; [apply H2|done].
Qed.

Lemma safe_waitForMount_loop w0 e g c :
  created w0 e -> safe (attempt_res e ∅) w0 (waitForMount_loop daemon e g c) (fun _ _ _ => True).
Proof.
  intros Hc. apply safe_bind, safe_observe.
  { intros en w. by destruct (env_case en); [destruct c as [c|]; [destruct (w_chans w !! c) as [[]|]|]|..]. }
  intros x w1 H1. assert (created w1 e) as C1 by (eapply created_mono; [apply H1|done]). destruct x.
  - apply safe_bind, safe_reading; [by apply created_valid|]. intros tau w2 m H2 _ _.
    destruct (attempt_stopped g m); [done|]. apply (safe_go_attempt _ _ e); [|split; simpl; set_solver|done]. split; [done|].
    eapply created_mono; [apply H2|done].
  - apply safe_bind, safe_check_mounted; [by apply created_valid|]. intros [] w2 H2; [done|].
    apply (safe_go_attempt _ _ e); [|split; simpl; set_solver|done]. split; [done|]. eapply created_mono; [apply H2|done].
  - by apply safe_handleMountTimeout.
  - done.
Qed.

(** ** Queries *)

Lemma safe_GetMount r w0 ctx id (Q : mount_result -> res -> World -> Prop) :
  (forall x w', result_ok x -> Q x r w') -> safe r w0 (GetMount ctx id) Q.
Proof.
  intros HQ. apply safe_bind, safe_asks. intros [err|] w1 _; [by apply HQ|].
  apply safe_bind, safe_gets. intros tau w2 _ Hi. destruct (w_mounts w2 !! id) as [e|] eqn:Ee; [|by apply HQ].
  destruct (reg_entry _ _ (inv_registry _ _ _ Hi) _ _ Ee) as (m & He & _).
  apply safe_bind, safe_snapshot; [by exists m|]. intros i w3 _ Hred. apply HQ. by intros ? [= <-].
Qed.

(** Every entry found in the registry exists from then on. *)
Lemma safe_registered_entries r w0 (Q : list entry_id -> res -> World -> Prop) :
  (forall l w', rely r w0 w' -> Forall (valid w') l -> Q l r w') -> safe r w0 registered_entries Q.
Proof.
  intros HQ. apply safe_aside. intros tau en w Hr Hi. split_and!; [by constructor|by apply Inv_later|]. intros _.
  apply HQ; [done|]. apply Forall_forall. intros e ([id e'] & -> & Hin)%list_elem_of_fmap.
  apply range_map_sound in Hin. destruct (reg_entry _ _ (inv_registry _ _ _ Hi) _ _ Hin) as (m & He & _). by exists m.
Qed.

Lemma Forall_valid_rely r w w' l : rely r w w' -> Forall (valid w) l -> Forall (valid w') l.
Proof. intros Hr Hl. eapply Forall_impl; [exact Hl|]. intros e. by apply (valid_rely r). Qed.

Lemma safe_snapshots r l : forall w0 (Q : list MountInfo -> res -> World -> Prop),
  Forall (valid w0) l -> (forall x w', rely r w0 w' -> Forall redacted x -> Q x r w') -> safe r w0 (snapshots l) Q.
Proof.
  induction l as [|e l IH]; intros w0 Q Hl HQ; [by apply HQ; [apply rely_refl|constructor]|].
  inversion Hl as [|? ? He Hl']; subst. apply safe_bind, safe_snapshot; [done|]. intros i w1 H1 Hi.
  apply safe_bind, IH; [by eapply Forall_valid_rely|]. intros x w2 H2 Hx. apply HQ; [by eapply rely_trans|by constructor].
Qed.

Lemma safe_snapshotMounts r w0 (Q : list MountInfo -> res -> World -> Prop) :
  (forall x w', rely r w0 w' -> Forall redacted x -> Q x r w') -> safe r w0 snapshotMounts Q.
Proof.
  intros HQ. apply safe_bind, safe_registered_entries. intros l w1 H1 Hl. apply safe_snapshots; [done|].
  intros x w2 H2 Hx. apply HQ; [by eapply rely_trans|done].
Qed.

Lemma safe_ListMounts r w0 ctx request (Q : list MountInfo * option goerror -> res -> World -> Prop) :
  (forall x w', Forall redacted (fst x) -> Q x r w') -> safe r w0 (ListMounts ctx request) Q.
Proof.
  intros HQ. apply safe_bind, safe_asks. intros [err|] w1 _; [by apply HQ|].
  apply safe_bind, safe_snapshotMounts. intros x w2 _ Hx. apply HQ. simpl. rewrite Forall_forall in *.
  intros i Hi. rewrite sort_by_Permutation in Hi. apply list_elem_of_In, filter_In in Hi as [Hi _].
  by apply Hx, list_elem_of_In.
Qed.

(** ** Subscriptions *)

(** Solves the conditions of [safe_subscribers] that computation decides. *)
Ltac subscribers_aside w := destruct w; split_and!; [by constructor|reflexivity..|wsimpl].

(** And those of [safe_streams]. *)
Ltac stream_unchanged := split_and!; [by constructor|done..|by left|done|done].
Ltac stream_aside w :=
  destruct w; split_and!; [constructor; try done; by eexists [_]|reflexivity..|right; eexists; by split_and!|wsimpl|done].

Lemma safe_send_snapshots r id l : forall w0 (Q : unit -> res -> World -> Prop),
  Forall redacted l -> (forall w', Q tt r w') -> safe r w0 (send_snapshots id l) Q.
Proof.
  induction l as [|i l IH]; intros w0 Q Hl HQ; [by apply HQ|]. inversion Hl as [|? ? Hi Hl']; subst.
  apply safe_bind, (safe_streams daemon (fun _ => True)); [|intros [] w1 _ _; by apply IH].
  intros en w Hsub. destruct (w_subscribers w !! id) as [s|] eqn:Es; [|done].
  destruct (negb _); [by stream_unchanged|]. case_bool_decide as Hlt; [|done].
  stream_aside w. intros id' x [[_ <-]|[_ Hx]]%lookup_insert_Some; [|by apply (Hsub id')].
  destruct (Hsub id s Es) as [_ Hf]. split; simpl; [rewrite length_app; simpl; lia|].
  apply Forall_app. by repeat constructor.
Qed.

Lemma safe_SubscribeMountEvents r w0 request (Q : Z -> res -> World -> Prop) :
  r_event r = false -> (forall x w', Q x r w') -> safe r w0 (SubscribeMountEvents request) Q.
Proof.
  intros Hr HQ. apply safe_bind, safe_event_Lock. intros w1. apply safe_bind, safe_subscribers.
  { intros en w Hsub. subscribers_aside w. intros id' x [[_ <-]|[_ Hx]]%lookup_insert_Some; [|by apply (Hsub id')].
    split; simpl; [lia|constructor]. }
  intros id w2 _.
  assert (forall w, safe (event_res true r) w (event_Unlock;; mret id) Q) as Hend.
  { intros w3. apply safe_bind, safe_event_Unlock; [done|]. intros w4.
    replace (event_res false (event_res true r)) with r by (destruct r; simpl in *; by subst). by apply HQ. }
  apply safe_bind. destruct (WatchMountEventsRequest_IncludeCurrent _); [|by apply Hend].
  apply safe_bind, safe_snapshotMounts. intros l w3 _ Hl. by apply safe_send_snapshots.
Qed.

Lemma safe_cancel_subscription r w0 id (Q : unit -> res -> World -> Prop) :
  (forall w', Q tt r w') -> safe r w0 (cancel_subscription id) Q.
Proof.
  intros HQ. apply (safe_streams daemon (fun _ => True)); [|intros [] w1 _ _; by apply HQ].
  intros en w Hsub. destruct (w_eventMutex w); [done|]. stream_aside w.
  intros id' x [_ Hx]%lookup_delete_Some. by apply (Hsub id').
Qed.

(** An event that was received is redacted. *)
Lemma safe_watch_select r w0 ctx id (Q : watched -> res -> World -> Prop) :
  (forall x w', match x with EventReceived ev => redacted (MountEvent_Mount ev) | _ => True end -> Q x r w') ->
  safe r w0 (watch_select ctx id) Q.
Proof.
  intros HQ. apply (safe_streams daemon (fun x => match x with EventReceived ev => redacted (MountEvent_Mount ev) | _ => True end));
    [|intros x w1 Hx _; by apply HQ].
  intros en w Hsub.
  assert (match w_subscribers w !! id with
          | Some (mkSubscriber ids (ev :: rest)) => redacted (MountEvent_Mount ev) /\ subscriber_ok (mkSubscriber ids rest)
          | _ => True end) as Hev.
  { destruct (w_subscribers w !! id) as [[ids [|ev rest]]|] eqn:Es; try done. destruct (Hsub id _ Es) as [Hl Hf]. simpl in *.
    inversion Hf; subst. split; [done|]. split; simpl; [lia|done]. }
  assert (match (match w_subscribers w !! id with
                 | None => Next ChannelClosed w
                 | Some s => match sub_events s with
                     | [] => Blocked
                     | event :: rest => Next (EventReceived event) (record_effect (FxReceive id event)
                         (set_w_subscribers (<[id := mkSubscriber (sub_mountIDs s) rest]> (w_subscribers w)) w))
                     end
                 end) with
          | Blocked => True | Panics => False
          | Next x w' => aside w w' /\ w_mounts w' = w_mounts w /\ w_db w' = w_db w /\ recorded w w' /\
              (forall id s, w_subscribers w' !! id = Some s -> subscriber_ok s) /\
              match x with EventReceived ev => redacted (MountEvent_Mount ev) | _ => True end
          end) as Hch.
  { destruct (w_subscribers w !! id) as [[ids [|ev rest]]|] eqn:Es; simpl; [done| |by stream_unchanged].
    destruct Hev as [Hr Ho]. stream_aside w. intros id' x [[_ <-]|[_ Hx]]%lookup_insert_Some; [done|by apply (Hsub id')]. }
  destruct (env_case en); try exact Hch. destruct (ctx_Err ctx en); [by stream_unchanged|done].
Qed.

Lemma safe_watch_loop r rounds ctx id : forall w0 (Q : option goerror -> res -> World -> Prop),
  (forall x w', Q x r w') -> safe r w0 (watch_loop rounds ctx id) Q.
Proof.
  induction rounds as [|n IH]; intros w0 Q HQ; [by apply safe_observe|].
  apply safe_bind, safe_watch_select. intros [err| |ev] w1 Hev; [by apply HQ..|].
  apply safe_bind, safe_system_call; [by intros ok; split|]. intros [err|] w2 _; [by apply HQ|by apply IH].
Qed.

Lemma safe_WatchMountEvents r w0 rounds ctx request (Q : option goerror -> res -> World -> Prop) :
  r_event r = false -> (forall x w', Q x r w') -> safe r w0 (WatchMountEvents rounds ctx request) Q.
Proof.
  intros Hr HQ. apply safe_bind, safe_SubscribeMountEvents; [done|]. intros id w1. apply safe_bind, safe_watch_loop. intros x w2.
  apply safe_bind, safe_cancel_subscription. intros w3. by apply HQ.
Qed.

Lemma safe_Ready r w0 ctx (Q : option goerror -> res -> World -> Prop) :
  (forall x w', Q x r w') -> safe r w0 (Ready daemon ctx) Q.
Proof.
  intros HQ. apply safe_bind, safe_repository_List. intros [l|err] w1 _ _; [|by apply HQ].
  apply safe_bind, safe_asks. intros [err|] w2 _; [by apply HQ|].
  apply safe_bind, safe_asks. intros [err|] w3 _; [by apply HQ|].
  apply safe_bind, safe_asks. intros x w4 _. by apply HQ.
Qed.

(** ** Reconciliation of tombstones *)

Lemma safe_reconcileTombstone r w0 ctx info mounted (Q : unit -> res -> World -> Prop) :
  (forall w', Q tt r w') -> safe r w0 (reconcileTombstone daemon ctx info mounted) Q.
Proof.
  intros HQ. apply safe_bind.
  assert (forall detached w, safe r w (match detached : bool with
    | false => mret tt
    | true => removeErr ← os_RemoveAll (mount_data_root daemon (MountInfo_MountId info));
              match removeErr with
              | Some _ => recordReconcileError
              | None => deleteErr ← repository_Delete ctx (MountInfo_MountId info);
                        match deleteErr with Some _ => recordReconcileError | None => mret tt end
              end
    end) Q) as Hk.
  { intros [] w; [|by apply HQ]. apply safe_bind, safe_system_call; [done|]. intros [err|] w1 _.
    - apply safe_with_metrics. intros w2 _. by apply HQ.
    - apply safe_bind, safe_repository_Delete. intros [err|] w2 _; [|by apply HQ].
      apply safe_with_metrics. intros w3 _. by apply HQ. }
  destruct mounted; [|by apply Hk]. destruct (clientType _) as [client|err].
  - apply safe_bind, safe_unmountByClientType. intros [err|] w1 _; [|by apply Hk]. apply safe_bind.
    destruct (Is _ _); [by apply Hk|]. apply safe_with_metrics. intros w2 _. by apply Hk.
  - apply safe_bind, safe_with_metrics. intros w1 _. by apply Hk.
Qed.

Lemma safe_reconcileRecord r w0 ctx record (Q : unit -> res -> World -> Prop) :
  is_Some (Record_Info record) -> Record_Tombstone record = true ->
  (forall w', Q tt r w') -> safe r w0 (reconcileRecord daemon ctx record) Q.
Proof.
  intros [info Hinfo] Htomb HQ. unfold reconcileRecord. rewrite Hinfo, Htomb.
  apply safe_bind, safe_gets. intros tau w1 _ _. destruct (w_mounts w1 !! _); [by apply HQ|].
  apply safe_bind, safe_asks. intros [mounted|err] w2 _; [by apply safe_reconcileTombstone|].
  apply safe_with_metrics. intros w3 _. by apply HQ.
Qed.

Lemma safe_reconcile_all r ctx l : forall w0 (Q : unit -> res -> World -> Prop),
  Forall (fun x => is_Some (Record_Info x) /\ Record_Tombstone x = true) l ->
  (forall w', Q tt r w') -> safe r w0 (reconcile_all daemon ctx l) Q.
Proof.
  induction l as [|x l IH]; intros w0 Q Hl HQ; [by apply HQ|]. inversion Hl as [|? ? [Hx Ht] Hl']; subst.
  apply safe_bind, safe_reconcileRecord; [done..|]. intros w1. by apply IH.
Qed.

Lemma safe_ReconcileTombstones r w0 ctx (Q : option goerror -> res -> World -> Prop) :
  (forall x w', Q x r w') -> safe r w0 (ReconcileTombstones daemon ctx) Q.
Proof.
  intros HQ. apply safe_bind, safe_repository_List. intros [l|err] w1 _ Hl; [|by apply HQ].
  apply safe_bind, safe_reconcile_all; [|by intros w2; apply HQ].
  specialize (Hl l eq_refl). rewrite Forall_forall in *. intros x Hx.
  apply list_elem_of_In, filter_In in Hx as [Hx Ht]. split; [|done]. by apply Hl, list_elem_of_In.
Qed.

(** ** Restoring mounts *)

Lemma safe_remount r w0 ctx info (Q : unit -> res -> World -> Prop) :
  r_startup r = true -> from_store info -> good_info (ceiling daemon) info ->
  (forall r' w', r_startup r' = true -> Q tt r' w') -> safe r w0 (remount daemon ctx info) Q.
Proof.
  intros Hsu Hfs Hg HQ. apply safe_bind, safe_register_remount; [done..|intros w1 _; by apply HQ|].
  intros e m w1 M1 Hne He Hid Hfs'. set (c := mm_exitDone m). set (r1 := fresh_res e (chan_res c r)).
  apply safe_holding_begin; [by exists m|left; simpl; set_solver|]. intros w2 m1 m2 M2 He1 He2 Hex.
  rewrite He in He1. injection He1 as <-. specialize (Hex ltac:(simpl; set_solver)).
  set (r2 := lock_res e (begin_res e r1)). assert (attempting r2 w2 e c (mm_generation m2)) as A2.
  { split_and!; [split; [simpl; set_solver|by exists m2]|simpl; set_solver| |split; simpl; set_solver].
    eapply created_mono; [exact M2|]. exists m. split; [done|]. by apply from_store_known. }
  apply safe_bind, safe_persistRecord; [by eapply attempting_valid|]. intros x w3 H3.
  assert (forall w, rely r2 w2 w -> safe r2 w (now ← time_Now; generation ← reading e mm_generation;
    result ← startMount daemon e generation (mount_data_root daemon (MountInfo_MountId info)) (now + mount_timeout daemon);
    match snd result with Some _ => recordReconcileError | None => mret tt end)
    (fun x r' w' => e ∈ r_locks r' /\ forall w'', mono w' w'' -> Q x (unlock_res e r') w'')) as Hk.
  { intros w4 H4. apply safe_bind, safe_asks. intros now w5 H5.
    assert (attempting r2 w5 e c (mm_generation m2)) as A5 by (eapply attempting_rely; [|exact A2]; by eapply rely_trans).
    apply safe_bind, safe_reading; [by eapply attempting_valid|]. intros tau w6 m6 H6 _ _.
    apply safe_bind. eapply safe_startMount; [by eapply attempting_rely|]. intros [y [err|]] w7 H7 _; cbn [snd].
    - apply safe_with_metrics. intros w8 _. split; [simpl; set_solver|]. intros w9 _. by apply HQ.
    - split; [simpl; set_solver|]. intros w9 _. by apply HQ. }
  apply safe_bind. destruct x as [err|]; [|by apply Hk]. apply safe_with_metrics. intros w4 H4. apply Hk. by eapply rely_trans.
Qed.

(** What Reconcile knows of a record it has listed. *)
Definition restorable (record : MountRecord) : Prop :=
  exists info, Record_Info record = Some info /\ from_store info /\ good_info (ceiling daemon) info.

Lemma safe_restoreRecord r w0 ctx record (Q : unit -> res -> World -> Prop) :
  r_startup r = true -> restorable record ->
  (forall r' w', r_startup r' = true -> Q tt r' w') -> safe r w0 (reconcileRecord daemon ctx record) Q.
Proof.
  intros Hsu (info & Hinfo & Hfs & Hg) HQ. destruct (Record_Tombstone record) eqn:Ht.
  { apply safe_reconcileRecord; [by exists info|done|]. intros w'. by apply HQ. }
  unfold reconcileRecord. rewrite Hinfo, Ht.
  apply safe_bind, safe_gets. intros tau w1 _ _. destruct (w_mounts w1 !! _); [by apply HQ|].
  apply safe_bind, safe_asks. intros [mounted|err] w2 _; [|apply safe_with_metrics; intros w3 _; by apply HQ].
  unfold reconcileOrdinaryRecord. destruct mounted; [|by apply safe_remount].
  destruct (clientType _) as [client|err]; [|apply safe_with_metrics; intros w3 _; by apply HQ].
  apply safe_bind, safe_unmountByClientType. intros [err|] w3 _; [apply safe_with_metrics; intros w4 _; by apply HQ|].
  by apply safe_remount.
Qed.

Lemma safe_restore_all ctx l : forall r w0 (Q : unit -> res -> World -> Prop),
  r_startup r = true -> Forall restorable l ->
  (forall r' w', r_startup r' = true -> Q tt r' w') -> safe r w0 (reconcile_all daemon ctx l) Q.
Proof.
  induction l as [|x l IH]; intros r w0 Q Hsu Hl HQ; [by apply HQ|]. inversion Hl as [|? ? Hx Hl']; subst.
  apply safe_bind, safe_restoreRecord; [done..|]. intros r1 w1 Hsu1. by apply IH.
Qed.

Lemma safe_Reconcile r w0 ctx (Q : option goerror -> res -> World -> Prop) :
  r_startup r = true -> sound (ceiling daemon) b_db ->
  (forall x r' w', r_startup r' = true -> Q x r' w') -> safe r w0 (Reconcile daemon ctx) Q.
Proof.
  intros Hsu Hso HQ. apply safe_bind, safe_repository_List_startup; [done..|]. intros [l|err] w1 _ Hl; [|by apply HQ].
  apply safe_bind, safe_restore_all; [done| |intros r' w2 Hr'; by apply HQ].
  specialize (Hl l eq_refl). rewrite Forall_forall in *. intros x Hx.
  apply list_elem_of_In, filter_In in Hx as [Hx _]. by apply Hl, list_elem_of_In.
Qed.

(** ** Shutdown *)

Lemma safe_await_shutdown r w0 command c (Q : unit -> res -> World -> Prop) :
  (forall w', rely r w0 w' -> Q tt r w') -> safe r w0 (await_shutdown command c) Q.
Proof.
  intros HQ. apply safe_bind, safe_select_exit. intros x w1 H1. destruct x; try (by apply HQ).
  apply safe_bind, safe_Kill_if. intros w2 H2. apply safe_observe.
  - intros en w. by destruct (w_chans w !! c) as [[]|].
  - intros [] w3 H3. apply HQ. by do 2 (eapply rely_trans; [done|]).
Qed.

Lemma safe_finish_shutdown r w0 e (Q : unit -> res -> World -> Prop) :
  valid w0 e -> (forall w', Q tt r w') -> safe r w0 (finish_shutdown e) Q.
Proof.
  intros Hv HQ. apply safe_bind, safe_reading; [done|]. intros tau w1 m1 H1 _ _. unfold running_attempt.
  apply safe_bind, safe_Signal_if. intros w2 H2. apply safe_bind, safe_await_shutdown. intros w3 H3.
  assert (valid w3 e) as V3 by (by do 3 (eapply valid_rely; [done|])).
  apply safe_bind, safe_locked_quiet; [done|quiet|]. intros en4 m4 w4 H4 _.
  apply safe_bind, safe_persistBestEffort; [by eapply valid_rely|]. intros w5 H5.
  apply safe_bind, safe_locked_quiet; [by do 2 (eapply valid_rely; [done|])|quiet|]. intros en6 m6 w6 H6 _.
  apply safe_close_log. intros w7 _. by apply HQ.
Qed.

Lemma safe_shutdown_locked r w0 ctx e (Q : unit -> res -> World -> Prop) :
  valid w0 e -> (forall w', Q tt r w') -> safe r w0 (shutdown_locked daemon ctx e) Q.
Proof.
  intros Hv HQ. apply safe_bind, safe_locked_quiet; [done| |].
  { intros en m. unfold stop_section. destruct (mm_unmounting m); [done|]. by destruct m. }
  intros en m w1 H1 _. destruct (stop_section m).1; [by apply HQ|].
  assert (valid w1 e) as V1 by (by eapply valid_rely).
  apply safe_bind, safe_config_path; [done|]. intros path w2 H2.
  apply safe_bind, safe_asks. intros probed w3 H3. assert (valid w3 e) as V3 by (by do 2 (eapply valid_rely; [done|])).
  apply safe_bind. destruct probed as [[]|]; try (by apply safe_finish_shutdown).
  apply safe_unmountClient; [done|]. intros x w4 H4. apply safe_finish_shutdown; [by eapply valid_rely | done].
Qed.

Lemma safe_shutdownEntry w0 ctx e (Q : unit -> res -> World -> Prop) :
  valid w0 e -> (forall r' w', Q tt r' w') -> safe no_res w0 (shutdownEntry daemon ctx e) Q.
Proof.
  intros Hv HQ. apply safe_bind, safe_cancelRetryTimer; [done|]. intros w1 H1.
  apply safe_holding_operation; [by eapply valid_rely|]. intros w2 M2.
  apply safe_shutdown_locked; [eapply valid_mono; [exact M2|by eapply valid_rely]|].
  intros w3. split; [simpl; set_solver | done].
Qed.

Lemma safe_go_all r l : forall w0 (Q : unit -> res -> World -> Prop),
  Forall (fun t => pre daemon t no_res w0) l -> (forall w', Q tt r w') -> safe r w0 (go_all l) Q.
Proof.
  induction l as [|t l IH]; intros w0 Q Hl HQ; [by apply HQ|]. inversion Hl as [|? ? Ht Hl']; subst.
  apply safe_bind, safe_go_same; [done|]. intros w1 H1. apply IH; [|done].
  eapply Forall_impl; [exact Hl'|]. intros t'. apply pre_mono, H1.
Qed.

Lemma safe_Shutdown r w0 ctx (Q : unit -> res -> World -> Prop) :
  (forall w', Q tt r w') -> safe r w0 (Shutdown ctx) Q.
Proof.
  intros HQ. apply safe_bind, safe_registered_entries. intros l w1 H1 Hl.
  apply safe_bind, safe_unrelated; [intros en w; destruct w; by constructor; try (by left)|]. intros n w2 H2.
  apply safe_bind, safe_go_all.
  { apply Forall_fmap. eapply Forall_impl; [by eapply Forall_valid_rely|]. done. }
  intros w3. apply safe_observe; [|intros [] w4 _; by apply HQ].
  intros en w. by destruct (w_waits w !! n) as [[]|].
Qed.

(** ** Goroutines *)

Lemma safe_reply_mount r w0 x : started w0 -> result_ok x -> safe r w0 (reply_mount x) (fun _ _ _ => True).
Proof.
  intros Hs Hx. apply safe_replying; [done| |done]. simpl. destruct x as [[i|] err]; repeat constructor. by apply Hx.
Qed.

(** Every goroutine is safe from the moment it may begin. *)
Lemma body_safe t r w : pre daemon t r w -> safe r w (body daemon t) (fun _ _ _ => True).
Proof.
  assert (forall w', started w -> mono w w' -> started w') as Hst by (intros w' ? ?; by eapply started_mono).
  destruct t; simpl pre; intros Hpre.
  - destruct Hpre as [-> Hs]. apply safe_bind, safe_grows, safe_Mount; [done|]. intros x r' w' Hx M. by apply safe_reply_mount; [apply Hst|].
  - destruct Hpre as [-> Hs]. apply safe_bind, safe_grows, safe_Unmount. intros x r' w' Hx M. by apply safe_reply_mount; [apply Hst|].
  - destruct Hpre as [-> Hs]. apply safe_bind, safe_grows, safe_GetMount. intros x w' Hx M. by apply safe_reply_mount; [apply Hst|].
  - destruct Hpre as [-> Hs]. apply safe_bind, safe_grows, safe_ListMounts. intros x w' Hx M. by apply safe_replying; [apply Hst|..].
  - destruct Hpre as [-> Hs]. apply safe_bind, safe_grows, safe_WatchMountEvents; [done|]. intros x w' M.
    by apply safe_replying; [apply Hst|constructor|].
  - destruct Hpre as [-> Hs]. apply safe_bind, safe_grows, safe_Ready. intros x w' M. by apply safe_replying; [apply Hst|constructor|].
  - by apply safe_set_metrics.
  - destruct Hpre as [-> Hs]. apply safe_bind, safe_Reconcile; [done..|]. intros x r' w' Hr'.
    apply safe_replying_startup; [done|constructor|done].
  - destruct Hpre as [-> Hs]. apply safe_bind, safe_grows, safe_ReconcileTombstones. intros x w' M.
    by apply safe_replying; [apply Hst|constructor|].
  - by apply safe_Shutdown.
  - destruct Hpre as [-> Hv]. apply safe_bind, safe_shutdownEntry; [done|]. intros r' w'.
    apply safe_unrelated; [|done]. intros en w''. destruct w''. by constructor; try (by left).
  - destruct Hpre as [-> Hc]. by apply safe_waitForProcess.
  - destruct Hpre as [-> Hc]. by apply safe_waitForMount.
  - destruct Hpre as [-> Hc]. by apply safe_waitForMount_loop.
  - destruct Hpre as (-> & Hs & Hc & Hl). by apply safe_retryMount.
  - destruct Hpre as (-> & Hc & Hl). by apply safe_retryUnmount.
Qed.

End Safe.
