(* ===== verification/Scenario.v ===== *)
(** * Concrete runs of the daemon

    A small scheduler that plays whole goroutines, a calm environment and
    the daemon of the examples.  The runs are ordinary lists of choices, so
    the theorems about all interleavings apply to them. *)

From S2P Require Import Prelude GoStrings GoPath GoSort GoErrors GoFloat Api Redact Config Retry Policy.
From S2P Require Import PolicyFacts IrodsfsConfig Repository PlainCodec Runtime Command Manager.

(** What happens next in a scenario, and in which environment. *)
Inductive task : Type :=
| Call (t : thread) (e : env)      (* a request arrives and runs *)
| Spawned (e : env)                (* the oldest goroutine that waits to begin runs *)
| Alarm (t : timer_id) (e : env)   (* a timer fires and its function runs *)
| Resume (i : nat) (n : nat) (e : env)   (* goroutine [i] runs at most [n] actions *)
| Launch (t : thread) (n : nat) (e : env).   (* a request arrives and runs at most [n] actions *)

Section Player.
Variable body : thread -> prog unit.

(** Runs goroutine [i] until it has finished or cannot move. *)
Fixpoint finishing (fuel : nat) (e : env) (i : nat) (s : system) : list choice * system :=
  match fuel with
  | O => ([], s)
  | S fuel' =>
      match sys_step body s (Run i e) with
      | Stepped s' => let '(cs, s'') := finishing fuel' e i s' in (Run i e :: cs, s'')
      | Crashed => ([Run i e], s)
      | Impossible => ([], s)
      end
  end.

Definition after (c : choice) (fuel : nat) (e : env) (s : system) : list choice * system :=
  match sys_step body s c with
  | Stepped s' => let '(cs, s'') := finishing fuel e (length (sys_threads s)) s' in (c :: cs, s'')
  | _ => ([c], s)
  end.

Definition play_task (t : task) (s : system) : list choice * system :=
  match t with
  | Call t e => after (Arrive t) 200 e s
  | Spawned e => after Begin 200 e s
  | Alarm t e => after (Fire t) 200 e s
  | Resume i n e => finishing n e i s
  | Launch t n e => after (Arrive t) n e s
  end.

Fixpoint play (tasks : list task) (s : system) : list choice :=
  match tasks with
  | [] => []
  | t :: rest => let '(cs, s') := play_task t s in cs ++ play rest s'
  end.
End Player.

(** ** The environment of the examples *)

(** A file system whose mount table lists [paths]. *)
Definition mountinfo_fs (paths : list string) : FS := {|
  EvalSymlinks := fun p => Some p;
  Stat := fun _ => StatOk true 493;
  ReadFile := fun p =>
    if String.eqb p "/proc/self/mountinfo"
    then ReadOk (Join (String ch_newline EmptyString)
                   ((fun p => "36 35 98:0 / " +:+ p +:+ " rw - nfs nas:/export rw") <$> paths))
    else ReadNotExist;
  Geteuid := 0
|}.

(** Every call succeeds at time [now], with [paths] mounted. *)
Definition calm (now : Z) (paths : list string) : env := {|
  env_now := fun _ => now;
  env_rand := f64_zero;
  env_err := None;
  env_cancelled := None;
  env_case := CaseTick;
  env_umount := UExited;
  env_output := EmptyString;
  env_pid := 4242;
  env_id := "cv37";
  env_order := [];
  env_faults := [];
  env_fs := mountinfo_fs paths
|}.

(** The same, but every call to the system fails. *)
Definition failing (now : Z) (paths : list string) : env := {|
  env_now := fun _ => now;
  env_rand := f64_zero;
  env_err := Some (ENew "input/output error");
  env_cancelled := None;
  env_case := CaseExit;
  env_umount := UExited;
  env_output := EmptyString;
  env_pid := 4242;
  env_id := "cv37";
  env_order := [];
  env_faults := [];
  env_fs := mountinfo_fs paths
|}.

Definition example_body : thread -> prog unit :=
  @body example_config plain_urls message_errors plain_codec plain_irodsfs.

Definition example_start : system := initial_system ∅ None.

Definition home : string := "/mnt/irods/home".
Definition mount_home : thread :=
  TMount Background (Some (mkMountRequest (Some "home") (Some (nfs_request home)))).
Definition unmount_home : thread := TUnmount Background (Some (mkUnmountRequest "home")).

(** Another ready case of the selects. *)
Definition choosing (c : select_case) (e : env) : env := {|
  env_now := env_now e;
  env_rand := env_rand e;
  env_err := env_err e;
  env_cancelled := env_cancelled e;
  env_case := c;
  env_umount := env_umount e;
  env_output := env_output e;
  env_pid := env_pid e;
  env_id := env_id e;
  env_order := env_order e;
  env_faults := env_faults e;
  env_fs := env_fs e
|}.

Definition world_after (cs : list choice) : World :=
  match run example_body example_start cs with
  | Stepped s => sys_world s
  | _ => initial_world ∅ None
  end.

(** A mount whose helper has exited and that the mount table lists. *)
Definition mounted_run : list choice :=
  play example_body [Call mount_home (calm 1000 []); Spawned (calm 2000 [home]); Spawned (calm 3000 [home])]
    example_start.
