(* ===== verification/Concurrency.v ===== *)
(** * Properties of every interleaving of the daemon

    The safety of the goroutine bodies, lifted to all runs of a daemon that
    has started on some database: requests arrive, timers fire, goroutines
    are scheduled and streams are read, in any order and with any answers
    from the environment. *)

From S2P Require Import Prelude GoStrings GoPath GoSort GoErrors Api Redact Config Retry Policy PolicyFacts.
From S2P Require Import IrodsfsConfig Repository PlainCodec RepositoryFacts Durable Runtime Command Manager Logic Invariant Rules.
From S2P Require Import ManagerSafe Scenario.

(** The calls that clients and the service make while the API is up. *)
Definition api_request (t : thread) : bool :=
  match t with
  | TMount _ _ | TUnmount _ _ | TGetMount _ _ | TListMounts _ _ | TWatch _ _ _ | TReady _
  | TSetMetrics | TReconcileTombstones _ | TShutdown _ => true
  | _ => false
  end.

Definition api_choice (c : choice) : bool :=
  match c with Arrive t => api_request t | _ => true end.

(** Does the daemon begin by restoring the mounts of its database? *)
Definition restores (cs : list choice) : bool :=
  match cs with Arrive (TReconcile _) :: _ => true | _ => false end.

Section Concurrency.
Variable daemon : Config.
Context {url : UrlLib} {errs : ErrorLib} {codec : RecordCodec} {irods : IrodsfsLib}.
Implicit Types (r : res) (w : World).

(** Requests come when Reconcile has answered. *)
Fixpoint patient (s : system) (cs : list choice) : bool :=
  match cs with
  | [] => true
  | c :: cs =>
      match c with
      | Arrive t => api_request t && match w_replies (sys_world s) with [] => false | _ => true end
      | _ => true
      end &&
      match sys_step (body daemon) s c with Stepped s' => patient s' cs | _ => true end
  end.

(** How the service calls the manager: it may restore the mounts first, and
    serves requests from then on. *)
Definition orderly (db : DB) (metrics : option Metrics) (cs : list choice) : bool :=
  match cs with
  | Arrive (TReconcile ctx) :: cs => patient (mkSystem (initial_world db metrics) [body daemon (TReconcile ctx)]) cs
  | _ => forallb api_choice cs
  end.

Section Moves.
Context {birth : Birth}.
Local Notation Inv := (Inv daemon).

Lemma scheduler_move_aside w w' : scheduler_move w w' ->
  w_entries w' = w_entries w /\ w_chans w' = w_chans w /\ w_history w' = w_history w /\
  w_mounts w' = w_mounts w /\ w_replies w' = w_replies w /\ w_db w' = w_db w /\
  timer_func <$> w_timers w' = timer_func <$> w_timers w.
Proof.
  destruct 1 as [t rest E|i f E|]; destruct w; try done. wsimpl. split_and!; try done.
  rewrite list_fmap_insert. simpl. apply list_insert_id. by rewrite list_lookup_fmap, E.
Qed.

Lemma scheduler_move_mono w w' : scheduler_move w w' -> mono w w'.
Proof.
  intros (E1 & _ & E3 & _ & E5 & _ & E7)%scheduler_move_aside. split; rewrite ?E3, ?E5, ?E7; try done.
  rewrite E1. eauto using entry_step_refl.
Qed.

Lemma scheduler_move_Inv tau w w' : scheduler_move w w' -> Inv tau w -> Inv (tau + 1) w'.
Proof.
  intros Hm Hi. pose proof (scheduler_move_mono _ _ Hm) as Hmono.
  destruct (scheduler_move_aside _ _ Hm) as (E1 & E2 & E3 & E4 & E5 & E6 & E7).
  apply (Inv_beside daemon tau w); [done..|by apply db_step_same|done| | | |].
  - intros f. rewrite E7. intros Hf. apply (pre_mono daemon _ _ w); [done|]. by apply (inv_timers _ _ _ Hi).
  - replace (w_subscribers w') with (w_subscribers w) by (by destruct Hm; destruct w). apply (inv_subscribers _ _ _ Hi).
  - rewrite E5. apply (inv_replies _ _ _ Hi).
  - rewrite E3. apply (inv_history _ _ _ Hi).
Qed.

Lemma scheduler_move_rely r w w' : scheduler_move w w' -> holds r w -> holds r w' /\ rely r w w'.
Proof.
  intros Hm (h1 & h2 & h3 & h4 & h5 & h6). pose proof (scheduler_move_mono _ _ Hm) as Hmono.
  destruct (scheduler_move_aside _ _ Hm) as (E1 & E2 & _ & _ & E5 & _ & E7).
  assert (w_eventMutex w' = w_eventMutex w) as E8 by (by destruct Hm; destruct w).
  split; split_and!; rewrite ?E1, ?E2, ?E8; try done; [|unfold started; by rewrite E5|eauto..].
  intros e He. unfold scheduled. rewrite E7. by apply h3.
Qed.

Lemma api_request_pre t w : api_request t = true -> started w -> pre daemon t no_res w.
Proof. by destruct t. Qed.

Lemma initial_Inv metrics : (b_restoring = true -> sound b_attempts b_db) -> Inv 0 (initial_world b_db metrics).
Proof.
  intros Hs. split; try done; simpl.
  - split; simpl; [intros ? ?|intros ? ? ? ? ? ?|]; rewrite ?lookup_empty, ?map_size_empty; lia || done.
  - intros f Hf. by apply elem_of_nil in Hf.
  - intros Hn. destruct (started_dec (initial_world b_db metrics)) as [?|[_ Hb]]; [done|]. split; [by intros e m ?|].
    simpl. intros id data x Hd Hx. destruct (Hs Hb id data x Hd Hx) as (i & Hi & Hid & _). exists i. split_and!; [done..|].
    split; [done|]. exists data, x, i. by rewrite Hid.
Qed.

Lemma startup_holds metrics : b_restoring = true -> holds startup_res (initial_world b_db metrics).
Proof. intros Hb. split_and!; try (intros ? H; by apply elem_of_empty in H); [|done]. intros _ [Hn|Hn]; [congruence|done]. Qed.

Definition good_system : Z -> system -> Prop := good disj Inv holds rely (pre daemon) limit.

(** Runs from a system that is as the logic wants it. *)
Lemma run_from s cs :
  Z.of_nat (length cs) <= limit ->
  good disj Inv holds rely (pre daemon) limit 0 s ->
  choices_ok (body daemon) (fun t w => api_request t = true /\ started w) s cs ->
  match run (body daemon) s cs with
  | Impossible => True
  | Crashed => False
  | Stepped s => good disj Inv holds rely (pre daemon) limit (Z.of_nat (length cs)) s
  end.
Proof.
  intros Hlim Hg Hc.
  apply (good_run_all disj no_res Inv holds rely (pre daemon) (body daemon) limit)
    with (may_arrive := fun t w => api_request t = true /\ started w) (tau := 0);
    [apply rely_refl|apply rely_trans|apply pre_stable|apply body_safe|apply no_res_disj|apply no_res_holds
    |apply scheduler_move_Inv|apply scheduler_move_rely| |intros t w [? ?]; by apply api_request_pre|lia|lia|done|done].
  intros tau w i f Hi Hf. apply (inv_timers _ _ _ Hi), list_elem_of_fmap. eexists. split; [|by eapply list_elem_of_lookup_2]. done.
Qed.

Lemma patient_choices s cs : b_restoring = true -> patient s cs = true ->
  choices_ok (body daemon) (fun t w => api_request t = true /\ started w) s cs.
Proof.
  intros Hb. revert s. induction cs as [|c cs IH]; intros s Hp; [done|]. simpl in *. apply andb_true_iff in Hp as [Hc Hp]. split.
  - destruct c; try done. apply andb_true_iff in Hc as [H1 H2]. split; [done|]. right. by destruct (w_replies _).
  - destruct (sys_step _ s c); auto.
Qed.

Lemma api_choices s cs : b_restoring = false -> forallb api_choice cs = true ->
  choices_ok (body daemon) (fun t w => api_request t = true /\ started w) s cs.
Proof.
  intros Hb. revert s. induction cs as [|c cs IH]; intros s Hp; [done|]. simpl in *. apply andb_true_iff in Hp as [Hc Hp]. split.
  - destruct c; try done. split; [done|by left].
  - destruct (sys_step _ s c); auto.
Qed.
End Moves.

(** The runs that the theorems are about: calls in the order of the service,
    at most [limit] steps and, if mounts are restored, a database whose
    records are sound and of at most [a] attempts. *)
Record admissible (db : DB) (metrics : option Metrics) (cs : list choice) (a : Z) : Prop := mkAdmissible {
  adm_length : Z.of_nat (length cs) <= limit;
  adm_orderly : orderly db metrics cs = true;
  adm_sound : restores cs = true -> sound a db
}.

(** The invariant holds at the end of every run, and no run panics. *)
Definition born (db : DB) (cs : list choice) (a : Z) : Birth := mkBirth db (restores cs) a.

Lemma run_good db metrics cs a :
  admissible db metrics cs a ->
  match run (body daemon) (initial_system db metrics) cs with
  | Impossible => True
  | Crashed => False
  | Stepped s => exists tau, 0 <= tau <= Z.of_nat (length cs) /\ good_system (birth := born db cs a) tau s
  end.
Proof.
  intros [Hlim Ho Hs]. pose (birth := born db cs a).
  pose proof (initial_Inv (birth := birth) metrics Hs) as Hi. destruct (restores cs) eqn:Er.
  - destruct cs as [|[| | |[]] cs]; try discriminate Er. cbn [orderly] in Ho. cbn [length] in Hlim.
    assert (sound (ceiling daemon (birth := birth)) db) as Hso.
    { eapply stores_mono; [|by apply Hs]. intros i. apply good_info_mono. unfold ceiling. simpl. lia. }
    set (s0 := mkSystem (initial_world db metrics) [body daemon (TReconcile ctx)]) in *.
    change (run (body daemon) (initial_system db metrics) (Arrive (TReconcile ctx) :: cs)) with (run (body daemon) s0 cs).
    pose proof (run_from (birth := birth) s0 cs ltac:(lia)) as Hr. cbn [length].
    enough (match run (body daemon) s0 cs with Impossible => True | Crashed => False
            | Stepped s => good_system (birth := birth) (Z.of_nat (length cs)) s end) as Hk
      by (destruct (run _ s0 cs) as [| |s]; [done..|]; exists (Z.of_nat (length cs)); split; [lia|done]).
    apply Hr; [|by apply (patient_choices (birth := birth))].
    eapply good_single; [apply rely_refl|apply body_safe|exact Hi|done|by apply (startup_holds (birth := birth))|done].
  - assert (forallb api_choice cs = true) as Hc by (destruct cs as [|[| | |[]] cs]; done).
    pose proof (run_from (birth := birth) (initial_system db metrics) cs Hlim) as Hr.
    enough (match run (body daemon) (initial_system db metrics) cs with Impossible => True | Crashed => False
            | Stepped s => good_system (birth := birth) (Z.of_nat (length cs)) s end) as Hk
      by (destruct (run _ _ cs) as [| |s]; [done..|]; exists (Z.of_nat (length cs)); split; [lia|done]).
    apply Hr; [apply good_idle; [exact Hi|done]|]. by apply (api_choices (birth := birth)).
Qed.

Lemma run_Inv db metrics cs a :
  admissible db metrics cs a ->
  match run (body daemon) (initial_system db metrics) cs with
  | Impossible => True
  | Crashed => False
  | Stepped s => exists tau, tau <= Z.of_nat (length cs) /\ Inv daemon (birth := born db cs a) tau (sys_world s)
  end.
Proof.
  intros Ha. pose proof (run_good db metrics cs a Ha) as Hg. destruct (run _ _ cs) as [| |s]; [done..|].
  destruct Hg as (tau & Ht & Hi & _). exists tau. split; [lia|done].
Qed.

(** A choice that keeps the order of the service. *)
Definition welcome (restoring : bool) (w : World) (c : choice) : Prop :=
  match c with Arrive t => api_request t = true /\ (restoring = false \/ w_replies w <> []) | _ => True end.

(** What the world was, it grows from. *)
Lemma run_step_mono db metrics cs a c s s' :
  admissible db metrics cs a -> Z.of_nat (length cs) < limit -> run (body daemon) (initial_system db metrics) cs = Stepped s ->
  sys_step (body daemon) s c = Stepped s' -> mono (sys_world s) (sys_world s').
Proof.
  intros Ha Hlt Hrun Hstep. pose proof (run_good db metrics cs a Ha) as Hg. rewrite Hrun in Hg. destruct Hg as (tau & Ht & Hg).
  pose (birth := born db cs a).
  apply (good_step_rely disj no_res (Inv daemon) holds rely (pre daemon) (body daemon) limit) with (tau := tau) (c := c);
    [apply rely_refl|apply no_res_disj|apply no_res_holds|apply scheduler_move_rely|lia|exact Hg|done].
Qed.

Lemma patient_snoc s cs c s' :
  patient s cs = true -> run (body daemon) s cs = Stepped s' -> welcome true (sys_world s') c -> patient s (cs ++ [c]) = true.
Proof.
  revert s. induction cs as [|d cs IH]; intros s Hp Hrun Hw; simpl in *.
  - injection Hrun as <-. destruct (sys_step _ s c); rewrite andb_true_r; destruct c; try done; destruct Hw as [-> [|Hw]]; try done;
      by destruct (w_replies _).
  - apply andb_true_iff in Hp as [-> Hp]. simpl. destruct (sys_step _ s d) as [| |s1]; [done..|]. by apply IH.
Qed.

Lemma orderly_snoc db metrics cs c s :
  orderly db metrics cs = true -> run (body daemon) (initial_system db metrics) cs = Stepped s ->
  welcome (restores cs) (sys_world s) c -> orderly db metrics (cs ++ [c]) = true /\ restores (cs ++ [c]) = restores cs.
Proof.
  intros Ho Hrun Hw. destruct cs as [|d cs].
  { destruct c as [| | |t]; try done. destruct Hw as [Ht _]. by destruct t. }
  split; [|by destruct d as [| | |[]]].
  assert (forallb api_choice (d :: cs) = true -> restores (d :: cs) = false ->
    forallb api_choice ((d :: cs) ++ [c]) = true) as Hplain.
  { intros Hf _. rewrite forallb_app, Hf. simpl. destruct c; try done. destruct Hw as [Ht _]. simpl. by rewrite Ht. }
  destruct d as [| | |t]; try (by apply Hplain). destruct t; try (by apply Hplain).
  cbn [app orderly] in *. by eapply patient_snoc.
Qed.

(** The same, for a run that got through. *)
Lemma run_Inv_at db metrics cs a s :
  admissible db metrics cs a -> run (body daemon) (initial_system db metrics) cs = Stepped s ->
  exists tau, tau <= Z.of_nat (length cs) /\ Inv daemon (birth := born db cs a) tau (sys_world s).
Proof. intros Ha Hrun. pose proof (run_Inv db metrics cs a Ha) as Hi. by rewrite Hrun in Hi. Qed.

(** ** Panics *)

(** C1: whatever requests arrive, however goroutines, timers and the
    environment interleave, also after the daemon has restored the mounts of
    its database, it never panics: no exit channel is closed twice, no
    operation mutex and not eventMutex is unlocked without being held, no nil
    entry or configuration is dereferenced. *)
Theorem manager_never_panics db metrics cs a :
  admissible db metrics cs a -> run (body daemon) (initial_system db metrics) cs <> Crashed.
Proof. intros Ha Hrun. pose proof (run_Inv db metrics cs a Ha) as Hi. by rewrite Hrun in Hi. Qed.

(** ** The registry *)

(** The database has a record of that ID with that path. *)
Definition stored_at (db : DB) (id path : string) : Prop :=
  exists data x i, db !! mountKey id = Some data /\ decodeRecord data = Ok x /\ Record_Info x = Some i /\
    Clean (GetMountPath i) = path.

Lemma from_store_at db cs a i :
  from_store (birth := born db cs a) i -> restores cs = true /\ stored_at db (MountInfo_MountId i) (Clean (GetMountPath i)).
Proof.
  intros (Hb & data & x & i0 & Hd & Hx & Hi & Hc). split; [done|]. exists data, x, i0. split_and!; [done..|].
  by rewrite (GetMountPath_config _ _ Hc).
Qed.

(** C2: in every reachable state the registry maps an ID to the entry of
    that ID; two registered mounts have the same cleaned mount path only if
    they had it in the database from which the daemon restored them; and a
    configured capacity is respected, except by the mounts restored. *)
Theorem registry_always_consistent db metrics cs a s :
  admissible db metrics cs a -> run (body daemon) (initial_system db metrics) cs = Stepped s ->
  let w := sys_world s in
  (forall id e, w_mounts w !! id = Some e ->
     exists m, w_entries w !! e = Some m /\ MountInfo_MountId (mm_info m) = id) /\
  (forall id1 id2 e1 e2 m1 m2 path, w_mounts w !! id1 = Some e1 -> w_mounts w !! id2 = Some e2 ->
     w_entries w !! e1 = Some m1 -> w_entries w !! e2 = Some m2 ->
     Clean (GetMountPath (mm_info m1)) = path -> Clean (GetMountPath (mm_info m2)) = path ->
     id1 = id2 \/ (restores cs = true /\ stored_at db id1 path /\ stored_at db id2 path)) /\
  (0 < MaxConcurrentMounts daemon ->
     Z.of_nat (size (w_mounts w)) <=
     Z.max (MaxConcurrentMounts daemon) (if restores cs then Z.of_nat (length (record_items db)) else 0)).
Proof.
  intros Ha Hrun w. destruct (run_Inv_at _ _ _ _ _ Ha Hrun) as (tau & _ & Hi). destruct (inv_registry _ _ _ Hi) as [b1 b2 b3].
  split_and!; [done| |done]. intros id1 id2 e1 e2 m1 m2 path H1 H2 Hm1 Hm2 <- Hp.
  destruct (b2 _ _ _ _ _ _ H1 H2 Hm1 Hm2 (eq_sym Hp)) as [->|[F1 F2]]; [by left|right].
  destruct (b1 _ _ H1) as (x1 & Hx1 & <-), (b1 _ _ H2) as (x2 & Hx2 & <-). fold w in Hx1, Hx2. simplify_eq.
  destruct (from_store_at _ _ _ _ F1) as [Hr S1], (from_store_at _ _ _ _ F2) as [_ S2]. rewrite Hp in S2. done.
Qed.

(** ** What clients see *)

(** Every credential in the message is absent, empty or redacted. *)
Definition hides_secrets (i : MountInfo) : Prop :=
  forall c, MountInfo_Config i = Some c ->
    Forall (fun s => s = EmptyString \/ s = redactedValue) (collectMountSecrets c).

Lemma redacted_hides i : redacted i -> hides_secrets i.
Proof.
  intros Hr c Hc. unfold redacted in Hr. rewrite <- Hr, redactMountInfo_Config in Hc.
  destruct (MountInfo_Config i); [|done]. injection Hc as <-. apply redact_config_secrets.
Qed.

(** C3: no reply of an API call, no event sent over a stream and no event
    queued for one ever carries a credential, and no queue exceeds its
    buffer. *)
Theorem clients_never_see_secrets db metrics cs a s :
  admissible db metrics cs a ->
  run (body daemon) (initial_system db metrics) cs = Stepped s ->
  (forall (x : reply) i, x ∈ w_replies (sys_world s) -> i ∈ reply_mounts x -> hides_secrets i) /\
  (forall id sub, w_subscribers (sys_world s) !! id = Some sub ->
     (length (sub_events sub) <= subscriber_buffer)%nat /\
     forall ev, ev ∈ sub_events sub -> hides_secrets (MountEvent_Mount ev)) /\
  (forall id ev ok, FxSend id ev ok ∈ w_history (sys_world s) -> hides_secrets (MountEvent_Mount ev)).
Proof.
  intros Ha Hrun. destruct (run_Inv_at _ _ _ _ _ Ha Hrun) as (tau & _ & [_ _ _ Hs Hr Hh _ _]). split_and!.
  - intros x i Hx Hi. rewrite Forall_forall in Hr. specialize (Hr x Hx). rewrite Forall_forall in Hr.
    by apply redacted_hides, Hr.
  - intros id sub Hsub. destruct (Hs id sub Hsub) as [Hl Hf]. split; [done|]. intros ev Hev.
    rewrite Forall_forall in Hf. by apply redacted_hides, Hf.
  - intros id ev ok Hev. pose proof (hist_streams _ Hh) as Hf. rewrite Forall_forall in Hf. by apply redacted_hides, (Hf _ Hev).
Qed.

(** ** Attempts *)

(** C5: the attempt counter of a mount never exceeds the configured number
    of attempts, or what the restored records count; and its generation never
    wraps around. *)
Theorem attempts_bounded db metrics cs a s e m :
  admissible db metrics cs a -> run (body daemon) (initial_system db metrics) cs = Stepped s ->
  w_entries (sys_world s) !! e = Some m ->
  MountInfo_Attempt (mm_info m) <= (if restores cs then Z.max (maxAttempts daemon) a else maxAttempts daemon) /\
  1 <= mm_generation m <= Z.of_nat (length cs) + 1.
Proof.
  intros Ha Hrun He. destruct (run_Inv_at _ _ _ _ _ Ha Hrun) as (tau & Ht & Hi).
  destruct (inv_entries _ _ _ Hi e m He) as [Hg Hb _]. unfold ceiling in Hb. simpl in Hb. destruct (restores cs); lia.
Qed.

(** ** Durability *)

(** C4: a child process is only ever started for a mount whose record the
    database accepted before, or held when the daemon restored its mounts. *)
Theorem record_before_process db metrics cs a s i id cmd :
  admissible db metrics cs a -> run (body daemon) (initial_system db metrics) cs = Stepped s ->
  w_history (sys_world s) !! i = Some (FxStart id cmd) ->
  (exists j, (j < i)%nat /\ w_history (sys_world s) !! j = Some (FxCreate id true)) \/
  (restores cs = true /\ is_Some (db !! mountKey id)).
Proof. intros Ha Hrun. destruct (run_Inv_at _ _ _ _ _ Ha Hrun) as (tau & Ht & Hi). apply (hist_start _ (inv_history _ _ _ Hi)). Qed.

(** The database stays sound: what a run writes can be restored by the next
    one. *)
Lemma run_sound db metrics cs a s :
  admissible db metrics cs a -> run (body daemon) (initial_system db metrics) cs = Stepped s ->
  sound a db -> sound (Z.max a (maxAttempts daemon)) (w_db (sys_world s)).
Proof.
  intros Ha Hrun Hs. destruct (run_Inv_at _ _ _ _ _ Ha Hrun) as (tau & Ht & Hi).
  apply (inv_sound _ _ _ Hi); [unfold ceiling; simpl; destruct (restores cs); lia|].
  eapply stores_mono; [|exact Hs]. intros i. apply good_info_mono. lia.
Qed.

End Concurrency.

(** ** The theorems on a concrete run *)

(** A client watches events and mounts, gets the first event, the mount
    helper fails, the retry timer fires, and a second attempt starts. *)
Definition retried_run : list choice :=
  play example_body
    [Call (TWatch 10 RequestContext None) (calm 10 []); Call mount_home (calm 1000 []); Resume 0 2 (calm 1500 []);
     Spawned (failing 2000 []);
     Alarm 0 (calm 3000000000 []); Call (TListMounts Background None) (calm 3000000001 [])] example_start.

Lemma retried_run_admissible :
  @admissible example_config plain_urls message_errors plain_codec plain_irodsfs ∅ None retried_run 0.
Proof. apply mkAdmissible; [by vm_compute|by vm_compute|]. intros H. vm_compute in H. discriminate H. Qed.

Lemma manager_never_panics_witness :
  length retried_run = 84%nat /\ run example_body example_start retried_run <> Crashed.
Proof.
  split; [by vm_compute|].
  exact (@manager_never_panics example_config plain_urls message_errors plain_codec plain_irodsfs ∅ None retried_run 0
           retried_run_admissible).
Defined.

(** Names the world at the end of [retried_run]; [H] rules out that it does
    not get through. *)
Ltac at_end_of_retried_run H s E :=
  revert H; destruct (run example_body example_start retried_run) as [| |s] eqn:E; [intros []..|]; intros H.

Lemma registry_always_consistent_witness :
  match run example_body example_start retried_run with
  | Stepped s => exists e m, w_mounts (sys_world s) !! "home" = Some e /\
                   w_entries (sys_world s) !! e = Some m /\ MountInfo_MountId (mm_info m) = "home"
  | _ => False
  end.
Proof.
  assert (match run example_body example_start retried_run with
          | Stepped s => w_mounts (sys_world s) !! "home" = Some 0%nat | _ => False end) as H0 by (by vm_compute).
  at_end_of_retried_run H0 s E.
  destruct (@registry_always_consistent example_config plain_urls message_errors plain_codec plain_irodsfs ∅ None
    retried_run 0 s retried_run_admissible E) as [H1 _].
  destruct (H1 _ _ H0) as (m & Hm & Hid). exists 0%nat, m. exact (conj H0 (conj Hm Hid)).
Defined.

Lemma clients_never_see_secrets_witness :
  match run example_body example_start retried_run with
  | Stepped s => length (w_replies (sys_world s)) = 2%nat /\
      (forall r i, r ∈ w_replies (sys_world s) -> i ∈ reply_mounts r -> hides_secrets i) /\
      exists ev, w_history (sys_world s) !! 7%nat = Some (FxSend 1 ev true) /\ hides_secrets (MountEvent_Mount ev)
  | _ => False
  end.
Proof.
  assert (match run example_body example_start retried_run with
          | Stepped s => length (w_replies (sys_world s)) = 2%nat /\
              match w_history (sys_world s) !! 7%nat with Some (FxSend id _ ok) => id = 1 /\ ok = true | _ => False end
          | _ => False end) as H0 by (by vm_compute).
  at_end_of_retried_run H0 s E. destruct H0 as [H0 H6]. destruct (w_history (sys_world s) !! 7%nat) as [x|] eqn:Ei; [|destruct H6].
  destruct x; try destruct H6. subst.
  destruct (@clients_never_see_secrets example_config plain_urls message_errors plain_codec plain_irodsfs ∅ None
    retried_run 0 s retried_run_admissible E) as (Hr & _ & Hsent).
  exact (conj H0 (conj Hr (ex_intro _ event (conj eq_refl (Hsent _ _ _ (list_elem_of_lookup_2 _ _ _ Ei)))))).
Defined.

Lemma attempts_bounded_witness :
  match run example_body example_start retried_run with
  | Stepped s => exists m, w_entries (sys_world s) !! 0%nat = Some m /\ MountInfo_Attempt (mm_info m) = 2 /\
                   MountInfo_Attempt (mm_info m) <= maxAttempts example_config
  | _ => False
  end.
Proof.
  assert (match run example_body example_start retried_run with
          | Stepped s => (MountInfo_Attempt ∘ mm_info) <$> w_entries (sys_world s) !! 0%nat = Some 2
          | _ => False end) as H0 by (by vm_compute).
  at_end_of_retried_run H0 s E. destruct (w_entries (sys_world s) !! 0%nat) as [m|] eqn:Em; [|discriminate H0].
  exists m. injection H0 as H0. split; [reflexivity|split; [exact H0|]].
  exact (proj1 (@attempts_bounded example_config plain_urls message_errors plain_codec plain_irodsfs ∅ None
    retried_run 0 s 0%nat m retried_run_admissible E Em)).
Defined.

Lemma record_before_process_witness :
  match run example_body example_start retried_run with
  | Stepped s => exists cmd j, w_history (sys_world s) !! 14%nat = Some (FxStart "home" cmd) /\
                   (j < 14)%nat /\ w_history (sys_world s) !! j = Some (FxCreate "home" true)
  | _ => False
  end.
Proof.
  assert (match run example_body example_start retried_run with
          | Stepped s => match w_history (sys_world s) !! 14%nat with Some (FxStart id _) => id = "home" | _ => False end
          | _ => False end) as H0 by (by vm_compute).
  at_end_of_retried_run H0 s E. destruct (w_history (sys_world s) !! 14%nat) as [[]|] eqn:Ei; try destruct H0.
  destruct (@record_before_process example_config plain_urls message_errors plain_codec plain_irodsfs ∅ None
    retried_run 0 s 14%nat _ command retried_run_admissible E Ei) as [(j & Hj & Hc)|[_ [x Hx]]].
  - exists command, j. exact (conj eq_refl (conj Hj Hc)).
  - rewrite lookup_empty in Hx. discriminate Hx.
Defined.
