(* ===== verification/Restart.v ===== *)
(** * Crashes and restarts

    A daemon may be killed at any moment: what is left of it is the
    database.  The next one opens that database and may restore its mounts,
    with a configuration of its own.  Here the theorems about one run are
    put together for any number of lives. *)

From S2P Require Import Prelude GoStrings GoPath GoSort GoErrors Api Redact Config Retry Policy PolicyFacts.
From S2P Require Import IrodsfsConfig Repository PlainCodec RepositoryFacts Durable Runtime Command Manager.
From S2P Require Import Logic Invariant Rules ManagerSafe Scenario Concurrency.

Section Lives.
Context {url : UrlLib} {errs : ErrorLib} {codec : RecordCodec} {irods : IrodsfsLib}.

(** The databases that daemons leave behind, with the number of attempts
    their configurations allow: each life opens what the last one left,
    serves in any interleaving, and is cut off at any step. *)
Inductive left_behind : Z -> DB -> Prop :=
| never_used db : blank db -> left_behind 0 db
| used a db daemon f db' f' metrics cs s :
    left_behind a db -> ensureSchema db f = (None, db', f') ->
    Z.of_nat (length cs) <= limit -> orderly daemon db' metrics cs = true ->
    run (body daemon) (initial_system db' metrics) cs = Stepped s ->
    left_behind (Z.max a (maxAttempts daemon)) (w_db (sys_world s)).

Lemma opened_sound a db f db' f' : ensureSchema db f = (None, db', f') -> sound a db -> sound a db'.
Proof. intros E Hs. pose proof (stores_ensureSchema (good_info a) db f Hs) as H. by rewrite E in H. Qed.

Lemma left_behind_sound a db : left_behind a db -> sound a db.
Proof.
  induction 1 as [db Hb|a db daemon f db' f' metrics cs s _ IH Ho Hlim Hord Hrun]; [by apply blank_stores|].
  pose proof (opened_sound _ _ _ _ _ Ho IH) as Hs. eapply run_sound; [|exact Hrun|exact Hs]. by apply mkAdmissible.
Qed.

(** C6: a daemon that is killed at any moment, however often, leaves a
    database from which every later daemon can start and restore: whatever
    that one's configuration, requests, schedule and environment, it never
    panics; its registry maps IDs to entries of that ID; it starts a process
    only for a mount whose record it created before or found in the
    database; the attempts it counts stay within what some configuration
    allowed; and what it leaves behind is sound again. *)
Theorem daemon_survives_crashes a db daemon f db' f' metrics cs :
  left_behind a db -> ensureSchema db f = (None, db', f') ->
  Z.of_nat (length cs) <= limit -> orderly daemon db' metrics cs = true ->
  match run (body daemon) (initial_system db' metrics) cs with
  | Impossible => True
  | Crashed => False
  | Stepped s =>
      let w := sys_world s in
      (forall id e, w_mounts w !! id = Some e ->
         exists m, w_entries w !! e = Some m /\ MountInfo_MountId (mm_info m) = id /\
           MountInfo_Attempt (mm_info m) <= Z.max a (maxAttempts daemon)) /\
      (forall i id cmd, w_history w !! i = Some (FxStart id cmd) ->
         (exists j, (j < i)%nat /\ w_history w !! j = Some (FxCreate id true)) \/
         (restores cs = true /\ is_Some (db' !! mountKey id))) /\
      sound (Z.max a (maxAttempts daemon)) (w_db w)
  end.
Proof.
  intros Hl Ho Hlim Hord. pose proof (left_behind_sound _ _ Hl) as Hs. apply (opened_sound _ _ _ _ _ Ho) in Hs.
  assert (admissible daemon db' metrics cs a) as Ha by (by apply mkAdmissible).
  pose proof (run_Inv daemon db' metrics cs a Ha) as Hp.
  destruct (run (body daemon) (initial_system db' metrics) cs) as [| |s] eqn:Hrun; [done..|].
  destruct Hp as (tau & _ & Hi). split_and!; [|apply (hist_start _ (inv_history _ _ _ Hi))|by eapply run_sound].
  intros id e He. destruct (reg_entry _ _ (inv_registry _ _ _ Hi) _ _ He) as (m & Hm & Hid). exists m. split_and!; [done..|].
  pose proof (ok_attempt _ _ _ (inv_entries _ _ _ Hi e m Hm)) as Hat. unfold ceiling in Hat. simpl in Hat. destruct (restores cs); lia.
Qed.

End Lives.

(** ** A concrete restart *)

(** A daemon mounts "home" on a new database and is killed; the next one
    opens what it left, restores the mount, and lists it. *)
Definition opened (db : DB) : DB := (@ensureSchema message_errors db []).1.2.

Definition end_of (db : DB) (cs : list choice) : World :=
  match run example_body (initial_system db None) cs with Stepped s => sys_world s | _ => initial_world db None end.

Definition gets_through (db : DB) (cs : list choice) : bool :=
  match run example_body (initial_system db None) cs with Stepped _ => true | _ => false end.

Definition first_run : list choice :=
  play example_body [Call mount_home (calm 1000 []); Spawned (calm 2000 [home]); Spawned (calm 3000 [home])]
    (initial_system (opened ∅) None).

Definition disk_left : DB := w_db (end_of (opened ∅) first_run).

Definition restored_run : list choice :=
  play example_body
    [Call (TReconcile Background) (calm 5000 []); Spawned (calm 6000 [home]); Spawned (calm 7000 [home]);
     Call (TListMounts Background None) (calm 8000 [home])] (initial_system (opened disk_left) None).

Definition state_of (id : string) (w : World) : option MountState :=
  e ← w_mounts w !! id; m ← w_entries w !! e; Some (MountInfo_State (mm_info m)).

Lemma opened_ok db :
  (@ensureSchema message_errors db []).1.1 = None ->
  @ensureSchema message_errors db [] = (None, opened db, (@ensureSchema message_errors db []).2).
Proof. unfold opened. destruct (ensureSchema db []) as [[err db'] f']. by intros [= ->]. Qed.

Lemma gets_through_run db cs :
  gets_through db cs = true -> exists s, run example_body (initial_system db None) cs = Stepped s /\ sys_world s = end_of db cs.
Proof. unfold gets_through, end_of. destruct (run _ _ cs) as [| |s]; [done..|]. by exists s. Qed.

Lemma first_run_ok :
  gets_through (opened ∅) first_run = true /\ (@ensureSchema message_errors ∅ []).1.1 = None /\
  @orderly example_config plain_urls message_errors plain_codec plain_irodsfs (opened ∅) None first_run = true /\
  (Z.of_nat (length first_run) <=? limit) = true.
Proof. split_and!; vm_compute; reflexivity. Qed.

Lemma restored_run_ok :
  gets_through (opened disk_left) restored_run = true /\ (@ensureSchema message_errors disk_left []).1.1 = None /\
  @orderly example_config plain_urls message_errors plain_codec plain_irodsfs (opened disk_left) None restored_run = true /\
  (Z.of_nat (length restored_run) <=? limit) = true.
Proof. split_and!; vm_compute; reflexivity. Qed.

Lemma disk_left_behind :
  @left_behind plain_urls message_errors plain_codec plain_irodsfs (Z.max 0 (maxAttempts example_config)) disk_left.
Proof.
  destruct first_run_ok as (H1 & H2 & H3 & H4). destruct (gets_through_run _ _ H1) as (s & Hrun & Hs).
  unfold disk_left. rewrite <- Hs.
  exact (used 0 ∅ example_config [] _ _ None first_run s (never_used ∅ (fun id => lookup_empty _)) (opened_ok ∅ H2)
           (proj1 (Z.leb_le _ _) H4) H3 Hrun).
Qed.

(** The restored mount is served again, and its record was not created by
    the daemon that serves it. *)
Lemma daemon_survives_crashes_witness :
  restores restored_run = true /\ state_of "home" (end_of (opened disk_left) restored_run) = Some MOUNT_STATE_MOUNTED /\
  exists m, w_entries (end_of (opened disk_left) restored_run) !! 0%nat = Some m /\
    MountInfo_MountId (mm_info m) = "home" /\ MountInfo_Attempt (mm_info m) <= 5.
Proof.
  assert (restores restored_run = true) as H1 by (vm_compute; reflexivity).
  assert (state_of "home" (end_of (opened disk_left) restored_run) = Some MOUNT_STATE_MOUNTED) as H2 by (vm_compute; reflexivity).
  assert (w_mounts (end_of (opened disk_left) restored_run) !! "home" = Some 0%nat) as H3 by (vm_compute; reflexivity).
  destruct restored_run_ok as (H4 & H5 & H6 & H7).
  pose proof (@daemon_survives_crashes plain_urls message_errors plain_codec plain_irodsfs _ disk_left example_config []
    (opened disk_left) _ None restored_run disk_left_behind (opened_ok disk_left H5) (proj1 (Z.leb_le _ _) H7) H6) as H.
  destruct (gets_through_run _ _ H4) as (s & Hrun & Hs). rewrite <- Hs in H2, H3 |- *.
  change (run (body example_config) (initial_system (opened disk_left) None) restored_run) with
    (run example_body (initial_system (opened disk_left) None) restored_run) in H. rewrite Hrun in H.
  destruct (proj1 H _ _ H3) as (m & Hm & Hid & Hat).
  exact (conj H1 (conj H2 (ex_intro _ m (conj Hm (conj Hid Hat))))).
Defined.
