(* ===== verification/Traces.v ===== *)
(** * What one goroutine does, whatever the others do

    A trace of a program lists its actions so far: the environment each one
    ran in and the effects it had.  Between two actions the world may change
    arbitrarily within [ok], so a statement about all traces is a statement
    about a goroutine in any interleaving, and about a daemon that is killed
    at any moment. *)

From S2P Require Import Prelude GoErrors Api PlainCodec Runtime.

Notation trace := (list (env * list effect)) (only parsing).

(** The effects of a trace, in order. *)
Definition effects (t : trace) : list effect := mjoin t.*2.

Lemma effects_app t u : effects (t ++ u) = effects t ++ effects u.
Proof. unfold effects. by rewrite fmap_app, join_app. Qed.

Lemma effects_snoc t e d : effects (t ++ [(e, d)]) = effects t ++ d.
Proof. rewrite effects_app. unfold effects. simpl. by rewrite app_nil_r. Qed.

Section Traces.
Variable ok : World -> Prop.

(** [traces p t r]: [p] may perform [t] and then return [r], or stop
    ([None]). *)
Inductive traces {A} : prog A -> trace -> option A -> Prop :=
| traces_stop p : traces p [] None
| traces_ret a : traces (Ret a) [] (Some a)
| traces_act {X} (f : action X) k e w x w' d t r :
    ok w -> f e w = Next x w' -> w_history w' = w_history w ++ d -> traces (k x) t r ->
    traces (Act f k) ((e, d) :: t) r.

(** How a trace begins. *)
Lemma traces_inv {A} (p : prog A) t r :
  traces p t r ->
  match p with
  | Ret a => t = [] /\ (r = None \/ r = Some a)
  | Act f k => (t = [] /\ r = None) \/
      exists e w x w' d u, t = (e, d) :: u /\ ok w /\ f e w = Next x w' /\ w_history w' = w_history w ++ d /\ traces (k x) u r
  end.
Proof. destruct 1 as [[]|a|X f k e w x w' d t r Hw Hx Hd Ht]; [auto..|]. right. by exists e, w, x, w', d, t. Qed.

(** The traces of a sequence: the first part stops, or returns and the
    second one goes on. *)
Lemma traces_bind {A B} (p : prog A) (k : A -> prog B) t r :
  traces (p ≫= k) t r <->
  (r = None /\ traces p t None) \/ exists t1 t2 a, t = t1 ++ t2 /\ traces p t1 (Some a) /\ traces (k a) t2 r.
Proof.
  split.
  - revert t r. induction p as [a|X f g IH]; intros t r Ht.
    + right. exists [], t, a. split_and!; [done|constructor|done].
    + apply traces_inv in Ht as [[-> ->]|(e & w & x & w' & d & u & -> & Hw & Hx & Hd & Ht)]; [left; split; [done|constructor]|].
      destruct (IH _ _ _ Ht) as [[-> Hp]|(t1 & t2 & a & -> & H1 & H2)].
      * left. split; [done|]. by econstructor.
      * right. exists ((e, d) :: t1), t2, a. split_and!; [done| |done]. by econstructor.
  - intros [[-> Hp]|(t1 & t2 & a & -> & H1 & H2)].
    + remember None as r eqn:Er. induction Hp; [constructor|done|]. econstructor; eauto.
    + remember (Some a) as r' eqn:Er. induction H1; [done|by injection Er as ->|]. econstructor; eauto.
Qed.

Lemma traces_bind_mono {A B} (p p' : prog A) (k k' : A -> prog B) t r :
  (forall t r, traces p t r -> traces p' t r) -> (forall a t r, traces (k a) t r -> traces (k' a) t r) ->
  traces (p ≫= k) t r -> traces (p' ≫= k') t r.
Proof.
  intros Hp Hk. rewrite !traces_bind. intros [[-> Ht]|(t1 & t2 & a & -> & H1 & H2)]; [left; auto|right].
  exists t1, t2, a. auto.
Qed.

(** Every trace of [p] after [t] stays within [I], and ends in [Q] when [p]
    returns. *)
Fixpoint always {A} (I : trace -> Prop) (t : trace) (p : prog A) (Q : trace -> A -> Prop) : Prop :=
  match p with
  | Ret a => I t /\ Q t a
  | Act f k => I t /\ forall e w x w' d,
      ok w -> f e w = Next x w' -> w_history w' = w_history w ++ d -> always I (t ++ [(e, d)]) (k x) Q
  end.

Lemma always_now {A} I t (p : prog A) Q : always I t p Q -> I t.
Proof. destruct p; by intros [? _]. Qed.

Lemma always_bind {A B} I t (p : prog A) (k : A -> prog B) Q :
  always I t p (fun t' a => always I t' (k a) Q) -> always I t (p ≫= k) Q.
Proof.
  revert t. induction p as [a|X f g IH]; intros t; simpl; [by intros [_ ?]|].
  intros [Hi Hf]. split; [done|]. intros e w x w' d Hw Hx Hd. apply IH. by eapply Hf.
Qed.

Lemma always_weaken {A} (I I' : trace -> Prop) t (p : prog A) (Q Q' : trace -> A -> Prop) :
  (forall u, I u -> I' u) -> (forall u a, I u -> Q u a -> Q' u a) -> always I t p Q -> always I' t p Q'.
Proof.
  intros HI HQ. revert t. induction p as [a|X f g IH]; intros t; simpl; [intros [? ?]; auto|].
  intros [Hi Hf]. split; [auto|]. intros e w x w' d Hw Hx Hd. apply IH. by eapply Hf.
Qed.

Lemma always_mono {A} I t (p : prog A) (Q Q' : trace -> A -> Prop) :
  (forall u a, I u -> Q u a -> Q' u a) -> always I t p Q -> always I t p Q'.
Proof. by apply always_weaken. Qed.

Lemma always_ret {A} (I : trace -> Prop) t (a : A) (Q : trace -> A -> Prop) : I t -> Q t a -> always I t (mret a) Q.
Proof. by split. Qed.

(** Adequacy: what [always] says holds of all traces. *)
Lemma always_traces {A} I t (p : prog A) Q u r :
  always I t p Q -> traces p u r -> I (t ++ u) /\ forall a, r = Some a -> Q (t ++ u) a.
Proof.
  intros Hp Hu. revert t Hp. induction Hu as [p|a|X f k e w x w' d u r Hw Hx Hd _ IH]; intros t Hp.
  - rewrite app_nil_r. split; [by eapply always_now | done].
  - rewrite app_nil_r. destruct Hp. split; [done|]. by intros ? [= <-].
  - destruct Hp as [_ Hp]. specialize (IH (t ++ [(e, d)])). rewrite <- (assoc_L (++)) in IH. apply IH. by eapply Hp.
Qed.

(** ** Rules *)

(** An action with a known effect. *)
Lemma always_act {A} I t (f : action A) Q :
  I t -> (forall e w x w' d, ok w -> f e w = Next x w' -> w_history w' = w_history w ++ d ->
            I (t ++ [(e, d)]) /\ Q (t ++ [(e, d)]) x) -> always I t (act f) Q.
Proof. intros Hi Hf. split; [done|]. intros e w x w' d Hw Hx Hd. by eapply Hf. Qed.

Lemma no_effect (l d : list effect) : l = l ++ d -> d = [].
Proof. intros H. rewrite <- (app_nil_r l) in H at 1. by apply app_inv_head in H. Qed.

(** An action that leaves the history alone. *)
Lemma always_silent {A} I t (f : action A) Q :
  (forall e w x w', f e w = Next x w' -> w_history w' = w_history w) -> I t ->
  (forall e w x w', ok w -> f e w = Next x w' -> I (t ++ [(e, [])]) /\ Q (t ++ [(e, [])]) x) ->
  always I t (act f) Q.
Proof.
  intros Hsil Hi Hf. apply always_act; [done|]. intros e w x w' d Hw Hx Hd. rewrite (Hsil _ _ _ _ Hx) in Hd.
  apply no_effect in Hd as ->. by eapply Hf.
Qed.

(** An action with exactly one effect. *)
Lemma always_effect {A} I t (f : action A) Q (E : env -> A -> effect -> Prop) :
  (forall e w x w', f e w = Next x w' -> exists y, w_history w' = w_history w ++ [y] /\ E e x y) -> I t ->
  (forall e x y, E e x y -> I (t ++ [(e, [y])]) /\ Q (t ++ [(e, [y])]) x) -> always I t (act f) Q.
Proof.
  intros Heff Hi Hf. apply always_act; [done|]. intros e w x w' d Hw Hx Hd.
  destruct (Heff _ _ _ _ Hx) as (y & Hy & HE). rewrite Hy in Hd. apply app_inv_head in Hd as <-. by apply Hf.
Qed.
End Traces.

(** ** Ordering of steps *)

(** Steps of a trace: what was observed and what was done. *)
Notation step := (env * list effect)%type (only parsing).

(** The step had an effect of kind [f]. *)
Definition did (f : effect -> bool) (x : step) : Prop := exists y, y ∈ snd x /\ f y = true.

(** No step of kind [bad] without an earlier one of kind [good]. *)
Definition guarded (good bad : step -> Prop) (t : trace) : Prop :=
  forall i x, t !! i = Some x -> bad x -> exists j y, (j < i)%nat /\ t !! j = Some y /\ good y.

Definition happened (good : step -> Prop) (t : trace) : Prop := exists y, y ∈ t /\ good y.

Lemma guarded_nil good bad : guarded good bad [].
Proof. done. Qed.

Lemma happened_snoc good t x : happened good t -> happened good (t ++ [x]).
Proof. intros (y & Hy & Hg). exists y. set_solver. Qed.

Lemma happened_app good t u : happened good t -> happened good (t ++ u).
Proof. intros (y & Hy & Hg). exists y. set_solver. Qed.

Lemma happened_now good t x : good x -> happened good (t ++ [x]).
Proof. intros Hg. exists x. set_solver. Qed.

Lemma guarded_snoc good bad t x :
  guarded good bad t -> (bad x -> happened good t) -> guarded good bad (t ++ [x]).
Proof.
  intros Ht Hx i y [Hi|[Hlen Hi]]%lookup_app_Some Hb.
  - destruct (Ht i y Hi Hb) as (j & z & Hj & Hz & Hg). exists j, z. split_and!; [done|by apply lookup_app_l_Some|done].
  - apply list_lookup_singleton_Some in Hi as [Hi ->]. destruct (Hx Hb) as (z & Hz & Hg).
    apply list_elem_of_lookup_1 in Hz as [j Hz]. exists j, z. split_and!; [|by apply lookup_app_l_Some|done].
    apply lookup_lt_Some in Hz. lia.
Qed.

Lemma did_nil f e : ~ did f (e, []).
Proof. intros (y & Hy & _). by apply elem_of_nil in Hy. Qed.

Lemma did_one f e y : did f (e, [y]) <-> f y = true.
Proof.
  split; [intros (z & Hz & Hf); by apply list_elem_of_singleton in Hz as ->|]. intros Hf. exists y. split; [|done].
  by apply list_elem_of_singleton.
Qed.

Lemma guarded_silent good f t e : guarded good (did f) t -> guarded good (did f) (t ++ [(e, [])]).
Proof. intros Ht. apply guarded_snoc; [done|]. by intros ?%did_nil. Qed.

(** ** Programs with harmless effects only *)

Section Emits.
Variable ok : World -> Prop.

(** Every effect of [p] satisfies [P], and every result [R]. *)
Definition emits {A} (P : effect -> Prop) (p : prog A) (R : A -> Prop) : Prop :=
  forall t, always ok (fun u => exists v, u = t ++ v /\ Forall P (effects v)) t p (fun _ a => R a).

Lemma extends_refl (P : effect -> Prop) (t : trace) : exists v, t = t ++ v /\ Forall P (effects v).
Proof. exists []. rewrite app_nil_r. split; [done | constructor]. Qed.

Lemma emits_ret {A} P (a : A) (R : A -> Prop) : R a -> emits P (mret a) R.
Proof. intros Ha t. split; [apply extends_refl | done]. Qed.

Lemma always_extend {A} P t t0 (p : prog A) (R : A -> Prop) v :
  t = t0 ++ v -> Forall P (effects v) ->
  always ok (fun u => exists v, u = t ++ v /\ Forall P (effects v)) t p (fun _ a => R a) ->
  always ok (fun u => exists v, u = t0 ++ v /\ Forall P (effects v)) t p (fun _ a => R a).
Proof.
  intros -> Hv. apply always_weaken; [|done]. intros u (v' & -> & Hv'). exists (v ++ v').
  rewrite effects_app, (assoc_L (++)). split; [done|]. by apply Forall_app.
Qed.

Lemma emits_bind {A B} P (p : prog A) (k : A -> prog B) (R : A -> Prop) (S : B -> Prop) :
  emits P p R -> (forall a, R a -> emits P (k a) S) -> emits P (p ≫= k) S.
Proof.
  intros Hp Hk t. apply always_bind. eapply always_mono; [|apply Hp].
  intros u a (v & -> & Hv) Ha. eapply always_extend; [done|done|]. by apply Hk.
Qed.

Lemma emits_act {A} (P : effect -> Prop) (f : action A) (R : A -> Prop) :
  (forall e w x w', ok w -> f e w = Next x w' ->
     R x /\ (w_history w' = w_history w \/ exists y, w_history w' = w_history w ++ [y] /\ P y)) ->
  emits P (act f) R.
Proof.
  intros Hf t. apply always_act; [apply extends_refl|]. intros e w x w' d Hw Hx Hd.
  destruct (Hf _ _ _ _ Hw Hx) as [HR [H|(y & H & Hy)]]; rewrite H in Hd.
  - apply no_effect in Hd as ->. split; [|done]. exists [(e, [])]. split; [done | constructor].
  - apply app_inv_head in Hd as <-. split; [|done]. exists [(e, [y])]. split; [done|]. by repeat constructor.
Qed.

(** A program without bad effects keeps their order. *)
Lemma emits_guarded {A} (P : effect -> Prop) good f t (p : prog A) (R : A -> Prop) (Q : trace -> A -> Prop) :
  (forall x, P x -> f x = false) -> guarded good (did f) t -> emits P p R ->
  (forall v a, guarded good (did f) (t ++ v) -> R a -> Q (t ++ v) a) -> always ok (guarded good (did f)) t p Q.
Proof.
  intros HP Ht Hp HQ.
  assert (forall v, Forall P (effects v) -> guarded good (did f) (t ++ v)) as Hg.
  { intros v Hv i x [Hi|[_ Hi]]%lookup_app_Some Hb.
    - destruct (Ht i x Hi Hb) as (j & y & Hj & Hy & Hgy). exists j, y. split_and!; [done|by apply lookup_app_l_Some|done].
    - destruct Hb as (y & Hy & Hf). rewrite HP in Hf; [done|]. rewrite Forall_forall in Hv. apply Hv.
      apply list_elem_of_join. exists (snd x). split; [done|]. apply list_elem_of_fmap_2. by eapply list_elem_of_lookup_2. }
  eapply always_weaken; [| |apply Hp].
  - intros u (v & -> & Hv). auto.
  - intros u a (v & -> & Hv) Ha. auto.
Qed.

Lemma emits_mono {A} (P P' : effect -> Prop) (p : prog A) (R R' : A -> Prop) :
  (forall x, P x -> P' x) -> (forall a, R a -> R' a) -> emits P p R -> emits P' p R'.
Proof.
  intros HP HR Hp t. eapply always_weaken; [| |apply Hp]; [|auto].
  intros u (v & -> & Hv). exists v. split; [done|]. by eapply Forall_impl.
Qed.
End Emits.

(** ** Traces by evaluation *)

#[export] Instance Cmd_eq_dec : EqDecision Cmd.
Proof. solve_decision. Defined.
#[export] Instance MountEvent_eq_dec : EqDecision MountEvent.
Proof. solve_decision. Defined.
#[export] Instance effect_eq_dec : EqDecision effect.
Proof. solve_decision. Defined.

(** Runs a program alone, one environment per action. *)
Fixpoint tracing {A} (ok : World -> Prop) `{!forall w, Decision (ok w)} (es : list env) (p : prog A) (w : World)
  : trace * option A :=
  match p, es with
  | Ret a, _ => ([], Some a)
  | Act _ _, [] => ([], None)
  | Act f k, e :: es' =>
      match f e w with
      | Next x w' =>
          let d := drop (length (w_history w)) (w_history w') in
          if bool_decide (ok w) && bool_decide (w_history w' = w_history w ++ d)
          then let '(t, r) := tracing ok es' (k x) w' in ((e, d) :: t, r)
          else ([], None)
      | _ => ([], None)
      end
  end.

Lemma tracing_sound {A} (ok : World -> Prop) `{!forall w, Decision (ok w)} es (p : prog A) w :
  traces ok p (tracing ok es p w).1 (tracing ok es p w).2.
Proof.
  revert p w. induction es as [|e es IH]; intros [a|X f k] w; simpl; try constructor.
  destruct (f e w) as [| |x w'] eqn:E; try constructor.
  destruct (_ && _) eqn:Hb; [|constructor]. apply andb_true_iff in Hb as [H1 H2].
  apply bool_decide_eq_true in H1, H2. specialize (IH (k x) w'). destruct (tracing ok es (k x) w') as [t r].
  by eapply traces_act.
Qed.

(** Once the good step has happened, nothing can break the order. *)
Lemma always_happened {A} ok good bad t (p : prog A) :
  happened good t -> guarded good bad t -> always ok (guarded good bad) t p (fun _ _ => True).
Proof.
  revert t. induction p as [a|X f k IH]; intros t Hh Ht; split; auto. intros e w x w' d Hw Hx Hd.
  apply IH; [by apply happened_snoc | by apply guarded_snoc].
Qed.
