(* ===== verification/ManagerTraces.v ===== *)
(** * Orders of effects

    What the manager's goroutines may do to the outside, and in which order,
    whatever the rest of the daemon does between their actions and wherever
    they are cut off. *)

From S2P Require Import Prelude GoStrings GoPath GoSort GoErrors Api Redact Config Retry Policy PolicyFacts.
From S2P Require Import IrodsfsConfig Repository PlainCodec Runtime Command Manager Traces Scenario.

(** ** Worlds that agree on names *)

(** Entries keep their mount ID, and the registry maps IDs to entries of
    that ID (the registry invariant of the manager). *)
Definition named (id_of : entry_id -> string) (w : World) : Prop :=
  Forall (fun em => id_of (fst em) = MountInfo_MountId (mm_info (snd em))) (imap pair (w_entries w)) /\
  map_Forall (fun id e => id_of e = id) (w_mounts w).

#[export] Instance named_dec id_of w : Decision (named id_of w).
Proof. apply _. Defined.

Lemma named_entry id_of w e m : named id_of w -> w_entries w !! e = Some m -> MountInfo_MountId (mm_info m) = id_of e.
Proof.
  intros [Hn _] He. rewrite Forall_forall in Hn. symmetry. apply (Hn (e, m)).
  apply list_elem_of_lookup. exists e. by rewrite list_lookup_imap, He.
Qed.

Lemma named_mounts id_of w id e : named id_of w -> w_mounts w !! id = Some e -> id_of e = id.
Proof. intros [_ Hn] He. by apply (Hn id e). Qed.

(** ** Rules for the actions of the manager *)

Section Emits.
Variable ok : World -> Prop.
Variable P : effect -> Prop.

Local Notation emits := (emits ok P).

Lemma emits_silent {A} (f : action A) :
  (forall e w x w', f e w = Next x w' -> w_history w' = w_history w) -> emits (act f) (fun _ => True).
Proof. intros Hf. apply emits_act. eauto. Qed.

Lemma emits_asks {A} (f : env -> A) : emits (asks f) (fun _ => True).
Proof. apply emits_silent. by intros ? ? ? ? [= <- <-]. Qed.

Lemma emits_gets {A} (f : World -> A) : emits (gets f) (fun _ => True).
Proof. apply emits_silent. by intros ? ? ? ? [= <- <-]. Qed.

Lemma section_history {A} e (f : env -> managedMount -> A * managedMount * option chan) en w (x : A) w' :
  (match w_entries w !! e with
   | None => Panics
   | Some m => let '(r, m', closing) := f en m in
       let w1 := set_w_entries (<[e := m']> (w_entries w)) w in
       match closing with
       | None => Next r w1
       | Some c => match w_chans w !! c with
                   | Some false => Next r (set_w_chans (<[c := true]> (w_chans w)) w1)
                   | _ => Panics
                   end
       end
   end) = Next x w' -> w_history w' = w_history w.
Proof. intros H. cbv zeta in H. repeat case_match; simplify_eq; by destruct w. Qed.

Lemma emits_section {A} e (f : env -> managedMount -> A * managedMount * option chan) :
  emits (section e f) (fun _ => True).
Proof. apply emits_silent. intros en w x w'. apply section_history. Qed.

Lemma emits_locked {A} e (f : env -> managedMount -> A * managedMount) : emits (locked e f) (fun _ => True).
Proof. apply emits_section. Qed.

Lemma emits_reading {A} e (f : managedMount -> A) : emits (reading e f) (fun _ => True).
Proof. apply emits_section. Qed.

Lemma emits_config_path e : emits (config_path e) (fun _ => True).
Proof.
  eapply emits_bind; [apply emits_reading|]. intros [c|] _; [by apply emits_ret|]. by apply emits_act.
Qed.

Lemma emits_operation_Lock e : emits (operation_Lock e) (fun _ => True).
Proof. apply emits_silent. intros en w x w' H. repeat case_match; simplify_eq. by destruct w. Qed.

Lemma emits_operation_Unlock e : emits (operation_Unlock e) (fun _ => True).
Proof. apply emits_silent. intros en w x w' H. repeat case_match; simplify_eq. by destruct w. Qed.

Lemma emits_go t : emits (go t) (fun _ => True).
Proof. apply emits_silent. intros en w x w' [= <- <-]. by destruct w. Qed.

Lemma emits_AfterFunc t : emits (AfterFunc t) (fun _ => True).
Proof. apply emits_silent. intros en w x w' [= <- <-]. by destruct w. Qed.

Lemma emits_Timer_Stop t : emits (Timer_Stop t) (fun _ => True).
Proof. apply emits_silent. intros en w x w' [= <- <-]. by destruct w. Qed.

Lemma emits_with_metrics f : emits (with_metrics f) (fun _ => True).
Proof. apply emits_silent. intros en w x w' [= <- <-]. by destruct w. Qed.

Lemma emits_publish t info : (forall ev, P (FxPublish ev)) -> emits (publishMountEvent t info) (fun _ => True).
Proof.
  intros HP. destruct info as [i|]; [|by apply emits_ret]. apply emits_act. intros en w x w' _ H.
  repeat case_match; simplify_eq. split; [done|right]. destruct w. eauto.
Qed.

Lemma emits_system_call d : (forall b, P (d b)) -> emits (system_call d) (fun _ => True).
Proof. intros Hd. apply emits_act. intros e w x w' _ [= <- <-]. split; [done|]. right. destruct w. eauto. Qed.

Lemma emits_repository_Update `{ErrorLib} `{RecordCodec} ctx r :
  (forall b, P (FxUpdate (info_id r) (Record_Tombstone r) b)) -> emits (repository_Update ctx r) (fun _ => True).
Proof.
  intros HP. apply emits_act. intros e w x w' _ Hx. destruct (Update _ _ _ _) as [[err db] fl]. injection Hx as <- <-.
  split; [done|]. right. destruct w. eauto.
Qed.

(** A critical section, and what it returns. *)
Lemma always_locked {A} I t e (f : env -> managedMount -> A * managedMount) (Q : trace -> A -> Prop) :
  I t -> (forall en w m, ok w -> w_entries w !! e = Some m -> I (t ++ [(en, [])]) /\ Q (t ++ [(en, [])]) (f en m).1) ->
  always ok I t (locked e f) Q.
Proof.
  intros Hi Hf. unfold locked, section. apply always_silent; [|done|].
  - intros en w x w' H. eapply (section_history e (fun en m => (f en m, None))). exact H.
  - intros en w x w' Hw Hx. destruct (w_entries w !! e) as [m|] eqn:He; [|done].
    destruct (Hf en w m Hw He) as [H1 H2]. destruct (f en m) as [y m']. by simplify_eq.
Qed.

(** Any bind whose first part needs no postcondition. *)
Lemma emits_seq {A B} (p : prog A) (k : A -> prog B) (S : B -> Prop) :
  emits p (fun _ => True) -> (forall a, emits (k a) S) -> emits (p ≫= k) S.
Proof. intros Hp Hk. eapply emits_bind; [exact Hp|]. auto. Qed.
End Emits.

Create HintDb emits discriminated.
#[export] Hint Resolve emits_asks emits_gets emits_section emits_locked emits_reading emits_config_path emits_operation_Lock
  emits_operation_Unlock emits_go emits_AfterFunc emits_Timer_Stop emits_with_metrics emits_publish
  emits_system_call emits_repository_Update : emits.

#[export] Hint Extern 1 (emits _ _ (entry_mountPath _) _) => apply emits_config_path : emits.
#[export] Hint Extern 1 (emits _ _ (entry_mountID _) _) => apply emits_reading : emits.
#[export] Hint Extern 1 (emits _ _ (probe _) _) => apply emits_asks : emits.
#[export] Hint Extern 1 (emits _ _ time_Now _) => apply emits_asks : emits.
#[export] Hint Extern 1 (emits _ _ (command_Wait _) _) => apply emits_asks : emits.

Ltac emit := repeat first
  [ apply emits_ret; exact I
  | progress (auto with emits)
  | apply emits_seq; [|intros ?]
  | case_match ].

Section ManagerEmits.
Variable daemon : Config.
Context {url : UrlLib} {errs : ErrorLib} {codec : RecordCodec} {irods : IrodsfsLib}.
Variable ok : World -> Prop.

(** Only records are updated and events published. *)
Definition bookkeeping (x : effect) : Prop := match x with FxUpdate _ _ _ | FxPublish _ => True | _ => False end.

Lemma bookkeeping_Update id b c : bookkeeping (FxUpdate id b c).
Proof. done. Qed.
Lemma bookkeeping_Publish ev : bookkeeping (FxPublish ev).
Proof. done. Qed.
#[local] Hint Resolve bookkeeping_Update bookkeeping_Publish : emits.

Lemma emits_persistBestEffort e : emits ok bookkeeping (persistBestEffort e) (fun _ => True).
Proof. unfold persistBestEffort, persistRecord. emit. Qed.
#[local] Hint Resolve emits_persistBestEffort : emits.

Lemma emits_publish_updated e : emits ok bookkeeping (publish_updated e) (fun _ => True).
Proof. unfold publish_updated, snapshot. emit. Qed.
#[local] Hint Resolve emits_publish_updated : emits.

Lemma emits_cancelRetryTimer e : emits ok bookkeeping (cancelRetryTimer e) (fun _ => True).
Proof. unfold cancelRetryTimer. emit. Qed.
#[local] Hint Resolve emits_cancelRetryTimer : emits.

Lemma emits_schedule_retry e t : emits ok bookkeeping (schedule_retry e t) (fun _ => True).
Proof. unfold schedule_retry. emit. Qed.
#[local] Hint Resolve emits_schedule_retry : emits.

Lemma emits_recordMountFailure e g code message details :
  emits ok bookkeeping (recordMountFailure daemon e g code message details) (fun _ => True).
Proof. unfold recordMountFailure. emit. Qed.

Lemma emits_recordTerminalMountFailure e g code message :
  emits ok bookkeeping (recordTerminalMountFailure e g code message) (fun _ => True).
Proof. unfold recordTerminalMountFailure. emit. Qed.

Lemma emits_recordUnmountFailure e g code message :
  emits ok bookkeeping (recordUnmountFailure daemon e g code message) (fun _ => True).
Proof. unfold recordUnmountFailure. emit. Qed.
#[local] Hint Resolve emits_recordUnmountFailure emits_recordMountFailure emits_recordTerminalMountFailure : emits.

Lemma emits_unmount_failure e g code err :
  emits ok bookkeeping (unmount_failure daemon e g code err) (fun _ => True).
Proof. unfold unmount_failure, snapshot. emit. Qed.

End ManagerEmits.
#[export] Hint Resolve bookkeeping_Update bookkeeping_Publish emits_persistBestEffort emits_publish_updated emits_cancelRetryTimer
  emits_schedule_retry emits_recordMountFailure emits_recordTerminalMountFailure emits_recordUnmountFailure
  emits_unmount_failure : emits.

(** ** Unmounting *)

(** Detaches a mount, stops a client, or removes data. *)
Definition destructive (x : effect) : bool :=
  match x with
  | FxRemoveAll _ _ | FxFuseUnmount _ _ | FxSystemUnmount _ _ _ | FxSignal _ | FxKill _ | FxDelete _ _ => true
  | _ => false
  end.

(** The tombstone of [id] was written. *)
Definition tombstoned (id : string) (x : effect) : bool :=
  match x with FxUpdate id' true true => String.eqb id id' | _ => false end.

Section Unmounting.
Variable daemon : Config.
Context {url : UrlLib} {errs : ErrorLib} {codec : RecordCodec} {irods : IrodsfsLib}.
Variable id_of : entry_id -> string.

Local Notation always := (always (named id_of)).

Lemma bookkeeping_mild x : bookkeeping x -> destructive x = false.
Proof. by destruct x. Qed.

(** A part that only updates records, in front of the rest. *)
Lemma guarded_seq {A B} good t (p : prog A) (k : A -> prog B) Q :
  guarded good (did destructive) t -> emits (named id_of) bookkeeping p (fun _ => True) ->
  (forall u a, guarded good (did destructive) u -> always (guarded good (did destructive)) u (k a) Q) ->
  always (guarded good (did destructive)) t (p ≫= k) Q.
Proof.
  intros Ht Hp Hk. apply always_bind. eapply emits_guarded; [apply bookkeeping_mild|done|exact Hp|]. auto.
Qed.

Lemma guarded_end {A} good t (p : prog A) :
  guarded good (did destructive) t -> emits (named id_of) bookkeeping p (fun _ => True) ->
  always (guarded good (did destructive)) t p (fun _ _ => True).
Proof. intros Ht Hp. by eapply emits_guarded; [apply bookkeeping_mild|done|exact Hp|]. Qed.

(** The tombstone update either fails or has happened afterwards. *)
Lemma guarded_tombstone {B} t id ctx record (k : option goerror -> prog B) Q :
  info_id record = id -> Record_Tombstone record = true -> guarded (did (tombstoned id)) (did destructive) t ->
  (forall u x, guarded (did (tombstoned id)) (did destructive) u -> (x = None -> happened (did (tombstoned id)) u) ->
     always (guarded (did (tombstoned id)) (did destructive)) u (k x) Q) ->
  always (guarded (did (tombstoned id)) (did destructive)) t (repository_Update ctx record ≫= k) Q.
Proof.
  intros Hid Htomb Ht Hk. apply always_bind.
  apply always_effect with (E := fun _ x y => y = FxUpdate id true (succeeded x)).
  - intros e w x w' Hx. destruct (Update _ _ _ _) as [[err db] fl]. injection Hx as <- <-. rewrite Hid, Htomb.
    destruct w. eauto.
  - done.
  - intros e x y ->. assert (guarded (did (tombstoned id)) (did destructive) (t ++ [(e, [FxUpdate id true (succeeded x)])])) as Hg
      by (apply guarded_snoc; [done|]; by intros ?%did_one).
    split; [done|]. apply Hk; [done|]. intros ->. apply happened_now, did_one. apply String.eqb_refl.
Qed.

(** The record that the accepting section of Unmount makes. *)
Lemma accepted_tombstone w e m en :
  named id_of w -> w_entries w !! e = Some m ->
  Record_Tombstone (tombstoneRecord (accept_unmount_section en m).1) = true /\
  info_id (tombstoneRecord (accept_unmount_section en m).1) = id_of e.
Proof.
  intros Hw He. rewrite <- (named_entry _ _ _ _ Hw He). unfold info_id. simpl. split; [done|].
  destruct m as [? [? ? ? ? ? ? ? ? ? ? ?] ? ? ? ? ? ? ? ? ? ?]; simpl. by destruct (negb _).
Qed.

Lemma always_unmount_locked ctx entry t :
  guarded (did (tombstoned (id_of entry))) (did destructive) t ->
  always (guarded (did (tombstoned (id_of entry))) (did destructive)) t (unmount_locked daemon ctx entry (id_of entry)) (fun _ _ => True).
Proof.
  intros Ht. apply guarded_seq; [done|emit|]. intros t1 current Ht1.
  destruct (negb _); [apply guarded_end; [done|emit]|]. apply guarded_seq; [done|emit|]. intros t2 _ Ht2.
  apply always_bind, always_locked; [done|]. intros e w m Hw He. set (a := (accept_unmount_section e m).1).
  destruct (accepted_tombstone w entry m e Hw He) as [Hrec Hid]. fold a in Hrec, Hid.
  assert (guarded (did (tombstoned (id_of entry))) (did destructive) (t2 ++ [(e, [])])) as Ht3 by (by apply guarded_silent).
  split; [done|]. apply guarded_seq; [done|emit|]. intros t4 _ Ht4.
  apply guarded_tombstone; [done..|]. intros t5 [err|] Ht5 Hh.
  - apply guarded_seq; [done|emit|]. intros t6 _ Ht6. apply guarded_end; [done|emit].
  - apply always_happened; [by apply Hh|done].
Qed.

(** C7: Unmount detaches nothing, stops no client and removes nothing
    before the tombstone of that mount is in the database, even if it is
    cut off at any point and whatever happens between its steps. *)
Theorem unmount_records_intent_first ctx request t r :
  traces (named id_of) (Unmount daemon ctx (Some request)) t r ->
  guarded (did (tombstoned (UnmountRequest_MountId request))) (did destructive) t.
Proof.
  intros Htr. set (id := UnmountRequest_MountId request).
  assert (always (guarded (did (tombstoned id)) (did destructive)) [] (Unmount daemon ctx (Some request)) (fun _ _ => True)) as Hal.
  { apply guarded_seq; [apply guarded_nil|emit|]. intros t0 start Ht0.
    apply always_bind. apply (always_mono _ _ _ _ (fun _ _ => True)).
    { intros u x Hu _. apply guarded_end; [done|]. unfold recordMountOperation. emit. }
    apply guarded_seq; [done|emit|]. intros t1 [err|] Ht1; [apply guarded_end; [done|emit]|].
    cbv zeta. destruct (String.eqb _ _); [apply guarded_end; [done|emit]|].
    apply always_bind, always_silent; [by intros e w x w' [= <- <-]|done|]. intros e w x w' Hw [= <- <-].
    assert (guarded (did (tombstoned id)) (did destructive) (t1 ++ [(e, [])])) as Ht2 by (by apply guarded_silent).
    split; [done|]. fold id. destruct (w_mounts w !! id) as [entry|] eqn:He; [|apply guarded_end; [done|emit]].
    rewrite <- (named_mounts _ _ _ _ Hw He) in *.
    apply guarded_seq; [done|emit|]. intros t3 _ Ht3.
    apply always_bind. eapply always_mono; [|by apply always_unmount_locked].
    intros u x' Hu _. apply guarded_seq; [done|emit|]. intros t4 _ Ht4. apply guarded_end; [done|emit]. }
  by apply (always_traces _ _ _ _ _ _ _ Hal Htr).
Qed.
End Unmounting.

(** ** Data is only removed from detached mounts *)

(** The entry is mounted at [path] by [client] while the attempt runs. *)
Definition serving (e : entry_id) (path : string) (client : option mountClientType) (w : World) : Prop :=
  match w_entries w !! e with
  | Some m => GetMountPath (mm_info m) = path /\ mm_client m = client
  | None => False
  end.

#[export] Instance serving_dec e path client w : Decision (serving e path client w).
Proof. unfold serving. destruct (w_entries w !! e); apply _. Defined.

(** A successful, complete unmount of [path] by the means of the client. *)
Definition detaches (client : option mountClientType) (path : string) (x : effect) : bool :=
  match x, client with
  | FxFuseUnmount p true, Some mountClientIRODSFS => String.eqb p path
  | FxSystemUnmount [p] _ true, (Some mountClientDAVFS | Some mountClientNFS | None) => String.eqb p path
  | _, _ => false
  end.

(** The mount table did not list [path], or [path] was unmounted. *)
Definition detached (client : option mountClientType) (path : string) (x : env * list effect) : Prop :=
  isMountPoint (env_fs (fst x)) path = Ok false \/ did (detaches client path) x.

Definition removes (x : effect) : bool := match x with FxRemoveAll _ _ => true | _ => false end.

Section Removal.
Variable daemon : Config.
Context {url : UrlLib} {errs : ErrorLib} {codec : RecordCodec} {irods : IrodsfsLib}.
Variables (entry : entry_id) (path : string) (client : option mountClientType).

Local Notation ok := (serving entry path client).
Local Notation inorder := (guarded (detached client path) (did removes)).

Lemma bookkeeping_keeps x : bookkeeping x -> removes x = false.
Proof. by destruct x. Qed.

Lemma inorder_end {A} t (p : prog A) :
  inorder t -> emits ok bookkeeping p (fun _ => True) -> always ok inorder t p (fun _ _ => True).
Proof. intros Ht Hp. by eapply emits_guarded; [apply bookkeeping_keeps|done|exact Hp|]. Qed.

Lemma inorder_effect t e y : inorder t -> removes y = false -> inorder (t ++ [(e, [y])]).
Proof. intros Ht Hy. apply guarded_snoc; [done|]. intros H%did_one. congruence. Qed.

Lemma always_reading_served {A} t (f : managedMount -> A) (Q : trace -> A -> Prop) :
  inorder t ->
  (forall u m, inorder u -> GetMountPath (mm_info m) = path -> mm_client m = client -> Q u (f m)) ->
  always ok inorder t (reading entry f) Q.
Proof.
  intros Ht HQ. apply always_locked; [done|]. intros e w m Hw He. unfold serving in Hw. rewrite He in Hw.
  destruct Hw as [Hp Hc]. assert (inorder (t ++ [(e, [])])) by (by apply guarded_silent). split; [done|]. by apply HQ.
Qed.

(** A result of an unmount call: without error the path is detached. *)
Definition unmounted (t : trace) (x : option goerror) : Prop :=
  inorder t /\ (x = None -> happened (detached client path) t).

Lemma always_fuse_Unmount t :
  inorder t -> always ok inorder t (fuse_Unmount path) (fun u x => inorder u /\
    (x = None -> client = Some mountClientIRODSFS -> happened (detached client path) u)).
Proof.
  intros Ht. apply always_effect with (E := fun _ x y => y = FxFuseUnmount path (succeeded x)).
  - intros e w x w' [= <- <-]. exists (FxFuseUnmount path (succeeded (env_err e))). split; [|done].
    destruct w. simpl. by destruct (env_err e).
  - done.
  - intros e x y ->. assert (inorder (t ++ [(e, [FxFuseUnmount path (succeeded x)])])) by (by apply inorder_effect).
    split_and!; [done..|]. intros -> ->. apply happened_now. right. apply did_one. apply String.eqb_refl.
Qed.

Lemma always_runSystemUnmount t ctx timeout :
  inorder t -> client <> Some mountClientIRODSFS ->
  always ok inorder t (runSystemUnmount daemon ctx path false timeout) unmounted.
Proof.
  intros Ht Hc.
  apply always_effect with (E := fun _ x y => exists tmo, y = FxSystemUnmount [path] tmo (succeeded x)).
  - intros e w x w' Hx. cbv zeta in Hx. destruct (env_err e) as [err|], (env_umount e), ctx; simplify_eq;
      (eexists; split; [by destruct w | by eexists]).
  - done.
  - intros e x y [tmo ->]. assert (inorder (t ++ [(e, [FxSystemUnmount [path] tmo (succeeded x)])]))
      by (by apply inorder_effect).
    split; [done|]. split; [done|]. intros ->. apply happened_now. right. apply did_one. simpl.
    destruct client as [[]|]; [done|apply String.eqb_refl..].
Qed.

Lemma always_unmountByClientType t ctx :
  inorder t -> always ok inorder t (unmountByClientType daemon ctx client path) unmounted.
Proof.
  intros Ht. destruct (decide (client = Some mountClientIRODSFS)) as [Hc|Hc].
  - replace (unmountByClientType daemon ctx client path) with (fuse_Unmount path) by (by rewrite Hc).
    eapply always_mono; [|by apply always_fuse_Unmount]. intros u x Hu [_ Hx]. split; [done|]. auto.
  - rewrite unmountByClientType_helper by done. apply always_bind.
    eapply always_mono; [|by apply always_runSystemUnmount]. intros u x Hu Hx.
    destruct (_ || _); [by apply always_ret|]. apply always_bind. eapply always_mono; [|by apply always_fuse_Unmount].
    intros v y Hv _. destruct x, y; by apply always_ret.
Qed.

Lemma always_config_path_served t (Q : trace -> string -> Prop) :
  inorder t -> (forall u, inorder u -> Q u path) -> always ok inorder t (config_path entry) Q.
Proof.
  intros Ht HQ. apply always_bind, always_reading_served; [done|]. intros u m Hu Hp _. unfold GetMountPath in Hp.
  destruct (MountInfo_Config (mm_info m)) as [c|]; [rewrite Hp; apply always_ret; auto|by split].
Qed.

(** C8: an unmount attempt removes the mount's data directory only after
    the mount table did not list the mount path, or after a successful
    unmount by the client's own means.  In particular the data (the cache
    with unsynchronised changes) of a DAVFS mount survives an attempt that
    ends in a lazy unmount. *)
Theorem data_of_attached_mounts_is_kept ctx generation t r :
  traces (serving entry path client) (performUnmountAttempt daemon ctx entry generation) t r ->
  guarded (detached client path) (did removes) t.
Proof.
  intros Htr.
  assert (always ok inorder [] (performUnmountAttempt daemon ctx entry generation) (fun _ _ => True)) as Hal.
  { apply always_bind, always_config_path_served; [done|]. intros t1 Ht1.
    apply always_bind, always_silent; [by intros e w x w' [= <- <-]|done|]. intros e w x w' _ [= <- <-].
    assert (inorder (t1 ++ [(e, [])])) as Ht2 by (by apply guarded_silent). split; [done|].
    destruct (isMountPoint (env_fs e) path) as [[]|err] eqn:Em.
    - apply always_bind. apply always_bind, always_reading_served; [done|]. intros t3 m3 Ht3 _ ->.
      apply always_bind, always_config_path_served; [done|]. intros t4 Ht4.
      eapply always_mono; [|by apply always_unmountByClientType]. intros t5 [err|] _ [Ht5 Hh].
      + destruct (Is err _); (apply inorder_end; [done|emit]).
      + apply always_happened; [by apply Hh|done].
    - apply always_bind, always_ret; [done|]. apply always_happened; [|done]. apply happened_now. by left.
    - apply inorder_end; [done|emit]. }
  by apply (always_traces _ _ _ _ _ _ _ Hal Htr).
Qed.
End Removal.

(** ** Superseded goroutines *)

(** The generation of the entry has moved on from [g]. *)
Definition superseded (e : entry_id) (g : Z) (w : World) : Prop :=
  match w_entries w !! e with Some m => mm_generation m <> g | None => False end.

#[export] Instance superseded_dec e g w : Decision (superseded e g w).
Proof. unfold superseded. destruct (w_entries w !! e); apply _. Defined.

(** The goroutines that belong to generation [g] of entry [e]. *)
Definition belongs (e : entry_id) (g : Z) (t : thread) : bool :=
  match t with
  | TWaitForProcess e' g' _ _ | TWaitForMount e' g' _ _ | TWaitForMountLoop e' g' _ | TRetryMount e' g'
  | TRetryUnmount e' g' => Nat.eqb e e' && Z.eqb g g'
  | _ => false
  end.

Section Superseded.
Variable daemon : Config.
Context {url : UrlLib} {errs : ErrorLib} {codec : RecordCodec} {irods : IrodsfsLib}.
Variables (e : entry_id) (g : Z).

Local Notation quiet p := (emits (superseded e g) (fun _ => False) p (fun _ => True)).

(** The result of a section on a superseded entry. *)
Lemma emits_stale {A} (f : env -> managedMount -> A * managedMount * option chan) (R : A -> Prop) :
  (forall en m, mm_generation m <> g -> R (f en m).1.1) ->
  emits (superseded e g) (fun _ => False) (section e f) R.
Proof.
  intros Hf. apply emits_act. intros en w x w' Hw Hx. split; [|left; by eapply section_history].
  unfold superseded in Hw. destruct (w_entries w !! e) as [m|]; [|done]. specialize (Hf en m Hw).
  destruct (f en m) as [[y m'] c]. simpl in *. by repeat case_match; simplify_eq.
Qed.

(** A section that answers "superseded" and a continuation for it. *)
Lemma quiet_section {A B} (f : env -> managedMount -> A * managedMount) (k : A -> prog B) (v : A) :
  (forall en m, mm_generation m <> g -> (f en m).1 = v) -> quiet (k v) -> quiet (locked e f ≫= k).
Proof.
  intros Hf Hk. eapply emits_bind; [apply (emits_stale _ (fun x => x = v))|by intros a ->]. by intros en m Hm; apply Hf.
Qed.

Lemma quiet_holding {A} (p : prog A) : quiet p -> quiet (holding_operation e p).
Proof. intros Hp. unfold holding_operation. apply emits_seq; [emit|intros _]. apply emits_seq; [done|intros a]. emit. Qed.

Lemma quiet_handleMountTimeout : quiet (handleMountTimeout daemon e g).
Proof.
  apply quiet_holding. apply quiet_section with (v := None); [|by apply emits_ret].
  intros _ m Hm. unfold timeout_section. by rewrite (proj2 (Z.eqb_neq _ _) Hm).
Qed.

Lemma quiet_check_mounted : quiet (check_mounted e g).
Proof.
  unfold check_mounted. apply emits_seq; [emit|intros path]. apply emits_seq; [emit|intros probed].
  destruct probed as [[]|]; [|by apply emits_ret..]. apply quiet_section with (v := false); [|emit].
  intros en m Hm. unfold mounted_section. by rewrite (proj2 (Z.eqb_neq _ _) Hm).
Qed.

Lemma quiet_loop c : quiet (waitForMount_loop daemon e g c).
Proof.
  unfold waitForMount_loop. apply emits_seq.
  { apply emits_silent. intros en w x w' H. by repeat case_match; simplify_eq. }
  intros [].
  - emit.
  - apply emits_seq; [apply quiet_check_mounted|intros []; emit].
  - apply quiet_handleMountTimeout.
  - emit.
Qed.

Lemma quiet_waitForProcess p c : quiet (waitForProcess daemon e g p c).
Proof.
  unfold waitForProcess. apply emits_seq; [emit|intros err].
  eapply emits_bind; [apply (emits_stale _ (fun x => fst (fst x) = false))|].
  - intros _ m Hm. unfold process_exit_section. by rewrite (proj2 (Z.eqb_neq _ _) Hm).
  - intros [[crashed client] path]. simpl. intros ->. by apply emits_ret.
Qed.

Lemma begin_retry_stale : emits (superseded e g) (fun _ => False) (begin_retry e g) (fun x => x = None).
Proof.
  apply emits_act. intros en w x w' Hw Hx. unfold superseded in Hw. destruct (w_entries w !! e) as [m|]; [|done].
  unfold retry_mount_section in Hx. rewrite (proj2 (Z.eqb_neq _ _) Hw) in Hx. simpl in Hx. simplify_eq. auto.
Qed.

(** C9: a supervisor, a scheduled retry or a mount timeout of an attempt
    that has been superseded has no effect on the outside: it unmounts,
    kills, removes, starts and persists nothing. *)
Theorem superseded_goroutines_are_harmless t u r :
  belongs e g t = true -> traces (superseded e g) (body daemon t) u r -> effects u = [].
Proof.
  intros Hb Htr.
  assert (quiet (body daemon t)) as Hq.
  { destruct t; try done; simpl in Hb; apply andb_true_iff in Hb as [<-%Nat.eqb_eq <-%Z.eqb_eq]; simpl body.
    - apply quiet_waitForProcess.
    - unfold waitForMount. apply emits_seq; [emit|intros now]. destruct (_ <=? _); [apply quiet_handleMountTimeout|].
      apply emits_seq; [apply quiet_check_mounted|intros []; emit].
    - apply quiet_loop.
    - apply quiet_holding. eapply emits_bind; [apply begin_retry_stale|]. intros x ->. by apply emits_ret.
    - apply quiet_holding. apply quiet_section with (v := None); [|by apply emits_ret].
      intros en m Hm. unfold retry_unmount_section. by rewrite (proj2 (Z.eqb_neq _ _) Hm). }
  destruct (always_traces _ _ _ _ _ _ _ (Hq []) Htr) as [(v & Hu & Hv) _]. simpl in Hu.
  rewrite Hu. destruct (effects v) as [|x l]; [done|]. by inversion Hv.
Qed.
End Superseded.

(** ** The theorems on a concrete unmount *)

(** The environment of an unmount that succeeds. *)
Definition unmounting_env : env := choosing CaseExit (calm 4000 [home]).

Lemma unmount_records_intent_first_witness :
  let t := (tracing (named (fun _ => "home")) (repeat unmounting_env 40)
              (@Unmount example_config message_errors plain_codec Background (Some (mkUnmountRequest "home")))
              (world_after mounted_run)).1 in
  length (effects t) = 6%nat /\ guarded (did (tombstoned "home")) (did destructive) t.
Proof.
  intros t. split; [by vm_compute|].
  exact (@unmount_records_intent_first example_config message_errors plain_codec (fun _ => "home") Background
    (mkUnmountRequest "home") t _ (tracing_sound _ _ _ _)).
Defined.

Lemma data_of_attached_mounts_is_kept_witness :
  let t := (tracing (serving 0 home (Some mountClientNFS)) (repeat unmounting_env 40)
              (@performUnmountAttempt example_config message_errors plain_codec Background 0%nat 1)
              (world_after mounted_run)).1 in
  length (effects t) = 4%nat /\ guarded (detached (Some mountClientNFS) home) (did removes) t.
Proof.
  intros t. split; [by vm_compute|].
  exact (@data_of_attached_mounts_is_kept example_config message_errors plain_codec 0%nat home (Some mountClientNFS)
    Background 1 t _ (tracing_sound _ _ _ _)).
Defined.

Lemma superseded_goroutines_are_harmless_witness :
  let u := (tracing (superseded 0 7) (repeat unmounting_env 40) (example_body (TRetryUnmount 0 7))
              (world_after mounted_run)).1 in
  length u = 3%nat /\ effects u = [].
Proof.
  intros u. split; [by vm_compute|].
  exact (@superseded_goroutines_are_harmless example_config plain_urls message_errors plain_codec plain_irodsfs 0%nat 7
    (TRetryUnmount 0 7) u _ eq_refl (tracing_sound _ _ _ _)).
Defined.
