(* ===== verification/Streams.v ===== *)
(** * Streams of events

    What the handler of WatchMountEvents does with its subscription, whatever
    the rest of the daemon does between its actions and wherever it is cut
    off: it forwards. *)

From S2P Require Import Prelude GoErrors Api Redact Config Repository PlainCodec Runtime Manager Traces ManagerTraces Scenario.

(** ** What goes over a stream *)

(** Events that were received and sent, in order. *)
Definition forwarded (id : Z) (events : list MountEvent) : list effect :=
  events ≫= fun event => [FxReceive id event; FxSend id event true].

Lemma forwarded_snoc id events event :
  forwarded id (events ++ [event]) = forwarded id events ++ [FxReceive id event; FxSend id event true].
Proof. unfold forwarded. by rewrite bind_app. Qed.

(** The effects of a handler after its subscription: the snapshots it begins
    with are put into the queue. *)
Definition is_snapshot (x : effect) : bool := match x with FxSnapshot _ _ => true | _ => false end.
Definition streamed (t : trace) : list effect := List.filter (fun x => negb (is_snapshot x)) (effects t).

Lemma streamed_app t u : streamed (t ++ u) = streamed t ++ streamed u.
Proof. unfold streamed. rewrite effects_app. apply List.filter_app. Qed.

Lemma streamed_snoc t e d : Forall (fun x => is_snapshot x = false) d -> streamed (t ++ [(e, d)]) = streamed t ++ d.
Proof.
  intros Hd. rewrite streamed_app. f_equal. unfold streamed, effects. simpl. rewrite app_nil_r.
  induction Hd as [|x d Hx _ IH]; [done|]. simpl. by rewrite Hx, IH.
Qed.

(** An event that was received and not sent yet, or could not be sent. *)
Definition in_flight (id : Z) (rest : list effect) : Prop :=
  rest = [] \/ exists event, rest = [FxReceive id event] \/ rest = [FxReceive id event; FxSend id event false].

(** The handler is at work. *)
Definition streaming (id : Z) (t : trace) : Prop :=
  exists events rest, streamed t = forwarded id events ++ rest /\ in_flight id rest.

(** The loop has ended with [err]: everything it received was sent, and the
    context had ended or the channel was closed, or the last event could not
    be sent and [err] is why. *)
Definition loop_over (ctx : context) (id : Z) (t : trace) (err : option goerror) : Prop :=
  exists events,
    (streamed t = forwarded id events /\ (err = None \/ exists e, e ∈ t.*1 /\ ctx_Err ctx e = err)) \/
    exists event e, streamed t = forwarded id events ++ [FxReceive id event; FxSend id event false] /\
      e ∈ t.*1 /\ env_err e = err /\ err <> None.

Lemma loop_over_streaming ctx id t err : loop_over ctx id t err -> streaming id t.
Proof.
  intros (events & [[E _]|(event & e & E & _)]); eexists events, _; (split; [rewrite E|]).
  - symmetry. apply app_nil_r.
  - by left.
  - done.
  - right. eauto.
Qed.

(** The subscription is given up. *)
Definition released (id : Z) (over : trace -> Prop) (t : trace) : Prop :=
  exists u e, t = u ++ [(e, [FxUnsubscribe id])] /\ over u.

(** ** The handler *)

Section Streams.
Local Notation ok := (fun _ : World => True).
Implicit Types (t : trace) (id : Z).

Lemma history_recorded w x d : w_history (record_effect x w) = w_history w ++ d -> d = [x].
Proof. destruct w. simpl. by intros H%app_inv_head. Qed.

Lemma forwarding t id events : streamed t = forwarded id events -> streaming id t.
Proof. intros E. exists events, []. split; [by rewrite app_nil_r|by left]. Qed.

(** The select has no effect, or takes the first event of the queue. *)
Lemma watch_select_step ctx id e w x w' d :
  (match env_case e with
   | CaseContext => match ctx_Err ctx e with Some err => Next (StreamDone err) w | None => Blocked end
   | _ => match w_subscribers w !! id with
          | None => Next ChannelClosed w
          | Some s => match sub_events s with
              | [] => Blocked
              | event :: rest => Next (EventReceived event) (record_effect (FxReceive id event)
                  (set_w_subscribers (<[id := mkSubscriber (sub_mountIDs s) rest]> (w_subscribers w)) w))
              end
          end
   end) = Next x w' -> w_history w' = w_history w ++ d ->
  match x with
  | StreamDone err => d = [] /\ ctx_Err ctx e = Some err
  | ChannelClosed => d = []
  | EventReceived event => d = [FxReceive id event]
  end.
Proof.
  assert (w_history w = w_history w ++ d -> d = []) as Hnil by apply no_effect.
  intros Hx Hd. repeat case_match; simplify_eq; auto; destruct w; by apply app_inv_head in Hd.
Qed.

Lemma always_watch_loop rounds ctx id : forall events t,
  streamed t = forwarded id events ->
  always ok (streaming id) t (watch_loop rounds ctx id) (loop_over ctx id).
Proof.
  induction rounds as [|rounds IH]; intros events t E; cbn [watch_loop].
  { apply always_act; [by eapply forwarding|]. done. }
  apply always_bind, always_act; [by eapply forwarding|]. intros e w x w' d _ Hx Hd.
  pose proof (watch_select_step ctx id e w x w' d Hx Hd) as Hs. clear Hx Hd.
  assert (forall y, e ∈ (t ++ [(e, y)]).*1) as Hin by (intros y; rewrite fmap_app; set_solver).
  destruct x as [err| |event].
  - destruct Hs as [-> Hc]. split; [apply (forwarding _ _ events); by rewrite streamed_snoc, app_nil_r by done|].
    apply always_ret; [apply (forwarding _ _ events); by rewrite streamed_snoc, app_nil_r by done|].
    exists events. left. rewrite streamed_snoc, app_nil_r by done. split; [done|right]. exists e. by split.
  - subst d. split; [apply (forwarding _ _ events); by rewrite streamed_snoc, app_nil_r by done|].
    apply always_ret; [apply (forwarding _ _ events); by rewrite streamed_snoc, app_nil_r by done|].
    exists events. left. rewrite streamed_snoc, app_nil_r by done. split; [done|by left].
  - subst d. set (u := t ++ [(e, [FxReceive id event])]).
    assert (streamed u = forwarded id events ++ [FxReceive id event]) as Eu by (unfold u; by rewrite streamed_snoc, E by by repeat constructor).
    assert (streaming id u) as Hu by (exists events, [FxReceive id event]; split; [done|right; eauto]).
    split; [done|]. apply always_bind, always_act; [done|]. intros e' w1 y w1' d _ [= <- <-] Hd.
    apply history_recorded in Hd as ->. destruct (env_err e') as [err|] eqn:Ee.
    + assert (loop_over ctx id (u ++ [(e', [FxSend id event false])]) (Some err)) as Ho.
      { exists events. right. exists event, e'. rewrite streamed_snoc, Eu, <- (assoc_L (++)) by by repeat constructor. split_and!; [done| |done|done].
        rewrite fmap_app. set_solver. }
      split; [by eapply loop_over_streaming|]. apply always_ret; [by eapply loop_over_streaming|done].
    + assert (streamed (u ++ [(e', [FxSend id event true])]) = forwarded id (events ++ [event])) as E'
        by (by rewrite streamed_snoc, Eu, forwarded_snoc, <- (assoc_L (++)) by by repeat constructor).
      split; [by eapply forwarding|]. by eapply IH.
Qed.

(** Subscribing puts snapshots into the queue and has no other effect. *)
Local Ltac silent := apply emits_silent; intros e w x w' Hx; destruct w; simpl in Hx; repeat case_match; by simplify_eq.

Lemma emits_snapshots (entries : list entry_id) : emits ok (fun x => is_snapshot x = true) (snapshots entries) (fun _ => True).
Proof.
  induction entries as [|entry entries IH]; [by apply emits_ret|]. apply emits_seq; [apply emits_reading|]. intros info.
  apply emits_seq; [done|]. intros infos. by apply emits_ret.
Qed.

Lemma emits_send_snapshots id infos : emits ok (fun x => is_snapshot x = true) (send_snapshots id infos) (fun _ => True).
Proof.
  induction infos as [|info infos IH]; [by apply emits_ret|]. apply emits_seq; [|done]. apply emits_act.
  intros e w x w' _ Hx. destruct w. simpl in Hx. repeat case_match; simplify_eq; (split; [done|]); [by left|right; eauto].
Qed.

Lemma emits_SubscribeMountEvents request : emits ok (fun x => is_snapshot x = true) (SubscribeMountEvents request) (fun _ => True).
Proof.
  apply emits_seq; [silent|]. intros _.
  apply emits_seq; [silent|]. intros id.
  apply emits_seq; [|intros _; apply emits_seq; [silent|intros _; by apply emits_ret]].
  destruct (WatchMountEventsRequest_IncludeCurrent _); [|by apply emits_ret].
  apply emits_seq; [|intros infos; apply emits_send_snapshots].
  apply emits_seq; [silent|intros entries; apply emits_snapshots].
Qed.

Lemma only_snapshots (v : trace) : Forall (fun x => is_snapshot x = true) (effects v) -> streamed v = [].
Proof. unfold streamed. induction 1 as [|x d Hx _ IH]; [done|]. simpl. by rewrite Hx. Qed.

(** Giving up the subscription is one effect. *)
Lemma cancel_step id w x w' d :
  (if w_eventMutex w then Blocked
   else Next tt (record_effect (FxUnsubscribe id) (set_w_subscribers (delete id (w_subscribers w)) w))) = Next x w' ->
  w_history w' = w_history w ++ d -> d = [FxUnsubscribe id].
Proof. intros Hx Hd. destruct (w_eventMutex w); [done|]. injection Hx as _ <-. destruct w. by apply app_inv_head in Hd. Qed.

(** C10: whatever the rest of the daemon does between its actions, the
    handler of a stream forwards its subscription: it sends every event it
    takes from the queue, once and in the order of the queue, before it takes
    the next one.  It stops when the context of the stream ends, or when an
    event cannot be sent, with that error; and whenever it returns, the last
    thing it did was to give up its subscription. *)
Theorem streams_forward_their_subscription rounds ctx request t r :
  traces ok (WatchMountEvents rounds ctx request) t r ->
  exists id, match r with
             | None => streaming id t \/ exists err, released id (fun u => loop_over ctx id u err) t
             | Some err => released id (fun u => loop_over ctx id u err) t
             end.
Proof.
  set (I := fun t => exists id, streaming id t \/ exists err, released id (fun u => loop_over ctx id u err) t).
  intros Ht.
  assert (always ok I [] (WatchMountEvents rounds ctx request)
    (fun t err => exists id, released id (fun u => loop_over ctx id u err) t)) as Ha.
  { apply always_bind. eapply always_weaken; [| |apply (emits_SubscribeMountEvents request [])].
    - intros u (v & -> & Hv). exists 0. left. apply (forwarding _ _ []). by apply only_snapshots.
    - intros u id (v & -> & Hv) _. apply always_bind.
      eapply always_weaken; [| |apply (always_watch_loop rounds ctx id [])]; [|intros u err Hs Ho|by apply only_snapshots].
      + intros u Hu. exists id. by left.
      + apply always_bind, always_act; [exists id; by left|]. intros e w x w' d _ Hx Hd.
        apply (cancel_step id w x) in Hd; [subst d|exact Hx].
        assert (released id (fun u => loop_over ctx id u err) (u ++ [(e, [FxUnsubscribe id])])) as Hr by (by exists u, e).
        split; [exists id; right; by exists err|]. apply always_ret; [exists id; right; by exists err|by exists id]. }
  destruct (always_traces _ _ _ _ _ _ _ Ha Ht) as [[id Hi] Hr]. destruct r as [err|]; [by apply Hr|by exists id].
Qed.

(** The bound on the rounds cuts nothing off: what a handler of some rounds
    may do, one of more rounds may do. *)
Lemma more_rounds_loop rounds more ctx id t r :
  traces ok (watch_loop rounds ctx id) t r -> traces ok (watch_loop (rounds + more) ctx id) t r.
Proof.
  revert t r. induction rounds as [|rounds IH]; intros t r; cbn [watch_loop Nat.add].
  - intros [[-> ->]|(e & w & x & w' & d & u & _ & _ & Hx & _)]%traces_inv; [constructor|done].
  - apply traces_bind_mono; [done|]. intros [err| |event] t' r'; [done..|]. apply traces_bind_mono; [done|].
    intros [err|] t'' r''; [done|]. apply IH.
Qed.

Lemma more_rounds rounds more ctx request t r :
  traces ok (WatchMountEvents rounds ctx request) t r -> traces ok (WatchMountEvents (rounds + more) ctx request) t r.
Proof.
  apply traces_bind_mono; [done|]. intros id t' r'. apply traces_bind_mono; [|done]. intros ? ?. apply more_rounds_loop.
Qed.
End Streams.

(** ** A concrete stream *)

(** A client asks for the current mounts, gets the one there is, and
    leaves. *)
Definition leaving_env : env := {|
  env_now := fun _ => 9000;
  env_rand := env_rand (calm 9000 []);
  env_err := None;
  env_cancelled := Some (ENew "context canceled");
  env_case := CaseContext;
  env_umount := UExited;
  env_output := EmptyString;
  env_pid := 4242;
  env_id := "cv37";
  env_order := [];
  env_faults := [];
  env_fs := mountinfo_fs []
|}.

Definition watched_trace : trace * option (option goerror) :=
  tracing (fun _ => True) (repeat (calm 8000 [home]) 8 ++ [leaving_env; leaving_env])
    (WatchMountEvents 5 RequestContext (Some (mkWatchMountEventsRequest [] true))) (world_after mounted_run).

Lemma streams_forward_their_subscription_witness :
  watched_trace.2 = Some (Some (ENew "context canceled")) /\ length (streamed watched_trace.1) = 3%nat /\
  exists id, released id (fun u => loop_over RequestContext id u (Some (ENew "context canceled"))) watched_trace.1.
Proof.
  assert (watched_trace.2 = Some (Some (ENew "context canceled"))) as H1 by (vm_compute; reflexivity).
  assert (length (streamed watched_trace.1) = 3%nat) as H2 by (vm_compute; reflexivity).
  pose proof (streams_forward_their_subscription 5 RequestContext (Some (mkWatchMountEventsRequest [] true))
    watched_trace.1 watched_trace.2 (tracing_sound _ _ _ _)) as H3. rewrite H1 in H3.
  exact (conj H1 (conj H2 H3)).
Defined.
