(* ===== verification/Delivery.v ===== *)
(** * Delivery of events

    The queue of a subscriber in every interleaving of the daemon: what was
    received from it, followed by what is in it, only grows at its end, by
    events that were offered to the subscriber, in the order in which they
    were offered, and by all of them as long as they fit into the buffer. *)

From S2P Require Import Prelude GoStrings GoPath GoSort GoErrors Api Redact Config Retry Policy PolicyFacts.
From S2P Require Import IrodsfsConfig Repository PlainCodec Runtime Command Manager ManagerTraces Scenario.

(** ** Histories of a subscriber *)

(** The events that were received from its queue. *)
Definition received (id : Z) (h : list effect) : list MountEvent :=
  omap (fun x => match x with FxReceive id' ev => if decide (id' = id) then Some ev else None | _ => None end) h.

(** The events that were offered to it: published ones that pass its filter,
    and its own snapshots. *)
Definition offered (id : Z) (ids : list string) (h : list effect) : list MountEvent :=
  omap (fun x =>
    match x with
    | FxPublish ev => if matches (mkSubscriber ids []) (MountInfo_MountId (MountEvent_Mount ev)) then Some ev else None
    | FxSnapshot id' ev => if decide (id' = id) then Some ev else None
    | _ => None
    end) h.

Lemma received_app id h d : received id (h ++ d) = received id h ++ received id d.
Proof. apply omap_app. Qed.

Lemma offered_app id ids h d : offered id ids (h ++ d) = offered id ids h ++ offered id ids d.
Proof. apply omap_app. Qed.

(** Effects that have nothing to do with subscribers. *)
Definition plain (x : effect) : bool :=
  match x with FxPublish _ | FxSnapshot _ _ | FxReceive _ _ => false | _ => true end.

Lemma plain_received id d : Forall (fun x => plain x = true) d -> received id d = [].
Proof. induction 1 as [|x d Hx _ IH]; [done|]. by destruct x. Qed.

Lemma plain_offered id ids d : Forall (fun x => plain x = true) d -> offered id ids d = [].
Proof. induction 1 as [|x d Hx _ IH]; [done|]. by destruct x. Qed.

(** Everything that has entered a queue. *)
Definition entered (id : Z) (w : World) (s : subscriber) : list MountEvent := received id (w_history w) ++ sub_events s.

(** What may happen to a queue while the history grows by [d]. *)
Record queue_step (id : Z) (w w' : World) (d : list effect) (s s' : subscriber) : Prop := {
  qs_filter : sub_mountIDs s' = sub_mountIDs s;
  qs_entered : exists l, entered id w' s' = entered id w s ++ l /\ l `sublist_of` offered id (sub_mountIDs s) d /\
    ((length (sub_events s) + length (offered id (sub_mountIDs s) d) <= subscriber_buffer)%nat -> l = offered id (sub_mountIDs s) d)
}.

Lemma queue_step_trans id w1 w2 w3 d1 d2 s1 s2 s3 :
  w_history w2 = w_history w1 ++ d1 ->
  queue_step id w1 w2 d1 s1 s2 -> queue_step id w2 w3 d2 s2 s3 -> queue_step id w1 w3 (d1 ++ d2) s1 s3.
Proof.
  intros Hh [F1 (l1 & E1 & S1 & A1)] [F2 (l2 & E2 & S2 & A2)]. split; [congruence|]. rewrite F1 in *.
  exists (l1 ++ l2). rewrite offered_app, length_app. split_and!; [by rewrite E2, E1, (assoc_L (++))|by apply sublist_app|].
  intros Hroom. rewrite A1, A2; [done| |lia].
  assert (length (sub_events s2) <= length (sub_events s1) + length (offered id (sub_mountIDs s1) d1))%nat; [|lia].
  pose proof (sublist_length _ _ S1). apply (f_equal length) in E1. unfold entered in E1.
  rewrite Hh, received_app, !length_app in E1. lia.
Qed.

(** ** What an action does to the subscribers *)

Inductive stream_move (w w' : World) : Prop :=
| stream_opens ids :
    w_nextSubscriberID w' = wrap_u64 (w_nextSubscriberID w + 1) ->
    w_subscribers w' = <[wrap_u64 (w_nextSubscriberID w + 1) := mkSubscriber ids []]> (w_subscribers w) ->
    w_history w' = w_history w -> stream_move w w'
| stream_goes_on d :
    w_nextSubscriberID w' = w_nextSubscriberID w -> w_history w' = w_history w ++ d ->
    (forall id s', w_subscribers w' !! id = Some s' -> exists s, w_subscribers w !! id = Some s /\ queue_step id w w' d s s') ->
    stream_move w w'.

(** Nothing happens to a queue. *)
Lemma queue_step_same id w w' d s :
  w_history w' = w_history w ++ d -> received id d = [] -> offered id (sub_mountIDs s) d = [] -> queue_step id w w' d s s.
Proof.
  intros Hh Hr Ho. split; [done|]. exists []. unfold entered. rewrite Hh, received_app, Hr, Ho, !app_nil_r. by split_and!.
Qed.

Lemma stream_quiet w w' d :
  w_nextSubscriberID w' = w_nextSubscriberID w -> w_subscribers w' = w_subscribers w ->
  w_history w' = w_history w ++ d -> Forall (fun x => plain x = true) d -> stream_move w w'.
Proof.
  intros Hn Hs Hh Hd. apply (stream_goes_on _ _ d); [done..|]. intros id s Hx. rewrite Hs in Hx. exists s. split; [done|].
  apply queue_step_same; [done|by apply plain_received|by apply plain_offered].
Qed.

(** A subscription ends. *)
Lemma stream_cancelled w w' id :
  w_nextSubscriberID w' = w_nextSubscriberID w -> w_subscribers w' = delete id (w_subscribers w) ->
  w_history w' = w_history w ++ [FxUnsubscribe id] -> stream_move w w'.
Proof.
  intros Hn Hs Hh. eapply stream_goes_on; [done..|]. intros id' s Hx. rewrite Hs in Hx. apply lookup_delete_Some in Hx as [_ Hx].
  exists s. split; [done|]. by apply queue_step_same.
Qed.

(** An event is published: each queue takes it if it passes the filter and
    there is room. *)
Lemma stream_published w w' ev :
  w_nextSubscriberID w' = w_nextSubscriberID w -> w_subscribers w' = deliver ev <$> w_subscribers w ->
  w_history w' = w_history w ++ [FxPublish ev] -> stream_move w w'.
Proof.
  intros Hn Hs Hh. eapply stream_goes_on; [done..|]. intros id s' Hx. rewrite Hs, lookup_fmap in Hx.
  apply fmap_Some in Hx as (s & Hx & ->). exists s. split; [done|]. unfold deliver.
  set (p := matches s _). assert (offered id (sub_mountIDs s) [FxPublish ev] = if p then [ev] else []) as Ho.
  { unfold offered. simpl. unfold p, matches. simpl. by destruct (_ || _). }
  destruct p; simpl; [|by apply queue_step_same]. case_bool_decide as Hroom; split; try done;
    unfold entered; rewrite Hh, received_app, Ho; simpl; rewrite app_nil_r.
  - exists [ev]. rewrite (assoc_L (++)). by split_and!.
  - exists []. rewrite app_nil_r. split_and!; [done|apply sublist_nil_l|]. simpl. lia.
Qed.

(** A snapshot is put into the queue it is for. *)
Lemma stream_snapshot w w' id ev s :
  w_nextSubscriberID w' = w_nextSubscriberID w -> w_subscribers w !! id = Some s ->
  w_subscribers w' = <[id := mkSubscriber (sub_mountIDs s) (sub_events s ++ [ev])]> (w_subscribers w) ->
  w_history w' = w_history w ++ [FxSnapshot id ev] -> stream_move w w'.
Proof.
  intros Hn Hid Hs Hh. eapply stream_goes_on; [done..|]. intros id' s' Hx. rewrite Hs in Hx.
  apply lookup_insert_Some in Hx as [[<- <-]|[Hne Hx]].
  - exists s. split; [done|]. split; [done|]. unfold entered. rewrite Hh, received_app. unfold offered. simpl.
    rewrite decide_True by done. exists [ev]. rewrite app_nil_r, (assoc_L (++)). by split_and!.
  - exists s'. split; [done|]. apply queue_step_same; [done..|]. unfold offered. simpl. by rewrite decide_False.
Qed.

(** The first event is received. *)
Lemma stream_received w w' id ev rest s :
  w_nextSubscriberID w' = w_nextSubscriberID w -> w_subscribers w !! id = Some s -> sub_events s = ev :: rest ->
  w_subscribers w' = <[id := mkSubscriber (sub_mountIDs s) rest]> (w_subscribers w) ->
  w_history w' = w_history w ++ [FxReceive id ev] -> stream_move w w'.
Proof.
  intros Hn Hid He Hs Hh. eapply stream_goes_on; [done..|]. intros id' s' Hx. rewrite Hs in Hx.
  apply lookup_insert_Some in Hx as [[<- <-]|[Hne Hx]].
  - exists s. split; [done|]. split; [done|]. unfold entered. rewrite Hh, received_app, He. unfold received at 2. simpl.
    rewrite decide_True by done. exists []. rewrite app_nil_r, <- (assoc_L (++)). by split_and!.
  - exists s'. split; [done|]. apply queue_step_same; [done| |done]. unfold received. simpl. by rewrite decide_False.
Qed.

(** ** Every action of every goroutine *)

Fixpoint moves {A} (p : prog A) : Prop :=
  match p with
  | Ret _ => True
  | Act f k => (forall e w x w', f e w = Next x w' -> stream_move w w') /\ forall x, moves (k x)
  end.

Lemma moves_ret {A} (a : A) : moves (mret a).
Proof. done. Qed.

Lemma moves_bind {A B} (p : prog A) (k : A -> prog B) : moves p -> (forall a, moves (k a)) -> moves (p ≫= k).
Proof. induction p as [a|X f g IH]; intros Hp Hk; [apply Hk|]. destruct Hp as [Hf Hg]. split; [done|]. intros x. by apply IH. Qed.

(** An action that leaves the subscribers alone and records at most one
    effect. *)
Lemma moves_act {A} (f : action A) :
  (forall e w x w', f e w = Next x w' ->
     w_nextSubscriberID w' = w_nextSubscriberID w /\ w_subscribers w' = w_subscribers w /\
     (w_history w' = w_history w \/ exists y, w_history w' = w_history w ++ [y] /\ plain y = true)) -> moves (act f).
Proof.
  intros Hf. split; [|done]. intros e w x w' Hx. destruct (Hf e w x w' Hx) as (Hn & Hs & [Hh|(y & Hh & Hy)]).
  - apply (stream_quiet _ _ []); [done..|by rewrite app_nil_r|done].
  - apply (stream_quiet _ _ [y]); [done..|]. by constructor.
Qed.

Create HintDb moves discriminated.

(** Solves [moves] for an action by looking at its cases. *)
Ltac quiet :=
  apply moves_act; intros ?e w ?x ?w' ?Hx; destruct w; cbn in *; repeat case_match; simplify_eq;
  (split_and!; [reflexivity|reflexivity|first [left; reflexivity|right; eexists; split; [reflexivity|try done]]]).

Lemma moves_section {A} e (f : env -> managedMount -> A * managedMount * option chan) : moves (section e f).
Proof.
  apply moves_act. intros en w x w' Hx. assert (w_history w' = w_history w) as Hh by (by eapply section_history).
  split_and!; [..|by left]; clear Hh; cbv zeta in Hx; repeat case_match; simplify_eq; by destruct w.
Qed.

Lemma moves_locked {A} e (f : env -> managedMount -> A * managedMount) : moves (locked e f).
Proof. apply moves_section. Qed.
Lemma moves_reading {A} e (f : managedMount -> A) : moves (reading e f).
Proof. apply moves_section. Qed.
Lemma moves_asks {A} (f : env -> A) : moves (asks f).
Proof. quiet. Qed.
Lemma moves_gets {A} (f : World -> A) : moves (gets f).
Proof. apply moves_act. intros e w x w' [= <- <-]. split_and!; [done..|by left]. Qed.
Lemma moves_operation_Lock e : moves (operation_Lock e).
Proof. quiet. Qed.
Lemma moves_operation_Unlock e : moves (operation_Unlock e).
Proof. quiet. Qed.
Lemma moves_go t : moves (go t).
Proof. quiet. Qed.
Lemma moves_AfterFunc t : moves (AfterFunc t).
Proof. quiet. Qed.
Lemma moves_Timer_Stop t : moves (Timer_Stop t).
Proof. quiet. Qed.
Lemma moves_system_call d : (forall ok, plain (d ok) = true) -> moves (system_call d).
Proof. intros Hd. apply moves_act. intros e w x w' [= <- <-]. destruct w. split_and!; [done..|]. right. eauto. Qed.
Lemma moves_command_Start id cmd : moves (command_Start id cmd).
Proof. quiet. Qed.
Lemma moves_with_metrics f : moves (with_metrics f).
Proof. quiet. Qed.
Lemma moves_registered_entries : moves registered_entries.
Proof. quiet. Qed.
Lemma moves_Signal p : moves (Process_Signal p).
Proof. quiet. Qed.
Lemma moves_Kill p : moves (Process_Kill p).
Proof. quiet. Qed.
Lemma moves_receive c : moves (receive c).
Proof. quiet. Qed.
Lemma moves_replying r : moves (replying r).
Proof. quiet. Qed.

Section Database.
Context {errs : ErrorLib} {codec : RecordCodec}.

Lemma moves_Create ctx r : moves (repository_Create ctx r).
Proof. quiet. Qed.
Lemma moves_Update ctx r : moves (repository_Update ctx r).
Proof. quiet. Qed.
Lemma moves_Delete ctx id : moves (repository_Delete ctx id).
Proof. quiet. Qed.
Lemma moves_List ctx : moves (repository_List ctx).
Proof. apply moves_act. intros e w x w' [= <- <-]. split_and!; [done..|by left]. Qed.
End Database.

#[export] Hint Resolve moves_section moves_locked moves_reading moves_asks moves_gets moves_operation_Lock moves_operation_Unlock
  moves_go moves_AfterFunc moves_Timer_Stop moves_command_Start moves_with_metrics moves_registered_entries moves_Signal moves_Kill
  moves_receive moves_replying moves_Create moves_Update moves_Delete moves_List moves_ret : moves.
#[export] Hint Extern 0 (moves (system_call _)) => apply moves_system_call; intros; reflexivity : moves.
#[export] Hint Extern 0 (moves (Ret _)) => exact I : moves.

(** The constant a term begins with. *)
Ltac head_of t := match t with ?f _ => head_of f | _ => t end.

(** Walks through a program. *)
Ltac walk := repeat first
  [ solve [auto with moves]
  | apply moves_bind; [|intros ?]
  | case_match ].

(** *** Subscriptions *)

Lemma moves_publish t info : moves (publishMountEvent t info).
Proof.
  destruct info as [i|]; [|done]. split; [|done]. intros e w x w' Hx. destruct (w_eventMutex w); [done|]. injection Hx as _ <-.
  apply (stream_published _ _ (mkMountEvent t i)); by destruct w.
Qed.

Lemma moves_send_snapshot id info : moves (send_snapshot id info).
Proof.
  split; [|done]. intros e w x w' Hx. destruct (w_subscribers w !! id) as [s|] eqn:Es; [|done].
  destruct (negb _); [injection Hx as _ <-; by apply (stream_quiet _ _ []); rewrite ?app_nil_r|].
  case_bool_decide; [|done]. injection Hx as _ <-. eapply (stream_snapshot w _ id); [|exact Es|..]; by destruct w.
Qed.

Lemma moves_new_subscriber ids : moves (new_subscriber ids).
Proof. split; [|done]. intros e w x w' [= _ <-]. apply (stream_opens _ _ ids); by destruct w. Qed.

Lemma moves_cancel id : moves (cancel_subscription id).
Proof.
  split; [|done]. intros e w x w' Hx. destruct (w_eventMutex w); [done|]. injection Hx as _ <-.
  apply (stream_cancelled _ _ id); by destruct w.
Qed.

Lemma moves_watch_select ctx id : moves (watch_select ctx id).
Proof.
  split; [|done]. intros e w x w' Hx. assert (stream_move w w) as Hsame by (by apply (stream_quiet _ _ []); rewrite ?app_nil_r).
  destruct (env_case e); [..|by destruct (ctx_Err ctx e); simplify_eq];
    (destruct (w_subscribers w !! id) as [s|] eqn:Es; [|by simplify_eq]; destruct (sub_events s) as [|ev rest] eqn:Ee; [done|];
     injection Hx as _ <-; eapply (stream_received w _ id ev rest s); [|exact Es|exact Ee|..]; by destruct w).
Qed.

Lemma moves_event_Lock : moves event_Lock.
Proof. quiet. Qed.
Lemma moves_event_Unlock : moves event_Unlock.
Proof. quiet. Qed.

#[local] Hint Resolve moves_publish moves_send_snapshot moves_new_subscriber moves_cancel moves_watch_select moves_event_Lock
  moves_event_Unlock : moves.

Lemma moves_snapshots l : moves (snapshots l).
Proof. induction l as [|e l IH]; cbn [snapshots]; unfold snapshot; walk. Qed.
#[local] Hint Resolve moves_snapshots : moves.

Lemma moves_send_snapshots id l : moves (send_snapshots id l).
Proof. induction l as [|e l IH]; cbn [send_snapshots]; walk. Qed.
#[local] Hint Resolve moves_send_snapshots : moves.

Lemma moves_WatchMountEvents rounds ctx request : moves (WatchMountEvents rounds ctx request).
Proof.
  assert (forall id, moves (watch_loop rounds ctx id)) as Hloop.
  { intros id. induction rounds as [|n IH]; cbn [watch_loop]; [by split|]. unfold stream_Send. walk. }
  unfold WatchMountEvents, SubscribeMountEvents, snapshotMounts. walk.
Qed.

(** *** The manager *)

Section Walk.
Variable daemon : Config.
Context {url : UrlLib} {errs : ErrorLib} {codec : RecordCodec} {irods : IrodsfsLib}.

(** The same, through the definitions of the manager as well. *)
Local Ltac walks := repeat first
  [ solve [auto with moves]
  | solve [quiet]
  | apply moves_bind; [|intros ?]
  | progress cbv zeta
  | case_match
  | progress match goal with |- moves ?p => let h := head_of p in unfold h end ].

Lemma moves_makeMountCommand config id root log : moves (makeMountCommand daemon config id root log).
Proof. unfold makeMountCommand. walks. Qed.
#[local] Hint Resolve moves_makeMountCommand : moves.
Lemma moves_unmountByClientType ctx client path : moves (unmountByClientType daemon ctx client path).
Proof. unfold unmountByClientType. walks. Qed.
#[local] Hint Resolve moves_unmountByClientType : moves.
Lemma moves_unmountClient ctx e : moves (unmountClient daemon ctx e).
Proof. unfold unmountClient. walks. Qed.
#[local] Hint Resolve moves_unmountClient : moves.
Lemma moves_persistBestEffort e : moves (persistBestEffort e).
Proof. unfold persistBestEffort. walks. Qed.
#[local] Hint Resolve moves_persistBestEffort : moves.
Lemma moves_publish_updated e : moves (publish_updated e).
Proof. unfold publish_updated. walks. Qed.
#[local] Hint Resolve moves_publish_updated : moves.
Lemma moves_cancelRetryTimer e : moves (cancelRetryTimer e).
Proof. unfold cancelRetryTimer. walks. Qed.
#[local] Hint Resolve moves_cancelRetryTimer : moves.
Lemma moves_schedule_retry e t : moves (schedule_retry e t).
Proof. unfold schedule_retry. walks. Qed.
#[local] Hint Resolve moves_schedule_retry : moves.
Lemma moves_recordMountFailure e g code message details : moves (recordMountFailure daemon e g code message details).
Proof. unfold recordMountFailure. walks. Qed.
#[local] Hint Resolve moves_recordMountFailure : moves.
Lemma moves_recordTerminalMountFailure e g code message : moves (recordTerminalMountFailure e g code message).
Proof. unfold recordTerminalMountFailure. walks. Qed.
#[local] Hint Resolve moves_recordTerminalMountFailure : moves.
Lemma moves_finishMountStartFailure e g code message : moves (finishMountStartFailure daemon e g code message).
Proof. unfold finishMountStartFailure. walks. Qed.
#[local] Hint Resolve moves_finishMountStartFailure : moves.
Lemma moves_failMountBeforeStart e g root : moves (failMountBeforeStart daemon e g root).
Proof. unfold failMountBeforeStart. walks. Qed.
#[local] Hint Resolve moves_failMountBeforeStart : moves.
Lemma moves_start_failure e g code err ret : moves (start_failure daemon e g code err ret).
Proof. unfold start_failure. walks. Qed.
#[local] Hint Resolve moves_start_failure : moves.
Lemma moves_launch e g root deadline log : moves (launch daemon e g root deadline log).
Proof. unfold launch. walks. Qed.
#[local] Hint Resolve moves_launch : moves.
Lemma moves_startMount e g root deadline : moves (startMount daemon e g root deadline).
Proof. unfold startMount. walks. Qed.
#[local] Hint Resolve moves_startMount : moves.
Lemma moves_mount_registered ctx e id path deadline : moves (mount_registered daemon ctx e id path deadline).
Proof. unfold mount_registered. walks. Qed.
#[local] Hint Resolve moves_mount_registered : moves.
Lemma moves_Mount ctx request : moves (Mount daemon ctx request).
Proof. unfold Mount. walks. Qed.
#[local] Hint Resolve moves_Mount : moves.
Lemma moves_recordUnmountFailure e g code message : moves (recordUnmountFailure daemon e g code message).
Proof. unfold recordUnmountFailure. walks. Qed.
#[local] Hint Resolve moves_recordUnmountFailure : moves.
Lemma moves_unmount_failure e g code err : moves (unmount_failure daemon e g code err).
Proof. unfold unmount_failure. walks. Qed.
#[local] Hint Resolve moves_unmount_failure : moves.
Lemma moves_await_exit ctx cmd c : moves (await_exit ctx cmd c).
Proof. unfold await_exit. walks. Qed.
#[local] Hint Resolve moves_await_exit : moves.
Lemma moves_close_log log : moves (close_log log).
Proof. unfold close_log. walks. Qed.
#[local] Hint Resolve moves_close_log : moves.
Lemma moves_finish_unmount ctx e g : moves (finish_unmount daemon ctx e g).
Proof. unfold finish_unmount. walks. Qed.
#[local] Hint Resolve moves_finish_unmount : moves.
Lemma moves_performUnmountAttempt ctx e g : moves (performUnmountAttempt daemon ctx e g).
Proof. unfold performUnmountAttempt. walks. Qed.
#[local] Hint Resolve moves_performUnmountAttempt : moves.
Lemma moves_Unmount ctx request : moves (Unmount daemon ctx request).
Proof. unfold Unmount. walks. Qed.
#[local] Hint Resolve moves_Unmount : moves.
Lemma moves_retryMount e g : moves (retryMount daemon e g).
Proof. unfold retryMount. walks. Qed.
#[local] Hint Resolve moves_retryMount : moves.
Lemma moves_retryUnmount e g : moves (retryUnmount daemon e g).
Proof. unfold retryUnmount. walks. Qed.
#[local] Hint Resolve moves_retryUnmount : moves.
Lemma moves_waitForProcess e g cmd c : moves (waitForProcess daemon e g cmd c).
Proof. unfold waitForProcess. walks. Qed.
#[local] Hint Resolve moves_waitForProcess : moves.
Lemma moves_handleMountTimeout e g : moves (handleMountTimeout daemon e g).
Proof. unfold handleMountTimeout. walks. Qed.
#[local] Hint Resolve moves_handleMountTimeout : moves.
Lemma moves_check_mounted e g : moves (check_mounted e g).
Proof. unfold check_mounted. walks. Qed.
#[local] Hint Resolve moves_check_mounted : moves.
Lemma moves_waitForMount e g deadline c : moves (waitForMount daemon e g deadline c).
Proof. unfold waitForMount. walks. Qed.
#[local] Hint Resolve moves_waitForMount : moves.
Lemma moves_waitForMount_loop e g c : moves (waitForMount_loop daemon e g c).
Proof. unfold waitForMount_loop. walks. Qed.
#[local] Hint Resolve moves_waitForMount_loop : moves.
Lemma moves_GetMount ctx id : moves (GetMount ctx id).
Proof. unfold GetMount. walks. Qed.
#[local] Hint Resolve moves_GetMount : moves.
Lemma moves_ListMounts ctx request : moves (ListMounts ctx request).
Proof. unfold ListMounts. walks. Qed.
#[local] Hint Resolve moves_ListMounts : moves.
Lemma moves_Ready ctx : moves (Ready daemon ctx).
Proof. unfold Ready. walks. Qed.
#[local] Hint Resolve moves_Ready : moves.
Lemma moves_remount ctx info : moves (remount daemon ctx info).
Proof. unfold remount. walks. Qed.
#[local] Hint Resolve moves_remount : moves.
Lemma moves_reconcileTombstone ctx info mounted : moves (reconcileTombstone daemon ctx info mounted).
Proof. unfold reconcileTombstone. walks. Qed.
#[local] Hint Resolve moves_reconcileTombstone : moves.
Lemma moves_reconcileRecord ctx r : moves (reconcileRecord daemon ctx r).
Proof. unfold reconcileRecord. walks. Qed.
#[local] Hint Resolve moves_reconcileRecord : moves.
Lemma moves_shutdownEntry ctx e : moves (shutdownEntry daemon ctx e).
Proof. unfold shutdownEntry. walks. Qed.
#[local] Hint Resolve moves_shutdownEntry : moves.

Lemma moves_reconcile_listed ctx keep : moves (reconcile_listed daemon ctx keep).
Proof.
  assert (forall l, moves (reconcile_all daemon ctx l)) as Hall by (induction l; cbn [reconcile_all]; walks). unfold reconcile_listed. walks.
Qed.

Lemma moves_Shutdown ctx : moves (Shutdown ctx).
Proof. assert (forall l, moves (go_all l)) as Hall by (induction l; cbn [go_all]; walks). unfold Shutdown. walks. Qed.

Lemma moves_body t : moves (body daemon t).
Proof.
  pose proof moves_reconcile_listed. pose proof moves_Shutdown. pose proof moves_WatchMountEvents.
  destruct t; cbn [body]; unfold Reconcile, ReconcileTombstones, reply_mount; walks.
Qed.
End Walk.

(** ** Runs *)

Section Runs.
Variable daemon : Config.
Context {url : UrlLib} {errs : ErrorLib} {codec : RecordCodec} {irods : IrodsfsLib}.

(** The goroutines of a system move streams, and its subscriptions have the
    numbers 1 to [n] at most. *)
Record numbered (n : Z) (s : system) : Prop := {
  num_threads : Forall moves (sys_threads s);
  num_next : 0 <= w_nextSubscriberID (sys_world s) <= n;
  num_subscribers : forall id sub, w_subscribers (sys_world s) !! id = Some sub -> id <= w_nextSubscriberID (sys_world s)
}.

Lemma initial_numbered db metrics : numbered 0 (initial_system db metrics).
Proof. split; simpl; [constructor|lia|]. intros id sub Hs. by rewrite lookup_empty in Hs. Qed.

(** A step of the scheduler is a move of the streams. *)
Lemma step_moves n s c s' :
  numbered n s -> sys_step (body daemon) s c = Stepped s' ->
  stream_move (sys_world s) (sys_world s') /\ Forall moves (sys_threads s').
Proof.
  intros [Ht _ _] Hs. destruct s as [w threads]. simpl in *.
  assert (forall w', w_nextSubscriberID w' = w_nextSubscriberID w -> w_subscribers w' = w_subscribers w -> w_history w' = w_history w ->
    stream_move w w') as Hquiet by (intros w' ? ? ?; by apply (stream_quiet _ _ []); rewrite ?app_nil_r).
  assert (forall t, Forall moves (threads ++ [body daemon t])) as Hnew
    by (intros t; apply Forall_app; split; [done|]; constructor; [apply moves_body|constructor]).
  destruct c as [i e| |i|t]; simpl in Hs.
  - destruct (threads !! i) as [[a|X f k]|] eqn:Ei; [done| |done]. destruct (f e w) as [| |x w'] eqn:Ef; [done..|]. injection Hs as <-.
    assert (moves (Act f k)) as [Hf Hk] by (rewrite Forall_forall in Ht; by eapply Ht, list_elem_of_lookup_2).
    split; [by eapply Hf|]. by apply Forall_insert.
  - destruct (w_ready w); [done|]. injection Hs as <-. split; [apply Hquiet; by destruct w|apply Hnew].
  - destruct (w_timers w !! i) as [[[] g]|]; [|done..]. injection Hs as <-. split; [apply Hquiet; by destruct w|apply Hnew].
  - injection Hs as <-. split; [by apply Hquiet|apply Hnew].
Qed.

Lemma step_numbered n s c s' :
  0 <= n < two64 - 1 -> numbered n s -> sys_step (body daemon) s c = Stepped s' ->
  numbered (n + 1) s' /\ exists d, w_history (sys_world s') = w_history (sys_world s) ++ d /\
    w_nextSubscriberID (sys_world s) <= w_nextSubscriberID (sys_world s') /\
    forall id sub', w_subscribers (sys_world s') !! id = Some sub' -> id <= w_nextSubscriberID (sys_world s) ->
      exists sub, w_subscribers (sys_world s) !! id = Some sub /\ queue_step id (sys_world s) (sys_world s') d sub sub'.
Proof.
  intros Hn Hs Hstep. destruct (step_moves n s c s' Hs Hstep) as [Hm Ht]. destruct Hs as [_ Hnext Hsubs].
  destruct Hm as [ids E1 E2 E3|d E1 E2 E3].
  - rewrite wrap_u64_id in E1, E2 by lia. split.
    + split; [done|lia|]. intros id sub. rewrite E1, E2. intros [[<- _]|[_ Hx%Hsubs]]%lookup_insert_Some; lia.
    + exists []. rewrite E1, E2, E3, app_nil_r. split_and!; [done|lia|].
      intros id sub' [[<- _]|[_ Hx]]%lookup_insert_Some Hle; [lia|]. exists sub'. split; [done|].
      apply queue_step_same; [by rewrite app_nil_r|done..].
  - split.
    + split; [done|lia|]. intros id sub' Hx. rewrite E1. destruct (E3 id sub' Hx) as (sub & Hx' & _). by eapply Hsubs.
    + exists d. rewrite E1. split_and!; [done|done|]. intros id sub' Hx _. by apply E3.
Qed.

Lemma run_delivers cs : forall n s s',
  0 <= n -> n + Z.of_nat (length cs) <= two64 - 1 -> numbered n s -> run (body daemon) s cs = Stepped s' ->
  numbered (n + Z.of_nat (length cs)) s' /\ exists d, w_history (sys_world s') = w_history (sys_world s) ++ d /\
    w_nextSubscriberID (sys_world s) <= w_nextSubscriberID (sys_world s') /\
    forall id sub', w_subscribers (sys_world s') !! id = Some sub' -> id <= w_nextSubscriberID (sys_world s) ->
      exists sub, w_subscribers (sys_world s) !! id = Some sub /\ queue_step id (sys_world s) (sys_world s') d sub sub'.
Proof.
  induction cs as [|c cs IH]; intros n s s' Hn Hlim Hs Hrun; cbn [length run] in *.
  - injection Hrun as <-. rewrite Z.add_0_r. split; [done|]. exists []. rewrite app_nil_r. split_and!; [done..|].
    intros id sub Hx _. exists sub. split; [done|]. apply queue_step_same; [by rewrite app_nil_r|done..].
  - destruct (sys_step (body daemon) s c) as [| |s1] eqn:Ec; [done..|].
    destruct (step_numbered n s c s1 ltac:(lia) Hs Ec) as (Hs1 & d1 & H1 & N1 & Q1).
    destruct (IH (n + 1) s1 s' ltac:(lia) ltac:(lia) Hs1 Hrun) as (Hs' & d2 & H2 & N2 & Q2).
    split; [by replace (n + Z.of_nat (S (length cs))) with (n + 1 + Z.of_nat (length cs)) by lia|].
    exists (d1 ++ d2). rewrite H2, H1, (assoc_L (++)). split_and!; [done|lia|]. intros id sub' Hx Hle.
    destruct (Q2 id sub' Hx ltac:(lia)) as (sub1 & Hx1 & Hq2). destruct (Q1 id sub1 Hx1 Hle) as (sub & Hx0 & Hq1).
    exists sub. split; [done|]. by eapply queue_step_trans.
Qed.

(** C11: in every interleaving of the daemon, from any moment to any later
    one, what a subscriber has received followed by what is in its queue only
    grows at its end: by events that were offered to it in between
    (published ones that its filter lets through, and its snapshots), in
    their order and each once; and if they fit into the buffer beside what
    was in it, by all of them.  No run makes the numbers of subscriptions
    clash before 2^64-1 steps. *)
Theorem subscribers_miss_nothing db metrics cs1 cs2 s1 s2 id sub1 sub2 :
  Z.of_nat (length cs1) + Z.of_nat (length cs2) <= two64 - 1 ->
  run (body daemon) (initial_system db metrics) cs1 = Stepped s1 -> run (body daemon) s1 cs2 = Stepped s2 ->
  w_subscribers (sys_world s1) !! id = Some sub1 -> w_subscribers (sys_world s2) !! id = Some sub2 ->
  exists d l, w_history (sys_world s2) = w_history (sys_world s1) ++ d /\
    received id (w_history (sys_world s2)) ++ sub_events sub2 =
      received id (w_history (sys_world s1)) ++ sub_events sub1 ++ l /\
    l `sublist_of` offered id (sub_mountIDs sub1) d /\
    ((length (sub_events sub1) + length (offered id (sub_mountIDs sub1) d) <= subscriber_buffer)%nat ->
     l = offered id (sub_mountIDs sub1) d).
Proof.
  intros Hlim Hr1 Hr2 Hx1 Hx2.
  destruct (run_delivers cs1 0 _ s1 ltac:(lia) ltac:(lia) (initial_numbered db metrics) Hr1) as (Hs1 & _).
  destruct (run_delivers cs2 (0 + Z.of_nat (length cs1)) s1 s2 ltac:(lia) ltac:(lia) Hs1 Hr2) as (_ & d & Hh & _ & Hq).
  destruct (Hq id sub2 Hx2 (num_subscribers _ _ Hs1 id sub1 Hx1)) as (sub & Hx & [_ (l & He & Hl & Hall)]).
  assert (sub = sub1) as -> by congruence. exists d, l. split_and!; [done| |done|done].
  unfold entered in He. by rewrite He, (assoc_L (++)).
Qed.
End Runs.

(** ** A concrete run *)

(** A client watches and another one mounts; then the watcher gets the first
    event while the mount goes on. *)
Definition watcher_comes : list choice :=
  play example_body [Call (TWatch 10 RequestContext None) (calm 10 []); Call mount_home (calm 1000 [])] example_start.

Definition after_watcher : system :=
  match run example_body example_start watcher_comes with Stepped s => s | _ => example_start end.

Definition mount_goes_on : list choice :=
  play example_body [Resume 0 1 (calm 1500 []); Spawned (calm 2000 [home]); Spawned (calm 3000 [home])] after_watcher.

(** What the subscriber has received and what waits for it. *)
Definition seen (r : step_result) : option (nat * nat) :=
  match r with
  | Stepped s => (fun sub => (length (received 1 (w_history (sys_world s))), length (sub_events sub))) <$> w_subscribers (sys_world s) !! 1
  | _ => None
  end.

Lemma after_watcher_run : run example_body example_start watcher_comes = Stepped after_watcher.
Proof.
  assert (seen (run example_body example_start watcher_comes) = Some (0%nat, 1%nat)) as H by by vm_compute.
  unfold after_watcher. by destruct (run example_body example_start watcher_comes).
Qed.

(** The subscriber of a system, and of the result of a run. *)
Lemma seen_stepped s n m : seen (Stepped s) = Some (n, m) -> exists sub, w_subscribers (sys_world s) !! 1 = Some sub.
Proof.
  unfold seen. destruct (w_subscribers (sys_world s) !! 1) as [sub|] eqn:E; [|done]. intros _. by exists sub.
Qed.

Lemma seen_inv r n m : seen r = Some (n, m) ->
  exists s sub, r = Stepped s /\ w_subscribers (sys_world s) !! 1 = Some sub.
Proof.
  destruct r as [| |s]; [done..|]. intros [sub Hx]%seen_stepped. by exists s, sub.
Qed.

Lemma short_run : (length watcher_comes + length mount_goes_on <=? 1000)%nat = true.
Proof. by vm_compute. Qed.

Lemma subscribers_miss_nothing_witness :
  seen (Stepped after_watcher) = Some (0%nat, 1%nat) /\
  seen (run example_body after_watcher mount_goes_on) = Some (1%nat, 1%nat) /\
  exists s2 sub1 sub2 d l,
    run example_body after_watcher mount_goes_on = Stepped s2 /\
    w_subscribers (sys_world after_watcher) !! 1 = Some sub1 /\ w_subscribers (sys_world s2) !! 1 = Some sub2 /\
    w_history (sys_world s2) = w_history (sys_world after_watcher) ++ d /\
    received 1 (w_history (sys_world s2)) ++ sub_events sub2 =
      received 1 (w_history (sys_world after_watcher)) ++ sub_events sub1 ++ l /\
    l `sublist_of` offered 1 (sub_mountIDs sub1) d.
Proof.
  assert (seen (Stepped after_watcher) = Some (0%nat, 1%nat)) as H1 by by vm_compute.
  assert (seen (run example_body after_watcher mount_goes_on) = Some (1%nat, 1%nat)) as H2 by by vm_compute.
  destruct (seen_stepped _ _ _ H1) as (sub1 & Hx1).
  destruct (seen_inv _ _ _ H2) as (s2 & sub2 & Hr2 & Hx2).
  pose proof short_run as Hlen. apply Nat.leb_le in Hlen.
  assert (Z.of_nat (length watcher_comes) + Z.of_nat (length mount_goes_on) <= two64 - 1) as Hlim
    by (revert Hlen; generalize (length watcher_comes) (length mount_goes_on); intros; unfold two64; lia).
  destruct (@subscribers_miss_nothing example_config plain_urls message_errors plain_codec plain_irodsfs ∅ None
    watcher_comes mount_goes_on after_watcher s2 1 sub1 sub2 Hlim after_watcher_run Hr2 Hx1 Hx2) as (d & l & Hh & He & Hl & _).
  split; [exact H1|]. split; [exact H2|]. exists s2, sub1, sub2, d, l. exact (conj Hr2 (conj Hx1 (conj Hx2 (conj Hh (conj He Hl))))).
Defined.
