(* ===== verification/Server.v ===== *)
(** * The API server (service/server.go)

    MountServer in front of the manager.  What the server uses of the
    manager is Go's interface mountOperations, the class [mountOperations];
    its laws are [mount_contract].  gRPC itself is not part of the
    repository: an error is a status with a code and a message or a plain
    error of the daemon, and a response is the message of the generated
    code.  Audit lines are returned beside the response. *)

From S2P Require Import Prelude GoStrings GoErrors Grpc Api Redact Config Policy IrodsfsConfig Repository Runtime.
From S2P Require Import Traces Command Manager.

(** ** Errors as statuses *)

Section Status.
Context `{ErrorLib} `{GrpcLib}.

Definition mountStatusError (err : option rpcerror) (invalidWhenUnknown : bool) : option rpcerror :=
  match err with
  | None => None
  | Some x =>
      if negb (bool_decide (status_Code err = codes_Unknown)) then err
      else
        let msg := rpc_Error x in
        Some (
          if rpc_Is x context_Canceled then RStatus codes_Canceled msg
          else if rpc_Is x context_DeadlineExceeded || rpc_Is x ErrDAVFSLazyUnmount
          then RStatus codes_DeadlineExceeded msg
          else if rpc_Is x ErrMountNotFound then RStatus codes_NotFound msg
          else if rpc_Is x ErrMountIDConflict || rpc_Is x ErrMountPathConflict
               || rpc_Is x store_ErrMountIDConflict || rpc_Is x store_ErrMountPathConflict
          then RStatus codes_AlreadyExists msg
          else if rpc_Is x ErrMountLimitReached then RStatus codes_ResourceExhausted msg
          else if invalidWhenUnknown then RStatus codes_InvalidArgument msg
          else RStatus codes_Internal msg)
  end.
End Status.

(** ** The manager behind the server *)

(** Go's interface mountOperations. *)
Class mountOperations := {
  ops_Mount : context -> option MountRequest -> prog mount_result;
  ops_Unmount : context -> option UnmountRequest -> prog mount_result;
  ops_ListMounts : context -> option ListMountsRequest -> prog (list MountInfo * option goerror);
  ops_GetMount : context -> string -> prog mount_result;
  ops_Ready : context -> prog (option goerror)
}.

(** newMountServer: the server is the manager behind it. *)
Definition newMountServer (manager : option mountOperations) : result goerror mountOperations :=
  match manager with
  | None => Err (ENew "mount manager is required")
  | Some ops => Ok ops
  end.

(** The mount manager of this daemon. *)
#[export] Instance manager_operations (daemon : Config) `{UrlLib} `{ErrorLib} `{RecordCodec} `{IrodsfsLib} : mountOperations := {|
  ops_Mount := Mount daemon;
  ops_Unmount := Unmount daemon;
  ops_ListMounts := ListMounts;
  ops_GetMount := GetMount;
  ops_Ready := Ready daemon
|}.

(** ** Requests and their audit trail *)

(** A call: its context, the address a REST handler attached to it and the
    peer address of gRPC. *)
Record call : Type := mkCall {
  call_ctx : context;
  call_source : option string;
  call_peer : option string
}.

Definition withSourceAddress (c : call) (address : string) : call :=
  mkCall (call_ctx c) (Some address) (call_peer c).

Definition sourceAddressFromContext (c : call) : string :=
  match call_source c, call_peer c with
  | Some address, peer => if String.eqb address EmptyString then default EmptyString peer else address
  | None, peer => default EmptyString peer
  end.

Record auditEntry : Type := mkAudit {
  audit_action : string;
  audit_mount_id : string;
  audit_mount_path : string;
  audit_source : string;
  audit_error : option goerror
}.

Definition auditMountEvent (c : call) (action mountID mountPath : string) (err : option goerror) : auditEntry :=
  mkAudit action mountID mountPath (sourceAddressFromContext c) err.

(** GetConfig().GetMountPath() of a request, and of a possibly nil mount. *)
Definition request_path (request : option MountRequest) : string :=
  match request ≫= MountRequest_Config with
  | Some config => MountConfig_MountPath config
  | None => EmptyString
  end.
Definition mount_path (mount : option MountInfo) : string := from_option GetMountPath EmptyString mount.
Definition request_id (request : option MountRequest) : string := from_option GetMountId EmptyString request.

Section Server.
Context `{ErrorLib} `{GrpcLib} {ops : mountOperations}.

(** The response of a handler that may fail. *)
Definition response_of {A} (a : A) (err : option rpcerror) : result rpcerror A :=
  match err with
  | Some e => Err e
  | None => Ok a
  end.

Definition server_Mount (c : call) (request : option MountRequest)
  : prog (list auditEntry * result rpcerror (option MountInfo)) :=
  r ← ops_Mount (call_ctx c) request;
  let '(mount, err) := r in
  let mountID := match mount with Some m => MountInfo_MountId m | None => request_id request end in
  let audit := auditMountEvent c "mount" mountID (request_path request) err in
  mret ([audit],
    response_of mount
      (mountStatusError (RPlain <$> err) (match mount with None => true | Some _ => false end))).

Definition server_Unmount (c : call) (request : option UnmountRequest)
  : prog (list auditEntry * result rpcerror (option MountInfo)) :=
  match request with
  | None => mret ([], Err (RStatus codes_InvalidArgument "mount ID is required"))
  | Some r =>
      if String.eqb (UnmountRequest_MountId r) EmptyString
      then mret ([], Err (RStatus codes_InvalidArgument "mount ID is required"))
      else
        x ← ops_Unmount (call_ctx c) request;
        let '(mount, err) := x in
        let audit := auditMountEvent c "unmount" (UnmountRequest_MountId r) (mount_path mount) err in
        mret ([audit], response_of mount (mountStatusError (RPlain <$> err) false))
  end.

Definition server_ListMounts (c : call) (request : option ListMountsRequest) : prog (result rpcerror (list MountInfo)) :=
  x ← ops_ListMounts (call_ctx c) request;
  let '(mounts, err) := x in
  mret (response_of mounts (mountStatusError (RPlain <$> err) false)).

Definition server_Ready (c : call) : prog (result rpcerror unit) :=
  err ← ops_Ready (call_ctx c);
  match err with
  | Some _ => mret (Err (RStatus codes_Unavailable "irodsfsd is not ready"))
  | None => mret (Ok tt)
  end.

(** [None] is a nil request. *)
Definition server_GetMount (c : call) (mountID : option string) : prog (result rpcerror (option MountInfo)) :=
  match mountID with
  | None => mret (Err (RStatus codes_InvalidArgument "mount ID is required"))
  | Some id =>
      if String.eqb id EmptyString then mret (Err (RStatus codes_InvalidArgument "mount ID is required"))
      else
        x ← ops_GetMount (call_ctx c) id;
        let '(mount, err) := x in
        mret (response_of mount (mountStatusError (RPlain <$> err) false))
  end.

End Server.
