(* ===== verification/Rest.v ===== *)
(** * The REST gateway (service/rest.go)

    RESTHandler over the API server.  A request carries the path value the
    router extracted, the query, the body as the client sends it and the
    remote address; a response is a status, the Location header and the
    value that is written as JSON.  protojson, time.Parse and the Unicode
    tables are outside the repository: the class [RestLib]. *)

From S2P Require Import Prelude GoStrings GoErrors Grpc Api Redact Config Policy LogStore Runtime Manager Server.

Definition maxRESTRequestBodySize : Z := 1024 * 1024.
Definition defaultLogTail : Z := 200.
Definition maxLogLimit : Z := 1000.

(** The response messages of the generated code. *)
Inductive message : Type :=
| MountResponse (mount : option MountInfo)
| UnmountResponse (mount : option MountInfo)
| GetMountResponse (mount : option MountInfo)
| ListMountsResponse (mounts : list MountInfo).

(** What the handlers use of the libraries: protojson's Unmarshal of a mount
    request, whether Marshal accepts a response, time.Parse with the layout
    RFC3339 (nanoseconds since the epoch), and strings.ToUpper beyond ASCII. *)
Class RestLib := {
  Unmarshal_MountRequest : string -> result goerror MountRequest;
  Marshal_message : message -> option goerror;
  ParseRFC3339 : string -> option Z;
  unicode_ToUpper : string -> string
}.

(** ** Requests and responses *)

Record http_request : Type := mkHttpRequest {
  req_ctx : context;
  req_RemoteAddr : string;
  req_mountID : string;                     (* PathValue("mountID") *)
  req_query : gmap string (list string);    (* URL.Query() *)
  req_body : string;                        (* the bytes the client sends *)
  req_body_err : option goerror             (* how reading them ends, if not at EOF *)
}.

(** query.Get *)
Definition query_Get (q : gmap string (list string)) (key : string) : string :=
  match q !! key with
  | Some (value :: _) => value
  | _ => EmptyString
  end.

Definition query_values (q : gmap string (list string)) (key : string) : list string := default [] (q !! key).

Inductive payload : Type :=
| PayloadMessage (m : message)
| PayloadError (code message : string)
| PayloadLogs (records : list LogRecord)
| PayloadStatus (status : string) (reason : option string).

Record http_response : Type := mkHttpResponse {
  resp_status : Z;
  resp_Location : option string;
  resp_payload : payload
}.

Section Rest.
Context `{GrpcLib} `{RestLib}.

Definition restCodeName (code : Code) : string :=
  match code with
  | codes_InvalidArgument => "INVALID_ARGUMENT"
  | codes_NotFound => "NOT_FOUND"
  | codes_AlreadyExists => "ALREADY_EXISTS"
  | codes_FailedPrecondition => "FAILED_PRECONDITION"
  | codes_Aborted => "ABORTED"
  | codes_ResourceExhausted => "RESOURCE_EXHAUSTED"
  | codes_Canceled => "CANCELED"
  | codes_DeadlineExceeded => "DEADLINE_EXCEEDED"
  | codes_Unavailable => "UNAVAILABLE"
  | codes_Internal => "INTERNAL"
  | _ => ToUpper (code_String code)
  end.

(** The switch of writeRESTError. *)
Definition rest_status (code : Code) : Z :=
  match code with
  | codes_InvalidArgument => 400
  | codes_NotFound => 404
  | codes_AlreadyExists | codes_FailedPrecondition | codes_Aborted => 409
  | codes_ResourceExhausted => 429
  | codes_Canceled => 408
  | codes_DeadlineExceeded => 504
  | codes_Unavailable => 503
  | _ => 500
  end.

Definition writeRESTError (location : option string) (err : rpcerror) : http_response :=
  let code := status_Code (Some err) in
  mkHttpResponse (rest_status code) location (PayloadError (restCodeName code) (status_Message err)).

Definition writeProtoJSON (location : option string) (statusCode : Z) (m : message) : http_response :=
  match Marshal_message m with
  | Some _ => writeRESTError location (RStatus codes_Internal "failed to encode response")
  | None => mkHttpResponse statusCode location (PayloadMessage m)
  end.

(** ** Decoding *)

(** The ways decodeProtoJSON fails. *)
Inductive decode_error : Type :=
| RequestBodyTooLarge
| DecodeFailed (err : goerror).

Definition errRequestBodyTooLarge : string := "request body exceeds the maximum allowed size".

Definition decode_message (err : decode_error) : string :=
  match err with
  | RequestBodyTooLarge => errRequestBodyTooLarge
  | DecodeFailed err => Error err
  end.

(** http.MaxBytesReader around the body, read to its end. *)
Definition read_limited (request : http_request) : result decode_error string :=
  if maxRESTRequestBodySize <? Z.of_nat (String.length (req_body request)) then Err RequestBodyTooLarge
  else match req_body_err request with
       | Some err => Err (DecodeFailed (EWrap err "failed to read request body"))
       | None => Ok (req_body request)
       end.

Definition decodeProtoJSON (request : http_request) : result decode_error MountRequest :=
  match read_limited request with
  | Err err => Err err
  | Ok data =>
      if String.eqb (TrimSpace data) EmptyString then Err (DecodeFailed (ENew "request body is required"))
      else match Unmarshal_MountRequest data with
           | Err err => Err (DecodeFailed (EWrap err "invalid JSON request"))
           | Ok m => Ok m
           end
  end.

(** api.MountState_name and api.MountState_value as lookups. *)
Definition all_states : list MountState :=
  [MOUNT_STATE_UNSPECIFIED; MOUNT_STATE_PENDING_MOUNT; MOUNT_STATE_MOUNTING; MOUNT_STATE_MOUNTED;
   MOUNT_STATE_PENDING_UNMOUNT; MOUNT_STATE_UNMOUNTING; MOUNT_STATE_RETRY_WAIT; MOUNT_STATE_FAILED].

Definition state_of_number (number : Z) : option MountState :=
  List.find (fun s => MountState_number s =? number) all_states.

Definition state_of_name (name : string) : option MountState :=
  List.find (fun s => String.eqb (MountState_name s) name) all_states.

(** strings.ToUpper *)
Definition strings_ToUpper (s : string) : string :=
  if string_forallb is_ascii s then ToUpper s else unicode_ToUpper s.

Definition parseMountState (value : string) : result goerror MountState :=
  let upperValue := strings_ToUpper value in
  match parse_int (-2147483648) 2147483647 upperValue ≫= state_of_number with
  | Some state => Ok state
  | None =>
      let name := if HasPrefix upperValue "MOUNT_STATE_" then upperValue else "MOUNT_STATE_" +:+ upperValue in
      match state_of_name name with
      | Some state => Ok state
      | None => Err (ENew ("unknown mount state " +:+ Quote value))
      end
  end.

(** The inner loop over the values of the state parameters. *)
Fixpoint parse_states (values : list string) : result goerror (list MountState) :=
  match values with
  | [] => Ok []
  | value :: rest =>
      if String.eqb (TrimSpace value) EmptyString then parse_states rest
      else let? state := parseMountState (TrimSpace value) in
           let? states := parse_states rest in
           Ok (state :: states)
  end.

(** The last value of a parameter that is present. *)
Definition last_value (q : gmap string (list string)) (key : string) : option string :=
  (fun values => default EmptyString (last values)) <$> q !! key.

Definition listMountsRequestFromQuery (q : gmap string (list string)) : result goerror ListMountsRequest :=
  let stateValues := query_values q "state" ++ query_values q "states" in
  let? states := parse_states (mjoin (Split ","%char <$> stateValues)) in
  Ok (mkListMountsRequest states (last_value q "mount_path_prefix") (last_value q "client_user")).

(** time.Time's zero value, in nanoseconds since the epoch. *)
Definition zero_time : Z := -62135596800 * 1000000000.

Definition non_zero_time (t : Z) : option Z := if t =? zero_time then None else Some t.

(** A non-negative number, or the message for what it is not. *)
Definition count_parameter (name value : string) : result goerror Z :=
  match Atoi value with
  | Some n => if n <? 0 then Err (ENew ("invalid " +:+ name +:+ " " +:+ Quote value +:+ ": must be a non-negative integer"))
              else Ok n
  | None => Err (ENew ("invalid " +:+ name +:+ " " +:+ Quote value +:+ ": must be a non-negative integer"))
  end.

Definition logQueryOptionsFromRequest (q : gmap string (list string)) : result goerror QueryOptions :=
  let since := query_Get q "since" in
  let? bound := (if String.eqb since EmptyString then Ok (None, defaultLogTail)
                 else match ParseRFC3339 since with
                      | None => Err (ENew ("invalid since " +:+ Quote since +:+ ": must be RFC3339"))
                      | Some t => Ok (non_zero_time t, 0)
                      end) in
  let tail := query_Get q "tail" in
  let? tail' := (if String.eqb tail EmptyString then Ok (snd bound) else count_parameter "tail" tail) in
  let limit := query_Get q "limit" in
  let? limit' := (if String.eqb limit EmptyString then Ok maxLogLimit
                  else let? n := count_parameter "limit" limit in
                       Ok (if (0 <? n) && (n <? maxLogLimit) then n else maxLogLimit)) in
  Ok (mkQueryOptions (fst bound) tail' limit').

(** ** Handlers *)

Context `{ErrorLib} {ops : mountOperations} `{LogCodec}.
Variable config : Config.

(** A response and the audit lines behind it. *)
Definition handled : Type := list auditEntry * http_response.

Definition plain_call (request : http_request) : call := mkCall (req_ctx request) None None.

Definition rest_mount (request : http_request) : prog handled :=
  match decodeProtoJSON request with
  | Err RequestBodyTooLarge =>
      mret ([], mkHttpResponse 413 None (PayloadError "REQUEST_ENTITY_TOO_LARGE" errRequestBodyTooLarge))
  | Err err => mret ([], writeRESTError None (RStatus codes_InvalidArgument (decode_message err)))
  | Ok mountRequest =>
      r ← server_Mount (withSourceAddress (plain_call request) (req_RemoteAddr request)) (Some mountRequest);
      let '(audit, mounted) := r in
      mret (audit,
        match mounted with
        | Err err => writeRESTError None err
        | Ok mount => writeProtoJSON (Some ("/api/v1/mounts/" +:+ from_option MountInfo_MountId EmptyString mount))
                        202 (MountResponse mount)
        end)
  end.

Definition rest_unmount (request : http_request) : prog handled :=
  r ← server_Unmount (withSourceAddress (plain_call request) (req_RemoteAddr request))
        (Some (mkUnmountRequest (req_mountID request)));
  let '(audit, unmounted) := r in
  mret (audit,
    match unmounted with
    | Err err => writeRESTError None err
    | Ok mount => writeProtoJSON None 202 (UnmountResponse mount)
    end).

(** logstore.Query on the log file, as the environment has it. *)
Definition query_log (mountID : string) (options : QueryOptions) : prog (result goerror (list LogRecord)) :=
  let path := GetMountLogPath config mountID in
  asks (fun e =>
    Query (match ReadFile (env_fs e) path with
           | ReadNotExist => Ok None
           | ReadFailed err => Err err
           | ReadOk data => Ok (Some data)
           end) path options).

Definition rest_logs (request : http_request) : prog handled :=
  got ← server_GetMount (plain_call request) (Some (req_mountID request));
  match got with
  | Err err => mret ([], writeRESTError None err)
  | Ok _ =>
      match logQueryOptionsFromRequest (req_query request) with
      | Err err => mret ([], writeRESTError None (RStatus codes_InvalidArgument (Error err)))
      | Ok options =>
          queried ← query_log (req_mountID request) options;
          mret ([],
            match queried with
            | Err err => writeRESTError None (RStatus codes_Internal (Error err))
            | Ok records => mkHttpResponse 200 None (PayloadLogs records)
            end)
      end
  end.

Definition rest_getMount (request : http_request) : prog handled :=
  got ← server_GetMount (plain_call request) (Some (req_mountID request));
  mret ([],
    match got with
    | Err err => writeRESTError None err
    | Ok mount => writeProtoJSON None 200 (GetMountResponse mount)
    end).

Definition rest_listMounts (request : http_request) : prog handled :=
  match listMountsRequestFromQuery (req_query request) with
  | Err err => mret ([], writeRESTError None (RStatus codes_InvalidArgument (Error err)))
  | Ok listRequest =>
      listed ← server_ListMounts (plain_call request) (Some listRequest);
      mret ([],
        match listed with
        | Err err => writeRESTError None err
        | Ok mounts => writeProtoJSON None 200 (ListMountsResponse mounts)
        end)
  end.

Definition rest_health : prog handled := mret ([], mkHttpResponse 200 None (PayloadStatus "ok" None)).

(** readiness, with a server behind the handler. *)
Definition rest_readiness (request : http_request) : prog handled :=
  ready ← server_Ready (plain_call request);
  mret ([],
    match ready with
    | Err err => mkHttpResponse 503 None (PayloadStatus "not_ready" (Some (rpc_Error err)))
    | Ok _ => mkHttpResponse 200 None (PayloadStatus "ready" None)
    end).

(** ** Routing *)

Inductive handler : Type :=
| HandleMount | HandleListMounts | HandleGetMount | HandleUnmount | HandleLogs | HandleHealth | HandleReadiness.

(** A segment of a pattern of http.ServeMux. *)
Inductive segment : Type :=
| Literal (s : string)
| Wildcard.

Definition RegisterRoutes : list (string * list segment * handler) :=
  let v1 := [Literal "api"; Literal "v1"] in
  [("POST", v1 ++ [Literal "mounts"], HandleMount);
   ("GET", v1 ++ [Literal "mounts"], HandleListMounts);
   ("GET", v1 ++ [Literal "mounts"; Wildcard], HandleGetMount);
   ("DELETE", v1 ++ [Literal "mounts"; Wildcard], HandleUnmount);
   ("GET", v1 ++ [Literal "mounts"; Wildcard; Literal "logs"], HandleLogs);
   ("GET", [Literal "healthz"], HandleHealth);
   ("GET", [Literal "readyz"], HandleReadiness);
   ("GET", v1 ++ [Literal "healthz"], HandleHealth);
   ("GET", v1 ++ [Literal "readyz"], HandleReadiness)].

(** Matching a path against a pattern yields the value of its wildcard (the
    empty string without one); a wildcard matches a non-empty segment. *)
Fixpoint match_segments (pattern : list segment) (path : list string) (value : string) : option string :=
  match pattern, path with
  | [], [] => Some value
  | Literal s :: pattern', t :: path' => if String.eqb s t then match_segments pattern' path' value else None
  | Wildcard :: pattern', t :: path' =>
      if String.eqb t EmptyString then None else match_segments pattern' path' t
  | _, _ => None
  end.

(** A GET pattern also matches HEAD. *)
Definition method_matches (pattern method : string) : bool :=
  String.eqb pattern method || (String.eqb pattern "GET" && String.eqb method "HEAD").

(** The route for a path without an escape or a dot segment: the patterns
    do not overlap, so the first match is the only one; how the mux of the
    service comes to the same result is in Mux.v. *)
Definition route (method path : string) : option (handler * string) :=
  match Split ch_slash path with
  | EmptyString :: segments =>
      match omap (fun r =>
              let '(m, pattern, h) := r in
              if method_matches m method then (fun v => (h, v)) <$> match_segments pattern segments EmptyString else None)
            RegisterRoutes with
      | found :: _ => Some found
      | [] => None
      end
  | _ => None
  end.

Definition handle (h : handler) (request : http_request) : prog handled :=
  match h with
  | HandleMount => rest_mount request
  | HandleListMounts => rest_listMounts request
  | HandleGetMount => rest_getMount request
  | HandleUnmount => rest_unmount request
  | HandleLogs => rest_logs request
  | HandleHealth => rest_health
  | HandleReadiness => rest_readiness request
  end.

End Rest.
