(* ===== verification/RestFacts.v ===== *)
(** * What REST clients may rely on

    The server and its REST gateway are proved against the contract of the
    manager ([mount_contract]), and the manager is proved to honour it.
    Statements are about every trace of a handler: whatever the rest of the
    daemon does between its steps. *)

From Stdlib Require Import Sorting.Sorted.
From S2P Require Import Prelude GoStrings GoPath GoSort GoErrors Grpc Api Redact Config Retry Policy PolicyFacts.
From S2P Require Import IrodsfsConfig Repository PlainCodec LogStore LogStoreFacts Runtime Command Manager.
From S2P Require Import Invariant Rules ManagerSafe Scenario Concurrency Traces ManagerTraces Server Rest.

(** ** Results of programs *)

Section Answers.
Variable ok : World -> Prop.

(** Every value [p] returns satisfies [R]. *)
Definition answers {A} (p : prog A) (R : A -> Prop) : Prop :=
  forall t, always ok (fun _ => True) t p (fun _ a => R a).

Lemma answers_any {A} (p : prog A) : answers p (fun _ => True).
Proof.
  unfold answers. induction p as [a|X f k IH]; intros t; simpl; [done|]. split; [done|]. intros. apply IH.
Qed.

Lemma answers_ret {A} (a : A) (R : A -> Prop) : R a -> answers (mret a) R.
Proof. by intros Ha t. Qed.

Lemma answers_bind {A B} (p : prog A) (k : A -> prog B) (R : A -> Prop) (S : B -> Prop) :
  answers p R -> (forall a, R a -> answers (k a) S) -> answers (p ≫= k) S.
Proof. intros Hp Hk t. apply always_bind. eapply always_mono; [|apply Hp]. intros u a _ Ha. by apply Hk. Qed.

Lemma answers_seq {A B} (p : prog A) (k : A -> prog B) (S : B -> Prop) :
  (forall a, answers (k a) S) -> answers (p ≫= k) S.
Proof. intros Hk. eapply answers_bind; [apply answers_any|]. auto. Qed.

Lemma answers_mono {A} (p : prog A) (R S : A -> Prop) : (forall a, R a -> S a) -> answers p R -> answers p S.
Proof. intros HS Hp t. eapply always_mono; [|apply Hp]. auto. Qed.

Lemma answers_act {A} (f : action A) (R : A -> Prop) :
  (forall e w x w', ok w -> f e w = Next x w' -> R x) -> answers (act f) R.
Proof. intros Hf t. apply always_act; [done|]. eauto. Qed.

Lemma answers_traces {A} (p : prog A) (R : A -> Prop) t a : answers p R -> traces ok p t (Some a) -> R a.
Proof. intros Hp Ht. destruct (always_traces _ _ _ _ _ _ _ (Hp []) Ht) as [_ Ha]. by apply Ha. Qed.

Lemma answers_section {A} e (f : env -> managedMount -> A * managedMount * option chan) (R : A -> Prop) :
  (forall en m, R (f en m).1.1) -> answers (section e f) R.
Proof.
  intros Hf. apply answers_act. intros en w x w' _ Hx. destruct (w_entries w !! e) as [m|]; [|done].
  specialize (Hf en m). destruct (f en m) as [[r m'] c]. cbv zeta in Hx. by repeat case_match; simplify_eq.
Qed.

Lemma answers_locked {A} e (f : env -> managedMount -> A * managedMount) (R : A -> Prop) :
  (forall en m, R (f en m).1) -> answers (locked e f) R.
Proof. intros Hf. by apply answers_section. Qed.
End Answers.

(** ** The contract between manager and server *)

Definition listing_ok (x : list MountInfo * option goerror) : Prop := Forall redacted (fst x).

(** What the server relies on: mounts are handed out redacted, and an answer
    without an error carries a mount. *)
Record mount_contract {ops : mountOperations} : Prop := {
  contract_Mount : forall ok ctx r, answers ok (ops_Mount ctx r) result_ok;
  contract_Unmount : forall ok ctx r, answers ok (ops_Unmount ctx r) result_ok;
  contract_ListMounts : forall ok ctx r, answers ok (ops_ListMounts ctx r) listing_ok;
  contract_GetMount : forall ok ctx id, answers ok (ops_GetMount ctx id) result_ok
}.

Section ManagerContract.
Variable daemon : Config.
Context {url : UrlLib} {errs : ErrorLib} {codec : RecordCodec} {irods : IrodsfsLib}.
Variable ok : World -> Prop.

Local Notation answers := (answers ok).

Lemma answers_snapshot e : answers (snapshot e) redacted.
Proof. apply answers_locked. intros _ m. apply redactMountInfo_redacted. Qed.

(** The attempt was made: the answer carries the mount, redacted. *)
Definition handed (x : mount_result) : Prop := exists i, fst x = Some i /\ redacted i.

Lemma handed_result_ok x : handed x -> result_ok x.
Proof. intros (i & Hi & Hr) j Hj. congruence. Qed.

Lemma answers_handed e err : answers (info ← snapshot e; mret (Some info, err)) handed.
Proof. eapply answers_bind; [apply answers_snapshot|]. intros i Hi. apply answers_ret. by exists i. Qed.

Lemma answers_handed_ok (p : prog mount_result) : answers p handed -> answers p result_ok.
Proof. apply answers_mono, handed_result_ok. Qed.

Lemma answers_refused (err : option goerror) : answers (mret (None, err)) result_ok.
Proof. apply answers_ret. by intros i [=]. Qed.

(** A result that is kept while something else happens. *)
Lemma answers_kept {A B} (p : prog A) (q : A -> prog B) (R : A -> Prop) :
  answers p R -> answers (r ← p; q r;; mret r) R.
Proof.
  intros Hp. eapply answers_bind; [exact Hp|]. intros a Ha. apply answers_seq. intros _. by apply answers_ret.
Qed.

(** Peels a program down to what it returns. *)
Ltac answer := repeat first
  [ apply answers_handed
  | apply answers_kept
  | apply answers_refused
  | progress (auto with results)
  | apply answers_handed_ok; solve [apply answers_handed | auto with results]
  | apply answers_seq; intros ?
  | case_match ].
Create HintDb results discriminated.

Lemma answers_failMountBeforeStart e g root : answers (failMountBeforeStart daemon e g root) handed.
Proof. unfold failMountBeforeStart. answer. Qed.
#[local] Hint Resolve answers_failMountBeforeStart : results.

Lemma answers_start_failure e g code err ret : answers (start_failure daemon e g code err ret) handed.
Proof. unfold start_failure. answer. Qed.
#[local] Hint Resolve answers_start_failure : results.

Lemma answers_launch e g root deadline log : answers (launch daemon e g root deadline log) handed.
Proof. unfold launch. answer. Qed.
#[local] Hint Resolve answers_launch : results.

Lemma answers_startMount e g root deadline : answers (startMount daemon e g root deadline) handed.
Proof. unfold startMount. answer. Qed.
#[local] Hint Resolve answers_startMount : results.

Lemma answers_mount_registered ctx e id path deadline :
  answers (mount_registered daemon ctx e id path deadline) result_ok.
Proof.
  unfold mount_registered. apply answers_seq. intros [conflict|]; [answer|]. apply answers_seq. intros record.
  apply answers_seq. intros [err|]; [|answer]. eapply answers_bind.
  - apply answers_section with (R := redacted). intros en m. apply redactMountInfo_redacted.
  - intros i Hi. apply answers_ret. by intros j [= <-].
Qed.
#[local] Hint Resolve answers_mount_registered : results.

Lemma answers_Mount ctx request : answers (Mount daemon ctx request) result_ok.
Proof.
  apply answers_seq. intros start. apply answers_kept. unfold mount_body. answer.
Qed.

Lemma answers_unmount_failure e g code err : answers (unmount_failure daemon e g code err) handed.
Proof. unfold unmount_failure. answer. Qed.
#[local] Hint Resolve answers_unmount_failure : results.

Lemma answers_finish_unmount ctx e g : answers (finish_unmount daemon ctx e g) handed.
Proof.
  unfold finish_unmount. apply answers_seq. intros [[persistent command] exitDone].
  apply answers_seq. intros _. apply answers_seq. intros [err|]; [answer|].
  apply answers_seq. intros id. apply answers_seq. intros [err|]; [answer|].
  eapply answers_bind.
  - apply answers_locked with (R := fun x => redacted (fst x)). intros en m. apply redactMountInfo_redacted.
  - intros [i log] Hi. repeat (apply answers_seq; intros _). apply answers_ret. by exists i.
Qed.
#[local] Hint Resolve answers_finish_unmount : results.

Lemma answers_unmount_locked ctx e id : answers (unmount_locked daemon ctx e id) result_ok.
Proof. unfold unmount_locked, performUnmountAttempt. answer. Qed.
#[local] Hint Resolve answers_unmount_locked : results.

Lemma answers_Unmount ctx request : answers (Unmount daemon ctx request) result_ok.
Proof.
  apply answers_seq. intros start. apply answers_kept. unfold unmount_body, holding_operation. answer.
Qed.

Lemma answers_GetMount ctx id : answers (GetMount ctx id) result_ok.
Proof. unfold GetMount. answer. Qed.

Lemma answers_snapshots l : answers (snapshots l) (Forall redacted).
Proof.
  induction l as [|e l IH]; cbn [snapshots]; [by apply answers_ret|]. eapply answers_bind; [apply answers_snapshot|].
  intros i Hi. eapply answers_bind; [exact IH|]. intros infos Hl. apply answers_ret. by constructor.
Qed.

Lemma answers_ListMounts ctx request : answers (ListMounts ctx request) listing_ok.
Proof.
  unfold ListMounts. apply answers_seq. intros [err|]; [apply answers_ret; constructor|].
  eapply answers_bind; [apply answers_seq; intros l; apply answers_snapshots|]. intros infos Hl. apply answers_ret.
  unfold listing_ok. simpl. rewrite sort_by_Permutation. rewrite Forall_forall in *. intros i Hi. apply Hl.
  apply list_elem_of_In. apply list_elem_of_In in Hi. by apply filter_In in Hi as [? _].
Qed.
End ManagerContract.

(** The manager honours the contract. *)
Lemma manager_contract daemon {url : UrlLib} {errs : ErrorLib} {codec : RecordCodec} {irods : IrodsfsLib} :
  @mount_contract (manager_operations daemon).
Proof.
  split; intros; [apply answers_Mount|apply answers_Unmount|apply answers_ListMounts|apply answers_GetMount].
Qed.

(** ** Responses *)

(** The mounts a response shows. *)
Definition message_mounts (m : message) : list MountInfo :=
  match m with
  | MountResponse i | UnmountResponse i | GetMountResponse i => option_list i
  | ListMountsResponse l => l
  end.

Definition response_mounts (r : http_response) : list MountInfo :=
  match resp_payload r with
  | PayloadMessage m => message_mounts m
  | _ => []
  end.

(** What every response of the gateway satisfies. *)
(** The code that an error of a status carries in its body; a 500 carries
    the name of any other gRPC code. *)
Definition named_errors : list (Z * string) :=
  [(400, "INVALID_ARGUMENT"); (404, "NOT_FOUND"); (408, "CANCELED"); (409, "ALREADY_EXISTS"); (409, "FAILED_PRECONDITION");
   (409, "ABORTED"); (413, "REQUEST_ENTITY_TOO_LARGE"); (429, "RESOURCE_EXHAUSTED"); (503, "UNAVAILABLE"); (504, "DEADLINE_EXCEEDED")].

Record response_ok (r : http_response) : Prop := {
  response_hides : Forall hides_secrets (response_mounts r);
  response_status : resp_status r ∈ [200; 202; 400; 404; 408; 409; 413; 429; 500; 503; 504];
  response_success : resp_status r < 300 <-> (forall code text, resp_payload r <> PayloadError code text) /\
                       (forall reason, resp_payload r <> PayloadStatus "not_ready" reason);
  response_code : forall code text, resp_payload r = PayloadError code text -> resp_status r <> 500 -> (resp_status r, code) ∈ named_errors
}.

Ltac in_named := apply (bool_decide_eq_true_1 _); reflexivity.

Section Gateway.
Context `{GrpcLib} `{RestLib} `{ErrorLib} {ops : mountOperations} `{LogCodec}.
Variable config : Config.
Hypothesis contract : mount_contract.
Variable ok : World -> Prop.

Local Notation answers := (answers ok).

Lemma writeRESTError_ok location err : response_ok (writeRESTError location err).
Proof.
  split; [exact (List.Forall_nil _)|destruct err as [[]|]; simpl; set_solver|..].
  - split; [destruct err as [[]|]; simpl; lia|]. intros [Hn _]. by destruct (Hn _ _ eq_refl).
  - intros code text. unfold writeRESTError. generalize (status_Code (Some err)). intros c. cbn [resp_payload resp_status]. intros [= <- _] Hne.
    destruct c; try done; in_named.
Qed.

Lemma writeProtoJSON_ok location code m :
  Forall redacted (message_mounts m) -> code = 200 \/ code = 202 -> response_ok (writeProtoJSON location code m).
Proof.
  intros Hm Hc. unfold writeProtoJSON. destruct (Marshal_message m); [apply writeRESTError_ok|].
  split; simpl; [|destruct Hc as [-> | ->]; set_solver|split; [done|lia]|done].
  eapply Forall_impl; [exact Hm|]. apply redacted_hides.
Qed.

Lemma redacted_option i : (forall j, i = Some j -> redacted j) -> Forall redacted (option_list i).
Proof. destruct i; simpl; auto. Qed.

(** The answer of an operation on one mount. *)
Definition answer_ok (x : result rpcerror (option MountInfo)) : Prop :=
  match x with Ok i => Forall redacted (option_list i) | Err _ => True end.

Lemma response_of_ok (r : mount_result) err : result_ok r -> answer_ok (response_of (fst r) err).
Proof. intros Hr. destruct err; simpl; [done|]. apply redacted_option. intros j Hj. by apply Hr. Qed.

Lemma answers_server_Mount c request : answers (server_Mount c request) (fun x => answer_ok (snd x)).
Proof.
  eapply answers_bind; [apply (contract_Mount contract)|]. intros [i err] Hr. apply answers_ret. by apply (response_of_ok (i, err)).
Qed.

Lemma answers_server_Unmount c request : answers (server_Unmount c request) (fun x => answer_ok (snd x)).
Proof.
  destruct request as [r|]; [|by apply answers_ret]. unfold server_Unmount. destruct (String.eqb _ _); [by apply answers_ret|].
  eapply answers_bind; [apply (contract_Unmount contract)|]. intros [i err] Hr. apply answers_ret. by apply (response_of_ok (i, err)).
Qed.

Lemma answers_server_GetMount c id : answers (server_GetMount c id) answer_ok.
Proof.
  destruct id as [id|]; [|by apply answers_ret]. unfold server_GetMount. destruct (String.eqb _ _); [by apply answers_ret|].
  eapply answers_bind; [apply (contract_GetMount contract)|]. intros [i err] Hr. apply answers_ret. by apply (response_of_ok (i, err)).
Qed.

Lemma answers_rest_logs request : answers (rest_logs config request) (fun x => response_ok (snd x)).
Proof.
  apply answers_seq. intros [got|err]; [|apply answers_ret, writeRESTError_ok].
  destruct (logQueryOptionsFromRequest _); [|apply answers_ret, writeRESTError_ok].
  apply answers_seq. intros [records|err]; apply answers_ret; [|apply writeRESTError_ok].
  split; simpl; [exact (List.Forall_nil _)|set_solver|split; [done|lia]|done].
Qed.

(** Every handler answers with a proper response. *)
Lemma answers_handle h request : answers (handle config h request) (fun x => response_ok (snd x)).
Proof.
  destruct h; cbn [handle].
  - unfold rest_mount. destruct (decodeProtoJSON request) as [r|[|err]].
    + eapply answers_bind; [apply answers_server_Mount|]. intros [audit [i|err]] Hi; apply answers_ret;
        [apply writeProtoJSON_ok; [exact Hi | by right]|apply writeRESTError_ok].
    + apply answers_ret. split; simpl; [exact (List.Forall_nil _)|set_solver| |intros code text [= <- _] _; in_named].
      split; [lia|]. intros [Hn _]. by destruct (Hn _ _ eq_refl).
    + apply answers_ret, writeRESTError_ok.
  - unfold rest_listMounts. destruct (listMountsRequestFromQuery _); [|apply answers_ret, writeRESTError_ok].
    eapply answers_bind with (R := fun x => match x with Ok l => Forall redacted l | Err _ => True end).
    + eapply answers_bind; [apply (contract_ListMounts contract)|]. intros [l [err|]] Hl; by apply answers_ret.
    + intros [l|err] Hl; apply answers_ret; [apply writeProtoJSON_ok; [exact Hl | by left]|apply writeRESTError_ok].
  - eapply answers_bind; [apply answers_server_GetMount|]. intros [i|err] Hi; apply answers_ret;
      [apply writeProtoJSON_ok; [exact Hi | by left]|apply writeRESTError_ok].
  - eapply answers_bind; [apply answers_server_Unmount|]. intros [audit [i|err]] Hi; apply answers_ret;
      [apply writeProtoJSON_ok; [exact Hi | by right]|apply writeRESTError_ok].
  - apply answers_rest_logs.
  - apply answers_ret. split; simpl; [exact (List.Forall_nil _)|set_solver|split; [done|lia]|done].
  - apply answers_seq. intros [[]|err]; apply answers_ret; (split; simpl; [exact (List.Forall_nil _)|set_solver| |done]).
    + split; [done|lia].
    + split; [lia|]. intros [_ Hn]. by destruct (Hn _ eq_refl).
Qed.
End Gateway.

(** The code of an error of the manager. *)
Definition status_for `{ErrorLib} (err : goerror) (invalidWhenUnknown : bool) : Code :=
  if Is err context_Canceled then codes_Canceled
  else if Is err context_DeadlineExceeded || Is err ErrDAVFSLazyUnmount then codes_DeadlineExceeded
  else if Is err ErrMountNotFound then codes_NotFound
  else if Is err ErrMountIDConflict || Is err ErrMountPathConflict
       || Is err store_ErrMountIDConflict || Is err store_ErrMountPathConflict then codes_AlreadyExists
  else if Is err ErrMountLimitReached then codes_ResourceExhausted
  else if invalidWhenUnknown then codes_InvalidArgument
  else codes_Internal.

Lemma mountStatusError_plain `{ErrorLib} `{GrpcLib} err invalid :
  mountStatusError (RPlain <$> Some err) invalid = Some (RStatus (status_for err invalid) (Error err)).
Proof. unfold status_for. simpl. by repeat case_match. Qed.

(** With a mount in hand the server never blames the request. *)
Lemma status_for_handed `{ErrorLib} err : rest_status (status_for err false) <> 400.
Proof. unfold status_for. by repeat case_match. Qed.

(** ** Mount requests *)

(** The part of a trace that has no effect. *)
Lemma always_quiet {A B} ok t (p : prog A) (k : A -> prog B) R (Q : trace -> B -> Prop) :
  emits ok (fun _ => False) p R ->
  (forall u a, effects u = effects t -> R a -> always ok (fun _ => True) u (k a) Q) ->
  always ok (fun _ => True) t (p ≫= k) Q.
Proof.
  intros Hp Hk. apply always_bind. eapply always_weaken; [| |apply Hp]; [done|].
  intros u a (v & -> & Hv) Ha. apply Hk; [|done]. rewrite effects_app.
  destruct (effects v) as [|x l]; [by rewrite app_nil_r|]. by inversion Hv.
Qed.

Lemma always_answers {A} ok t (p : prog A) R (Q : trace -> A -> Prop) :
  answers ok p R -> (forall u a, R a -> Q u a) -> always ok (fun _ => True) t p Q.
Proof. intros Hp HQ. eapply always_mono; [|apply Hp]. auto. Qed.

Section MountRequests.
Variable daemon : Config.
Context {url : UrlLib} {errs : ErrorLib} {codec : RecordCodec} {irods : IrodsfsLib}.

Section Refused.
Variable ok : World -> Prop.

(** An answer without a mount comes before any effect. *)
Definition untouched (t u : trace) (x : mount_result) : Prop := fst x = None -> effects u = effects t.

Lemma emits_register_mount e id path : emits ok (fun _ => False) (register_mount daemon e id path) (fun _ => True).
Proof. apply emits_silent. intros en w x w' Hx. cbv zeta in Hx. repeat case_match; simplify_eq; done || by destruct w. Qed.

Lemma emits_new_locked_entry f : emits ok (fun _ => False) (new_locked_entry f) (fun _ => True).
Proof. apply emits_silent. intros en w x w' Hx. injection Hx as <- <-. by destruct w. Qed.

Lemma always_mount_registered ctx e id path deadline t t0 :
  effects t = effects t0 ->
  always ok (fun _ => True) t (mount_registered daemon ctx e id path deadline) (untouched t0).
Proof.
  intros Ht. eapply always_quiet; [apply emits_register_mount|]. intros u [err|] Hu _.
  - apply always_ret; [done|]. intros _. congruence.
  - apply always_answers with (R := handed); [|intros v x (i & Hi & _) Hn; congruence].
    apply answers_seq. intros record. apply answers_seq. intros [err|].
    + eapply answers_bind; [apply answers_section with (R := redacted); intros en m; apply redactMountInfo_redacted|].
      intros i Hi. apply answers_ret. by exists i.
    + apply answers_seq. intros g. apply answers_startMount.
Qed.

Lemma always_mount_body ctx request t :
  always ok (fun _ => True) t (mount_body daemon ctx request) (untouched t).
Proof.
  assert (forall u err, effects u = effects t -> always ok (fun _ => True) u (mret (None, err)) (untouched t)) as Hno
    by (intros u err Hu; apply always_ret; [done|]; by intros _).
  eapply always_quiet; [apply emits_asks|]. intros t1 [err|] H1 _; [by apply Hno|].
  destruct request as [r|]; [|by apply Hno]. eapply always_quiet; [apply emits_asks|]. intros t2 invalid H2 _.
  assert (effects t2 = effects t) as E2 by congruence.
  destruct invalid as [err|], (MountRequest_Config r) as [config|]; try (by apply Hno).
  eapply always_quiet; [apply emits_asks|]. intros t3 start H3 _. cbv zeta.
  eapply always_quiet; [apply emits_asks|]. intros t4 generated H4 _.
  assert (effects t4 = effects t) as E4 by congruence.
  destruct (if String.eqb _ _ then None else _); [by apply Hno|].
  eapply always_quiet; [apply emits_new_locked_entry|]. intros t5 entry H5 _.
  apply always_bind. eapply always_mono; [|apply (always_mount_registered _ _ _ _ _ t5 t); congruence].
  intros t6 x _ Hx. eapply always_quiet; [apply emits_operation_Unlock|]. intros t7 _ H7 _. apply always_ret; [done|].
  intros Hn. rewrite H7. by apply Hx.
Qed.

Lemma always_Mount ctx request t : always ok (fun _ => True) t (Mount daemon ctx request) (untouched t).
Proof.
  eapply always_quiet; [apply emits_asks|]. intros t0 start H0 _.
  apply always_bind. eapply always_mono; [|apply always_mount_body]. intros u x _ Hx.
  eapply always_quiet; [apply emits_with_metrics|]. intros v _ Hv _. apply always_ret; [done|].
  intros Hn. rewrite Hv, <- H0. by apply Hx.
Qed.
End Refused.

Context `{GrpcLib} `{RestLib}.

(** C32: a mount request that is answered with 400 has had no effect: no
    record was written, no directory made, nothing started. *)
Theorem bad_requests_change_nothing ok request t audit resp :
  traces ok (rest_mount (ops := manager_operations daemon) request) t (Some (audit, resp)) ->
  resp_status resp = 400 -> effects t = [].
Proof.
  intros Htr.
  assert (always ok (fun _ => True) [] (rest_mount (ops := manager_operations daemon) request)
            (fun u x => resp_status (snd x) = 400 -> effects u = [])) as Hal.
  { unfold rest_mount. destruct (decodeProtoJSON request) as [r|[|err]]; [|by apply always_ret..].
    apply always_bind. apply always_bind. eapply always_mono; [|apply always_Mount].
    intros u [mount err] _ Hx. apply always_ret; [done|]. apply always_ret; [done|]. cbn [snd].
    destruct mount as [i|]; [|intros _; by apply Hx]. destruct err as [err|].
    - rewrite mountStatusError_plain. intros E. by destruct (status_for_handed err).
    - simpl. unfold writeProtoJSON. by destruct (Marshal_message _). }
  destruct (always_traces _ _ _ _ _ _ _ Hal Htr) as [_ Ha]. by apply (Ha (audit, resp)).
Qed.

(** *** Accepted mounts *)

(** The database accepted a new record of [id]; a client of [id] started. *)
Definition creates (id : string) (x : effect) : bool :=
  match x with FxCreate id' true => String.eqb id id' | _ => false end.
Definition starts (id : string) (x : effect) : bool :=
  match x with FxStart id' _ => String.eqb id id' | _ => false end.

Section Accepted.
Variable id_of : entry_id -> string.

Local Notation always := (always (named id_of) (fun _ => True)).

(** Any part of a program, with the rest of the trace unknown. *)
Lemma always_skip {A B} t (p : prog A) (k : A -> prog B) (Q : trace -> B -> Prop) :
  (forall v a, always (t ++ v) (k a) Q) -> always t (p ≫= k) Q.
Proof.
  revert t. induction p as [a|X f g IH]; intros t Hk; [simpl; rewrite <- (app_nil_r t); apply Hk|].
  split; [done|]. intros e w x w' d _ _ _. apply IH. intros v a. rewrite <- (assoc_L (++)). apply Hk.
Qed.

(** An answer without an error names the mount whose record was created
    and whose client was started. *)
Definition launched (t : trace) (x : mount_result) : Prop :=
  snd x = None -> exists i, fst x = Some i /\
    happened (did (creates (MountInfo_MountId i))) t /\ happened (did (starts (MountInfo_MountId i))) t.

(** An answer with an error. *)
Definition erred (x : mount_result) : Prop := snd x <> None.

Lemma always_erred t (p : prog mount_result) : answers (named id_of) p erred -> always t p launched.
Proof. intros Hp. eapply always_answers; [exact Hp|]. intros u x Hx Hn. by destruct Hx. Qed.

Lemma answers_start_failure_erred ok e g code err ret : answers ok (start_failure daemon e g code err ret) erred.
Proof. repeat (apply answers_seq; intros ?). by apply answers_ret. Qed.

Lemma answers_failMountBeforeStart_erred ok e g root : answers ok (failMountBeforeStart daemon e g root) erred.
Proof. repeat (apply answers_seq; intros ?). by apply answers_ret. Qed.

Lemma always_handed_launched t e :
  happened (did (creates (id_of e))) t -> happened (did (starts (id_of e))) t ->
  always t (info ← snapshot e; mret (Some info, None)) launched.
Proof.
  intros Hc Hs. apply always_bind, always_locked; [done|]. intros en w m Hw He. split; [done|].
  apply always_ret; [done|]. intros _. eexists. split; [done|]. simpl. rewrite redactMountInfo_MountId.
  rewrite (named_entry _ _ _ _ Hw He). by split; apply happened_snoc.
Qed.

Lemma always_launch t e g root deadline log :
  happened (did (creates (id_of e))) t -> always t (launch daemon e g root deadline log) launched.
Proof.
  intros Hc. apply always_bind, always_locked; [done|]. intros en w m Hw He. split; [done|]. cbn [fst].
  rewrite (named_entry _ _ _ _ Hw He). apply always_skip. intros v [[command client]|err];
    [|apply always_erred, answers_start_failure_erred].
  apply always_skip. intros v2 now. destruct (negb _); [apply always_erred, answers_failMountBeforeStart_erred|].
  apply always_bind, always_act; [done|]. intros en2 w2 x w2' d _ Hx Hd. split; [done|].
  destruct (env_err en2); simplify_eq; [apply always_erred, answers_start_failure_erred|].
  assert (d = [FxStart (id_of e) command]) as -> by (destruct w2; by apply app_inv_head in Hd).
  apply always_skip. intros v3 pid. apply always_skip. intros v4 exitDone. apply always_skip. intros v5 _.
  apply always_skip. intros v6 _. apply always_skip. intros v7 _. apply always_skip. intros v8 _.
  apply always_handed_launched; do 6 apply happened_app.
  - by repeat apply happened_app.
  - apply happened_now, did_one. apply String.eqb_refl.
Qed.

Lemma always_startMount t e g root deadline :
  happened (did (creates (id_of e))) t -> always t (startMount daemon e g root deadline) launched.
Proof.
  intros Hc. apply always_skip. intros v1 path. apply always_skip. intros v2 [err|];
    [apply always_erred, answers_start_failure_erred|].
  apply always_skip. intros v3 [err|]; [apply always_erred, answers_start_failure_erred|].
  apply always_skip. intros v4 now. destruct (negb _); [apply always_erred, answers_failMountBeforeStart_erred|].
  apply always_skip. intros v5 [log|]; [apply always_launch; by repeat apply happened_app|].
  apply always_skip. intros v6 info. apply always_skip. intros v7 [log|err];
    [|apply always_erred, answers_start_failure_erred].
  apply always_skip. intros v8 _. apply always_launch. by repeat apply happened_app.
Qed.

Lemma always_mount_registered_launched ctx t e id path deadline :
  always t (mount_registered daemon ctx e id path deadline) launched.
Proof.
  apply always_skip. intros v1 [err|]; [by apply always_erred, answers_ret|].
  apply always_bind, always_locked; [done|]. intros en w m Hw He. split; [done|].
  apply always_bind, always_effect with (E := fun _ x y => y = FxCreate (id_of e) (succeeded x)); [|done|].
  - intros en2 w2 x w2' Hx. destruct (Create _ _ _ _) as [[err db] fl]. injection Hx as <- <-. eexists. split; [by destruct w2|].
    by rewrite <- (named_entry _ _ _ _ Hw He).
  - intros en2 x y ->. split; [done|]. destruct x as [err|].
    + apply always_erred. apply answers_seq. intros i. by apply answers_ret.
    + apply always_skip. intros v2 g. apply always_startMount. apply happened_app, happened_now, did_one. apply String.eqb_refl.
Qed.

Lemma always_kept {A B} t (p : prog A) (q : A -> prog B) (Q : trace -> A -> Prop) :
  (forall u v a, Q u a -> Q (u ++ v) a) -> always t p Q -> always t (r ← p; q r;; mret r) Q.
Proof.
  intros HQ Hp. apply always_bind. eapply always_mono; [|exact Hp]. intros u a _ Ha. apply always_skip.
  intros v _. apply always_ret; [done|]. by apply HQ.
Qed.

Lemma launched_app u v x : launched u x -> launched (u ++ v) x.
Proof. intros Hx Hn. destruct (Hx Hn) as (i & Hi & Hc & Hs). exists i. split_and!; [done|by apply happened_app..]. Qed.

Lemma always_Mount_launched ctx request t : always t (Mount daemon ctx request) launched.
Proof.
  assert (forall u err, always u (mret (None, Some err)) launched) as Hno by (intros u err; by apply always_erred, answers_ret).
  apply always_skip. intros v0 start. apply always_kept; [apply launched_app|].
  apply always_skip. intros v1 [err|]; [apply Hno|]. destruct request as [r|]; [|apply Hno].
  apply always_skip. intros v2 invalid. destruct invalid as [err|], (MountRequest_Config r) as [config|]; try apply Hno.
  apply always_skip. intros v3 now. cbv zeta. apply always_skip. intros v4 generated.
  destruct (if String.eqb _ _ then None else _); [apply Hno|]. apply always_skip. intros v5 entry.
  apply always_kept; [apply launched_app|]. apply always_mount_registered_launched.
Qed.

(** C30: an answer 202 to a mount request means that the database accepted
    the record of the mount and its client process was started; the
    Location header and the message name that mount. *)
Theorem accepted_mounts_are_recorded_and_started request t audit resp :
  traces (named id_of) (rest_mount (ops := manager_operations daemon) request) t (Some (audit, resp)) ->
  resp_status resp = 202 ->
  exists i, resp_payload resp = PayloadMessage (MountResponse (Some i)) /\
    resp_Location resp = Some ("/api/v1/mounts/" +:+ MountInfo_MountId i) /\
    happened (did (creates (MountInfo_MountId i))) t /\ happened (did (starts (MountInfo_MountId i))) t.
Proof.
  intros Htr.
  assert (always [] (rest_mount (ops := manager_operations daemon) request) (fun u x => resp_status (snd x) = 202 ->
            exists i, resp_payload (snd x) = PayloadMessage (MountResponse (Some i)) /\
              resp_Location (snd x) = Some ("/api/v1/mounts/" +:+ MountInfo_MountId i) /\
              happened (did (creates (MountInfo_MountId i))) u /\ happened (did (starts (MountInfo_MountId i))) u)) as Hal.
  { unfold rest_mount. destruct (decodeProtoJSON request) as [r|[|err]]; [|by apply always_ret..].
    apply always_bind. apply always_bind. eapply always_mono; [|apply always_Mount_launched].
    intros u [mount err] _ Hx. apply always_ret; [done|]. apply always_ret; [done|]. cbn [snd]. destruct err as [err|].
    - rewrite mountStatusError_plain. simpl. by destruct (status_for err _).
    - destruct (Hx eq_refl) as (i & Hi & Hc & Hs). simpl in Hi. subst mount. simpl. unfold writeProtoJSON.
      destruct (Marshal_message _); [done|]. intros _. by exists i. }
  destruct (always_traces _ _ _ _ _ _ _ Hal Htr) as [_ Ha]. by apply (Ha (audit, resp)).
Qed.

(** *** Completed unmounts *)

(** The directory of a mount was removed; its removal was announced. *)
Definition removes_data (path : string) (x : effect) : bool :=
  match x with FxRemoveAll path' true => String.eqb path path' | _ => false end.
Definition announces (id : string) (x : effect) : bool :=
  match x with
  | FxPublish event =>
      bool_decide (MountEvent_Type event = MOUNT_EVENT_TYPE_REMOVED) && String.eqb id (MountInfo_MountId (MountEvent_Mount event))
  | _ => false
  end.

(** An answer without an error comes after the tombstone of the mount was
    written, its data removed and its end announced. *)
Definition completed (id : string) (t : trace) (x : mount_result) : Prop :=
  snd x = None -> exists i, fst x = Some i /\ MountInfo_MountId i = id /\
    happened (did (tombstoned id)) t /\ happened (did (removes_data (mount_data_root daemon id))) t /\ happened (did (announces id)) t.

Lemma completed_app id u v x : completed id u x -> completed id (u ++ v) x.
Proof. intros Hx Hn. destruct (Hx Hn) as (i & Hi & Hid & H1 & H2 & H3). exists i.
split_and!; [done..|by apply happened_app| |]; by apply happened_app. Qed.

Lemma always_failed id t (p : prog mount_result) : answers (named id_of) p erred -> always t p (completed id).
Proof. intros Hp. eapply always_answers; [exact Hp|]. intros u x Hx Hn. by destruct Hx. Qed.

Lemma answers_unmount_failure_erred ok e g code err : answers ok (unmount_failure daemon e g code err) erred.
Proof. repeat (apply answers_seq; intros ?). by apply answers_ret. Qed.

Lemma always_finish_unmount ctx e g t :
  happened (did (tombstoned (id_of e))) t -> always t (finish_unmount daemon ctx e g) (completed (id_of e)).
Proof.
  intros Ht. apply always_skip. intros v1 [[persistent command] exitDone]. apply always_skip. intros v2 _.
  apply always_skip. intros v3 [err|]; [apply always_failed, answers_unmount_failure_erred|].
  apply always_bind, always_locked; [done|]. intros en w m Hw He. split; [done|]. cbn [fst]. cbv zeta.
  rewrite (named_entry _ _ _ _ Hw He). apply always_bind, always_effect with
    (E := fun _ x y => y = FxRemoveAll (mount_data_root daemon (id_of e)) (succeeded x)); [|done|].
  { intros en2 w2 x w2' Hx. injection Hx as <- <-. destruct w2. eauto. }
  intros en2 [err|] y ->; (split; [done|]); [apply always_failed, answers_unmount_failure_erred|].
  set (t4 := (_ ++ [(en2, _)])).
  assert (happened (did (tombstoned (id_of e))) t4 /\ happened (did (removes_data (mount_data_root daemon (id_of e)))) t4) as [H1 H2].
  { split; [by repeat apply happened_app|]. apply happened_now, did_one. apply String.eqb_refl. }
  clearbody t4. apply always_bind, always_locked; [done|]. intros en3 w3 m3 Hw3 He3. split; [done|]. cbn [fst unmounted_section].
  apply always_skip. intros v5 _. apply always_skip. intros v6 _. apply always_skip. intros v7 _.
  set (i := redactMountInfo _).
  assert (MountInfo_MountId i = id_of e) as Hi.
  { unfold i. rewrite redactMountInfo_MountId. transitivity (MountInfo_MountId (mm_info m3)); [by destruct (mm_info m3)|by eapply named_entry]. }
  apply always_bind, always_effect with (E := fun _ _ y => y = FxPublish (mkMountEvent MOUNT_EVENT_TYPE_REMOVED i)); [|done|].
  { intros en4 w4 x w4' Hx. destruct (w_eventMutex w4); [done|]. injection Hx as <- <-. destruct w4. eauto. }
  intros en4 _ y ->. split; [done|]. apply always_ret; [done|]. intros _. exists i.
  split_and!; [done|done|by repeat apply happened_app|by repeat apply happened_app|].
  apply happened_now, did_one. simpl. rewrite Hi. apply String.eqb_refl.
Qed.

Lemma always_update {B} ctx record t (k : option goerror -> prog B) Q :
  (forall en x, always (t ++ [(en, [FxUpdate (info_id record) (Record_Tombstone record) (succeeded x)])]) (k x) Q) ->
  always t (repository_Update ctx record ≫= k) Q.
Proof.
  intros Hk. apply always_bind, always_effect with
    (E := fun _ x y => y = FxUpdate (info_id record) (Record_Tombstone record) (succeeded x)); [|done|].
  - intros en w x w' Hx. destruct (Update _ _ _ _) as [[err db] fl]. injection Hx as <- <-. destruct w. eauto.
  - intros en x y ->. split; [done|apply Hk].
Qed.

Lemma always_unmount_locked_completed ctx e t :
  always t (unmount_locked daemon ctx e (id_of e)) (completed (id_of e)).
Proof.
  assert (forall u err, always u (mret (None, Some err)) (completed (id_of e))) as Hno
    by (intros u err; by apply always_failed, answers_ret).
  apply always_skip. intros v1 current. destruct (negb _); [apply Hno|]. apply always_skip. intros v2 _.
  apply always_bind, always_locked; [done|]. intros en w m Hw He. split; [done|]. set (a := (accept_unmount_section en m).1).
  destruct (accepted_tombstone id_of w e m en Hw He) as [Hrec Hid]. fold a in Hrec, Hid. apply always_skip. intros v3 _.
  apply always_update. intros en2 [err|]; [apply always_skip; intros v4 _; apply Hno|]. rewrite Hid, Hrec.
  set (t4 := (_ ++ [(en2, _)])).
  assert (happened (did (tombstoned (id_of e))) t4) as Ht by (apply happened_now, did_one, String.eqb_refl). clearbody t4.
  apply always_skip. intros v5 path. apply always_skip. intros v6 [mounted|err]; [|apply always_failed, answers_unmount_failure_erred].
  apply always_skip. intros v7 [err|]; [destruct (Is _ _); apply always_failed, answers_unmount_failure_erred|].
  apply always_finish_unmount. by repeat apply happened_app.
Qed.

Lemma always_Unmount_completed ctx request t :
  always t (Unmount daemon ctx (Some request)) (completed (UnmountRequest_MountId request)).
Proof.
  set (id := UnmountRequest_MountId request).
  assert (forall u err, always u (mret (None, Some err)) (completed id)) as Hno by (intros u err; by apply always_failed, answers_ret).
  apply always_skip. intros v0 start. apply always_kept; [apply completed_app|].
  apply always_skip. intros v1 [err|]; [apply Hno|]. cbv zeta. destruct (String.eqb _ _); [apply Hno|].
  apply always_bind, always_silent; [by intros e w x w' [= <- <-]|done|]. intros en w x w' Hw [= <- <-]. split; [done|].
  fold id. destruct (w_mounts w !! id) as [e|] eqn:He; [|apply Hno].
  rewrite <- (named_mounts _ _ _ _ Hw He). apply always_skip. intros v2 _.
  apply always_kept; [apply completed_app|]. apply always_unmount_locked_completed.
Qed.
End Accepted.
End MountRequests.

(** ** Requests about unknown mounts *)

(** No mount of that ID is registered. *)
Definition unregistered (id : string) (w : World) : Prop := w_mounts w !! id = None.

#[export] Instance unregistered_dec id w : Decision (unregistered id w).
Proof. unfold unregistered. apply _. Defined.

Section Unknown.
Variable daemon : Config.
Context {url : UrlLib} {errs : ErrorLib} {codec : RecordCodec} {irods : IrodsfsLib}.
Context `{GrpcLib} `{RestLib} `{LogCodec}.
Variable id : string.

Local Notation quietly p := (emits (unregistered id) (fun _ => False) p).

Definition unknown_mount : goerror := EWrap (ESentinel ErrMountNotFound) ("mount ID " +:+ Quote id).

Lemma status_for_unknown : status_for unknown_mount false = codes_NotFound.
Proof. unfold status_for, unknown_mount. simpl.
  by rewrite (same_mark_ne _ context_Canceled), (same_mark_ne _ context_DeadlineExceeded),
    (same_mark_ne _ ErrDAVFSLazyUnmount), same_mark_refl.
Qed.

Lemma quietly_unregistered : quietly (gets (fun w => w_mounts w !! id)) (fun x => x = None).
Proof. apply emits_act. intros e w x w' Hw [= <- <-]. auto. Qed.

Lemma quietly_live : quietly (asks (ctx_Err Background)) (fun x => x = None).
Proof. apply emits_act. intros e w x w' _ [= <- <-]. auto. Qed.

Lemma quietly_GetMount : quietly (GetMount Background id) (fun x => x = (None, Some unknown_mount)).
Proof.
  eapply emits_bind; [apply quietly_live|]. intros ? ->. eapply emits_bind; [apply quietly_unregistered|].
  intros ? ->. by apply emits_ret.
Qed.

Lemma quietly_Unmount :
  id <> EmptyString ->
  quietly (Unmount daemon Background (Some (mkUnmountRequest id))) (fun x => x = (None, Some unknown_mount)).
Proof.
  intros Hid. apply emits_seq; [apply emits_asks|]. intros start.
  eapply emits_bind with (R := fun x => x = (None, Some unknown_mount)).
  - eapply emits_bind; [apply quietly_live|]. intros ? ->. cbv zeta. simpl UnmountRequest_MountId.
    rewrite (proj2 (String.eqb_neq _ _) Hid). eapply emits_bind; [apply quietly_unregistered|].
    intros ? ->. by apply emits_ret.
  - intros ? ->. apply emits_seq; [apply emits_with_metrics|intros _]. by apply emits_ret.
Qed.

Lemma quietly_server_GetMount c :
  id <> EmptyString -> call_ctx c = Background ->
  quietly (server_GetMount (ops := manager_operations daemon) c (Some id))
    (fun x => x = Err (RStatus codes_NotFound (Error unknown_mount))).
Proof.
  intros Hid Hc. unfold server_GetMount. rewrite (proj2 (String.eqb_neq _ _) Hid), Hc.
  eapply emits_bind; [apply quietly_GetMount|]. intros ? ->. apply emits_ret.
  by rewrite mountStatusError_plain, status_for_unknown.
Qed.

(** The requests that name a mount. *)
Definition names_mount (h : handler) : bool :=
  match h with HandleGetMount | HandleUnmount | HandleLogs => true | _ => false end.

Lemma quietly_handle h request :
  names_mount h = true -> req_mountID request = id -> id <> EmptyString -> req_ctx request = Background ->
  quietly (handle (ops := manager_operations daemon) daemon h request)
    (fun x => snd x = writeRESTError None (RStatus codes_NotFound (Error unknown_mount))).
Proof.
  intros Hh Eid Hid Hc. destruct h; try done; cbn [handle].
  - unfold rest_getMount. rewrite Eid. eapply emits_bind; [by apply quietly_server_GetMount|].
    intros ? ->. by apply emits_ret.
  - unfold rest_unmount. rewrite Eid.
    eapply emits_bind with (R := fun x => snd x = Err (RStatus codes_NotFound (Error unknown_mount))).
    + unfold server_Unmount. simpl UnmountRequest_MountId. rewrite (proj2 (String.eqb_neq _ _) Hid). simpl call_ctx. rewrite Hc.
      eapply emits_bind; [by apply quietly_Unmount|]. intros ? ->. apply emits_ret.
      cbn [snd]. by rewrite mountStatusError_plain, status_for_unknown.
    + intros [audit ?]. simpl. intros ->. by apply emits_ret.
  - unfold rest_logs. rewrite Eid. eapply emits_bind; [by apply quietly_server_GetMount|].
    intros ? ->. by apply emits_ret.
Qed.

(** C33: a request to show, unmount or read the logs of a mount that is not
    registered is answered with 404 and has no effect. *)
Theorem unknown_mounts_are_not_found h request t audit resp :
  names_mount h = true -> req_mountID request = id -> id <> EmptyString -> req_ctx request = Background ->
  traces (unregistered id) (handle (ops := manager_operations daemon) daemon h request) t (Some (audit, resp)) ->
  effects t = [] /\ resp_status resp = 404 /\
  resp_payload resp = PayloadError "NOT_FOUND" ("mount ID " +:+ Quote id +:+ ": mount not found").
Proof.
  intros Hh Eid Hid Hc Htr.
  destruct (always_traces _ _ _ _ _ _ _ (quietly_handle h request Hh Eid Hid Hc []) Htr) as [(v & Hv & Hf) Ha].
  specialize (Ha _ eq_refl). simpl in Ha, Hv. subst resp v. split; [|split; [done|by rewrite string_app_assoc]].
  destruct (effects t) as [|x l]; [done|]. by inversion Hf.
Qed.
End Unknown.

(** ** Every response *)

(** C31: whatever is asked, in whatever state the daemon is, every mount in
    a response of the REST API has its credentials redacted; the status is
    one of 200, 202, 400, 404, 408, 409, 413, 429, 500, 503 and 504, and it
    is below 300 exactly when the body is neither an error nor a report that
    the daemon is not ready; and an error other than a 500 carries the code
    that belongs to its status.  The texts of errors and the records of logs
    are not constrained. *)
Theorem rest_responses_are_proper daemon {url : UrlLib} {errs : ErrorLib} {codec : RecordCodec} {irods : IrodsfsLib}
    `{GrpcLib} `{RestLib} `{LogCodec} ok h request t audit resp :
  traces ok (handle (ops := manager_operations daemon) daemon h request) t (Some (audit, resp)) -> response_ok resp.
Proof.
  intros Htr. apply (answers_traces _ _ (fun x => response_ok (snd x)) _ _
    (answers_handle daemon (manager_contract daemon) ok h request) Htr).
Qed.

(** ** The theorems on concrete requests *)

(** A library whose bodies are single words. *)
#[export] Instance plain_grpc : GrpcLib := {| code_String _ := "code" |}.
#[export] Instance plain_rest : RestLib := {|
  Unmarshal_MountRequest data :=
    if String.eqb data "home" then Ok (mkMountRequest (Some "home") (Some (nfs_request home)))
    else if String.eqb data "nothing" then Ok (mkMountRequest None None)
    else Err (ENew "syntax error");
  Marshal_message _ := None;
  ParseRFC3339 _ := None;
  unicode_ToUpper s := s
|}.

(** A request about [mountID] with a query and a body. *)
Definition example_request (mountID : string) (query : gmap string (list string)) (body : string) : http_request :=
  mkHttpRequest Background "192.0.2.7:4711" mountID query body None.

(** The handler of the examples' daemon, run alone. *)
Definition serving_request (ok : World -> Prop) `{!forall w, Decision (ok w)} (h : handler) (request : http_request) (w : World) :=
  tracing ok (repeat (calm 1000 []) 60)
    (handle (ops := @manager_operations example_config plain_urls message_errors plain_codec plain_irodsfs)
       example_config h request) w.

Lemma tracing_result {A} (ok : World -> Prop) `{!forall w, Decision (ok w)} es (p : prog A) w a :
  (tracing ok es p w).2 = Some a -> traces ok p (tracing ok es p w).1 (Some a).
Proof. intros E. rewrite <- E. apply tracing_sound. Qed.

(** Names the response [r] of a run of which [H] says it has one. *)
Ltac at_response H audit resp E :=
  match type of H with
  | match ?r with _ => _ end => revert H; destruct r as [[audit resp]|] eqn:E; [intros H|intros []]
  end.

Lemma bad_requests_change_nothing_witness :
  let run := serving_request (fun _ => True) HandleMount (example_request "" ∅ "nothing") (initial_world ∅ None) in
  match run.2 with Some (_, resp) => resp_status resp = 400 | None => False end /\ effects run.1 = [].
Proof.
  intros run.
  assert (match run.2 with Some (_, resp) => resp_status resp = 400 | None => False end) as H0 by (by vm_compute).
  split; [exact H0|]. at_response H0 audit resp E.
  exact (@bad_requests_change_nothing example_config plain_urls message_errors plain_codec plain_irodsfs plain_grpc plain_rest
    _ _ _ audit resp (tracing_result _ _ _ _ _ E) H0).
Defined.

Lemma accepted_mounts_are_recorded_and_started_witness :
  let run := serving_request (named (fun _ => "home")) HandleMount (example_request "" ∅ "home") (initial_world ∅ None) in
  match run.2 with
  | Some (_, resp) => resp_Location resp = Some "/api/v1/mounts/home" /\ happened (did (starts "home")) run.1
  | None => False
  end.
Proof.
  intros run.
  assert (match run.2 with
          | Some (_, resp) => resp_status resp = 202 /\ resp_Location resp = Some "/api/v1/mounts/home" /\
              match resp_payload resp with PayloadMessage (MountResponse (Some i)) => MountInfo_MountId i = "home" | _ => False end
          | None => False end) as H0 by (by vm_compute).
  at_response H0 audit resp E. destruct H0 as (H1 & H2 & H3). split; [exact H2|].
  destruct (@accepted_mounts_are_recorded_and_started example_config plain_urls message_errors plain_codec plain_irodsfs
    plain_grpc plain_rest (fun _ => "home") _ _ audit resp (tracing_result _ _ _ _ _ E) H1) as (i & Hp & _ & _ & Hs).
  rewrite Hp in H3. rewrite <- H3. exact Hs.
Defined.

Lemma unknown_mounts_are_not_found_witness :
  let run := serving_request (unregistered "gone") HandleUnmount (example_request "gone" ∅ "") (initial_world ∅ None) in
  match run.2 with Some (_, resp) => resp_status resp = 404 | None => False end /\ effects run.1 = [].
Proof.
  intros run. assert (match run.2 with Some _ => True | None => False end) as H0 by (by vm_compute).
  at_response H0 audit resp E.
  destruct (@unknown_mounts_are_not_found example_config plain_urls message_errors plain_codec plain_irodsfs plain_grpc
    plain_rest plain_log_codec "gone" HandleUnmount (example_request "gone" ∅ "") _ audit resp eq_refl eq_refl
    ltac:(discriminate) eq_refl (tracing_result _ _ _ _ _ E)) as (H1 & H2 & _).
  exact (conj H2 H1).
Defined.

Lemma rest_responses_are_proper_witness :
  let run := serving_request (fun _ => True) HandleListMounts (example_request "" ∅ "") (world_after mounted_run) in
  match run.2 with Some (_, resp) => length (response_mounts resp) = 1%nat /\ response_ok resp | None => False end.
Proof.
  intros run.
  assert (match run.2 with Some (_, resp) => length (response_mounts resp) = 1%nat | None => False end) as H0 by (by vm_compute).
  at_response H0 audit resp E. split; [exact H0|].
  exact (@rest_responses_are_proper example_config plain_urls message_errors plain_codec plain_irodsfs plain_grpc plain_rest
    plain_log_codec _ _ _ _ audit resp (tracing_result _ _ _ _ _ E)).
Defined.
