(* ===== verification/RestQueries.v ===== *)
(** * Query parameters, listings and logs of the REST API

    What the query string of a request means: state filters read back in
    all their spellings, listings are sorted and filtered, and log queries
    are bounded. *)

From Stdlib Require Import Sorting.Sorted.
From S2P Require Import Prelude GoStrings GoPath GoSort GoErrors Grpc Api Redact Config Retry Policy PolicyFacts.
From S2P Require Import IrodsfsConfig Repository PlainCodec LogStore LogStoreFacts Runtime Command Manager.
From S2P Require Import Invariant Rules ManagerSafe Scenario Concurrency Traces ManagerTraces Server Rest.
From S2P Require Import RestFacts.

(** ** Mount states *)

Lemma state_of_name_spec name s : state_of_name name = Some s <-> name = MountState_name s.
Proof.
  split.
  - intros [_ H]%find_some. by apply String.eqb_eq in H.
  - intros ->. by destruct s.
Qed.

Lemma state_of_number_spec number s : state_of_number number = Some s <-> number = MountState_number s.
Proof.
  split.
  - intros [_ H]%find_some. by apply Z.eqb_eq in H.
  - intros ->. by destruct s.
Qed.

Section States.
Context `{GrpcLib} `{RestLib}.

(** The spellings of a state, after upper-casing: its full name, its name
    without the prefix, or its number. *)
Definition spells (upper : string) (s : MountState) : Prop :=
  upper = MountState_name s \/ "MOUNT_STATE_" +:+ upper = MountState_name s \/
  parse_int (-2147483648) 2147483647 upper = Some (MountState_number s).

Lemma parse_int_name s : parse_int (-2147483648) 2147483647 (MountState_name s) = None.
Proof. by destruct s. Qed.

(** The name of a state without the prefix. *)
Definition short_name (s : MountState) : string := drop_string 12 (MountState_name s).

Lemma short_name_inv v s : "MOUNT_STATE_" +:+ v = MountState_name s -> v = short_name s.
Proof. by destruct s; intros [= ->]. Qed.

Lemma spells_unique upper s1 s2 : spells upper s1 -> spells upper s2 -> s1 = s2.
Proof.
  intros [->|[E1|E1]] [E2|[E2|E2]].
  - by destruct s1, s2.
  - apply short_name_inv in E2. by destruct s1, s2.
  - by rewrite parse_int_name in E2.
  - subst upper. apply short_name_inv in E1. by destruct s1, s2.
  - apply short_name_inv in E1, E2. subst upper. by destruct s1, s2.
  - apply short_name_inv in E1. subst upper. by destruct s1.
  - subst upper. by rewrite parse_int_name in E1.
  - apply short_name_inv in E2. subst upper. by destruct s2.
  - rewrite E1 in E2. by destruct s1, s2.
Qed.

Lemma parseMountState_spec v s : parseMountState v = Ok s <-> spells (strings_ToUpper v) s.
Proof.
  unfold parseMountState. cbv zeta. set (upper := strings_ToUpper v).
  assert (forall s, parseMountState v = Ok s -> spells upper s) as Hsound.
  { intros s'. unfold parseMountState. cbv zeta. fold upper.
    destruct (parse_int _ _ upper ≫= state_of_number) as [s1|] eqn:E.
    - intros [= <-]. apply bind_Some in E as (n & En & E). apply state_of_number_spec in E as ->. by right; right.
    - destruct (state_of_name _) as [s1|] eqn:E1; [|done]. intros [= <-]. apply state_of_name_spec in E1.
      destruct (HasPrefix upper _); [by left | by right; left]. }
  split; [apply Hsound|]. intros Hs.
  enough (exists s', parseMountState v = Ok s') as [s' E].
  { assert (s' = s) as <- by (eapply spells_unique; [by apply Hsound|done]). exact E. }
  unfold parseMountState. cbv zeta. fold upper.
  destruct (parse_int _ _ upper ≫= state_of_number) as [s1|] eqn:E; [eauto|].
  destruct Hs as [Hu|[Hu|Hu]].
  - rewrite Hu. exists s. by destruct s.
  - apply short_name_inv in Hu. rewrite Hu. exists s. by destruct s.
  - rewrite Hu in E. simpl in E. by rewrite (proj2 (state_of_number_spec _ s)) in E.
Qed.

Lemma parse_states_names states : parse_states (MountState_name <$> states) = Ok states.
Proof.
  induction states as [|s states IH]; [done|]. rewrite fmap_cons. cbn [parse_states].
  assert (TrimSpace (MountState_name s) = MountState_name s) as -> by (by destruct s).
  assert (parseMountState (MountState_name s) = Ok s) as ->.
  { apply parseMountState_spec. left. by destruct s. }
  rewrite IH. by destruct s.
Qed.

(** A state in a query is accepted exactly when it spells, in any case,
    the name of the state with or without its prefix, or its number; and a
    comma-separated list of state names selects exactly those states. *)
Theorem state_filters_read_back :
  (forall v s, parseMountState v = Ok s <-> spells (strings_ToUpper v) s) /\
  (forall states, listMountsRequestFromQuery {[ "state" := [Join "," (MountState_name <$> states)] ]} =
     Ok (mkListMountsRequest states None None)).
Proof.
  split; [apply parseMountState_spec|]. intros states.
  assert (parse_states (Split ","%char (Join "," (MountState_name <$> states))) = Ok states) as Hs.
  { destruct states as [|s states]; [done|]. rewrite (Split_Join ","%char); [apply parse_states_names|done|].
    apply Forall_fmap, Forall_forall. intros [] _; done. }
  unfold listMountsRequestFromQuery. cbv zeta. unfold query_values, last_value.
  rewrite lookup_singleton_eq, !lookup_singleton_ne by done. simpl. rewrite app_nil_r, Hs. done.
Qed.
End States.

Example spellings `{RestLib} :
  (fun v => parseMountState v) <$> ["MOUNT_STATE_FAILED"; "failed"; "Mount_State_Failed"; "7"; "+07"] =
  repeat (Ok MOUNT_STATE_FAILED) 5.
Proof. reflexivity. Qed.

(** ** Log queries *)

Section Logs.
Context `{GrpcLib} `{RestLib} `{LogCodec}.
Variable config : Config.

(** What the options of a log request guarantee. *)
Record log_options (q : gmap string (list string)) (o : QueryOptions) : Prop := {
  log_limit : 0 < Limit o <= maxLogLimit;
  log_limit_given : forall n, Atoi (query_Get q "limit") = Some n -> 0 < n < maxLogLimit -> Limit o = n;
  log_tail : 0 <= Tail o;
  log_tail_given : forall n, Atoi (query_Get q "tail") = Some n -> Tail o = n;
  log_tail_default : query_Get q "since" = EmptyString -> query_Get q "tail" = EmptyString -> Tail o = defaultLogTail;
  log_since : forall t, query_Get q "since" <> EmptyString -> ParseRFC3339 (query_Get q "since") = Some t ->
    t <> zero_time -> Since o = Some t
}.

Lemma count_parameter_ok name v n : count_parameter name v = Ok n -> Atoi v = Some n /\ 0 <= n.
Proof. unfold count_parameter. destruct (Atoi v) as [m|]; [|done]. destruct (m <? 0) eqn:E; [done|]. intros [= <-]. bools. split; [done|lia]. Qed.

Lemma logQueryOptions_ok q o : logQueryOptionsFromRequest q = Ok o -> log_options q o.
Proof.
  unfold logQueryOptionsFromRequest. cbv zeta. intros E.
  destruct (if String.eqb (query_Get q "since") _ then _ else _) as [[since tail0]|] eqn:E1; [|done]. simpl in E.
  destruct (if String.eqb (query_Get q "tail") _ then _ else _) as [tail|] eqn:E2; [|done]. simpl in E.
  destruct (if String.eqb (query_Get q "limit") _ then _ else _) as [limit|] eqn:E3; [|done]. simpl in E.
  injection E as <-.
  assert (0 <= tail0 /\ (query_Get q "since" = EmptyString -> tail0 = defaultLogTail) /\
    forall t, query_Get q "since" <> EmptyString -> ParseRFC3339 (query_Get q "since") = Some t -> t <> zero_time -> since = Some t)
    as (Ht0 & Htd & Hs).
  { destruct (String.eqb_spec (query_Get q "since") EmptyString) as [Es|Es].
    - injection E1 as <- <-. done.
    - destruct (ParseRFC3339 _) as [t|]; [|done]. injection E1 as <- <-. split_and!; [done..|].
      intros t' _ [= ->] Hz. unfold non_zero_time. by rewrite (proj2 (Z.eqb_neq _ _) Hz). }
  split; simpl; [| | | | |done].
  - destruct (String.eqb (query_Get q "limit") _); [by injection E3 as <-|]. destruct (count_parameter "limit" _) as [n|]; [|done].
    simpl in E3. destruct (_ && _) eqn:En; simplify_eq; bools; unfold maxLogLimit in *; lia.
  - intros n Hn Hr. destruct (String.eqb_spec (query_Get q "limit") EmptyString) as [El|El]; [by rewrite El in Hn|].
    destruct (count_parameter "limit" _) as [m|] eqn:Ec; [|done]. apply count_parameter_ok in Ec as [Ec _].
    simpl in E3. assert (m = n) as -> by congruence.
    rewrite (proj2 (Z.ltb_lt _ _) (proj1 Hr)), (proj2 (Z.ltb_lt _ _) (proj2 Hr)) in E3. by injection E3.
  - destruct (String.eqb (query_Get q "tail") _); [by injection E2 as <-|]. by apply count_parameter_ok in E2 as [_ ?].
  - intros n Hn. destruct (String.eqb_spec (query_Get q "tail") EmptyString) as [El|El]; [by rewrite El in Hn|].
    apply count_parameter_ok in E2 as [? _]. congruence.
  - intros Es Et. rewrite Et in E2. simpl in E2. injection E2 as <-. auto.
Qed.

Lemma bounded_records tail limit l :
  let b := bound_limit limit (bound_tail tail l) in
  (0 < tail -> Z.of_nat (length b) <= tail) /\ (0 < limit -> Z.of_nat (length b) <= limit) /\ (forall r, r ∈ b -> r ∈ l).
Proof.
  intros b. destruct (bound_tail_split tail l) as (x & Hx & _ & Ht).
  destruct (bound_limit_split limit (bound_tail tail l)) as (y & Hy & _ & Hl). fold b in Hy, Hl.
  split_and!; [|done|].
  - intros Hpos. specialize (Ht Hpos). rewrite Hy, length_app in Ht. lia.
  - intros r Hr. rewrite Hx, Hy. set_solver.
Qed.

(** The records of a response come from a query with proper options. *)
Lemma rest_logs_query {ops : mountOperations} {errs : ErrorLib} ok request :
  answers ok (rest_logs config request) (fun x => forall l, resp_payload (snd x) = PayloadLogs l ->
    exists o all, log_options (req_query request) o /\ l = bound_limit (Limit o) (bound_tail (Tail o) all) /\
      forall r t, r ∈ all -> Since o = Some t -> t < Record_Time r).
Proof.
  apply answers_seq. intros [got|err]; [|by apply answers_ret].
  destruct (logQueryOptionsFromRequest _) as [o|err] eqn:Eo; [|by apply answers_ret]. apply logQueryOptions_ok in Eo.
  eapply answers_bind with (R := fun x => forall l, x = Ok l -> exists all, l = bound_limit (Limit o) (bound_tail (Tail o) all) /\
      forall r t, r ∈ all -> Since o = Some t -> t < Record_Time r).
  - apply answers_act. intros e w x w' _ [= <- _] l. destruct (ReadFile _ _) as [| |data]; simpl; intros [= <-].
    + exists []. split; [|by intros r t ?%elem_of_nil]. unfold bound_tail, bound_limit.
      by repeat case_match; rewrite ?drop_nil, ?take_nil.
    + exists (query_records o data). split; [done|]. intros r t Hr. by apply query_records_since with (data := data).
  - intros [records|err] Hq; apply answers_ret; [|done]. intros l [= <-]. destruct (Hq _ eq_refl) as (all & Hl & Hs). eauto.
Qed.

(** C35: a log request never returns more than 1000 records; not more than
    the limit or the tail it asks for; the last 200 when it asks for
    nothing; and only records after the time it asks for. *)
Theorem log_queries_are_bounded {ops : mountOperations} {errs : ErrorLib} ok request t audit resp l :
  traces ok (rest_logs config request) t (Some (audit, resp)) -> resp_payload resp = PayloadLogs l ->
  let q := req_query request in
  Z.of_nat (length l) <= 1000 /\
  (forall n, Atoi (query_Get q "limit") = Some n -> 0 < n < 1000 -> Z.of_nat (length l) <= n) /\
  (forall n, Atoi (query_Get q "tail") = Some n -> 0 < n -> Z.of_nat (length l) <= n) /\
  (query_Get q "since" = EmptyString -> query_Get q "tail" = EmptyString -> Z.of_nat (length l) <= 200) /\
  (forall since r, query_Get q "since" <> EmptyString -> ParseRFC3339 (query_Get q "since") = Some since ->
     since <> zero_time -> r ∈ l -> since < Record_Time r).
Proof.
  intros Htr Hl q. destruct (answers_traces _ _ _ _ _ (rest_logs_query ok request) Htr l Hl) as (o & all & [] & -> & Hs).
  destruct (bounded_records (Tail o) (Limit o) all) as (Ht & Hm & Hin). unfold maxLogLimit in *.
  split_and!.
  - lia.
  - intros n Hn Hr. specialize (log_limit_given0 n Hn Hr). lia.
  - intros n Hn Hr. specialize (log_tail_given0 n Hn). lia.
  - intros Es Et. specialize (log_tail_default0 Es Et). unfold defaultLogTail in *. lia.
  - intros since r Hne Hp Hz Hr. apply (Hs r); [by apply Hin|]. by apply log_since0.
Qed.
End Logs.

(** ** Listings *)

(** During the request the mount of entry [e] stays registered with the
    information [i]. *)
Definition steady (id_of : entry_id -> string) (e : entry_id) (i : MountInfo) (w : World) : Prop :=
  named id_of w /\ w_mounts w !! MountInfo_MountId i = Some e /\ mm_info <$> w_entries w !! e = Some i.

#[export] Instance steady_dec id_of e i w : Decision (steady id_of e i w).
Proof. apply _. Defined.

Section Listings.
Context {errs : ErrorLib} `{GrpcLib} `{RestLib}.
Variables (id_of : entry_id -> string) (e : entry_id) (i : MountInfo).

Local Notation answers := (answers (steady id_of e i)).

Lemma range_map_NoDup {A} en (m : gmap string A) : NoDup (range_map en m).*1.
Proof.
  unfold range_map. case_bool_decide as Hp; [rewrite Hp|]; apply NoDup_fst_map_to_list.
Qed.

Lemma answers_registered_entries : answers registered_entries (fun l => NoDup (id_of <$> l) /\ e ∈ l).
Proof.
  apply answers_act. intros en w x w' (Hn & Hm & _) [= <- _]. split.
  - replace (id_of <$> (range_map en (w_mounts w)).*2) with (range_map en (w_mounts w)).*1; [apply range_map_NoDup|].
    rewrite <- list_fmap_compose. apply list_fmap_ext. intros j [k e'] Hj. simpl. symmetry.
    eapply named_mounts, range_map_sound; [done|]. by eapply list_elem_of_lookup_2.
  - apply range_map_complete with (en := en) in Hm. by apply (list_elem_of_fmap_2 snd) in Hm.
Qed.

Lemma answers_named_snapshot e' :
  answers (snapshot e') (fun x => MountInfo_MountId x = id_of e' /\ (e' = e -> x = redactMountInfo i)).
Proof.
  apply answers_act. intros en w x w' (Hn & _ & Hi) Hx. destruct (w_entries w !! e') as [m|] eqn:Em; [|done].
  injection Hx as <- _. rewrite redactMountInfo_MountId. split; [by eapply named_entry|].
  intros ->. rewrite Em in Hi. by injection Hi as ->.
Qed.

Lemma answers_named_snapshots l :
  answers (snapshots l) (fun infos => MountInfo_MountId <$> infos = id_of <$> l /\ (e ∈ l -> redactMountInfo i ∈ infos)).
Proof.
  induction l as [|e' l IH]; cbn [snapshots]; [apply answers_ret; split; [done|by intros ?%elem_of_nil]|].
  eapply answers_bind; [apply answers_named_snapshot|]. intros x [Hx Hi]. eapply answers_bind; [exact IH|].
  intros infos [Hl Hin]. apply answers_ret. split; [csimpl; congruence|].
  intros [<-|?]%elem_of_cons; [rewrite Hi by done; left | right; auto].
Qed.

Lemma NoDup_key_filter {A} (key : A -> string) (f : A -> bool) l : NoDup (key <$> l) -> NoDup (key <$> List.filter f l).
Proof.
  induction l as [|x l IH]; [done|]. csimpl. intros [Hx Hl]%NoDup_cons. destruct (f x); [|by apply IH].
  csimpl. apply NoDup_cons. split; [|by apply IH]. intros (y & Hy & Hin)%list_elem_of_fmap. apply Hx.
  rewrite Hy. apply list_elem_of_fmap_2. apply list_elem_of_In in Hin. apply filter_In in Hin as [Hin _].
  by apply list_elem_of_In.
Qed.

(** What a listing with request [r] contains. *)
Definition listing (r : ListMountsRequest) (l : list MountInfo) : Prop :=
  strictly_sorted MountInfo_MountId l /\ Forall (fun x => list_matches r x = true) l /\
  (redactMountInfo i ∈ l <-> list_matches r (redactMountInfo i) = true).

Lemma answers_ListMounts_listing ctx r :
  answers (ListMounts ctx (Some r)) (fun x => snd x = None -> listing r (fst x)).
Proof.
  apply answers_seq. intros [err|]; [by apply answers_ret|].
  eapply answers_bind.
  { eapply answers_bind; [apply answers_registered_entries|]. intros l [Hl He].
    eapply answers_mono; [|apply answers_named_snapshots]. intros infos [Hids Hin]. rewrite <- Hids in Hl.
    exact (conj Hl (Hin He)). }
  intros infos [Hnd Hin]. apply answers_ret. intros _. cbn [fst default]. split_and!.
  - by apply sort_by_sorted, NoDup_key_filter.
  - rewrite sort_by_Permutation. apply Forall_forall. intros x Hx. apply list_elem_of_In in Hx.
    by apply filter_In in Hx as [_ ?].
  - rewrite sort_by_Permutation, list_elem_of_In, filter_In, <- list_elem_of_In. tauto.
Qed.

(** C34: a listing is sorted by mount ID without repetition, contains only
    mounts that match the request, and a mount that stays as it is during
    the request is listed if and only if it matches. *)
Theorem listings_are_sorted_and_filtered daemon {url : UrlLib} {codec : RecordCodec} {irods : IrodsfsLib}
    request r t audit resp l :
  listMountsRequestFromQuery (req_query request) = Ok r ->
  traces (steady id_of e i) (rest_listMounts (ops := manager_operations daemon) request) t (Some (audit, resp)) ->
  resp_payload resp = PayloadMessage (ListMountsResponse l) ->
  strictly_sorted MountInfo_MountId l /\ Forall (fun x => list_matches r x = true) l /\
  (redactMountInfo i ∈ l <-> list_matches r (redactMountInfo i) = true).
Proof.
  intros Hr Htr Hl.
  assert (answers (rest_listMounts (ops := manager_operations daemon) request)
    (fun x => forall l, resp_payload (snd x) = PayloadMessage (ListMountsResponse l) -> listing r l)) as Hret.
  { unfold rest_listMounts. rewrite Hr. eapply answers_bind.
    - eapply answers_bind; [apply answers_ListMounts_listing|]. intros [l' err] Hx.
      apply answers_ret with (R := fun x => forall l, x = Ok l -> listing r l). intros l1 E.
      destruct err as [err|]; [by rewrite mountStatusError_plain in E|]. injection E as <-. by apply Hx.
    - intros [l'|err] Hx; apply answers_ret; [|done]. intros l1. unfold writeProtoJSON. simpl.
      destruct (Marshal_message _); [done|]. intros [= <-]. by apply Hx. }
  exact (answers_traces _ _ _ _ _ Hret Htr l Hl).
Qed.
End Listings.

(** ** The theorems on concrete requests *)

(** A log of three lines, and an environment whose files all hold it. *)
Definition example_log : string :=
  Join EmptyString (ml_written (write_lines Z.of_nat [("stdout", "one"); ("stdout", "two"); ("stderr", "three")] (Open []))).

Definition logging_env : env :=
  let e := calm 1000 [] in {|
  env_now := env_now e;
  env_rand := env_rand e;
  env_err := env_err e;
  env_cancelled := env_cancelled e;
  env_case := env_case e;
  env_umount := env_umount e;
  env_output := env_output e;
  env_pid := env_pid e;
  env_id := env_id e;
  env_order := env_order e;
  env_faults := env_faults e;
  env_fs := mkFS (EvalSymlinks (env_fs e)) (Stat (env_fs e)) (fun _ => ReadOk example_log) (Geteuid (env_fs e))
|}.

Lemma log_queries_are_bounded_witness :
  let request := example_request "home" {[ "limit" := ["2"] ]} "" in
  let run := tracing (fun _ => True) (repeat logging_env 9)
    (rest_logs (ops := @manager_operations example_config plain_urls message_errors plain_codec plain_irodsfs)
       example_config request) (world_after mounted_run) in
  match run.2 with
  | Some (_, resp) => match resp_payload resp with
                      | PayloadLogs l => Record_Message <$> l = ["one"; "two"] /\ Z.of_nat (length l) <= 2
                      | _ => False
                      end
  | None => False
  end.
Proof.
  intros request run.
  assert (match run.2 with
          | Some (_, resp) => match resp_payload resp with PayloadLogs l => Record_Message <$> l = ["one"; "two"] | _ => False end
          | None => False
          end) as H0 by (by vm_compute).
  at_response H0 audit resp E. destruct (resp_payload resp) as [| |l|] eqn:El; try destruct H0.
  destruct (@log_queries_are_bounded plain_grpc plain_rest plain_log_codec example_config
    (@manager_operations example_config plain_urls message_errors plain_codec plain_irodsfs) message_errors
    (fun _ => True) request run.1 audit resp l (tracing_result _ _ _ _ _ E) El) as (_ & H1 & _).
  split; [reflexivity|]. apply (H1 2); [reflexivity|lia].
Defined.

(** The information of the mount of the examples. *)
Definition home_info : MountInfo :=
  match w_entries (world_after mounted_run) !! 0%nat with
  | Some m => mm_info m
  | None => initial_info "home" (nfs_request home) 0
  end.

Lemma listings_are_sorted_and_filtered_witness :
  let request := example_request "" {[ "state" := ["mounted"] ]} "" in
  let run := tracing (steady (fun _ => "home") 0 home_info) (repeat (calm 4000 [home]) 9)
    (rest_listMounts (ops := @manager_operations example_config plain_urls message_errors plain_codec plain_irodsfs) request)
    (world_after mounted_run) in
  match run.2 with
  | Some (_, resp) => exists l, resp_payload resp = PayloadMessage (ListMountsResponse l) /\ redactMountInfo home_info ∈ l
  | None => False
  end.
Proof.
  intros request run.
  assert (match run.2 with
          | Some (_, resp) => match resp_payload resp with PayloadMessage (ListMountsResponse _) => True | _ => False end
          | None => False
          end) as H0 by (by vm_compute).
  at_response H0 audit resp E. destruct (resp_payload resp) as [[| | |l]| | |] eqn:El; try destruct H0.
  exists l. split; [reflexivity|].
  apply (@listings_are_sorted_and_filtered message_errors plain_grpc plain_rest (fun _ => "home") 0%nat home_info example_config
    plain_urls plain_codec plain_irodsfs request (mkListMountsRequest [MOUNT_STATE_MOUNTED] None None) run.1 audit resp l
    eq_refl (tracing_result _ _ _ _ _ E) El).
  vm_compute. reflexivity.
Defined.
