(* ===== verification/Mux.v ===== *)
(** * The HTTP routes of the daemon

    net/http.ServeMux as its documentation describes it: registering a
    pattern panics when it conflicts with an earlier one, a request goes to
    the most specific pattern that matches it, and a path that is not clean
    is redirected.  The patterns are those of RESTHandler.RegisterRoutes, the
    web page of newService and the metrics of registerMetricsRoute, in the
    order in which service.go registers them.  The Allow header of an answer
    405 is not modelled. *)

From S2P Require Import Prelude GoStrings GoPath GoErrors Api Redact Config Policy PolicyFacts Rest.

(** ** Patterns *)

(** A segment of a path, or the rest of the path after a final slash. *)
Inductive mux_segment : Type :=
| Seg (s : segment)
| Multi.

Record pattern : Type := mkPattern {
  pat_method : string;
  pat_path : list mux_segment
}.

(** What a pattern leads to. *)
Inductive target : Type :=
| ToREST (h : handler)
| ToWeb
| ToMetrics.

#[export] Instance segment_eq_dec : EqDecision segment.
Proof. solve_decision. Defined.
#[export] Instance mux_segment_eq_dec : EqDecision mux_segment.
Proof. solve_decision. Defined.
#[export] Instance pattern_eq_dec : EqDecision pattern.
Proof. solve_decision. Defined.
#[export] Instance handler_eq_dec : EqDecision handler.
Proof. solve_decision. Defined.
#[export] Instance target_eq_dec : EqDecision target.
Proof. solve_decision. Defined.

(** The value of the wildcard (empty without one) if the segments of a path
    match. *)
Fixpoint match_path (ps : list mux_segment) (path : list string) (value : string) : option string :=
  match ps, path with
  | [], [] => Some value
  | [Multi], _ :: _ => Some value
  | Seg (Literal s) :: ps', t :: path' => if String.eqb s t then match_path ps' path' value else None
  | Seg Wildcard :: ps', t :: path' => if String.eqb t EmptyString then None else match_path ps' path' t
  | _, _ => None
  end.

(** ** Conflicts *)

Inductive relationship : Type := equivalent | moreGeneral | moreSpecific | disjoint | overlaps.

#[export] Instance relationship_eq_dec : EqDecision relationship.
Proof. solve_decision. Defined.

Definition combineRelationships (r1 r2 : relationship) : relationship :=
  match r1, r2 with
  | equivalent, _ => r2
  | disjoint, _ => disjoint
  | overlaps, disjoint => disjoint
  | overlaps, _ => overlaps
  | moreGeneral, equivalent => moreGeneral
  | moreGeneral, moreSpecific => overlaps
  | moreSpecific, equivalent => moreSpecific
  | moreSpecific, moreGeneral => overlaps
  | _, _ => r2
  end.

Definition compareMethods (m1 m2 : string) : relationship :=
  if String.eqb m1 m2 then equivalent
  else if String.eqb m1 EmptyString then moreGeneral
  else if String.eqb m2 EmptyString then moreSpecific
  else if String.eqb m1 "GET" && String.eqb m2 "HEAD" then moreGeneral
  else if String.eqb m2 "GET" && String.eqb m1 "HEAD" then moreSpecific
  else disjoint.

Definition compareSegments (s1 s2 : mux_segment) : relationship :=
  match s1, s2 with
  | Multi, Multi => equivalent
  | Multi, _ => moreGeneral
  | _, Multi => moreSpecific
  | Seg Wildcard, Seg Wildcard => equivalent
  | Seg Wildcard, Seg (Literal _) => moreGeneral
  | Seg (Literal _), Seg Wildcard => moreSpecific
  | Seg (Literal a), Seg (Literal b) => if String.eqb a b then equivalent else disjoint
  end.

Definition ends_multi (ps : list mux_segment) : bool := bool_decide (last ps = Some Multi).

(** The loop of comparePaths; [multi1] and [multi2] say whether the two whole
    patterns end in a multi wildcard. *)
Fixpoint compare_from (multi1 multi2 : bool) (rel : relationship) (ps1 ps2 : list mux_segment) : relationship :=
  match ps1, ps2 with
  | s1 :: ps1', s2 :: ps2' =>
      match combineRelationships rel (compareSegments s1 s2) with
      | disjoint => disjoint
      | rel' => compare_from multi1 multi2 rel' ps1' ps2'
      end
  | [], [] => rel
  | [], _ :: _ => if multi1 then combineRelationships rel moreGeneral else disjoint
  | _ :: _, [] => if multi2 then combineRelationships rel moreSpecific else disjoint
  end.

Definition comparePaths (ps1 ps2 : list mux_segment) : relationship :=
  compare_from (ends_multi ps1) (ends_multi ps2) equivalent ps1 ps2.

Definition comparePathsAndMethods (p1 p2 : pattern) : relationship :=
  combineRelationships (compareMethods (pat_method p1) (pat_method p2)) (comparePaths (pat_path p1) (pat_path p2)).

Definition conflictsWith (p1 p2 : pattern) : bool :=
  match comparePathsAndMethods p1 p2 with equivalent | overlaps => true | _ => false end.

(** ** The mux *)

Definition mux : Type := list (pattern * target).

(** mux.Handle; [None] is a panic. *)
Definition Handle (m : mux) (x : pattern * target) : option mux :=
  if existsb (fun y => conflictsWith (fst x) (fst y)) m then None else Some (m ++ [x]).

Fixpoint Handle_all (m : mux) (l : list (pattern * target)) : option mux :=
  match l with
  | [] => Some m
  | x :: l' => m' ← Handle m x; Handle_all m' l'
  end.

(** The routes of the REST gateway, and the catch-all of the web page. *)
Definition rest_routes : list (pattern * target) :=
  (fun r => let '(m, ps, h) := r in (mkPattern m (Seg <$> ps), ToREST h)) <$> RegisterRoutes.

Definition web_route : pattern * target := (mkPattern "GET" [Multi], ToWeb).

Definition newService_mux : option mux := Handle_all [] (rest_routes ++ [web_route]).

Definition metrics_route : pattern * target := (mkPattern "GET" [Seg (Literal "metrics")], ToMetrics).

Definition registerMetricsRoute (m : mux) : option mux := Handle m metrics_route.

(** A pattern without a method matches them all. *)
Definition any_or_matches (m method : string) : bool := String.eqb m EmptyString || method_matches m method.

(** Does the pattern match, for some method or for this one? *)
Definition path_matches (segments : list string) (x : pattern * target) : bool :=
  bool_decide (is_Some (match_path (pat_path (fst x)) segments EmptyString)).

Definition request_matches (method : string) (segments : list string) (x : pattern * target) : bool :=
  any_or_matches (pat_method (fst x)) method && path_matches segments x.

Definition at_least_as_specific (x y : pattern * target) : bool :=
  match comparePathsAndMethods (fst x) (fst y) with equivalent | moreSpecific => true | _ => false end.

Definition most_specific (l : mux) : option (pattern * target) :=
  List.find (fun x => forallb (at_least_as_specific x) l) l.

Inductive answer : Type :=
| Served (t : target) (value : string)
| Redirect (path : string)
| MethodNotAllowed
| NotFound.

(** path.Clean, with the final slash put back. *)
Definition cleanPath (p : string) : string :=
  if String.eqb p EmptyString then "/"
  else
    let p := if HasPrefix p "/" then p else "/" +:+ p in
    let np := Clean p in
    if bool_decide (last (Split ch_slash p) = Some EmptyString) && negb (String.eqb np "/") then np +:+ "/" else np.

Definition serve (m : mux) (method path : string) : answer :=
  if negb (String.eqb method "CONNECT") && negb (String.eqb (cleanPath path) path) then Redirect (cleanPath path)
  else
    match Split ch_slash path with
    | EmptyString :: segments =>
        match most_specific (List.filter (request_matches method segments) m) with
        | Some (p, t) => Served t (default EmptyString (match_path (pat_path p) segments EmptyString))
        | None => if existsb (path_matches segments) m then MethodNotAllowed else NotFound
        end
    | _ => NotFound
    end.

(** ** The web page *)

(** web.Handler: [indexHTML] is the embedded file. *)
Record page : Type := mkPage { page_status : Z; page_ContentType : string; page_body : string }.

Definition web_Handler (indexHTML : string) : page := mkPage 200 "text/html; charset=utf-8" indexHTML.

(** ** Patterns that are disjoint *)

Lemma combine_disjoint r1 r2 : combineRelationships r1 r2 = disjoint -> r1 = disjoint \/ r2 = disjoint.
Proof. destruct r1, r2; simpl; auto; discriminate. Qed.

Lemma combine_not_disjoint r1 r2 : r1 <> disjoint -> r2 <> disjoint -> combineRelationships r1 r2 <> disjoint.
Proof. intros H1 H2 [?|?]%combine_disjoint; auto. Qed.

(** No request has a method that two disjoint ones match. *)
Lemma compareMethods_sound m1 m2 m :
  any_or_matches m1 m = true -> any_or_matches m2 m = true -> compareMethods m1 m2 <> disjoint.
Proof.
  unfold any_or_matches, method_matches, compareMethods. intros H1 H2.
  destruct (String.eqb m1 m2) eqn:E; [done|]. destruct (String.eqb m1 EmptyString); [done|].
  destruct (String.eqb m2 EmptyString); [done|]. simpl in *.
  apply orb_true_iff in H1 as [H1|H1], H2 as [H2|H2]; bools; subst; by rewrite ?String.eqb_refl in *.
Qed.

Lemma match_path_cons s ps path value v :
  match_path (s :: ps) path value = Some v -> s <> Multi ->
  exists t path' value', path = t :: path' /\ match_path ps path' value' = Some v /\
    match s with Seg (Literal l) => l = t | _ => True end.
Proof.
  intros Hm Hs. destruct s as [[l|]|]; [..|done]; (destruct path as [|t path']; [done|]); simpl in Hm.
  - destruct (String.eqb l t) eqn:El; [|done]. apply String.eqb_eq in El. eauto 10.
  - destruct (String.eqb t _); [done|]. eauto 10.
Qed.

Lemma match_path_multi ps path value v : match_path (Multi :: ps) path value = Some v -> ps = [] /\ path <> [].
Proof. destruct ps, path; done. Qed.

(** A pattern that ends matches the end of a path only. *)
Lemma compare_from_sound m1 m2 : forall ps1 ps2 rel path value1 value2 v1 v2,
  rel <> disjoint -> (ps1 <> [] -> m1 = ends_multi ps1) -> (ps2 <> [] -> m2 = ends_multi ps2) ->
  match_path ps1 path value1 = Some v1 -> match_path ps2 path value2 = Some v2 ->
  compare_from m1 m2 rel ps1 ps2 <> disjoint.
Proof.
  induction ps1 as [|s1 ps1 IH]; intros [|s2 ps2] rel path value1 value2 v1 v2 Hr E1 E2 H1 H2; simpl; [done|..].
  - destruct path; [|done]. destruct s2 as [[]|]; try done. by destruct ps2.
  - destruct path; [|done]. destruct s1 as [[]|]; try done. by destruct ps1.
  - assert (forall s : mux_segment, s = Multi \/ s <> Multi) as Hdec by (intros [|]; [by right|by left]).
    assert (compareSegments s1 s2 <> disjoint ->
      (forall r', r' <> disjoint -> compare_from m1 m2 r' ps1 ps2 <> disjoint) ->
      match combineRelationships rel (compareSegments s1 s2) with
      | disjoint => disjoint
      | rel' => compare_from m1 m2 rel' ps1 ps2
      end <> disjoint) as Hstep.
    { intros Hs Hrest. pose proof (combine_not_disjoint _ _ Hr Hs) as Hc. destruct (combineRelationships _ _); by auto. }
    apply Hstep; clear Hstep.
    + destruct (Hdec s1) as [->|N1]; [by destruct s2|]. destruct (Hdec s2) as [->|N2]; [by destruct s1 as [[]|]|].
      destruct (match_path_cons _ _ _ _ _ H1 N1) as (t & p1 & w1 & -> & _ & L1).
      destruct (match_path_cons _ _ _ _ _ H2 N2) as (t' & p2 & w2 & [= <- <-] & _ & L2).
      destruct s1 as [[a|]|], s2 as [[b|]|]; simpl; try done. by rewrite L1, L2, String.eqb_refl.
    + intros r' Hr'. destruct (Hdec s1) as [->|N1].
      { apply match_path_multi in H1 as [-> _]. rewrite (E1 ltac:(done)). destruct ps2; [done|]. by apply combine_not_disjoint. }
      destruct (Hdec s2) as [->|N2].
      { apply match_path_multi in H2 as [-> _]. rewrite (E2 ltac:(done)). destruct ps1; [done|]. by apply combine_not_disjoint. }
      destruct (match_path_cons _ _ _ _ _ H1 N1) as (t & p1 & w1 & -> & M1 & _).
      destruct (match_path_cons _ _ _ _ _ H2 N2) as (t' & p2 & w2 & [= <- <-] & M2 & _).
      eapply IH; [done| | |exact M1|exact M2]; intros Hn; [rewrite (E1 ltac:(done))|rewrite (E2 ltac:(done))]; unfold ends_multi.
      * by destruct ps1.
      * by destruct ps2.
Qed.

(** Two patterns that match one request are not disjoint. *)
Lemma matching_not_disjoint method segments x y :
  request_matches method segments x = true -> request_matches method segments y = true ->
  comparePathsAndMethods (fst x) (fst y) <> disjoint.
Proof.
  unfold request_matches, path_matches. intros [M1 P1]%andb_true_iff [M2 P2]%andb_true_iff.
  apply bool_decide_eq_true in P1 as [v1 P1], P2 as [v2 P2].
  apply combine_not_disjoint; [by eapply compareMethods_sound|]. by eapply compare_from_sound.
Qed.

(** ** The routes of the daemon *)

Definition daemon_mux : mux := rest_routes ++ [web_route; metrics_route].

(** The table, checked pair by pair. *)
Definition is_rest (x : pattern * target) : bool := match snd x with ToREST _ => true | _ => false end.

Lemma daemon_mux_pairs : forall x y, x ∈ daemon_mux -> y ∈ daemon_mux ->
  (at_least_as_specific x y = true -> at_least_as_specific y x = true -> x = y) /\
  (is_rest x = true -> comparePathsAndMethods (fst x) (fst y) <> disjoint -> at_least_as_specific x y = true).
Proof.
  assert (forallb (fun x => forallb (fun y =>
    (negb (at_least_as_specific x y && at_least_as_specific y x) || bool_decide (x = y)) &&
    (negb (is_rest x) || bool_decide (comparePathsAndMethods (fst x) (fst y) = disjoint) || at_least_as_specific x y))
    daemon_mux) daemon_mux = true) as H by (vm_compute; reflexivity).
  intros x y Hx Hy. rewrite forallb_forall in H. specialize (H x (proj1 (list_elem_of_In _ _) Hx)).
  rewrite forallb_forall in H. specialize (H y (proj1 (list_elem_of_In _ _) Hy)). apply andb_true_iff in H as [Ha Hb]. split.
  - intros E1 E2. rewrite E1, E2 in Ha. by apply bool_decide_eq_true in Ha.
  - intros Hr Hd. rewrite Hr, bool_decide_eq_false_2 in Hb by done. done.
Qed.

Lemma most_specific_is x (l : mux) :
  (forall y, y ∈ l -> y ∈ daemon_mux) -> x ∈ l -> (forall y, y ∈ l -> at_least_as_specific x y = true) ->
  most_specific l = Some x.
Proof.
  intros Hl Hx Hle. unfold most_specific. destruct (List.find _ l) as [z|] eqn:Ez.
  - apply find_some in Ez as [Hz Hall]. apply list_elem_of_In in Hz. f_equal. rewrite forallb_forall in Hall.
    apply (daemon_mux_pairs z x); auto. apply Hall. by apply list_elem_of_In.
  - exfalso. pose proof (find_none _ _ Ez x (proj1 (list_elem_of_In _ _) Hx)) as Hf. simpl in Hf.
    assert (forallb (at_least_as_specific x) l = true) as Ht; [|congruence].
    apply forallb_forall. intros y Hy. by apply Hle, list_elem_of_In.
Qed.

Lemma match_path_Seg ps path value : match_path (Seg <$> ps) path value = match_segments ps path value.
Proof.
  revert path value. induction ps as [|[s|] ps IH]; intros [|t path] value; try done; simpl; by rewrite ?IH.
Qed.

Lemma slash_split path : HasPrefix path "/" = true -> exists segments, Split ch_slash path = EmptyString :: segments /\ segments <> [].
Proof.
  destruct path as [|c path]; [done|]. unfold HasPrefix. cbn [String.prefix]. destruct (ascii_dec _ c) as [<-|]; [|done]. intros _.
  exists (Split ch_slash path). split; [done|apply Split_nonempty].
Qed.

Lemma clean_split path : cleanPath path = path -> exists segments, Split ch_slash path = EmptyString :: segments /\ segments <> [].
Proof.
  intros Hc. apply slash_split. rewrite <- Hc. unfold cleanPath. destruct (String.eqb path EmptyString); [reflexivity|].
  assert (forall s, HasPrefix (String ch_slash s) "/" = true) as Hs by (by intros []).
  assert (forall p, IsAbs p = true -> HasPrefix (Clean p) "/" = true /\ HasPrefix (Clean p +:+ "/") "/" = true) as Ha.
  { intros p Hp. rewrite (Clean_abs p Hp). split; apply Hs. }
  cbv zeta. destruct (HasPrefix path "/") eqn:E; destruct (_ && _); apply Ha; [done..|apply Hs|apply Hs].
Qed.

(** What the routes of the REST gateway match. *)
Lemma rest_methods m ps h method : (m, ps, h) ∈ RegisterRoutes -> any_or_matches m method = method_matches m method.
Proof.
  intros Hr. assert (Forall (fun r => String.eqb r.1.1 EmptyString = false) RegisterRoutes) as Ha by (by repeat constructor).
  rewrite Forall_forall in Ha. unfold any_or_matches. pose proof (Ha _ Hr) as E. cbn in E. by rewrite E.
Qed.

Lemma rest_routes_elem x :
  x ∈ rest_routes <-> exists m ps h, (m, ps, h) ∈ RegisterRoutes /\ x = (mkPattern m (Seg <$> ps), ToREST h).
Proof.
  unfold rest_routes. rewrite list_elem_of_fmap. split.
  - intros ([[m ps] h] & -> & Hr). by exists m, ps, h.
  - intros (m & ps & h & Hr & ->). by exists (m, ps, h).
Qed.

Lemma rest_request_matches method segments m ps h :
  request_matches method segments (mkPattern m (Seg <$> ps), ToREST h) =
  any_or_matches m method && bool_decide (is_Some (match_segments ps segments EmptyString)).
Proof. unfold request_matches, path_matches. simpl. by rewrite match_path_Seg. Qed.

Lemma route_Some method path segments h v :
  Split ch_slash path = EmptyString :: segments -> route method path = Some (h, v) ->
  exists m ps, (m, ps, h) ∈ RegisterRoutes /\ method_matches m method = true /\ match_segments ps segments EmptyString = Some v.
Proof.
  intros Es Hr. unfold route in Hr. rewrite Es in Hr. set (f := fun r : string * list segment * handler => _) in Hr.
  destruct (omap f RegisterRoutes) as [|x l] eqn:Eo; [done|]. injection Hr as ->.
  assert ((h, v) ∈ omap f RegisterRoutes) as Hin by (rewrite Eo; left).
  apply list_elem_of_omap in Hin as ([[m ps] h'] & Hr & Hf). unfold f in Hf. destruct (method_matches m method) eqn:Em; [|done].
  apply fmap_Some in Hf as (v' & Hv & [= -> ->]). by exists m, ps.
Qed.

Lemma route_None method path segments m ps h :
  Split ch_slash path = EmptyString :: segments -> route method path = None -> (m, ps, h) ∈ RegisterRoutes ->
  method_matches m method = true -> match_segments ps segments EmptyString = None.
Proof.
  intros Es Hr Hin Hm. unfold route in Hr. rewrite Es in Hr. set (f := fun r : string * list segment * handler => _) in Hr.
  destruct (match_segments ps segments EmptyString) as [v|] eqn:Ev; [exfalso|done].
  assert ((h, v) ∈ omap f RegisterRoutes) as Hx.
  { apply list_elem_of_omap. exists (m, ps, h). split; [done|]. unfold f. by rewrite Hm, Ev. }
  destruct (omap f RegisterRoutes); [by apply not_elem_of_nil in Hx|done].
Qed.

(** The candidates of a request are the entries of the table that match. *)
Notation candidates method segments := (List.filter (request_matches method segments) daemon_mux).

Lemma candidates_elem method segments x :
  x ∈ candidates method segments <-> x ∈ daemon_mux /\ request_matches method segments x = true.
Proof. by rewrite !list_elem_of_In, filter_In. Qed.

Lemma daemon_mux_elem x : x ∈ daemon_mux <-> x ∈ rest_routes \/ x = web_route \/ x = metrics_route.
Proof. unfold daemon_mux. rewrite elem_of_app, !elem_of_cons, elem_of_nil. tauto. Qed.

Lemma web_matches segments : segments <> [] -> path_matches segments web_route = true.
Proof. destruct segments; [done|]. intros _. apply bool_decide_eq_true. by eexists. Qed.

Lemma metrics_matches method segments :
  request_matches method segments metrics_route = true <-> method_matches "GET" method = true /\ segments = ["metrics"].
Proof.
  unfold request_matches, any_or_matches, path_matches, metrics_route. cbn [fst pat_method pat_path]. rewrite andb_true_iff, bool_decide_eq_true.
  split; intros [H1 H2]; (split; [done|]).
  - destruct H2 as [v Hv]. destruct segments as [|t [|t' segments]]; [done|..]; cbn [match_path] in Hv;
      destruct (String.eqb "metrics" t) eqn:Et; try done. by apply String.eqb_eq in Et as <-.
  - subst. by eexists.
Qed.

(** A route of the gateway that matches wins. *)
Lemma rest_wins method segments m ps h v :
  (m, ps, h) ∈ RegisterRoutes -> method_matches m method = true -> match_segments ps segments EmptyString = Some v ->
  most_specific (candidates method segments) = Some (mkPattern m (Seg <$> ps), ToREST h).
Proof.
  intros Hr Hm Hv. set (x := (mkPattern m (Seg <$> ps), ToREST h)).
  assert (x ∈ daemon_mux) as Hx by (apply daemon_mux_elem; left; apply rest_routes_elem; by exists m, ps, h).
  assert (request_matches method segments x = true) as Hreq
    by (unfold x; rewrite rest_request_matches, (rest_methods _ _ _ _ Hr), Hm; apply bool_decide_eq_true; by eexists).
  apply most_specific_is.
  - by intros y [? _]%candidates_elem.
  - by apply candidates_elem.
  - intros y [Hy Hmy]%candidates_elem. destruct (daemon_mux_pairs x y Hx Hy) as [_ Hle]. apply Hle; [done|].
    by eapply matching_not_disjoint.
Qed.

(** Without one, a GET or HEAD request gets the metrics or the page. *)
Lemma fallback_wins method segments :
  (forall x, x ∈ rest_routes -> request_matches method segments x = false) ->
  method_matches "GET" method = true -> segments <> [] ->
  most_specific (candidates method segments) = Some (if bool_decide (segments = ["metrics"]) then metrics_route else web_route).
Proof.
  intros Hrest Hm Hs. assert (request_matches method segments web_route = true) as Hw
    by (unfold request_matches, any_or_matches; rewrite web_matches by done; cbn [web_route fst pat_method]; by rewrite Hm).
  assert (forall y, y ∈ candidates method segments -> y = web_route \/ (y = metrics_route /\ segments = ["metrics"])) as Hall.
  { intros y [[Hy|[->| ->]]%daemon_mux_elem Hmy]%candidates_elem; [by rewrite Hrest in Hmy|by left|right].
    apply metrics_matches in Hmy as [_ ->]. done. }
  apply most_specific_is.
  - by intros y [? _]%candidates_elem.
  - apply candidates_elem. case_bool_decide as E.
    + split; [apply daemon_mux_elem; auto|]. by apply metrics_matches.
    + split; [apply daemon_mux_elem; auto|done].
  - intros y Hy. destruct (Hall y Hy) as [->|[-> ->]]; case_bool_decide; try done; by vm_compute.
Qed.

(** Where a request with a clean path goes. *)
Definition destination (method path : string) : answer :=
  match route method path with
  | Some (h, v) => Served (ToREST h) v
  | None =>
      if method_matches "GET" method
      then Served (if String.eqb path "/metrics" then ToMetrics else ToWeb) EmptyString
      else MethodNotAllowed
  end.

Lemma metrics_path path segments :
  Split ch_slash path = EmptyString :: segments -> String.eqb path "/metrics" = bool_decide (segments = ["metrics"]).
Proof.
  intros Es. case_bool_decide as E.
  - subst. rewrite <- (Join_Split ch_slash path), Es. reflexivity.
  - apply String.eqb_neq. intros ->. apply E. by injection Es as <-.
Qed.

Lemma serve_destination method path : cleanPath path = path -> serve daemon_mux method path = destination method path.
Proof.
  intros Hc. destruct (clean_split path Hc) as (segments & Es & Hne). unfold serve, destination.
  rewrite Hc, String.eqb_refl, andb_false_r, Es. cbv match.
  destruct (route method path) as [[h v]|] eqn:Er.
  - destruct (route_Some _ _ _ _ _ Es Er) as (m & ps & Hr & Hm & Hv). rewrite (rest_wins _ _ _ _ _ _ Hr Hm Hv).
    cbn [pat_path]. by rewrite match_path_Seg, Hv.
  - assert (forall x, x ∈ rest_routes -> request_matches method segments x = false) as Hrest.
    { intros x (m & ps & h & Hr & ->)%rest_routes_elem. rewrite rest_request_matches, (rest_methods _ _ _ _ Hr).
      destruct (method_matches m method) eqn:Em; [|done]. by rewrite (route_None _ _ _ _ _ _ Es Er Hr Em). }
    destruct (method_matches "GET" method) eqn:Eg.
    + rewrite (fallback_wins _ _ Hrest Eg Hne), (metrics_path _ _ Es). case_bool_decide as E; [by subst|].
      by destruct segments.
    + assert (candidates method segments = []) as ->.
      { destruct (candidates method segments) as [|y l] eqn:Ec; [done|exfalso].
        assert (y ∈ candidates method segments) as Hy by (rewrite Ec; left).
        apply candidates_elem in Hy as [[Hy|[->| ->]]%daemon_mux_elem Hmy]; [by rewrite Hrest in Hmy|..];
          unfold request_matches, any_or_matches in Hmy; cbn [web_route metrics_route fst pat_method] in Hmy; by rewrite Eg in Hmy. }
      change (most_specific []) with (@None (pattern * target)). cbv match.
      rewrite (proj2 (existsb_exists (path_matches segments) daemon_mux)); [done|].
      exists web_route. split; [apply list_elem_of_In, daemon_mux_elem; auto|by apply web_matches].
Qed.

(** ** Locations *)

(** A path of proper elements is clean. *)
Lemma cleanPath_apath l : normal true l -> l <> [] -> cleanPath (apath l) = apath l.
Proof.
  intros Hn Hne. assert (Split ch_slash (apath l) = EmptyString :: l) as Es.
  { apply elements_apath; [done|by eapply normal_lacks]. }
  assert (last (Split ch_slash (apath l)) <> Some EmptyString) as Hl.
  { rewrite Es. destruct l as [|x l] using rev_ind; [done|]. rewrite app_comm_cons, last_snoc. intros [= ->].
    apply normal_true_iff, Forall_app in Hn as [_ Hn]. inversion Hn as [|? ? [[? _] _]]. done. }
  unfold cleanPath. change (String.eqb (apath l) EmptyString) with false. cbv iota.
  replace (HasPrefix (apath l) "/") with true by (symmetry; apply IsAbs_apath). cbv zeta.
  by rewrite bool_decide_eq_false_2, Clean_apath by done.
Qed.

Lemma mount_path_normal id rest :
  seg_ok id -> id <> dotdot -> Forall (fun x => seg_ok x /\ x <> dotdot) rest -> normal true (["api"; "v1"; "mounts"; id] ++ rest).
Proof.
  intros Hs Hd Hr. apply normal_true_iff. apply Forall_app. split; [|done].
  do 3 (apply Forall_cons_2; [by split; [split|]|]). apply Forall_cons_2; [done|constructor].
Qed.

(** The Location of a mount leads to the handlers of that mount. *)
Lemma route_locations id :
  seg_ok id ->
  route "GET" ("/api/v1/mounts/" +:+ id) = Some (HandleGetMount, id) /\
  route "DELETE" ("/api/v1/mounts/" +:+ id) = Some (HandleUnmount, id) /\
  route "GET" ("/api/v1/mounts/" +:+ id +:+ "/logs") = Some (HandleLogs, id).
Proof.
  intros (Hne & _ & Hs).
  assert (Split ch_slash ("/api/v1/mounts/" +:+ id) = [""; "api"; "v1"; "mounts"; id]) as E1.
  { rewrite <- (Split_Join ch_slash [""; "api"; "v1"; "mounts"; id]); [done..|]. by repeat constructor. }
  assert (Split ch_slash ("/api/v1/mounts/" +:+ id +:+ "/logs") = [""; "api"; "v1"; "mounts"; id; "logs"]) as E2.
  { rewrite <- (Split_Join ch_slash [""; "api"; "v1"; "mounts"; id; "logs"]); [done..|]. by repeat constructor. }
  unfold route. rewrite E1, E2. simpl. by rewrite (proj2 (String.eqb_neq _ _) Hne).
Qed.

(** C36: the service registers its routes without a conflict, so that
    building it does not panic, and every request with a clean path reaches
    one place: the REST handler whose route matches; else, for GET and HEAD,
    the metrics at their path and the web page everywhere else; any other
    method is answered with 405.  For every mount ID that the daemon accepts
    the Location of the mount leads back to it: reading it, deleting it and
    reading its logs reach the right handler with that ID. *)
Theorem requests_reach_one_handler :
  (newService_mux ≫= registerMetricsRoute) = Some daemon_mux /\
  (forall method path, cleanPath path = path -> serve daemon_mux method path = destination method path) /\
  (forall id, validateMountID id = None -> id <> EmptyString ->
     serve daemon_mux "GET" ("/api/v1/mounts/" +:+ id) = Served (ToREST HandleGetMount) id /\
     serve daemon_mux "DELETE" ("/api/v1/mounts/" +:+ id) = Served (ToREST HandleUnmount) id /\
     serve daemon_mux "GET" ("/api/v1/mounts/" +:+ id +:+ "/logs") = Served (ToREST HandleLogs) id).
Proof.
  split_and!; [vm_compute; reflexivity|intros method path; apply serve_destination|].
  intros id Hid Hne. destruct (validateMountID_seg _ Hid Hne) as [Hs Hd]. destruct (route_locations id Hs) as (R1 & R2 & R3).
  assert (cleanPath ("/api/v1/mounts/" +:+ id) = "/api/v1/mounts/" +:+ id) as C1.
  { apply (cleanPath_apath (["api"; "v1"; "mounts"; id] ++ [])); [by apply mount_path_normal|done]. }
  assert (cleanPath ("/api/v1/mounts/" +:+ id +:+ "/logs") = "/api/v1/mounts/" +:+ id +:+ "/logs") as C2.
  { apply (cleanPath_apath (["api"; "v1"; "mounts"; id] ++ ["logs"])); [|done]. apply mount_path_normal; [done..|].
    by apply Forall_cons_2; [split; [split|]|constructor]. }
  rewrite !serve_destination by done. unfold destination. by rewrite R1, R2, R3.
Qed.

Lemma requests_reach_one_handler_witness :
  serve daemon_mux "GET" "/api/v1/mounts/vol-1_a/logs" = Served (ToREST HandleLogs) "vol-1_a" /\
  serve daemon_mux "GET" "/metrics" = Served ToMetrics EmptyString.
Proof.
  destruct requests_reach_one_handler as (_ & Hserve & Hloc).
  exact (conj (proj2 (proj2 (Hloc "vol-1_a" eq_refl ltac:(discriminate)))) (Hserve "GET" "/metrics" eq_refl)).
Defined.

(** An unknown path below the API is answered with the web page, a wrong
    method with 405, and a path with a dot segment is redirected. *)
Example mux_answers :
  serve daemon_mux "GET" "/api/v1/mount" = Served ToWeb EmptyString /\
  serve daemon_mux "HEAD" "/metrics" = Served ToMetrics EmptyString /\
  serve daemon_mux "PUT" "/api/v1/mounts/home" = MethodNotAllowed /\
  serve daemon_mux "GET" "/api/v1/mounts/../mounts" = Redirect "/api/v1/mounts".
Proof. vm_compute. by repeat split. Qed.

(** Without a method, the metrics would conflict with the web page, as the
    comment on registerMetricsRoute says. *)
Example methodless_patterns_conflict :
  Handle [web_route] (mkPattern EmptyString [Seg (Literal "metrics")], ToMetrics) = None.
Proof. reflexivity. Qed.
