(* ===== verification/Client.v ===== *)
(** * The client library (client/client.go, client/types.go)

    MountServiceClient: one shared object, API calls that may run
    concurrently, and a goroutine that reconnects in the background.  A
    *grpc.ClientConn is an index into the connections created so far, a
    cancellable context an index into their cancel flags; the API client of
    a connection is the connection.  Atomic variables and critical sections
    are single actions; [bgCancelMu] is held across atomic operations and
    is part of the state.  gRPC is not part of the repository: what a call
    returns and which states a connection goes through come from the
    environment.  A call lasts from its request to its answer; when no
    answer comes it goes on until its context has ended, and returns with
    the error of the context then.  In the same way a wait for a connection
    returns false only when its context has ended.  Logging is left out. *)

From S2P Require Import Prelude GoStrings GoPath GoErrors Threads Grpc Api Config.

(** ** State *)

Notation conn := nat (only parsing).
Notation cancel_id := nat (only parsing).

Record MountServiceClient : Type := mkMountServiceClient {
  client_id : string;
  address : string;
  operationTimeout : Z;
  grpcConnection : option conn;
  apiClient : option conn;
  connected : bool;
  autoReconnect : bool;
  reconnectingFlag : Z;
  bgCancelMu : bool;
  bgCancel : option cancel_id;
  reconnectSequence : Z
}.

Record connection : Type := mkConnection {
  conn_scheme : string;
  conn_endpoint : string;
  conn_dialing : bool;
  conn_open : bool
}.

(** The methods of the service, with their requests. *)
Inductive rpc : Type :=
| RpcMount (request : MountRequest)
| RpcUnmount (request : UnmountRequest)
| RpcListMounts (request : ListMountsRequest)
| RpcGetMount (mountID : string)
| RpcReady
| RpcWatchMountEvents (request : WatchMountEventsRequest).

(** A context: the cancel function it depends on and its deadline. *)
Record ctx : Type := mkCtx {
  ctx_parent : option cancel_id;
  ctx_deadline : option Z
}.
Definition ctx_background : ctx := mkCtx None None.

Record client_world : Type := mkClientWorld {
  cw_client : MountServiceClient;
  cw_connections : list connection;
  cw_cancelled : list bool;
  cw_clock : Z;
  cw_sent : list (conn * ctx * rpc)
}.

Definition set_grpcConnection (v : option conn) (c : MountServiceClient) : MountServiceClient :=
  let '(mkMountServiceClient a b d _ f g h i j k l) := c in mkMountServiceClient a b d v f g h i j k l.
Definition set_apiClient (v : option conn) (c : MountServiceClient) : MountServiceClient :=
  let '(mkMountServiceClient a b d e _ g h i j k l) := c in mkMountServiceClient a b d e v g h i j k l.
Definition set_connected (v : bool) (c : MountServiceClient) : MountServiceClient :=
  let '(mkMountServiceClient a b d e f _ h i j k l) := c in mkMountServiceClient a b d e f v h i j k l.
Definition set_reconnectingFlag (v : Z) (c : MountServiceClient) : MountServiceClient :=
  let '(mkMountServiceClient a b d e f g h _ j k l) := c in mkMountServiceClient a b d e f g h v j k l.
Definition set_bgCancelMu (v : bool) (c : MountServiceClient) : MountServiceClient :=
  let '(mkMountServiceClient a b d e f g h i _ k l) := c in mkMountServiceClient a b d e f g h i v k l.
Definition set_bgCancel (v : option cancel_id) (c : MountServiceClient) : MountServiceClient :=
  let '(mkMountServiceClient a b d e f g h i j _ l) := c in mkMountServiceClient a b d e f g h i j v l.
Definition set_reconnectSequence (v : Z) (c : MountServiceClient) : MountServiceClient :=
  let '(mkMountServiceClient a b d e f g h i j k _) := c in mkMountServiceClient a b d e f g h i j k v.

Definition on_client (f : MountServiceClient -> MountServiceClient) (w : client_world) : client_world :=
  let '(mkClientWorld c cs xs t s) := w in mkClientWorld (f c) cs xs t s.
Definition set_cw_connections (v : list connection) (w : client_world) : client_world :=
  let '(mkClientWorld c _ xs t s) := w in mkClientWorld c v xs t s.
Definition set_cw_cancelled (v : list bool) (w : client_world) : client_world :=
  let '(mkClientWorld c cs _ t s) := w in mkClientWorld c cs v t s.
Definition set_cw_clock (v : Z) (w : client_world) : client_world :=
  let '(mkClientWorld c cs xs _ s) := w in mkClientWorld c cs xs v s.
Definition set_cw_sent (v : list (conn * ctx * rpc)) (w : client_world) : client_world :=
  let '(mkClientWorld c cs xs t _) := w in mkClientWorld c cs xs t v.

(** ** What the client does not decide *)

(** The states of a connection that has not been closed; a closed one is in
    state Shutdown. *)
Inductive live_state : Type := Idle | Connecting | StateReady | TransientFailure.

(** An event as the client receives it: the mount may be missing. *)
Record received_event : Type := mkReceived {
  received_Type : MountEventType;
  received_Mount : option MountInfo
}.

(** What a stream delivers, and how it ends ([None]: it stays open). *)
Record stream : Type := mkStream {
  stream_events : list received_event;
  stream_end : option rpcerror
}.

Record client_env : Type := mkClientEnv {
  env_elapsed : N;                          (* time that passes during the action *)
  env_NewClient : option goerror;           (* error of grpc.NewClient *)
  env_states : list live_state;             (* states seen by waitForReady *)
  env_done_first : bool;                    (* the case of a select when both are ready *)
  env_answers : bool;                       (* the server answers a call before its context ends *)
  env_Mount : result rpcerror (option MountInfo);
  env_Unmount : result rpcerror (option MountInfo);
  env_ListMounts : result rpcerror (list MountInfo);
  env_GetMount : result rpcerror (option MountInfo);
  env_Ready : result rpcerror unit;
  env_Watch : result rpcerror unit;
  env_stream : stream                       (* what Recv delivers *)
}.

Record ListMountsFilter : Type := mkListMountsFilter {
  filter_States : list MountState;
  filter_MountPathPrefix : option string;
  filter_ClientUser : option string
}.

(** The calls an application makes, and the goroutine of the client. *)
Inductive client_thread : Type :=
| TcConnect
| TcDisconnect
| TcMount (mountID : string) (config : option MountConfig) (wait : bool)
| TcUnmount (mountID : string)
| TcListMounts (filter : option ListMountsFilter)
| TcGetMount (mountID : string)
| TcReady
| TcWatchMountEvents (request : option WatchMountEventsRequest)
| TcBackgroundReconnect (bgCtx : cancel_id) (sequence : Z).

Notation cprog := (program client_world client_env client_thread).

(** ** Constants *)

Definition reconnectInitialInterval : Z := 1 * Second.
Definition reconnectMaxInterval : Z := 1 * Minute.
Definition reconnectTimeout : Z := 60 * Minute.

Definition NewMountServiceClient (clientID : string) (addr : string) (timeout : Z) (auto : bool) : MountServiceClient :=
  mkMountServiceClient clientID addr timeout None None false auto 0 false None 0.

Definition isTransportError (err : rpcerror) : bool :=
  match err with
  | RStatus code _ => bool_decide (code = codes_Unavailable)
  | RPlain _ => false
  end.

(** ** Time and contexts *)

Definition advance (e : client_env) (w : client_world) : client_world :=
  set_cw_clock (cw_clock w + Z.of_N (env_elapsed e)) w.

Definition now : cprog Z := update (fun e w => (cw_clock (advance e w), advance e w)).

Definition earlier (a : option Z) (b : Z) : Z := match a with Some a => Z.min a b | None => b end.

(** context.WithTimeout *)
Definition WithTimeout (parent : ctx) (timeout : Z) : cprog ctx :=
  t ← now; mret (mkCtx (ctx_parent parent) (Some (earlier (ctx_deadline parent) (t + timeout)))).

Definition is_cancelled (w : client_world) (c : option cancel_id) : bool :=
  match c with Some i => default false (cw_cancelled w !! i) | None => false end.

(** ctx.Err() != nil *)
Definition ctx_ended (w : client_world) (c : ctx) : bool :=
  is_cancelled w (ctx_parent c) || match ctx_deadline c with Some d => d <=? cw_clock w | None => false end.

Definition context_Err (c : ctx) : cprog bool := update (fun e w => (ctx_ended (advance e w) c, advance e w)).

(** context.WithCancel(context.Background()) *)
Definition WithCancel : cprog cancel_id :=
  update (fun _ w => (length (cw_cancelled w), set_cw_cancelled (cw_cancelled w ++ [false]) w)).

(** select { case <-ctx.Done(): true; case <-timer.C: false } *)
Definition done_or_timer (c : ctx) (fires : Z) : cprog bool :=
  perform (fun e w =>
    let w := advance e w in
    match ctx_ended w c, fires <=? cw_clock w with
    | false, false => Waits
    | true, false => Goes true w []
    | false, true => Goes false w []
    | true, true => Goes (env_done_first e) w []
    end).

(** ** Connections *)

Definition is_open (w : client_world) (c : conn) : bool := from_option conn_open false (cw_connections w !! c).

Definition alter_connection (f : connection -> connection) (c : conn) (w : client_world) : client_world :=
  set_cw_connections (alter f c (cw_connections w)) w.

Definition connection_Connect (c : conn) : cprog unit :=
  modify (alter_connection (fun x => mkConnection (conn_scheme x) (conn_endpoint x) true (conn_open x)) c).

Definition close_connection (x : connection) : connection :=
  mkConnection (conn_scheme x) (conn_endpoint x) (conn_dialing x) false.

Definition connection_Close (c : conn) : cprog unit := modify (alter_connection close_connection c).

Definition close_if_some (c : option conn) : cprog unit :=
  match c with Some c => connection_Close c | None => mret tt end.

(** The states seen by the loop of waitForReady, until one decides. *)
Fixpoint becomes_ready (states : list live_state) : bool :=
  match states with
  | [] => false
  | StateReady :: _ => true
  | _ :: rest => becomes_ready rest
  end.

Definition waitForReady (c : ctx) (connection : conn) : cprog bool :=
  perform (fun e w =>
    let w := advance e w in
    if negb (is_open w connection) then Goes false w []
    else if becomes_ready (env_states e) then Goes true w []
    else if ctx_ended w c then Goes false w []
    else Waits).

Section Client.
Context `{UrlLib}.

Definition newConnection : cprog (result goerror (conn * string)) :=
  update (fun e w =>
    let addr := address (cw_client w) in
    match ParseServiceEndpoint addr with
    | Err err => (Err err, w)
    | Ok (scheme, endpoint) =>
        if negb (String.eqb scheme "unix") && negb (String.eqb scheme "tcp")
        then (Err (ENew ("unknown protocol " +:+ Quote scheme)), w)
        else match env_NewClient e with
             | Some err => (Err (EWrap err ("failed to create gRPC client for " +:+ Quote addr)), w)
             | None =>
                 (Ok (length (cw_connections w), scheme +:+ "://" +:+ endpoint),
                  set_cw_connections (cw_connections w ++ [mkConnection scheme endpoint false true]) w)
             end
    end).

(** ** Connecting and disconnecting *)

(** The critical section that makes a connection the client's. *)
Definition install (connection : conn) (c : MountServiceClient) : MountServiceClient :=
  set_apiClient (Some connection) (set_grpcConnection (Some connection) c).

Definition Connect : cprog (option goerror) :=
  r ← newConnection;
  match r with
  | Err err => mret (Some err)
  | Ok (connection, _) =>
      taken ← update (fun _ w =>
        if connected (cw_client w) then (Some (address (cw_client w)), w)
        else (None, on_client (fun c => set_connected true (install connection c)) w));
      match taken with
      | Some addr =>
          connection_Close connection;;
          mret (Some (ENew ("already connected to " +:+ Quote addr)))
      | None => mret None
      end
  end.

Definition disconnectConn : cprog unit :=
  connection ← update (fun _ w =>
    (grpcConnection (cw_client w),
     on_client (fun c => set_connected false (set_grpcConnection None (set_apiClient None c))) w));
  close_if_some connection.

Definition add_sequence : cprog Z :=
  update (fun _ w =>
    let s := wrap_u64 (reconnectSequence (cw_client w) + 1) in
    (s, on_client (set_reconnectSequence s) w)).

Definition lock_bgCancelMu : cprog unit :=
  perform (fun _ w =>
    if bgCancelMu (cw_client w) then Waits else Goes tt (on_client (set_bgCancelMu true) w) []).

Definition unlock_bgCancelMu : cprog unit :=
  perform (fun _ w =>
    if bgCancelMu (cw_client w) then Goes tt (on_client (set_bgCancelMu false) w) [] else Dies).

(** client.bgCancel() and the assignment that follows it. *)
Definition replace_bgCancel (v : option cancel_id) : cprog unit :=
  modify (fun w =>
    let w := match bgCancel (cw_client w) with
             | Some i => set_cw_cancelled (<[i := true]> (cw_cancelled w)) w
             | None => w
             end in
    on_client (set_bgCancel v) w).

Definition store_flag (v : Z) : cprog unit := modify (on_client (set_reconnectingFlag v)).

Definition Disconnect : cprog unit :=
  add_sequence;;
  lock_bgCancelMu;;
  replace_bgCancel None;;
  unlock_bgCancelMu;;
  store_flag 0;;
  disconnectConn.

Definition isConnected : cprog bool := observe (fun _ w => connected (cw_client w)).

Definition load_flag : cprog Z := observe (fun _ w => reconnectingFlag (cw_client w)).

Definition getAPIClient : cprog (result rpcerror conn) :=
  flag ← load_flag;
  if flag =? 1 then mret (Err (RStatus codes_Unavailable "irodsfsd reconnect in progress; retry later"))
  else observe (fun _ w =>
    match connected (cw_client w), apiClient (cw_client w) with
    | true, Some c => Ok c
    | _, _ => Err (RPlain (ENew "client is not connected"))
    end).

Definition getContextWithDeadline : cprog ctx :=
  t ← observe (fun _ w => operationTimeout (cw_client w));
  if t >? 0 then WithTimeout ctx_background t else mret ctx_background.

(** ** Reconnecting *)

Definition startBackgroundReconnect : cprog unit :=
  bgCtx ← WithCancel;
  sequence ← add_sequence;
  lock_bgCancelMu;;
  replace_bgCancel (Some bgCtx);;
  unlock_bgCancelMu;;
  start (TcBackgroundReconnect bgCtx sequence).

Definition next_interval (interval : Z) : Z :=
  if interval <? reconnectMaxInterval then
    let doubled := wrap_i64 (interval * 2) in
    if doubled >? reconnectMaxInterval then reconnectMaxInterval else doubled
  else interval.

(** The critical section of the background goroutine: [None] when the
    client was disconnected or the goroutine cancelled, otherwise the
    connection that was replaced. *)
Definition adopt (c : ctx) (connection : conn) : cprog (option (option conn)) :=
  update (fun e w =>
    let w := advance e w in
    if negb (connected (cw_client w)) || ctx_ended w c then (None, w)
    else (Some (grpcConnection (cw_client w)), on_client (install connection) w)).

(** One attempt: whether the goroutine is finished, and otherwise whether no
    connection could be created. *)
Definition attempt (c : ctx) (interval : Z) : cprog (bool * bool) :=
  r ← newConnection;
  match r with
  | Err _ => mret (false, true)
  | Ok (connection, _) =>
      connection_Connect connection;;
      waitContext ← WithTimeout c interval;
      ready ← waitForReady waitContext connection;
      if negb ready then connection_Close connection;; mret (false, false)
      else
        adopted ← adopt c connection;
        match adopted with
        | None => connection_Close connection;; mret (true, false)
        | Some old => close_if_some old;; mret (true, false)
        end
  end.

(** The loop.  A goroutine for which [rounds] did not suffice dies. *)
Fixpoint reconnect_loop (rounds : nat) (c : ctx) (interval : Z) : cprog unit :=
  match rounds with
  | O => perform (fun _ _ => Dies)
  | S rounds =>
      over ← context_Err c;
      if over : bool then mret tt else
      conn_ok ← isConnected;
      if negb conn_ok then mret tt else
      r ← attempt c interval;
      let '(done, failed) := r in
      if done : bool then mret tt else
      over ← context_Err c;
      if over : bool then mret tt else
      if failed : bool then
        t ← now;
        cancelled ← done_or_timer c (t + interval);
        if cancelled : bool then mret tt else reconnect_loop rounds c (next_interval interval)
      else reconnect_loop rounds c (next_interval interval)
  end.

(** Rounds of the loop, enough for the intervals to add up to the timeout. *)
Definition reconnect_rounds : nat := 66.

Definition load_sequence : cprog Z := observe (fun _ w => reconnectSequence (cw_client w)).

Definition clear_bgCancel : cprog unit := modify (on_client (set_bgCancel None)).

(** The deferred function: it clears the flag when no later reconnect or
    disconnect has begun. *)
Definition background_exit (sequence : Z) : cprog unit :=
  lock_bgCancelMu;;
  current ← load_sequence;
  (if current =? sequence
   then store_flag 0;; clear_bgCancel
   else mret tt);;
  unlock_bgCancelMu.

Definition backgroundReconnect (parent : cancel_id) (sequence : Z) : cprog unit :=
  c ← WithTimeout (mkCtx (Some parent) None) reconnectTimeout;
  reconnect_loop reconnect_rounds c reconnectInitialInterval;;
  background_exit sequence.

Definition cas_flag : cprog bool :=
  update (fun _ w =>
    if reconnectingFlag (cw_client w) =? 0 then (true, on_client (set_reconnectingFlag 1) w) else (false, w)).

(** The critical section of the immediate attempt. *)
Definition adopt_immediate (connection : conn) : cprog (option (option conn)) :=
  update (fun _ w =>
    if connected (cw_client w)
    then (Some (grpcConnection (cw_client w)), on_client (install connection) w)
    else (None, w)).

(** The immediate attempt: whether the client has a new connection. *)
Definition reconnect_now : cprog bool :=
  r ← newConnection;
  match r with
  | Err _ => mret false
  | Ok (connection, _) =>
      connection_Connect connection;;
      waitContext ← WithTimeout ctx_background reconnectInitialInterval;
      ready ← waitForReady waitContext connection;
      adopted ← (if ready : bool then adopt_immediate connection else mret None);
      match adopted with
      | Some old => close_if_some old;; mret true
      | None => connection_Close connection;; mret false
      end
  end.

Definition doWithReconnect {A} (f : cprog (result rpcerror A)) : cprog (result rpcerror A) :=
  flag ← load_flag;
  if flag =? 1
  then mret (Err (RStatus codes_Unavailable "irodsfsd reconnect in progress; please retry later"))
  else
    r ← f;
    match r with
    | Ok res => mret (Ok res)
    | Err err =>
        auto ← observe (fun _ w => autoReconnect (cw_client w));
        conn_ok ← (if auto && isTransportError err then isConnected else mret false);
        if negb conn_ok then mret (Err err) else
        won ← cas_flag;
        if negb won then mret (Err err) else
        reconnected ← reconnect_now;
        if reconnected : bool then store_flag 0;; f
        else
          conn_ok ← isConnected;
          (if conn_ok : bool then startBackgroundReconnect else store_flag 0);;
          mret (Err err)
    end.

(** ** The API *)

(** What gRPC returns when the context of a call has ended. *)
Definition context_status (w : client_world) (c : ctx) : rpcerror :=
  if is_cancelled w (ctx_parent c) then RStatus codes_Canceled "context canceled"
  else RStatus codes_DeadlineExceeded "context deadline exceeded".

(** One call on the API client, from its request on a connection to the
    answer of the server or the end of its context. *)
Definition call_rpc {A} (c : ctx) (request : rpc) (answer : client_env -> result rpcerror A) : cprog (result rpcerror A) :=
  api ← getAPIClient;
  match api with
  | Err err => mret (Err err)
  | Ok connection =>
      perform (fun e w =>
        let w := advance e w in
        let sent := set_cw_sent (cw_sent w ++ [(connection, c, request)]) w in
        if env_answers e then Goes (answer e) sent []
        else if ctx_ended w c then Goes (Err (context_status w c)) sent []
        else Waits)
  end.

Inductive client_error : Type :=
| CError (err : rpcerror)
| CWrap (err : rpcerror) (msg : string).

Definition plain (msg : string) : client_error := CError (RPlain (ENew msg)).

(** The value behind interface{}. *)
Inductive any_response : Type :=
| AnyMount (mount : option MountInfo)
| AnyUnmount (mount : option MountInfo)
| AnyListMounts (mounts : list MountInfo)
| AnyGetMount (mount : option MountInfo)
| AnyReady.

Definition boxed {A} (box : A -> any_response) (r : result rpcerror A) : result rpcerror any_response :=
  match r with Ok a => Ok (box a) | Err err => Err err end.

Definition waiting_failed (mountID : string) : string := "failed while waiting for mount " +:+ Quote mountID.

(** The loop over a stream: [None] when it waits for another event. *)
Fixpoint wait_events (mountID : string) (events : list received_event) (ending : option rpcerror)
  : option (result client_error MountInfo) :=
  match events with
  | [] => match ending with
          | Some err => Some (Err (CWrap err (waiting_failed mountID)))
          | None => None
          end
  | event :: rest =>
      match received_Mount event with
      | None => wait_events mountID rest ending
      | Some mount =>
          if negb (String.eqb (MountInfo_MountId mount) mountID) then wait_events mountID rest ending
          else match MountInfo_State mount with
               | MOUNT_STATE_MOUNTED | MOUNT_STATE_FAILED => Some (Ok mount)
               | _ => if bool_decide (received_Type event = MOUNT_EVENT_TYPE_REMOVED)
                      then Some (Err (plain ("mount " +:+ Quote mountID +:+ " was removed while waiting")))
                      else wait_events mountID rest ending
               end
      end
  end.

Definition client_WatchMountEvents (c : ctx) (request : option WatchMountEventsRequest) : cprog (result rpcerror unit) :=
  call_rpc c (RpcWatchMountEvents (default (mkWatchMountEventsRequest [] false) request)) env_Watch.

Definition client_waitForMount (mountID : string) : cprog (result client_error MountInfo) :=
  if String.eqb mountID EmptyString then mret (Err (plain "mount ID is required"))
  else
    c ← getContextWithDeadline;
    r ← client_WatchMountEvents c (Some (mkWatchMountEventsRequest [mountID] true));
    match r with
    | Err err => mret (Err (CError err))
    | Ok _ => perform (fun e w =>
        let w := advance e w in
        match wait_events mountID (stream_events (env_stream e)) (stream_end (env_stream e)) with
        | Some x => Goes x w []
        | None =>
            if ctx_ended w c then Goes (Err (CWrap (context_status w c) (waiting_failed mountID))) w [] else Waits
        end)
    end.

Definition MountWithID (mountID : string) (config : option MountConfig) (wait : bool)
  : cprog (result client_error (option MountInfo)) :=
  match config with
  | None => mret (Err (plain "mount config is required"))
  | Some _ =>
      let mountFunc :=
        c ← getContextWithDeadline;
        let request := mkMountRequest (if String.eqb mountID EmptyString then None else Some mountID) config in
        r ← call_rpc c (RpcMount request) env_Mount;
        mret (boxed AnyMount r) in
      res ← doWithReconnect mountFunc;
      match res with
      | Err err => mret (Err (CError err))
      | Ok (AnyMount mount) =>
          if negb wait then mret (Ok mount)
          else
            x ← client_waitForMount (from_option MountInfo_MountId EmptyString mount);
            mret (match x with Ok m => Ok (Some m) | Err err => Err err end)
      | Ok _ => mret (Err (plain "failed to convert interface to MountResponse"))
      end
  end.

Definition client_Mount (config : option MountConfig) (wait : bool) : cprog (result client_error (option MountInfo)) :=
  MountWithID EmptyString config wait.

Definition client_Ready (c : option ctx) : cprog (option rpcerror) :=
  let c := default ctx_background c in
  r ← doWithReconnect (x ← call_rpc c RpcReady env_Ready; mret (boxed (fun _ => AnyReady) x));
  mret (match r with Ok _ => None | Err err => Some err end).

Definition client_Unmount (mountID : string) : cprog (result client_error (option MountInfo)) :=
  if String.eqb mountID EmptyString then mret (Err (plain "mount ID is required"))
  else
    let unmountFunc :=
      c ← getContextWithDeadline;
      r ← call_rpc c (RpcUnmount (mkUnmountRequest mountID)) env_Unmount;
      mret (boxed AnyUnmount r) in
    res ← doWithReconnect unmountFunc;
    mret (match res with
          | Err err => Err (CError err)
          | Ok (AnyUnmount mount) => Ok mount
          | Ok _ => Err (plain "failed to convert interface to UnmountResponse")
          end).

Definition list_request (filter : option ListMountsFilter) : ListMountsRequest :=
  match filter with
  | None => mkListMountsRequest [] None None
  | Some f => mkListMountsRequest ([] ++ filter_States f) (filter_MountPathPrefix f) (filter_ClientUser f)
  end.

Definition client_ListMounts (filter : option ListMountsFilter) : cprog (result client_error (list MountInfo)) :=
  let listMountsFunc :=
    c ← getContextWithDeadline;
    r ← call_rpc c (RpcListMounts (list_request filter)) env_ListMounts;
    mret (boxed AnyListMounts r) in
  res ← doWithReconnect listMountsFunc;
  mret (match res with
        | Err err => Err (CError err)
        | Ok (AnyListMounts mounts) => Ok mounts
        | Ok _ => Err (plain "failed to convert interface to ListMountsResponse")
        end).

Definition client_GetMount (mountID : string) : cprog (result client_error (option MountInfo)) :=
  if String.eqb mountID EmptyString then mret (Err (plain "mount ID is required"))
  else
    let getMountFunc :=
      c ← getContextWithDeadline;
      r ← call_rpc c (RpcGetMount mountID) env_GetMount;
      mret (boxed AnyGetMount r) in
    res ← doWithReconnect getMountFunc;
    mret (match res with
          | Err err => Err (CError err)
          | Ok (AnyGetMount mount) => Ok mount
          | Ok _ => Err (plain "failed to convert interface to GetMountResponse")
          end).

(** The goroutines of an application that uses the client; what a call
    returns goes to the application. *)
Definition client_body (t : client_thread) : cprog unit :=
  match t with
  | TcConnect => Connect;; mret tt
  | TcDisconnect => Disconnect
  | TcMount mountID config wait => MountWithID mountID config wait;; mret tt
  | TcUnmount mountID => client_Unmount mountID;; mret tt
  | TcListMounts filter => client_ListMounts filter;; mret tt
  | TcGetMount mountID => client_GetMount mountID;; mret tt
  | TcReady => client_Ready None;; mret tt
  | TcWatchMountEvents request => client_WatchMountEvents ctx_background request;; mret tt
  | TcBackgroundReconnect bgCtx sequence => backgroundReconnect bgCtx sequence
  end.
End Client.

(** A new client before any call. *)
Definition client_start (clientID addr : string) (timeout : Z) (auto : bool) : client_world :=
  mkClientWorld (NewMountServiceClient clientID addr timeout auto) [] [] 0 [].

Definition client_pool (clientID addr : string) (timeout : Z) (auto : bool)
  : pool client_world client_env client_thread :=
  mkPool (client_start clientID addr timeout auto) [].
