(* ===== verification/ClientFacts.v ===== *)
(** * What applications may rely on when they share a client

    Goroutines own what they must give back: a connection they created, the
    duty to clear the reconnecting flag, the mutex of the cancel function.
    The invariant accounts for every open connection and for the flag; the
    ownership logic of [Threads] lifts it to all interleavings of API
    calls, connects, disconnects and background goroutines. *)

From S2P Require Import Prelude GoStrings GoErrors Threads Grpc Api Config PolicyFacts Client.

(** ** Tokens and the invariant *)

Inductive token : Type :=
| Owns (c : nat)          (* an open connection that is not the client's *)
| Duty                    (* won the flag, has not handed it on yet *)
| Running (s : Z)         (* reconnects or disconnects under this number *)
| HoldsMu                 (* holds bgCancelMu *)
| Since (t : Z)           (* has seen the clock at [t] *)
| Cancelled (i : nat).    (* has seen that a context was cancelled *)

#[export] Instance token_eq_dec : EqDecision token.
Proof. solve_decision. Defined.

Definition owned (T : list token) : list nat :=
  omap (fun k => match k with Owns c => Some c | _ => None end) T.

(** What was seen stays true: time does not go back, and contexts are not
    revived. *)
Definition snapshots (T : list token) : list (Z + nat) :=
  omap (fun k => match k with Since t => Some (inl t) | Cancelled i => Some (inr i) | _ => None end) T.

Definition seen (w : client_world) (x : Z + nat) : Prop :=
  match x with
  | inl t => t <= cw_clock w
  | inr i => cw_cancelled w !! i = Some true
  end.

(** The client's own connection, as a list. *)
Definition current (w : client_world) : list nat := option_list (grpcConnection (cw_client w)).

(** The flag will be cleared by somebody. *)
Definition responsible (s : Z) (T : list token) : Prop := Duty ∈ T \/ Running s ∈ T.

Section Invariant.
(** The operation timeout of the client, which never changes. *)
Variable budget : Z.

Record client_inv (w : client_world) (T : list token) : Prop := {
  ci_api : apiClient (cw_client w) = grpcConnection (cw_client w);
  ci_connected : connected (cw_client w) = bool_decide (is_Some (grpcConnection (cw_client w)));
  ci_open : forall c, is_open w c = true <-> c ∈ current w ++ owned T;
  ci_nodup : NoDup (current w ++ owned T);
  ci_flag : reconnectingFlag (cw_client w) = 0 \/
    reconnectingFlag (cw_client w) = 1 /\ responsible (reconnectSequence (cw_client w)) T;
  ci_mu : length (filter (fun k => k = HoldsMu) T) = if bgCancelMu (cw_client w) then 1%nat else 0%nat;
  ci_seen : Forall (seen w) (snapshots T);
  ci_budget : operationTimeout (cw_client w) = budget
}.

Lemma elem_of_middle {A} (x c : A) l k : x ∈ l ++ c :: k <-> x = c \/ x ∈ l ++ k.
Proof. set_solver. Qed.

Lemma NoDup_middle {A} (c : A) l k : NoDup (l ++ c :: k) <-> c ∉ l ++ k /\ NoDup (l ++ k).
Proof. by rewrite <- Permutation_middle, NoDup_cons. Qed.

Lemma owned_app T U : owned (T ++ U) = owned T ++ owned U.
Proof. apply omap_app. Qed.

Lemma snapshots_app T U : snapshots (T ++ U) = snapshots T ++ snapshots U.
Proof. apply omap_app. Qed.

#[export] Instance snapshots_Permutation : Proper ((≡ₚ) ==> (≡ₚ)) snapshots.
Proof. unfold snapshots. solve_proper. Qed.

#[export] Instance owned_Permutation : Proper ((≡ₚ) ==> (≡ₚ)) owned.
Proof. unfold owned. solve_proper. Qed.

#[export] Instance responsible_Permutation s : Proper ((≡ₚ) ==> iff) (responsible s).
Proof. intros T U E. unfold responsible. by rewrite E. Qed.

Lemma client_inv_perm w : Proper ((≡ₚ) ==> iff) (client_inv w).
Proof.
  assert (forall T U, T ≡ₚ U -> client_inv w T -> client_inv w U) as Hp.
  { intros T U HTU [i1 i2 i3 i4 i5 i6 i7 i8]. split; [done..| | | | | |done].
    - intros c. by rewrite i3, HTU.
    - by rewrite <- HTU.
    - destruct i5 as [|[? Hr]]; [by left | right; split; [done|]]. by rewrite <- HTU.
    - rewrite <- i6. by rewrite HTU.
    - by rewrite <- HTU. }
  intros T U HTU. split; apply Hp; [done | by symmetry].
Qed.

(** What others may do without touching the client or a connection. *)
Record quiet (w w' : client_world) : Prop := {
  quiet_client : cw_client w' = cw_client w;
  quiet_connections : forall c, is_open w' c = is_open w c;
  quiet_clock : cw_clock w <= cw_clock w';
  quiet_cancelled : forall i, cw_cancelled w !! i = Some true -> cw_cancelled w' !! i = Some true
}.

Lemma seen_later w w' l :
  cw_clock w <= cw_clock w' -> (forall i, cw_cancelled w !! i = Some true -> cw_cancelled w' !! i = Some true) ->
  Forall (seen w) l -> Forall (seen w') l.
Proof. intros Ht Hx Hl. eapply Forall_impl; [exact Hl|]. intros [t|i]; simpl; [lia|auto]. Qed.

Lemma client_inv_quiet w w' T : quiet w w' -> client_inv w T -> client_inv w' T.
Proof.
  intros [Hc Ho Ht Hx] [i1 i2 i3 i4 i5 i6 i7 i8]. split; unfold current in *; rewrite ?Hc; try done.
  - intros c. by rewrite Ho.
  - by eapply seen_later.
Qed.

Lemma quiet_advance e w : quiet w (advance e w).
Proof. destruct w. by split; simpl; [| |lia|]. Qed.
#[local] Hint Resolve quiet_advance : core.

Lemma client_inv_advance e w T : client_inv w T -> client_inv (advance e w) T.
Proof. by apply client_inv_quiet. Qed.

Lemma cw_clock_advance e w : cw_clock (advance e w) = cw_clock w + Z.of_N (env_elapsed e).
Proof. by destruct w. Qed.

(** An observation may be kept, and forgotten. *)
Lemma client_inv_since t w T : t <= cw_clock w -> client_inv w T -> client_inv w (Since t :: T).
Proof.
  intros Ht [i1 i2 i3 i4 i5 i6 i7 i8]. split; try done; [|by constructor].
  destruct i5 as [|[? [Hr|Hr]]]; [by left|right..]; (split; [done|]); [left|right]; set_solver.
Qed.

Lemma client_inv_cancelled i w T : cw_cancelled w !! i = Some true -> client_inv w T -> client_inv w (Cancelled i :: T).
Proof.
  intros Ht [i1 i2 i3 i4 i5 i6 i7 i8]. split; try done; [|by constructor].
  destruct i5 as [|[? [Hr|Hr]]]; [by left|right..]; (split; [done|]); [left|right]; set_solver.
Qed.

Definition is_snapshot (k : token) : bool := match k with Since _ | Cancelled _ => true | _ => false end.

Lemma client_inv_forget k w T : is_snapshot k = true -> client_inv w (k :: T) -> client_inv w T.
Proof.
  intros Hk [i1 i2 i3 i4 i5 i6 i7 i8]. destruct k; try done; (split; try done; [|by inversion i7]);
    (destruct i5 as [|[? [Hr|Hr]]]; [by left|right..]; (split; [done|]); [left|right]; set_solver).
Qed.

(** With [bounded], every call runs under a context that the client makes
    with its operation timeout. *)
Variable bounded : bool.
Hypothesis bounded_budget : bounded = true -> 0 < budget.

(** A goroutine of the client waits for less than a minute or the operation
    timeout, unless it waits for a mutex; without such contexts also for a
    server that does not answer. *)
Definition patience : Z := if bounded then Z.max Minute budget else Minute.

Definition server_silent (e : client_env) : Prop := env_answers e = false \/ stream_end (env_stream e) = None.

Definition may_wait (e : client_env) (w : client_world) : Prop :=
  Z.of_N (env_elapsed e) < patience \/ bgCancelMu (cw_client w) = true \/ (bounded = false /\ server_silent e).

Lemma minute_patience : Minute <= patience.
Proof. unfold patience. destruct bounded; lia. Qed.

Lemma budget_patience : bounded = true -> budget <= patience.
Proof. unfold patience. intros ->. lia. Qed.

Section Owning.
Context `{UrlLib}.
Implicit Types (r F : list token) (w : client_world).

Definition thread_pre (t : client_thread) r : Prop :=
  match t with
  | TcBackgroundReconnect _ s => r = [Running s]
  | TcReady | TcWatchMountEvents _ => bounded = false /\ r = []
  | _ => r = []
  end.

Local Notation owning := (owning client_inv thread_pre may_wait never).
Local Notation gives p r r' := (owning r p (fun _ x => x = r')).

(** ** Actions that leave tokens alone *)

Lemma owning_quiet {A} r (f : client_env -> client_world -> step_outcome client_world client_thread A) (Q : A -> list token -> Prop) :
  (forall e w, match f e w with
     | Waits => may_wait e w
     | Dies => False
     | Goes x w' ts => ts = [] /\ quiet w w' /\ Q x r
     end) -> owning r (perform f) Q.
Proof.
  intros Hf. apply owning_perform. intros e w F Hi. specialize (Hf e w).
  destruct (f e w) as [| |x w' ts]; [done..|]. destruct Hf as (-> & Hq & HQ). split; [done|].
  exists r. split; [|done]. by eapply client_inv_quiet.
Qed.

Lemma owning_observe_same {A} r (f : client_env -> client_world -> A) : gives (observe f) r r.
Proof. by apply owning_observe. Qed.

Lemma owning_now r : gives now r r.
Proof. apply owning_quiet. intros e w. split_and!; auto. Qed.

Lemma owning_WithTimeout r c t : gives (WithTimeout c t) r r.
Proof. unfold WithTimeout. eapply owning_then; [apply owning_now|]. by intros a. Qed.

Lemma owning_ctx_Err r c : gives (context_Err c) r r.
Proof. apply owning_quiet. intros e w. split_and!; auto. Qed.

Lemma owning_WithCancel r : gives WithCancel r r.
Proof.
  apply owning_quiet. intros e w. destruct w. split_and!; [done| |done]. split; simpl; [done..|].
  intros i Hi. by apply lookup_app_l_Some.
Qed.

(** ** Actions that read the clock *)

(** The rest of an invariant whose first token is an observation. *)
Lemma client_inv_later t u w T : t <= u -> u <= cw_clock w -> client_inv w (Since t :: T) -> client_inv w (Since u :: T).
Proof. intros Htu Hu Hi. apply client_inv_since; [done|]. by apply (client_inv_forget (Since t)). Qed.

Lemma client_inv_after t w T : client_inv w (Since t :: T) -> t <= cw_clock w.
Proof. intros [_ _ _ _ _ _ i7 _]. by inversion i7. Qed.

Lemma client_inv_swap k l w T : client_inv w (k :: l :: T) <-> client_inv w (l :: k :: T).
Proof. split; intros Hi; (eapply client_inv_perm; [|exact Hi]); constructor. Qed.

(** The clock after an action that takes time. *)
Lemma client_inv_tick e w t T :
  client_inv w (Since t :: T) ->
  t <= cw_clock (advance e w) /\ client_inv (advance e w) (Since (cw_clock (advance e w)) :: T).
Proof.
  intros Hi. apply (client_inv_advance e) in Hi. pose proof (client_inv_after _ _ _ Hi) as Ht. split; [done|].
  by eapply client_inv_later.
Qed.

(** Reading the clock, before and after something was seen already. *)
Lemma owning_now_first r : owning r now (fun t x => x = Since t :: r).
Proof.
  apply owning_perform. intros e w F Hi. split; [done|]. eexists. split; [|done]. simpl.
  apply client_inv_since; [done|]. by apply client_inv_advance.
Qed.

Lemma owning_now_since r t : owning (Since t :: r) now (fun u x => t <= u /\ x = Since u :: r).
Proof.
  apply owning_perform. intros e w F Hi. destruct (client_inv_tick e w t _ Hi) as [Ht Hi']. split; [done|].
  exists (Since (cw_clock (advance e w)) :: r). auto.
Qed.

Definition timeout_ctx (c : ctx) (u i : Z) : ctx := mkCtx (ctx_parent c) (Some (earlier (ctx_deadline c) (u + i))).

Lemma owning_WithTimeout_first r k c i :
  owning (k :: r) (WithTimeout c i) (fun x r' => exists u, x = timeout_ctx c u i /\ r' = k :: Since u :: r).
Proof.
  unfold WithTimeout. apply owning_bind, owning_perform. intros e w F Hi. split; [done|].
  exists (k :: Since (cw_clock (advance e w)) :: r). split; [|by eexists]. simpl app. rewrite client_inv_swap.
  apply client_inv_since; [done|]. by apply client_inv_advance.
Qed.

Lemma owning_WithTimeout_since r k t c i :
  owning (k :: Since t :: r) (WithTimeout c i)
    (fun x r' => exists u, t <= u /\ x = timeout_ctx c u i /\ r' = k :: Since u :: r).
Proof.
  unfold WithTimeout. apply owning_bind, owning_perform. intros e w F Hi. simpl app in Hi. rewrite client_inv_swap in Hi.
  destruct (client_inv_tick e w t _ Hi) as [Ht Hi']. split; [done|].
  exists (k :: Since (cw_clock (advance e w)) :: r). split; [|by eexists]. by rewrite client_inv_swap in Hi'.
Qed.

Lemma owning_ctx_Err_since r t p d :
  owning (Since t :: r) (context_Err (mkCtx p (Some d)))
    (fun b x => exists u, t <= u /\ (b = false -> u < d) /\ x = Since u :: r).
Proof.
  apply owning_perform. intros e w F Hi. destruct (client_inv_tick e w t _ Hi) as [Ht Hi']. split; [done|].
  exists (Since (cw_clock (advance e w)) :: r). split; [done|]. eexists. split_and!; [exact Ht| |done].
  unfold ctx_ended. simpl. intros [_ Hd]%orb_false_iff. lia.
Qed.

Lemma owning_ctx_Err_cancelled r i d :
  owning (Cancelled i :: r) (context_Err (mkCtx (Some i) d)) (fun b x => b = true /\ x = Cancelled i :: r).
Proof.
  apply owning_perform. intros e w F Hi. split; [done|]. exists (Cancelled i :: r).
  apply (client_inv_advance e) in Hi. pose proof (ci_seen _ _ Hi) as Hs. split; [done|]. inversion_clear Hs as [|? ? Hc _].
  unfold ctx_ended. simpl in *. by rewrite Hc.
Qed.

Lemma owning_done_or_timer r t p d fires :
  fires <= t + Minute ->
  owning (Since t :: r) (done_or_timer (mkCtx p (Some d)) fires)
    (fun b x => exists u, t <= u /\ (b = false -> fires <= u) /\ x = Since u :: r).
Proof.
  intros Hf. apply owning_perform. intros e w F Hi. pose proof (client_inv_after _ _ _ Hi) as Ht0.
  destruct (client_inv_tick e w t _ Hi) as [Ht Hi']. cbv zeta.
  destruct (ctx_ended _ _), (fires <=? cw_clock (advance e w)) eqn:E; bools;
    [..|left; rewrite cw_clock_advance in E; pose proof minute_patience; lia]; (split; [done|]);
    exists (Since (cw_clock (advance e w)) :: r); (split; [exact Hi'|]); eexists; (split_and!; [exact Ht|done|done]).
Qed.

(** How waiting for a connection ends: it is ready, the deadline has
    passed, or the context was cancelled. *)
Definition wait_ends (c : nat) (p : option nat) (d t : Z) r (b : bool) (x : list token) : Prop :=
  if b then x = Owns c :: Since t :: r
  else (exists u, d <= u /\ t <= u /\ x = Owns c :: Since u :: r) \/
       (exists i, p = Some i /\ x = Owns c :: Cancelled i :: r).

Lemma client_inv_owns c w T : client_inv w (Owns c :: T) -> is_open w c = true.
Proof. intros [_ _ i3 _ _ _ _ _]. apply i3. set_solver. Qed.

Lemma owning_waitForReady r c p d t :
  d <= t + Minute ->
  owning (Owns c :: Since t :: r) (waitForReady (mkCtx p (Some d)) c) (wait_ends c p d t r).
Proof.
  intros Hd. apply owning_perform. intros e w F Hi. cbv zeta. simpl app in Hi. rewrite client_inv_swap in Hi.
  pose proof (client_inv_after _ _ _ Hi) as Ht0. pose proof (client_inv_advance e _ _ Hi) as Hi'.
  destruct (client_inv_tick e w t _ Hi) as [Ht Hi2]. rewrite client_inv_swap in Hi', Hi2.
  rewrite (client_inv_owns c _ _ Hi'). cbn [negb]. destruct (becomes_ready _).
  { split; [done|]. exists (Owns c :: Since t :: r). by split; [exact Hi'|]. }
  unfold ctx_ended. cbn [ctx_parent ctx_deadline]. destruct (is_cancelled _ p) eqn:Ec; cbn [orb].
  - split; [done|]. destruct p as [i|]; [|done]. exists (Owns c :: Cancelled i :: r). split; [|right; eauto].
    simpl app. rewrite client_inv_swap. simpl in Ec.
    destruct (cw_cancelled (advance e w) !! i) as [[]|] eqn:Ei; try done.
    apply client_inv_cancelled; [done|]. rewrite client_inv_swap in Hi'. by apply (client_inv_forget (Since t)).
  - destruct (_ <=? _) eqn:E; bools; [|left; rewrite cw_clock_advance in E; pose proof minute_patience; lia]. split; [done|].
    exists (Owns c :: Since (cw_clock (advance e w)) :: r). split; [exact Hi2|]. left. eexists. split_and!; [exact E|exact Ht|done].
Qed.

Lemma is_open_alter f c x w :
  (forall y, conn_open (f y) = conn_open y) -> is_open (alter_connection f c w) x = is_open w x.
Proof.
  intros Hf. unfold is_open. destruct w as [a cs b d s]. simpl. destruct (decide (c = x)) as [->|Hne].
  - rewrite list_lookup_alter_eq. destruct (cs !! x); simpl; auto.
  - by rewrite list_lookup_alter_ne.
Qed.

Lemma owning_connection_Connect r c : gives (connection_Connect c) r r.
Proof.
  apply owning_modify. intros w F Hi. apply (client_inv_quiet w); [|exact Hi].
  split; [by destruct w| |by destruct w|by destruct w]. intros x. by apply is_open_alter.
Qed.

(** ** Connections *)

Lemma is_open_close c x w :
  is_open (alter_connection close_connection c w) x = is_open w x && negb (bool_decide (x = c)).
Proof.
  unfold is_open. destruct w as [a cs b d s]. simpl. destruct (decide (x = c)) as [->|Hne].
  - rewrite list_lookup_alter_eq, bool_decide_true, andb_false_r by done. by destruct (cs !! c).
  - by rewrite list_lookup_alter_ne, bool_decide_false, andb_true_r by done.
Qed.

Lemma owning_connection_Close r c : gives (connection_Close c) (Owns c :: r) r.
Proof.
  apply owning_modify. intros w F [i1 i2 i3 i4 i5 i6 i7 i8].
  replace (cw_client w) with (cw_client (alter_connection close_connection c w)) in * by (by destruct w).
  assert (current (alter_connection close_connection c w) = current w) as Ecur by (by destruct w).
  simpl in i4, i6. apply NoDup_middle in i4 as [Hc Hn].
  split; rewrite ?Ecur; try done.
  - intros x. rewrite is_open_close, andb_true_iff, negb_true_iff, bool_decide_eq_false, i3. simpl.
    rewrite elem_of_middle. split.
    + intros [[?|?] ?]; done.
    + intros Hx. split; [by right|]. by intros ->.
  - destruct i5 as [|[? Hr]]; [by left|]. right. split; [done|]. unfold responsible in *. set_solver.
  - by destruct w.
Qed.

Lemma owning_newConnection r :
  owning r newConnection (fun x r' => match x with Ok (c, _) => r' = Owns c :: r | Err _ => r' = r end).
Proof.
  apply owning_perform. intros e w F Hi. cbv zeta.
  destruct (ParseServiceEndpoint (address (cw_client w))) as [[scheme endpoint]|err]; [|solve [cbv zeta beta iota; eauto]].
  destruct (negb (String.eqb scheme "unix") && negb (String.eqb scheme "tcp")); [solve [cbv zeta beta iota; eauto]|].
  destruct (env_NewClient e); [solve [cbv zeta beta iota; eauto]|]. cbv zeta beta iota. split; [done|]. eexists. split; [|reflexivity].
  destruct w as [cl cs xs t s]. simpl in *. destruct Hi as [i1 i2 i3 i4 i5 i6 i7 i8].
  assert (length cs ∉ option_list (grpcConnection cl) ++ owned (r ++ F)) as Hfresh.
  { intros Hin. apply i3 in Hin. unfold is_open in Hin. simpl in Hin. by rewrite lookup_ge_None_2 in Hin. }
  unfold current in *. split; simpl in *; try done.
  - intros c. rewrite elem_of_middle, <- i3. unfold is_open. simpl.
    destruct (decide (c = length cs)) as [->|Hne].
    + rewrite lookup_app_r, Nat.sub_diag by done. simpl. tauto.
    + destruct (decide (c < length cs)%nat).
      * rewrite lookup_app_l by done. tauto.
      * rewrite (lookup_ge_None_2 (_ ++ _)), (lookup_ge_None_2 cs) by (rewrite ?length_app; simpl; lia). simpl. tauto.
  - by apply NoDup_middle.
  - destruct i5 as [|[? Hr]]; [by left|]. right. split; [done|]. unfold responsible in *. set_solver.
Qed.

(** A token that is not a duty may be set aside. *)
Lemma responsible_cons s k T : responsible s T -> responsible s (k :: T).
Proof. unfold responsible. set_solver. Qed.

Lemma responsible_owns s c T : responsible s (Owns c :: T) -> responsible s T.
Proof. unfold responsible. set_solver. Qed.

Lemma responsible_mu s T : responsible s (HoldsMu :: T) -> responsible s T.
Proof. unfold responsible. set_solver. Qed.

(** Exchanging the client's connection for one that was owned. *)
Lemma client_inv_install w c old T :
  grpcConnection (cw_client w) = Some old -> client_inv w (Owns c :: T) ->
  client_inv (on_client (install c) w) (Owns old :: T).
Proof.
  intros Hold [i1 i2 i3 i4 i5 i6 i7 i8]. destruct w as [[] cs xs t s]. unfold current, is_open in *. simpl in *. subst.
  apply NoDup_cons in i4 as [Hc Hn]. apply NoDup_cons in Hn as [Hc' Hn].
  split; unfold current, is_open; simpl; try done.
  - intros x. rewrite i3. set_solver.
  - repeat constructor; set_solver.
  - destruct i5 as [|[? Hr%responsible_owns]]; [by left|]. right. auto using responsible_cons.
Qed.

(** The first connection of a client that is not connected. *)
Lemma client_inv_connect w c T :
  connected (cw_client w) = false -> client_inv w (Owns c :: T) ->
  client_inv (on_client (fun x => set_connected true (install c x)) w) T.
Proof.
  intros Hno [i1 i2 i3 i4 i5 i6 i7 i8]. rewrite Hno in i2. symmetry in i2. apply bool_decide_eq_false in i2.
  destruct w as [[? ? ? [|] ? ? ? ? ? ? ?] cs xs t s]; [by destruct i2|]. unfold current in *. simpl in *. subst.
  split; unfold current; simpl; try done.
  destruct i5 as [|[? Hr%responsible_owns]]; [by left|]. auto.
Qed.

(** The connection of a client that disconnects goes to the goroutine. *)
Lemma client_inv_disconnect w T :
  client_inv w T ->
  client_inv (on_client (fun c => set_connected false (set_grpcConnection None (set_apiClient None c))) w)
    (match grpcConnection (cw_client w) with Some c => [Owns c] | None => [] end ++ T).
Proof.
  intros [i1 i2 i3 i4 i5 i6 i7 i8]. destruct w as [[? ? ? [|] ? ? ? ? ? ? ?] cs xs t s]; unfold current in *; simpl in *; subst.
  - split; unfold current; simpl; try done.
    destruct i5 as [|[? Hr]]; [by left|]. right. auto using responsible_cons.
  - by split.
Qed.

Lemma owning_adopt r x c :
  owning (Owns c :: r) (adopt x c) (fun o r' =>
    match o with None => r' = Owns c :: r | Some (Some old) => r' = Owns old :: r | Some None => False end).
Proof.
  apply owning_perform. intros e w F Hi. cbv zeta. apply (client_inv_advance e) in Hi.
  destruct (connected (cw_client (advance e w))) eqn:Ec; cbn [negb orb]; [|split; eauto].
  destruct (ctx_ended (advance e w) x); [split; eauto|]. split; [done|].
  pose proof (ci_connected _ _ Hi) as Hs. rewrite Ec in Hs. symmetry in Hs. apply bool_decide_eq_true in Hs.
  destruct Hs as [old Hold]. rewrite Hold. exists (Owns old :: r). split; [|done]. by apply client_inv_install.
Qed.

Lemma owning_adopt_immediate r c :
  owning (Owns c :: r) (adopt_immediate c) (fun o r' =>
    match o with None => r' = Owns c :: r | Some (Some old) => r' = Owns old :: r | Some None => False end).
Proof.
  apply owning_perform. intros e w F Hi. destruct (connected (cw_client w)) eqn:Ec; [|split; eauto]. split; [done|].
  pose proof (ci_connected _ _ Hi) as Hs. rewrite Ec in Hs. symmetry in Hs. apply bool_decide_eq_true in Hs.
  destruct Hs as [old Hold]. rewrite Hold. exists (Owns old :: r). split; [|done]. by apply client_inv_install.
Qed.

(** ** The flag, the sequence number and the mutex *)

(** Tokens that only matter while the flag is set. *)
Definition is_duty (k : token) : bool := match k with Duty | Running _ => true | _ => false end.

Lemma owning_store_flag r k : is_duty k = true -> gives (store_flag 0) (k :: r) r.
Proof.
  intros Hk. apply owning_modify. intros w F [i1 i2 i3 i4 i5 i6 i7 i8].
  destruct w as [[] cs xs t s]. unfold current in *. simpl in *. by destruct k; split; try done; left.
Qed.

(** The same under a mutex. *)
Lemma owning_store_flag_under r k d : is_duty d = true -> gives (store_flag 0) (k :: d :: r) (k :: r).
Proof.
  intros Hk. apply owning_modify. intros w F [i1 i2 i3 i4 i5 i6 i7 i8].
  destruct w as [[] cs xs t s]. unfold current in *. simpl in *. by destruct d, k; split; try done; left.
Qed.

Lemma owning_lock r : gives lock_bgCancelMu r (HoldsMu :: r).
Proof.
  apply owning_perform. intros e w F [i1 i2 i3 i4 i5 i6 i7 i8].
  destruct (bgCancelMu (cw_client w)) eqn:Em; [by right; left|]. split; [done|]. eexists. split; [|done].
  destruct w as [[] cs xs t s]. unfold current in *. simpl in *. split; simpl; try done.
  - destruct i5 as [|[? Hr]]; [by left|]. right. auto using responsible_cons.
  - subst. by rewrite i6.
Qed.

Lemma owning_unlock r : gives unlock_bgCancelMu (HoldsMu :: r) r.
Proof.
  apply owning_perform. intros e w F [i1 i2 i3 i4 i5 i6 i7 i8]. simpl in i6.
  destruct (bgCancelMu (cw_client w)) eqn:Em; [|done]. split; [done|]. eexists. split; [|done].
  destruct w as [[] cs xs t s]. unfold current in *. simpl in *. split; simpl; try done; [|lia].
  destruct i5 as [|[? Hr%responsible_mu]]; [by left|]. auto.
Qed.

(** Who takes a new sequence number takes over the responsibility. *)
Lemma client_inv_add_sequence w T d :
  forallb is_duty d = true -> client_inv w (d ++ T) ->
  let s := wrap_u64 (reconnectSequence (cw_client w) + 1) in
  client_inv (on_client (set_reconnectSequence s) w) (Running s :: T).
Proof.
  intros Hd [i1 i2 i3 i4 i5 i6 i7 i8] s.
  assert (owned d = [] /\ filter (fun k => k = HoldsMu) d = [] /\ snapshots d = []) as (Ho & Hm & Hs).
  { clear i3 i4 i5 i6 i7. induction d as [|[] d IH]; simpl in *; [done|..]; bools; try done; by apply IH. }
  rewrite owned_app, Ho in *. rewrite filter_app, Hm in i6. rewrite snapshots_app, Hs in i7.
  destruct w as [[] cs xs t u]. unfold current in *. simpl in *. split; simpl; try done.
  destruct i5 as [|[? _]]; [by left|]. right. split; [done|]. right. set_solver.
Qed.

Lemma owning_add_sequence r d :
  forallb is_duty d = true -> owning (d ++ r) add_sequence (fun s x => x = Running s :: r).
Proof.
  intros Hd. apply owning_perform. intros e w F Hi. split; [done|]. eexists. split; [|done].
  rewrite <- (assoc_L (++)) in Hi. by apply (client_inv_add_sequence w (r ++ F) d Hd).
Qed.

Lemma owning_replace_bgCancel r v : gives (replace_bgCancel v) r r.
Proof.
  apply owning_modify. intros w F [i1 i2 i3 i4 i5 i6 i7 i8]. destruct w as [[] cs xs t s].
  unfold current, is_open in *. simpl in *. destruct bgCancel as [j|]; split; try done.
  simpl. eapply seen_later; [..|exact i7]; simpl; [done|]. intros i Hi.
  destruct (decide (j = i)) as [->|]; [|by rewrite list_lookup_insert_ne].
  apply list_lookup_insert_eq. by eapply lookup_lt_Some.
Qed.

Lemma owning_clear_bgCancel r : gives clear_bgCancel r r.
Proof.
  apply owning_modify. intros w F [i1 i2 i3 i4 i5 i6 i7 i8]. destruct w as [[] cs xs t s].
  unfold current, is_open in *. simpl in *. by split.
Qed.

(** A goroutine whose number is out of date need not clear the flag. *)
Lemma owning_read_sequence r s :
  owning (HoldsMu :: Running s :: r) load_sequence
    (fun x r' => r' = if x =? s then HoldsMu :: Running s :: r else HoldsMu :: r).
Proof.
  apply owning_perform. intros e w F Hi. split; [done|]. eexists. split; [|done].
  destruct (reconnectSequence (cw_client w) =? s) eqn:Es; [done|]. bools. destruct Hi as [i1 i2 i3 i4 i5 i6 i7 i8].
  split; try done. destruct i5 as [|[? Hr]]; [by left|]. right. split; [done|]. unfold responsible in *. set_solver.
Qed.

(** Winning the flag. *)
Lemma owning_cas_flag r :
  owning r cas_flag (fun won r' => r' = if won : bool then Duty :: r else r).
Proof.
  apply owning_perform. intros e w F Hi. destruct (reconnectingFlag (cw_client w) =? 0) eqn:Ef; [|split; eauto].
  split; [done|]. eexists. split; [|done]. destruct Hi as [i1 i2 i3 i4 i5 i6 i7 i8].
  destruct w as [[] cs xs t s]. unfold current in *. simpl in *. split; simpl; try done.
  right. split; [done|]. left. set_solver.
Qed.

(** ** Operations *)

Create HintDb owns discriminated.
#[local] Hint Resolve owning_observe_same owning_now owning_WithTimeout owning_ctx_Err owning_WithCancel
  owning_connection_Connect owning_connection_Close owning_lock
  owning_unlock owning_replace_bgCancel owning_clear_bgCancel : owns.
#[local] Hint Extern 0 (Threads.owning _ _ _ _ _ isConnected _) => apply owning_observe_same : owns.
#[local] Hint Extern 0 (Threads.owning _ _ _ _ _ load_flag _) => apply owning_observe_same : owns.
#[local] Hint Extern 0 (Threads.owning _ _ _ _ _ (mret _) _) => exact eq_refl : owns.

(** Runs the next step of a program by the rules above. *)
Ltac own := first
  [ solve [auto with owns]
  | eapply owning_then; [solve [auto with owns]|]; intros ?
  | case_match ].

Lemma owning_close_replaced {A} r old (a : A) : gives (close_if_some (Some old);; mret a) (Owns old :: r) r.
Proof. cbn [close_if_some]. repeat own. Qed.

(** What an attempt to reconnect does with the new connection, and how long
    it takes when it does not succeed. *)
Definition attempt_ends (p : nat) (d t i : Z) r (result : bool * bool) (x : list token) : Prop :=
  let '(done, failed) := result in
  if done : bool then exists u, x = Since u :: r
  else (exists u, t <= u /\ (failed = false -> Z.min d (t + i) <= u) /\ x = Since u :: r) \/ x = Cancelled p :: r.

Lemma owning_attempt r p d t i :
  i <= Minute ->
  owning (Since t :: r) (attempt (mkCtx (Some p) (Some d)) i) (attempt_ends p d t i r).
Proof.
  intros Hm. unfold attempt. apply owning_bind. eapply owning_mono; [|apply owning_newConnection].
  intros [[c ds]|err] r'; [intros -> | intros ->; left; by exists t]. own.
  apply owning_bind. eapply owning_mono; [|apply owning_WithTimeout_since]. intros x r' (u & Hu & -> & ->).
  apply owning_bind. eapply owning_mono; [|apply owning_waitForReady; simpl; lia].
  unfold timeout_ctx. cbn [ctx_parent ctx_deadline earlier]. intros [|] r'; cbn [negb wait_ends].
  - intros ->. apply owning_bind. eapply owning_mono; [|apply owning_adopt].
    intros [[old|]|] r''; [intros -> | done | intros ->]; cbn [close_if_some]; own; by exists u.
  - intros [(v & Hv & Huv & ->)|(j & [= <-] & ->)]; own; [left|by right]. exists v. split_and!; [lia| |done]. lia.
Qed.

(** The time that [n] rounds take at least. *)
Fixpoint total (n : nat) (i : Z) : Z :=
  match n with
  | O => 0
  | S n => i + total n (next_interval i)
  end.

Lemma next_interval_bounds i : 0 < i <= Minute -> 0 < next_interval i <= Minute.
Proof.
  intros Hi. unfold next_interval, reconnectMaxInterval. replace (1 * Minute) with Minute by lia.
  unfold Minute in *. destruct (_ <? _) eqn:E; [|lia]. bools. rewrite wrap_i64_id by (unfold two63; lia).
  destruct (_ >? _) eqn:E2; lia.
Qed.

(** The rounds suffice when the last but one ends after the deadline. *)
Lemma owning_reconnect_loop r p d n : forall t i,
  0 < i <= Minute -> d <= t + total n i ->
  owning (Since t :: r) (reconnect_loop (S n) (mkCtx (Some p) (Some d)) i)
    (fun _ x => exists k, is_snapshot k = true /\ x = k :: r).
Proof.
  induction n as [|n IH]; intros t i Hi Hd; [|remember (S n) as m eqn:Em]; cbn [reconnect_loop];
    apply owning_bind; (eapply owning_mono; [|apply owning_ctx_Err_since]); intros [|] x (u & Htu & Hu & ->);
    try (by exists (Since u)); specialize (Hu eq_refl); [simpl in Hd; lia|].
  subst m. cbn [total] in Hd. pose proof (next_interval_bounds i Hi) as Hn. own. destruct a; cbn [negb]; [|by exists (Since u)].
  apply owning_bind. eapply owning_mono; [|apply owning_attempt; lia].
  intros [[|] failed] x; [intros [v ->]; by exists (Since v)|]. intros [(v & Huv & Hv & ->)| ->].
  - apply owning_bind. eapply owning_mono; [|apply owning_ctx_Err_since].
    intros [|] x (v2 & Hv2 & Hd2 & ->); [by exists (Since v2)|]. specialize (Hd2 eq_refl).
    destruct failed; [|apply IH; [done|]; specialize (Hv eq_refl); lia].
    apply owning_bind. eapply owning_mono; [|apply owning_now_since]. intros v3 x [Hv3 ->].
    apply owning_bind. eapply owning_mono; [|apply owning_done_or_timer; lia].
    intros [|] x (v4 & Hv4 & Hf & ->); [by exists (Since v4)|]. apply IH; [done|]. specialize (Hf eq_refl). lia.
  - apply owning_bind. eapply owning_mono; [|apply owning_ctx_Err_cancelled]. intros b x [-> ->]. by exists (Cancelled p).
Qed.

Lemma owning_background_exit s : gives (background_exit s) [Running s] [].
Proof.
  unfold background_exit. own. apply owning_bind. eapply owning_mono; [|apply owning_read_sequence].
  intros x r' ->. destruct (x =? s); [|repeat own].
  eapply (owning_then _ _ _ _ _ [HoldsMu]); [|intros ?; own]. eapply owning_then; [|intros ?; own].
  by apply owning_store_flag_under.
Qed.

Lemma reconnect_rounds_suffice : reconnectTimeout <= total (pred reconnect_rounds) reconnectInitialInterval.
Proof. vm_compute. discriminate. Qed.

Lemma reconnect_loop_starts n c i a : reconnect_loop (S n) c i <> Done a.
Proof. done. Qed.

Lemma owning_backgroundReconnect b s : gives (backgroundReconnect b s) [Running s] [].
Proof.
  unfold backgroundReconnect. apply owning_bind. eapply owning_mono; [|apply owning_WithTimeout_first].
  intros c x (u & -> & ->). apply owning_bind. unfold timeout_ctx. cbn [ctx_parent ctx_deadline earlier].
  pose proof reconnect_rounds_suffice as Hr.
  assert (reconnect_rounds = S (pred reconnect_rounds)) as -> by reflexivity.
  generalize (pred reconnect_rounds) Hr. clear Hr. intros n Hr.
  eapply owning_exchange; [|apply reconnect_loop_starts|eapply owning_mono; [|apply (owning_reconnect_loop [Running s])]].
  - intros w F. simpl. by rewrite client_inv_swap.
  - intros _ x (k & Hk & ->). eapply owning_exchange; [|by unfold background_exit|apply owning_background_exit].
    intros w F. by apply client_inv_forget.
  - vm_compute. by split.
  - lia.
Qed.

Lemma owning_disconnectConn r : gives disconnectConn r r.
Proof.
  unfold disconnectConn. apply owning_bind. apply owning_perform. intros e w F Hi. split; [done|].
  apply client_inv_disconnect in Hi.
  destruct (grpcConnection (cw_client w)) as [c|]; [exists (Owns c :: r)|exists r]; (split; [exact Hi|]);
    cbn [close_if_some]; own.
Qed.

Lemma owning_Disconnect r : gives Disconnect r r.
Proof.
  unfold Disconnect. apply owning_bind. eapply owning_mono; [|by apply (owning_add_sequence r [])].
  intros s ? ->. do 3 own. eapply owning_then; [by apply owning_store_flag|]. intros _. apply owning_disconnectConn.
Qed.

Lemma owning_Connect r : gives Connect r r.
Proof.
  unfold Connect. apply owning_bind. eapply owning_mono; [|apply owning_newConnection].
  intros [[c d]|err] r'; [intros -> | intros ->; own]. apply owning_bind, owning_perform. intros e w F Hi.
  destruct (connected (cw_client w)) eqn:Ec; (split; [done|]); eexists; (split; [|repeat own]); [exact Hi|].
  by apply client_inv_connect.
Qed.

(** Waiting without keeping what was seen of the clock. *)
Lemma owning_waitForReady_once r c p d t :
  d <= t + Minute -> gives (waitForReady (mkCtx p (Some d)) c) (Owns c :: Since t :: r) (Owns c :: r).
Proof.
  intros Hd. eapply owning_perform_exchange; [|by apply owning_waitForReady].
  assert (forall k x, is_snapshot k = true -> x = Owns c :: k :: r ->
    exists r'', (forall w F, client_inv w (x ++ F) -> client_inv w (r'' ++ F)) /\ r'' = Owns c :: r) as Hk.
  { intros k x Hk ->. eexists. split; [|done]. intros w F. simpl. rewrite client_inv_swap. by apply client_inv_forget. }
  intros [|] x; cbn [wait_ends].
  - by apply (Hk (Since t)).
  - intros [(u & _ & _ & Hx)|(i & _ & Hx)]; [by apply (Hk (Since u))|by apply (Hk (Cancelled i))].
Qed.

Lemma owning_reconnect_now r : gives reconnect_now r r.
Proof.
  unfold reconnect_now. apply owning_bind. eapply owning_mono; [|apply owning_newConnection].
  intros [[c d]|err] r'; [intros -> | intros ->; own]. own.
  apply owning_bind. eapply owning_mono; [|apply owning_WithTimeout_first]. intros x r' (u & -> & ->).
  eapply owning_then; [apply owning_waitForReady_once; simpl; unfold reconnectInitialInterval, Second, Minute; lia|]. intros ready.
  apply owning_bind, (owning_mono _ _ _ _ _ _ (fun o r' => match o with None => r' = Owns c :: r
    | Some (Some old) => r' = Owns old :: r | Some None => False end)).
  - intros [[old|]|] r''; [intros -> | done | intros ->]; [apply owning_close_replaced | repeat own].
  - destruct ready; [apply owning_adopt_immediate | done].
Qed.

Lemma owning_startBackgroundReconnect r : gives startBackgroundReconnect (Duty :: r) r.
Proof.
  unfold startBackgroundReconnect. own. apply owning_bind.
  eapply owning_mono; [|by apply (owning_add_sequence r [Duty])]. intros s ? ->. do 3 own.
  by apply (owning_start _ _ _ _ client_inv_perm r [Running s]).
Qed.

Lemma owning_doWithReconnect {A} (f : cprog (result rpcerror A)) r :
  (forall r, gives f r r) -> gives (doWithReconnect f) r r.
Proof.
  intros Hf. unfold doWithReconnect. do 2 own; [own|]. eapply owning_then; [apply Hf|]. intros [res|err]; [own|].
  own. eapply (owning_then _ _ _ _ _ r); [destruct (_ && _); own|]. intros [|]; cbn [negb]; [|own].
  apply owning_bind. eapply owning_mono; [|apply owning_cas_flag]. intros [|] ? ->; cbn [negb]; [|own].
  eapply owning_then; [apply owning_reconnect_now|]. intros [|].
  - eapply owning_then; [by apply owning_store_flag|]. intros _. apply Hf.
  - own. eapply (owning_then _ _ _ _ _ r); [|intros ?; own].
    destruct a1; [apply owning_startBackgroundReconnect | by apply owning_store_flag].
Qed.

(** A context that the client made at time [u]. *)
Definition timed (c : ctx) (u : Z) : Prop := bounded = true -> exists d, ctx_deadline c = Some d /\ d <= u + budget.

Lemma owning_getContextWithDeadline r :
  owning r getContextWithDeadline (fun c r' => exists u, timed c u /\ r' = Since u :: r).
Proof.
  unfold getContextWithDeadline. apply owning_bind, owning_perform. intros e w F Hi. split; [done|].
  exists (Since (cw_clock w) :: r). split; [by apply client_inv_since|]. rewrite (ci_budget _ _ Hi). destruct (budget >? 0) eqn:E.
  - unfold WithTimeout. apply owning_bind. eapply owning_mono; [|apply owning_now_since]. intros u x [_ ->]. exists u. split; [|done].
    intros _. eexists. split; [reflexivity|]. simpl. lia.
  - exists (cw_clock w). split; [|done]. intros Hb. specialize (bounded_budget Hb). lia.
Qed.

Lemma owning_getAPIClient r : gives getAPIClient r r.
Proof. unfold getAPIClient. repeat own. Qed.
#[local] Hint Resolve owning_getAPIClient : owns.

(** A call that does not take place forgets when it began. *)
Lemma owning_getAPIClient_since r u :
  owning (Since u :: r) getAPIClient (fun x r' => r' = match x with Ok _ => Since u :: r | Err _ => r end).
Proof.
  unfold getAPIClient, load_flag. apply owning_bind, owning_perform. intros e w F Hi. split; [done|].
  destruct (reconnectingFlag (cw_client w) =? 1) eqn:Ef.
  - exists r. split; [by apply (client_inv_forget (Since u))|]. done.
  - exists (Since u :: r). split; [exact Hi|]. apply owning_perform. intros e' w' F' Hi'. split; [done|].
    eexists. split; [|reflexivity]. destruct (connected (cw_client w')), (apiClient (cw_client w')); try exact Hi';
      by apply (client_inv_forget (Since u)).
Qed.

Lemma client_inv_sent x w T : client_inv w T -> client_inv (set_cw_sent x w) T.
Proof. apply client_inv_quiet. destruct w. by split; simpl. Qed.

(** Waiting under a context of the client. *)
Lemma timed_waits c u e w T :
  timed c u -> client_inv w (Since u :: T) -> ctx_ended (advance e w) c = false -> server_silent e -> may_wait e w.
Proof.
  intros Hc Hi He Hs. destruct (decide (bounded = true)) as [Hb|Hb%not_true_is_false]; [left|right; right; by split].
  destruct (Hc Hb) as (d & Hd & Hle).
  pose proof (client_inv_after _ _ _ Hi) as Hu. pose proof (budget_patience Hb). unfold ctx_ended in He. rewrite Hd in He.
  apply orb_false_iff in He as [_ He]. rewrite cw_clock_advance in He. lia.
Qed.

(** What is kept of a call that was answered: when it began, or nothing. *)
Lemma owning_call_rpc {A} r c q (f : client_env -> result rpcerror A) u (keep : bool) :
  timed c u ->
  owning (Since u :: r) (call_rpc c q f) (fun x r' => r' = match x with Ok _ => if keep then Since u :: r else r | Err _ => r end).
Proof.
  intros Hc. unfold call_rpc. apply owning_bind. eapply owning_mono; [|apply owning_getAPIClient_since].
  intros [connection|err] r' ->; [|done]. apply owning_perform. intros e w F Hi. cbv zeta.
  pose proof (client_inv_sent (cw_sent (advance e w) ++ [(connection, c, q)]) _ _ (client_inv_advance e _ _ Hi)) as Hi'.
  pose proof (client_inv_forget (Since u) _ _ eq_refl Hi') as Hf.
  destruct (env_answers e) eqn:Ea; [split; [done|]; eexists; split; [|reflexivity]|].
  - destruct (f e); [destruct keep; [exact Hi'|exact Hf]|exact Hf].
  - destruct (ctx_ended (advance e w) c) eqn:Ee; [split; [done|]; eexists; split; [exact Hf|done]|].
    eapply timed_waits; [exact Hc|exact Hi|exact Ee|by left].
Qed.

(** A call under a context of the application. *)
Lemma owning_call_rpc_free {A} r c q (f : client_env -> result rpcerror A) : bounded = false -> gives (call_rpc c q f) r r.
Proof.
  intros Hb. unfold call_rpc. own. destruct a as [c'|err]; [|own]. apply owning_perform. intros e w F Hi. cbv zeta.
  pose proof (client_inv_sent (cw_sent (advance e w) ++ [(c', c, q)]) _ _ (client_inv_advance e _ _ Hi)) as Hi'.
  destruct (env_answers e) eqn:Ea; [by split; [done|]; exists r|]. destruct (ctx_ended (advance e w) c); [by split; [done|]; exists r|].
  right. right. split; [done|by left].
Qed.

Lemma owning_timed_call {A B} r q (f : client_env -> result rpcerror A) (g : result rpcerror A -> B) :
  gives (c ← getContextWithDeadline; x ← call_rpc c q f; mret (g x)) r r.
Proof.
  apply owning_bind. eapply owning_mono; [|apply owning_getContextWithDeadline]. intros c ? (u & Hc & ->).
  apply owning_bind. eapply owning_mono; [|by apply (owning_call_rpc _ _ _ _ _ false)]. by intros [x|err] ? ->.
Qed.
#[local] Hint Extern 1 (Threads.owning _ _ _ _ _ (getContextWithDeadline ≫= _) _) => apply owning_timed_call : owns.

(** The loop waits for more only while the stream is open. *)
Lemma wait_events_open id events ending : wait_events id events ending = None -> ending = None.
Proof. induction events as [|ev events IH]; simpl; repeat case_match; auto; discriminate. Qed.

Lemma owning_waitForMount r id : gives (client_waitForMount id) r r.
Proof.
  unfold client_waitForMount, client_WatchMountEvents. own; [own|].
  apply owning_bind. eapply owning_mono; [|apply owning_getContextWithDeadline]. intros c ? (u & Hc & ->).
  apply owning_bind. eapply owning_mono; [|by apply (owning_call_rpc _ _ _ _ _ true)]. intros [x|err] ? ->; [|done].
  apply owning_perform. intros e w F Hi. cbv zeta.
  pose proof (client_inv_forget (Since u) _ _ eq_refl (client_inv_advance e _ _ Hi)) as Hf.
  destruct (wait_events _ _ _) eqn:Ew; [by split; [done|]; exists r|].
  destruct (ctx_ended (advance e w) c) eqn:Ee; [by split; [done|]; exists r|].
  eapply timed_waits; [exact Hc|exact Hi|exact Ee|right; by eapply wait_events_open].
Qed.
#[local] Hint Resolve owning_waitForMount : owns.
#[local] Hint Extern 1 (Threads.owning _ _ _ _ _ (doWithReconnect _) _) =>
  apply owning_doWithReconnect; intros ?; repeat own : owns.

Lemma owning_MountWithID r id config wait : gives (MountWithID id config wait) r r.
Proof. unfold MountWithID. repeat own. Qed.

Lemma owning_Unmount r id : gives (client_Unmount id) r r.
Proof. unfold client_Unmount. repeat own. Qed.

Lemma owning_ListMounts r filter : gives (client_ListMounts filter) r r.
Proof. unfold client_ListMounts. repeat own. Qed.

Lemma owning_GetMount r id : gives (client_GetMount id) r r.
Proof. unfold client_GetMount. repeat own. Qed.

Lemma owning_Ready r c : bounded = false -> gives (client_Ready c) r r.
Proof.
  intros Hb. unfold client_Ready. eapply owning_then; [apply owning_doWithReconnect|by intros ?]. intros r'.
  eapply owning_then; [by apply owning_call_rpc_free|by intros ?].
Qed.
#[local] Hint Resolve owning_Connect owning_MountWithID owning_Unmount owning_ListMounts owning_GetMount owning_Ready : owns.
#[local] Hint Extern 0 (Threads.owning _ _ _ _ _ (client_WatchMountEvents _ _) _) => by apply owning_call_rpc_free : owns.
#[local] Hint Resolve owning_Disconnect owning_backgroundReconnect : owns.

Lemma client_body_owning t r : thread_pre t r -> gives (client_body t) r [].
Proof.
  destruct t; intros Ht; simpl in Ht; repeat match type of Ht with _ /\ _ => destruct Ht as [? Ht] end; subst; cbn [client_body]; repeat own.
Qed.

(** ** All interleavings *)

(** Applications make calls; the background goroutine is the client's. *)
Definition application_choice (c : scheduled client_env client_thread) : bool :=
  match c with
  | Arrives (TcBackgroundReconnect _ _) => false
  | _ => true
  end.

(** Calls whose contexts the client makes. *)
Definition timed_choice (c : scheduled client_env client_thread) : bool :=
  match c with
  | Arrives TcReady | Arrives (TcWatchMountEvents _) => false
  | _ => true
  end.

Lemma application_pre (cs : list (scheduled client_env client_thread)) t :
  forallb application_choice cs = true -> (bounded = true -> forallb timed_choice cs = true) -> Arrives t ∈ cs -> thread_pre t [].
Proof.
  rewrite !forallb_forall. intros Hcs Hb Ht%list_elem_of_In. specialize (Hcs _ Ht).
  assert (bounded = true -> timed_choice (Arrives t) = true) as Htimed by auto.
  destruct t; try done; split; try done; apply not_true_is_false; intros E; by specialize (Htimed E).
Qed.

Lemma client_accounted clientID addr auto cs :
  forallb application_choice cs = true -> (bounded = true -> forallb timed_choice cs = true) ->
  match pool_run client_body (client_pool clientID addr budget auto) cs with
  | Stuck => True
  | Dead => False
  | Ran s => accounted client_inv thread_pre may_wait never s
  end.
Proof.
  intros Hcs Hb.
  assert (accounted client_inv thread_pre may_wait never (client_pool clientID addr budget auto)) as H0.
  { exists []. split; [constructor|]. split; simpl; [done|done| |constructor|by left|done|constructor|done]. intros c. set_solver. }
  pose proof (accounted_run client_inv thread_pre may_wait never client_inv_perm client_body client_body_owning _ cs H0
    (fun t => application_pre cs t Hcs Hb)) as Hrun.
  by destruct (pool_run _ _ cs); [|destruct Hrun as (? & ? & [])|].
Qed.
End Owning.
End Invariant.

#[export] Hint Resolve quiet_advance : core.

(** Without bounds on the server there is nothing to assume of the client. *)
Lemma unbounded budget : false = true -> 0 < budget.
Proof. done. Qed.

Section Shared.
Context `{UrlLib}.

(** C17: However calls, connects, disconnects and background reconnects of a
    shared client interleave, and whatever the server and the network
    answer: nothing dies; the client has a connection exactly when it is
    connected, its API client uses that connection, and the connection is
    open.  Once every goroutine has finished, no connection is leaked (only
    the client's own may be open), the reconnecting flag is clear, so that
    later calls are not refused, and no mutex is held. *)
Theorem client_never_leaks_or_locks_up clientID addr timeout auto cs :
  forallb application_choice cs = true ->
  match pool_run client_body (client_pool clientID addr timeout auto) cs with
  | Stuck => True
  | Dead => False
  | Ran s =>
      let w := pool_world s in
      let c := cw_client w in
      apiClient c = grpcConnection c /\
      connected c = bool_decide (is_Some (grpcConnection c)) /\
      (forall x, grpcConnection c = Some x -> is_open w x = true) /\
      (forallb finished (pool_threads s) = true ->
         (forall x, is_open w x = true <-> grpcConnection c = Some x) /\
         reconnectingFlag c = 0 /\ bgCancelMu c = false)
  end.
Proof.
  intros Hcs. pose proof (client_accounted timeout false (unbounded timeout) clientID addr auto cs Hcs ltac:(done)) as Hrun.
  destruct (pool_run client_body _ cs) as [| |s]; [done..|]. cbv zeta.
  pose proof (accounted_finished _ _ _ _ s Hrun) as Hfin.
  destruct Hrun as (rs & _ & [i1 i2 i3 _ _ _ _ _]). unfold current in *. split_and!; [done..| |].
  - intros x Hx. apply i3. rewrite Hx. set_solver.
  - intros Hf. destruct (Hfin Hf) as [_ _ j3 _ j5 j6 _ _]. split_and!.
    + intros x. rewrite j3. unfold current. simpl. rewrite app_nil_r.
      destruct (grpcConnection _); simpl; set_solver.
    + destruct j5 as [|[_ [Hr|Hr]]]; [done|by apply not_elem_of_nil in Hr..].
    + by destruct (bgCancelMu _).
Qed.
End Shared.

(** ** Concrete runs *)

(** A network on which connections become ready at once, and a server that
    answers [answer]. *)
Definition network (elapsed : N) (states : list live_state) (answer : result rpcerror (option MountInfo)) : client_env :=
  mkClientEnv elapsed None states false true answer answer (Ok []) answer (Ok tt) (Err (RStatus codes_Unavailable "")) (mkStream [] None).

Definition healthy : client_env := network 0 [Connecting; StateReady] (Ok None).
Definition down : client_env := network 0 [Connecting; TransientFailure] (Err (RStatus codes_Unavailable "")).

Definition steps (i n : nat) (e : client_env) : list (scheduled client_env client_thread) := replicate n (Runs i e).

(** A call that finds the server gone and gets through after an immediate
    reconnect. *)
Definition reconnect_run : list (scheduled client_env client_thread) :=
  [Arrives TcConnect] ++ steps 0 2 healthy ++
  [Arrives (TcGetMount "m1")] ++ steps 1 5 down ++ steps 1 14 healthy.

Lemma client_never_leaks_or_locks_up_witness :
  forallb application_choice reconnect_run = true /\
  match pool_run (@client_body plain_urls) (client_pool "c" "tcp://localhost:13020" 0 true) reconnect_run with
  | Ran s => (forall x, is_open (pool_world s) x = true <-> x = 1%nat) /\ reconnectingFlag (cw_client (pool_world s)) = 0
  | _ => False
  end.
Proof.
  split; [reflexivity|].
  pose proof (@client_never_leaks_or_locks_up plain_urls "c" "tcp://localhost:13020" 0 true reconnect_run eq_refl) as H.
  remember (pool_run _ _ _) as s eqn:Es. vm_compute in Es. subst s. destruct H as (_ & _ & _ & Hf).
  destruct (Hf eq_refl) as (Ho & Hr & _). split; [|exact Hr]. intros x. rewrite Ho. simpl. split; congruence.
Defined.
