(* ===== verification/ClientCalls.v ===== *)
(** * How calls of the client end

    Every goroutine of a client finishes: its program is of bounded length,
    the rounds allowed for reconnecting suffice, and no action waits for
    more than a minute or the deadline of its call.  A mount request is sent again at most once, and a
    call that waits returns a mount that has settled. *)

From S2P Require Import Prelude GoStrings GoErrors Threads Grpc Api Config PolicyFacts Client ClientFacts.

(** ** Length of programs *)

Section Length.
Context `{UrlLib}.

Create HintDb lengths discriminated.
#[local] Hint Resolve within_ret : lengths.
#[local] Hint Extern 2 (within _ _) => exact (within_perform _) : lengths.

(** Counts the actions of a program whose parts are known. *)
Ltac count := first
  [ solve [auto with lengths]
  | eapply within_le; [|solve [auto with lengths]]; lia
  | eapply within_then; [solve [auto with lengths]|cbv; lia|]; intros ?; cbn [Nat.sub]
  | progress case_match ].

Lemma within_WithTimeout c t : within 1 (WithTimeout c t).
Proof. unfold WithTimeout. repeat count. Qed.
#[local] Hint Resolve within_WithTimeout : lengths.

Lemma within_close_if_some c : within 1 (close_if_some c).
Proof. destruct c; cbn [close_if_some]; repeat count. Qed.
#[local] Hint Resolve within_close_if_some : lengths.

Lemma within_attempt c i : within 6 (attempt c i).
Proof. unfold attempt. repeat count. Qed.
#[local] Hint Resolve within_attempt : lengths.

Lemma within_reconnect_loop n : forall c i, within (n * 11 + 1) (reconnect_loop n c i).
Proof.
  induction n as [|n IH]; intros c i; cbn [reconnect_loop Nat.mul Nat.add]; [count|].
  repeat (eapply within_le; [|apply IH]; lia) || count.
Qed.

Lemma within_background_exit s : within 5 (background_exit s).
Proof. unfold background_exit. count. count. eapply (within_then 2); [repeat count|lia|]. intros ?. count. Qed.
#[local] Hint Resolve within_background_exit : lengths.

Lemma within_backgroundReconnect b s : within 740 (backgroundReconnect b s).
Proof.
  unfold backgroundReconnect. count. eapply (within_then 727); [apply (within_reconnect_loop 66)|lia|]. intros ?. count.
Qed.

Lemma within_Connect : within 3 Connect.
Proof. unfold Connect. repeat count. Qed.

Lemma within_Disconnect : within 7 Disconnect.
Proof. unfold Disconnect, disconnectConn. repeat count. Qed.

Lemma within_reconnect_now : within 6 reconnect_now.
Proof.
  unfold reconnect_now. do 2 count; [|count]. count. do 3 count. eapply (within_then 1); [repeat count|lia|].
  intros ?. repeat count.
Qed.
#[local] Hint Resolve within_reconnect_now : lengths.

Lemma within_startBackgroundReconnect : within 6 startBackgroundReconnect.
Proof. unfold startBackgroundReconnect. repeat count. Qed.
#[local] Hint Resolve within_startBackgroundReconnect : lengths.

Lemma within_getContextWithDeadline : within 2 getContextWithDeadline.
Proof. unfold getContextWithDeadline. repeat count. Qed.
#[local] Hint Resolve within_getContextWithDeadline : lengths.

Lemma within_getAPIClient : within 2 getAPIClient.
Proof. unfold getAPIClient. repeat count. Qed.
#[local] Hint Resolve within_getAPIClient : lengths.

Lemma within_call_rpc {A} c q (f : client_env -> result rpcerror A) : within 3 (call_rpc c q f).
Proof. unfold call_rpc. repeat count. Qed.
#[local] Hint Resolve @within_call_rpc : lengths.

(** A request may be tried twice. *)
Lemma within_doWithReconnect {A} (f : cprog (result rpcerror A)) : within 5 f -> within 30 (doWithReconnect f).
Proof.
  intros Hf. unfold doWithReconnect. do 2 count; [count|].
  eapply within_then; [exact Hf|lia|]. intros [res|err]; [count|]. count.
  eapply (within_then 1); [destruct (_ && _); count|lia|]. intros [|]; cbn [Nat.sub negb]; [|count].
  eapply (within_then 1); [count|lia|]. intros [|]; cbn [Nat.sub negb]; [|count]. do 2 count.
  - count. by eapply within_le; [|exact Hf]; lia.
  - count. eapply (within_then 6); [repeat count|lia|]. intros ?. count.
Qed.

Lemma within_waitForMount id : within 6 (client_waitForMount id).
Proof. unfold client_waitForMount, client_WatchMountEvents. repeat count. Qed.
#[local] Hint Resolve within_waitForMount : lengths.
#[local] Hint Extern 1 (within ?n (doWithReconnect _)) => apply (within_doWithReconnect _); repeat count : lengths.

Lemma within_MountWithID id config wait : within 40 (MountWithID id config wait).
Proof. unfold MountWithID. repeat count. Qed.

Lemma within_Unmount id : within 40 (client_Unmount id).
Proof. unfold client_Unmount. repeat count. Qed.

Lemma within_ListMounts filter : within 40 (client_ListMounts filter).
Proof. unfold client_ListMounts. repeat count. Qed.

Lemma within_GetMount id : within 40 (client_GetMount id).
Proof. unfold client_GetMount. repeat count. Qed.

Lemma within_Ready c : within 40 (client_Ready c).
Proof. unfold client_Ready. repeat count. Qed.

Lemma within_WatchMountEvents c r : within 40 (client_WatchMountEvents c r).
Proof. unfold client_WatchMountEvents. repeat count. Qed.
#[local] Hint Resolve within_MountWithID within_Unmount within_ListMounts within_GetMount within_Ready : lengths.
#[local] Hint Resolve within_WatchMountEvents within_Connect within_Disconnect : lengths.

Lemma client_body_within t : within 1000 (client_body t).
Proof.
  destruct t; cbn [client_body]; [..|eapply within_le; [|apply within_backgroundReconnect]; lia]; repeat count.
Qed.

(** A goroutine that cannot take its next action has a reason. *)
Lemma client_waits bounded clientID addr timeout auto cs s i p e :
  (bounded = true -> 0 < timeout) -> forallb application_choice cs = true -> (bounded = true -> forallb timed_choice cs = true) ->
  pool_run client_body (client_pool clientID addr timeout auto) cs = Ran s -> pool_threads s !! i = Some p -> finished p = false ->
  (exists s', pool_step client_body s (Runs i e) = Ran s') \/ may_wait timeout bounded e (pool_world s).
Proof.
  intros Hb Hcs Htimed Hrun Hp Hf. pose proof (client_accounted timeout bounded Hb clientID addr auto cs Hcs Htimed) as Ha. rewrite Hrun in Ha.
  pose proof (accounted_step _ _ _ _ (client_inv_perm timeout) client_body (client_body_owning timeout bounded Hb) s (Runs i e) Ha
    ltac:(by intros)) as Hstep.
  pose proof (accounted_waits _ _ _ _ (client_inv_perm timeout) client_body s i e p Ha Hp Hf) as Hw.
  destruct (pool_step client_body s (Runs i e)) as [| |s']; [right; by apply Hw|by destruct Hstep|left; eauto].
Qed.

(** C18: Every goroutine that uses a client finishes.  At any point of any
    interleaving each one is within a thousand actions of its end, the
    background reconnect included: the rounds of its loop suffice for the
    hour after which it gives up.  While no other goroutine is inside the
    critical section of the cancel function, it can take its next action
    once a minute has passed and the server has answered and ended its
    stream; and for a client with an operation timeout, whose calls are all
    made under the contexts of the client (mounts, unmounts, queries,
    connects and disconnects), once a minute and the timeout have passed,
    whatever the server does. *)
Theorem client_calls_end clientID addr timeout auto cs s i p :
  forallb application_choice cs = true ->
  pool_run client_body (client_pool clientID addr timeout auto) cs = Ran s ->
  pool_threads s !! i = Some p ->
  within 1000 p /\
  (finished p = false -> bgCancelMu (cw_client (pool_world s)) = false ->
   (forall e, Minute <= Z.of_N (env_elapsed e) -> env_answers e = true -> stream_end (env_stream e) <> None ->
      exists s', pool_step client_body s (Runs i e) = Ran s') /\
   (0 < timeout -> forallb timed_choice cs = true ->
    forall e, Z.max Minute timeout <= Z.of_N (env_elapsed e) -> exists s', pool_step client_body s (Runs i e) = Ran s')).
Proof.
  intros Hcs Hrun Hp. split.
  - assert (Forall (within 1000) (pool_threads s)) as Hall.
    { eapply (within_run client_body 1000 client_body_within); [|exact Hrun]. constructor. }
    rewrite Forall_lookup in Hall. by eapply Hall.
  - intros Hf Hmu. split.
    + intros e He Ha Hs.
      destruct (client_waits false clientID addr timeout auto cs s i p e ltac:(done) Hcs ltac:(done) Hrun Hp Hf)
        as [?|[Ht|[Ht|[_ [Ht|Ht]]]]]; [done|unfold patience in Ht; lia|congruence|congruence|done].
    + intros Hpos Htimed e He.
      destruct (client_waits true clientID addr timeout auto cs s i p e ltac:(done) Hcs ltac:(done) Hrun Hp Hf)
        as [?|[Ht|[Ht|[Ht _]]]]; [done|unfold patience in Ht; lia|congruence|done].
Qed.

(** What a call returns when its context ends before an answer comes. *)
Lemma deadline_ends_call {A} (f : client_env -> result rpcerror A) w connection q d e :
  reconnectingFlag (cw_client w) = 0 -> connected (cw_client w) = true -> apiClient (cw_client w) = Some connection ->
  env_answers e = false -> d <= cw_clock w + Z.of_N (env_elapsed e) ->
  alone (fun _ _ _ => @nil unit) [e; e; e] (call_rpc (mkCtx None (Some d)) q f) w =
    Some ([], Err (RStatus codes_DeadlineExceeded "context deadline exceeded")).
Proof.
  intros Hflag Hconn Hapi Ha Hd. unfold call_rpc, getAPIClient. cbn -[context_status]. rewrite Hflag. cbn -[context_status].
  rewrite Hconn, Hapi. cbn -[context_status]. rewrite Ha. unfold ctx_ended. cbn -[context_status].
  rewrite cw_clock_advance. by rewrite (proj2 (Z.leb_le _ _)) by lia.
Qed.
End Length.

(** A client with an operation timeout of ten seconds asks for a mount, and
    the server does not answer. *)
Definition unanswered (elapsed : N) : client_env :=
  mkClientEnv elapsed None [] false false (Ok None) (Ok None) (Ok []) (Ok None) (Ok tt) (Ok tt) (mkStream [] None).

Definition waiting_run : list (scheduled client_env client_thread) :=
  [Arrives TcConnect] ++ steps 0 2 healthy ++ [Arrives (TcGetMount "m1")] ++ steps 1 5 (unanswered 0).

(** A goroutine is waiting and the mutex is free. *)
Definition is_waiting (i : nat) (e : client_env) (r : pool_result client_world client_env client_thread) : bool :=
  match r with
  | Ran s => from_option (fun p => negb (finished p)) false (pool_threads s !! i) &&
             negb (bgCancelMu (cw_client (pool_world s))) &&
             match pool_step (@client_body plain_urls) s (Runs i e) with Stuck => true | _ => false end
  | _ => false
  end.

Lemma client_calls_end_witness :
  exists s p, forallb application_choice waiting_run = true /\
    pool_run (@client_body plain_urls) (client_pool "c" "tcp://localhost:13020" (10 * Second) true) waiting_run = Ran s /\
    pool_threads s !! 1%nat = Some p /\ finished p = false /\ within 1000 p /\
    pool_step (@client_body plain_urls) s (Runs 1 (unanswered 0)) = Stuck /\
    (exists s', pool_step (@client_body plain_urls) s (Runs 1 (unanswered 60000000000)) = Ran s').
Proof.
  assert (is_waiting 1 (unanswered 0)
    (pool_run (@client_body plain_urls) (client_pool "c" "tcp://localhost:13020" (10 * Second) true) waiting_run) = true)
    as Hw by (vm_compute; reflexivity).
  destruct (pool_run (@client_body plain_urls) (client_pool "c" "tcp://localhost:13020" (10 * Second) true) waiting_run)
    as [| |s] eqn:Es; [discriminate..|].
  cbn [is_waiting] in Hw. destruct (pool_threads s !! 1%nat) as [p|] eqn:Ep; [|discriminate]. cbn [from_option] in Hw.
  apply andb_true_iff in Hw as [Hw Hstuck]. apply andb_true_iff in Hw as [Hf%negb_true_iff Hm%negb_true_iff].
  destruct (@client_calls_end plain_urls "c" "tcp://localhost:13020" (10 * Second) true waiting_run s 1 p eq_refl Es Ep) as [Hw Hs].
  exists s, p. split_and!; [reflexivity|reflexivity|exact Ep|exact Hf|exact Hw| |].
  - destruct (pool_step (@client_body plain_urls) s (Runs 1 (unanswered 0))); [reflexivity|discriminate..].
  - destruct (Hs Hf Hm) as [_ Ht]. apply Ht; vm_compute; [reflexivity|reflexivity|discriminate].
Defined.

(** ** What a mount call sends and returns *)

(** The requests an action sends, with the environment that answers them. *)
Definition sends (e : client_env) (w w' : client_world) : list (rpc * client_env) :=
  (fun x => (snd x, e)) <$> drop (length (cw_sent w)) (cw_sent w').

Section Calls.
Context `{UrlLib}.

Local Notation ends p Q := (ends sends p Q).
Definition silent {A} (p : cprog A) : Prop := ends p (fun os _ => os = []).

Lemma sends_nothing e w w' : cw_sent w' = cw_sent w -> sends e w w' = [].
Proof. unfold sends. intros ->. by rewrite drop_all. Qed.

Lemma sends_one e w w' x : cw_sent w' = cw_sent w ++ [x] -> sends e w w' = [(snd x, e)].
Proof. unfold sends. intros ->. by rewrite drop_app_length. Qed.

Lemma silent_perform {A} (f : client_env -> client_world -> step_outcome client_world client_thread A) :
  (forall e w x w' ts, f e w = Goes x w' ts -> cw_sent w' = cw_sent w) -> silent (perform f).
Proof. intros Hf. apply ends_perform. intros e w x w' ts Hx. eapply sends_nothing, Hf, Hx. Qed.

Lemma silent_ret {A} (a : A) : silent (mret a).
Proof. by apply ends_ret. Qed.

Lemma silent_bind {A B} (p : cprog A) (k : A -> cprog B) : silent p -> (forall a, silent (k a)) -> silent (p ≫= k).
Proof. intros Hp Hk. eapply ends_bind; [exact Hp|]. intros os a ->. apply Hk. Qed.

(** Steps that send nothing in front of a program. *)
Lemma ends_silently {A B} (p : cprog A) (k : A -> cprog B) Q : silent p -> (forall a, ends (k a) Q) -> ends (p ≫= k) Q.
Proof. intros Hp Hk. eapply ends_bind; [exact Hp|]. intros os a ->. apply Hk. Qed.

Create HintDb quietly discriminated.
#[local] Hint Resolve @silent_ret : quietly.

Ltac silently := repeat first
  [ solve [auto with quietly]
  | apply silent_bind; [|intros ?]
  | case_match
  | apply silent_perform; intros ? [] ? ? ?; simpl; repeat case_match; intros ?; by simplify_eq ].

Lemma silent_close_if_some c : silent (close_if_some c).
Proof. destruct c; cbn [close_if_some]; silently. Qed.
#[local] Hint Resolve silent_close_if_some : quietly.

Lemma silent_reconnect_now : silent reconnect_now.
Proof. unfold reconnect_now, newConnection, WithTimeout. silently. Qed.

Lemma silent_startBackgroundReconnect : silent startBackgroundReconnect.
Proof. unfold startBackgroundReconnect. silently. Qed.

Lemma silent_getContextWithDeadline : silent getContextWithDeadline.
Proof. unfold getContextWithDeadline, WithTimeout. silently. Qed.

Lemma silent_getAPIClient : silent getAPIClient.
Proof. unfold getAPIClient. silently. Qed.
#[local] Hint Resolve silent_reconnect_now silent_startBackgroundReconnect silent_getContextWithDeadline : quietly.
#[local] Hint Resolve silent_getAPIClient : quietly.

Lemma silent_Connect : silent Connect.
Proof. unfold Connect, newConnection. silently. Qed.

Lemma silent_Disconnect : silent Disconnect.
Proof. unfold Disconnect, disconnectConn. silently. Qed.

(** One try: nothing is sent and an error is returned, or the request is
    sent and its answer returned, or the error of its context. *)
Definition tried {A} (q : rpc) (answer : client_env -> result rpcerror A) (os : list (rpc * client_env)) (r : result rpcerror A) : Prop :=
  (os = [] /\ exists err, r = Err err) \/
  (exists e, os = [(q, e)] /\ ((env_answers e = true /\ r = answer e) \/ exists err, r = Err err /\ isTransportError err = false)).

Lemma ends_call_rpc {A} c q (answer : client_env -> result rpcerror A) : ends (call_rpc c q answer) (tried q answer).
Proof.
  unfold call_rpc. apply ends_silently; [silently|]. intros [x|err]; [|apply ends_ret; left; eauto].
  apply ends_perform. intros e w r w' ts Hx. right. exists e. cbv zeta in Hx.
  assert (forall y, sends e w (set_cw_sent (cw_sent (advance e w) ++ [y]) (advance e w)) = [(snd y, e)]) as Hsent
    by (intros y; destruct w; by apply sends_one).
  destruct (env_answers e) eqn:Ea; [injection Hx as <- <- <-; split; [apply Hsent|by left]|].
  destruct (ctx_ended (advance e w) c); [|done]. injection Hx as <- <- <-. split; [apply Hsent|right]. eexists. split; [reflexivity|].
  unfold context_status. by destruct (is_cancelled _ _).
Qed.

Lemma ends_doWithReconnect {A} (f : cprog (result rpcerror A)) F :
  ends f F ->
  ends (doWithReconnect f) (fun os r =>
    (os = [] /\ exists err, r = Err err) \/ F os r \/
    exists os1 os2 err, os = os1 ++ os2 /\ F os1 (Err err) /\ isTransportError err = true /\ F os2 r).
Proof.
  intros Hf. unfold doWithReconnect. apply ends_silently; [silently|]. intros flag.
  destruct (flag =? 1); [apply ends_ret; left; eauto|]. eapply ends_bind; [exact Hf|]. intros os1 [res|err] H1.
  { apply ends_ret. rewrite app_nil_r. auto. }
  set (G := fun os' r => F (os1 ++ os') r \/ isTransportError err = true /\ F os' r).
  apply (ends_mono _ _ G); [intros os' r [HF|[Ht HF]]; [auto|]; right; right; eauto 8|].
  assert (ends (mret (Err err) : cprog _) G) as Hret by (apply ends_ret; left; by rewrite app_nil_r).
  apply ends_silently; [silently|]. intros auto.
  destruct (auto && isTransportError err) eqn:Eat; [apply andb_true_iff in Eat as [_ Ht]|exact Hret].
  apply ends_silently; [silently|]. intros [|]; cbn [negb]; [|exact Hret].
  apply ends_silently; [silently|]. intros [|]; cbn [negb]; [|exact Hret].
  apply ends_silently; [silently|]. intros [|].
  - apply ends_silently; [silently|]. intros _. eapply ends_mono; [|exact Hf]. intros os r HF. by right.
  - apply ends_silently; [silently|]. intros c. apply ends_silently; [destruct c; silently|]. intros _. exact Hret.
Qed.

(** What is sent by a call that may be tried again. *)
Record tried_again {A} (q : rpc) (answer : client_env -> result rpcerror A) (os : list (rpc * client_env)) (r : result rpcerror A) : Prop := {
  again_same : Forall (fun x => fst x = q) os;
  again_twice : (length os <= 2)%nat;
  again_reason : forall x y, os = [x; y] -> exists err, answer (snd x) = Err err /\ isTransportError err = true;
  again_last : forall a, r = Ok a -> exists e, last os = Some (q, e) /\ env_answers e = true /\ answer e = Ok a
}.

Lemma ends_tried_again {A} (f : cprog (result rpcerror A)) q answer :
  ends f (tried q answer) -> ends (doWithReconnect f) (tried_again q answer).
Proof.
  intros Hf. eapply ends_mono; [|by apply ends_doWithReconnect].
  assert (forall os r, tried q answer os r -> tried_again q answer os r) as Honce.
  { intros os r [[-> [err ->]]|(e & -> & He)]; [by split; simpl; [constructor|lia|..]|].
    split; simpl; [by repeat constructor|lia|done|]. intros a ->. exists e. destruct He as [[? ?]|(err & [=] & _)]. auto. }
  intros os r [[-> [err ->]]|[Ht|(os1 & os2 & err & -> & H1 & Ht & H2)]]; [apply Honce; left; eauto|by apply Honce|].
  destruct H1 as [[-> _]|(e1 & -> & [[_ He1]|(err1 & [= <-] & Hn)])]; [by apply Honce| |congruence].
  destruct H2 as [[-> [err2 ->]]|(e2 & -> & He2)].
  - split; simpl; [by repeat constructor|lia|done|done].
  - split; simpl; [by repeat constructor|lia|intros x y [= <- <-]; eauto|].
    intros a ->. exists e2. destruct He2 as [[? ?]|(err2 & [=] & _)]. auto.
Qed.

(** The mount and the state a waiting call accepts. *)
Definition settled (m : MountInfo) : bool :=
  bool_decide (MountInfo_State m = MOUNT_STATE_MOUNTED) || bool_decide (MountInfo_State m = MOUNT_STATE_FAILED).

Lemma wait_events_settled id events ending m :
  wait_events id events ending = Some (Ok m) -> MountInfo_MountId m = id /\ settled m = true.
Proof.
  unfold settled. induction events as [|ev events IH]; simpl; [by destruct ending|].
  destruct (received_Mount ev) as [x|]; [|done]. destruct (String.eqb _ id) eqn:Ei; [|done]. simpl. bools.
  destruct (MountInfo_State x) eqn:Es; repeat case_match; try done; intros [= <-]; by rewrite Es.
Qed.

Definition watch_request (id : string) : rpc := RpcWatchMountEvents (mkWatchMountEventsRequest [id] true).

Lemma ends_waitForMount id :
  ends (client_waitForMount id) (fun os r => forall m, r = Ok m ->
    MountInfo_MountId m = id /\ settled m = true /\ exists e, os = [(watch_request id, e)]).
Proof.
  unfold client_waitForMount. destruct (String.eqb id EmptyString); [by apply ends_ret|].
  apply ends_silently; [silently|]. intros c. eapply ends_bind; [apply ends_call_rpc|].
  intros os [[]|err] Ht; [|by apply ends_ret]. apply ends_perform. intros e w r w' ts Hx m ->.
  cbv zeta in Hx. destruct (wait_events _ _ _) as [x|] eqn:Ew; [|by destruct (ctx_ended _ _)]. injection Hx as -> <- _.
  destruct (wait_events_settled _ _ _ _ Ew) as [Hid Hs]. split_and!; [done..|].
  rewrite sends_nothing, app_nil_r by (by destruct w). destruct Ht as [[_ [err [=]]]|(e' & -> & _)]. by exists e'.
Qed.

Definition mount_request (mountID : string) (config : option MountConfig) : MountRequest :=
  mkMountRequest (if String.eqb mountID EmptyString then None else Some mountID) config.

Lemma ends_boxed_call {A} (q : rpc) (answer : client_env -> result rpcerror A) box :
  ends (c ← getContextWithDeadline; r ← call_rpc c q answer; mret (boxed box r)) (tried q (fun e => boxed box (answer e))).
Proof.
  apply ends_silently; [silently|]. intros c. eapply ends_bind; [apply ends_call_rpc|]. intros os r Ht.
  apply ends_ret. rewrite app_nil_r. destruct Ht as [[-> [err ->]]|(e & -> & [[? ->]|(err & -> & ?)])]; [left; eauto|right; eauto..].
  exists e. split; [done|]. right. by exists err.
Qed.

(** A call that may be tried again and returns the answer to its last
    request. *)
Record answered {A} (q : rpc) (answer : client_env -> result rpcerror A) (os : list (rpc * client_env)) (r : result client_error A) : Prop := {
  answered_same : Forall (fun x => fst x = q) os;
  answered_twice : (length os <= 2)%nat;
  answered_reason : forall x y, os = [x; y] -> exists err, answer (snd x) = Err err /\ isTransportError err = true;
  answered_last : forall a, r = Ok a -> exists e, last os = Some (q, e) /\ env_answers e = true /\ answer e = Ok a
}.

Lemma ends_answered {A} (q : rpc) (answer : client_env -> result rpcerror A) (box : A -> any_response)
    (unbox : result rpcerror any_response -> result client_error A) :
  (forall a, unbox (Ok (box a)) = Ok a) -> (forall err, unbox (Err err) = Err (CError err)) ->
  ends (res ← doWithReconnect (c ← getContextWithDeadline; r ← call_rpc c q answer; mret (boxed box r)); mret (unbox res))
    (answered q answer).
Proof.
  intros Hok Herr. eapply ends_bind; [by apply ends_tried_again, ends_boxed_call|]. intros os res [Hs Ht Hw Hl].
  apply ends_ret. rewrite app_nil_r. split; [done..| |].
  - intros x y Hxy. destruct (Hw x y Hxy) as (err & He & Hx). exists err. by destruct (answer (snd x)); simplify_eq/=.
  - intros a Ha. destruct res as [y|err]; [|by rewrite Herr in Ha]. destruct (Hl y eq_refl) as (e & He & Hans & Hy).
    exists e. split_and!; [done..|]. destruct (answer e) as [b|]; [|done]. injection Hy as <-. rewrite Hok in Ha. congruence.
Qed.

Lemma ends_ListMounts filter :
  ends (client_ListMounts filter) (answered (RpcListMounts (list_request filter)) env_ListMounts).
Proof.
  by apply (ends_answered _ _ AnyListMounts (fun res => match res with
    | Err err => Err (CError err) | Ok (AnyListMounts mounts) => Ok mounts
    | Ok _ => Err (plain "failed to convert interface to ListMountsResponse") end)).
Qed.

Lemma ends_Unmount mountID :
  ends (client_Unmount mountID) (answered (RpcUnmount (mkUnmountRequest mountID)) env_Unmount).
Proof.
  unfold client_Unmount. destruct (String.eqb mountID EmptyString); [by apply ends_ret; split; simpl; [constructor|lia|..]|].
  by apply (ends_answered _ _ AnyUnmount (fun res => match res with
    | Err err => Err (CError err) | Ok (AnyUnmount mount) => Ok mount
    | Ok _ => Err (plain "failed to convert interface to UnmountResponse") end)).
Qed.

(** A mount request reaches the server at most twice, and a second time
    only when the first was answered by a transport error.  A call that does
    not wait returns the answer to the last request; a call that waits
    returns a mount with the identifier of that answer, in state MOUNTED or
    FAILED, and has watched the events of exactly this mount. *)
Lemma mount_call_is_faithful mountID config wait os r :
  execution sends (MountWithID mountID (Some config) wait) os r ->
  exists requests watches, os = requests ++ watches /\
    Forall (fun x => fst x = RpcMount (mount_request mountID (Some config))) requests /\
    (length requests <= 2)%nat /\
    (forall x y, requests = [x; y] -> exists err, env_Mount (snd x) = Err err /\ isTransportError err = true) /\
    forall m, r = Ok m -> exists q e answer, last requests = Some (q, e) /\ env_answers e = true /\ env_Mount e = Ok answer /\
      if wait : bool
      then exists mount e', m = Some mount /\ settled mount = true /\
             MountInfo_MountId mount = from_option MountInfo_MountId EmptyString answer /\
             watches = [(watch_request (MountInfo_MountId mount), e')]
      else m = answer /\ watches = [].
Proof.
  intros Hx. unfold MountWithID in Hx. cbv zeta in Hx.
  apply execution_bind in Hx as (requests & watches & res & -> & Hreq & Hres). exists requests, watches. split; [done|].
  apply (ends_tried_again _ (RpcMount (mount_request mountID (Some config))) (fun e => boxed AnyMount (env_Mount e)))
    in Hreq as [Hsame Htwice Hwhy Hlast]; [|by apply ends_boxed_call].
  split_and!; [done..| |].
  - intros x y Hxy. destruct (Hwhy x y Hxy) as (err & He & Ht). exists err. by destruct (env_Mount (snd x)); simplify_eq/=.
  - intros m ->. destruct res as [a|err]; [|by destruct Hres]. destruct (Hlast a eq_refl) as (e & Hl & Hans & He).
    destruct (env_Mount e) as [answer|err] eqn:Em; [|done]. injection He as <-.
    eexists _, e, answer. split_and!; [exact Hl|done|done|]. destruct wait; cbn [negb] in Hres.
    + apply execution_bind in Hres as (os1 & os2 & x & -> & Hx & -> & Hm).
      destruct x as [mount|err]; [|done]. injection Hm as ->.
      destruct (ends_waitForMount _ _ _ Hx mount eq_refl) as (Hid & Hs & e' & ->).
      exists mount, e'. rewrite app_nil_r, Hid. auto.
    + destruct Hres as [-> [= ->]]. auto.
Qed.
End Calls.

(** A call that is still reconnecting when the client is disconnected and
    connected again clears the flag of the goroutine that reconnects in the
    background for the next call. *)
Definition overlapping_run : list (scheduled client_env client_thread) :=
  [Arrives TcConnect] ++ steps 0 2 healthy ++
  [Arrives (TcGetMount "m1")] ++ steps 1 11 down ++
  [Arrives TcDisconnect] ++ steps 2 7 healthy ++
  [Arrives TcConnect] ++ steps 3 2 healthy ++
  [Arrives (TcGetMount "m1")] ++ steps 4 11 down ++ steps 4 1 (network 1000000000 [] (Ok None)) ++ steps 4 8 down ++
  steps 1 4 healthy.

Lemma flag_clear_while_reconnecting :
  match pool_run (@client_body plain_urls) (client_pool "c" "tcp://localhost:13020" 0 true) overlapping_run with
  | Ran s => from_option finished true (pool_threads s !! 5%nat) = false /\ reconnectingFlag (cw_client (pool_world s)) = 0
  | _ => False
  end.
Proof. vm_compute. done. Qed.
