(* ===== verification/PidFile.v ===== *)
(** * The PID file (cmd/commons/pid_file.go)

    Processes on one host that use PID files: names lead to inodes, an
    inode has a content and at most one exclusive lock, and a removed name
    leaves the inode to those who have it open.  Each system call is one
    action.  A process is identified by its pid, which the host gives to one
    live process at a time; the lock of an open file is identified by the
    process that opened it, since a daemon opens its PID file once.  Writing
    the few bytes of a pid either happens or fails as a whole.  Calls and
    their errors other than these come from the environment. *)

From S2P Require Import Prelude GoStrings GoPath GoErrors GoDigits Threads.

(** ** The host *)

Record inode : Type := mkInode {
  ino_content : string;
  ino_lock : option Z
}.

(** A daemon that got its PID file: its pid, the path and the inode, and
    whether the path led to that inode when it began to serve. *)
Record serving : Type := mkServing {
  serving_pid : Z;
  serving_path : string;
  serving_inode : nat;
  serving_in_place : bool
}.

Record host : Type := mkHost {
  h_names : gmap string nat;
  h_inodes : list inode;
  h_live : list Z;
  h_serving : list serving
}.

Definition set_h_names (v : gmap string nat) (h : host) : host :=
  let '(mkHost _ b c d) := h in mkHost v b c d.
Definition set_h_inodes (v : list inode) (h : host) : host :=
  let '(mkHost a _ c d) := h in mkHost a v c d.
Definition set_h_live (v : list Z) (h : host) : host :=
  let '(mkHost a b _ d) := h in mkHost a b v d.
Definition set_h_serving (v : list serving) (h : host) : host :=
  let '(mkHost a b c _) := h in mkHost a b c v.

Definition on_inode (f : inode -> inode) (i : nat) (h : host) : host := set_h_inodes (alter f i (h_inodes h)) h.
Definition set_content (v : string) (x : inode) : inode := mkInode v (ino_lock x).
Definition set_lock (v : option Z) (x : inode) : inode := mkInode (ino_content x) v.

(** Why a system call fails. *)
Inductive errno : Type := EWOULDBLOCK | ENOENT | EPERM | ESRCH | EOTHER (msg : string).

Record pid_env : Type := mkPidEnv {
  pe_pid : Z;                  (* the pid of a new process *)
  pe_err : option errno;       (* error of the system call made *)
  pe_killed : bool             (* the running daemon is killed *)
}.

(** A daemon that is started with a PID file at a path. *)
Inductive pid_thread : Type := TDaemon (path : string).

Notation pprog := (program host pid_env pid_thread).

(** ** System calls *)

Definition simple_call : pprog (option errno) := observe (fun e _ => pe_err e).

Definition os_OpenFile (path : string) : pprog (result errno nat) :=
  update (fun e h =>
    match pe_err e with
    | Some err => (Err err, h)
    | None =>
        match h_names h !! path with
        | Some i => (Ok i, h)
        | None =>
            let i := length (h_inodes h) in
            (Ok i, set_h_names (<[path := i]> (h_names h))
                     (set_h_inodes (h_inodes h ++ [mkInode EmptyString None]) h))
        end
    end).

(** flock(LOCK_EX|LOCK_NB) *)
Definition flock_exclusive (pid : Z) (file : nat) : pprog (option errno) :=
  update (fun e h =>
    match pe_err e with
    | Some err => (Some err, h)
    | None =>
        match ino_lock <$> h_inodes h !! file with
        | Some None => (None, on_inode (set_lock (Some pid)) file h)
        | _ => (Some EWOULDBLOCK, h)
        end
    end).

Definition flock_unlock (file : nat) : pprog (option errno) :=
  update (fun e h =>
    match pe_err e with
    | Some err => (Some err, h)
    | None => (None, on_inode (set_lock None) file h)
    end).

(** Closing a file gives up a lock that its opener still holds. *)
Definition close_file (pid : Z) (file : nat) (h : host) : host :=
  if bool_decide (h_inodes h !! file ≫= ino_lock = Some pid) then on_inode (set_lock None) file h else h.

Definition file_Close (pid : Z) (file : nat) : pprog (option errno) :=
  update (fun e h => (pe_err e, close_file pid file h)).

Definition file_Truncate (file : nat) : pprog (option errno) :=
  update (fun e h =>
    match pe_err e with
    | Some err => (Some err, h)
    | None => (None, on_inode (set_content EmptyString) file h)
    end).

(** fmt.Fprintf(file, "%d\n", pid) at the start of an empty file. *)
Definition file_write (file : nat) (content : string) : pprog (option errno) :=
  update (fun e h =>
    match pe_err e with
    | Some err => (Some err, h)
    | None => (None, on_inode (set_content content) file h)
    end).

Definition os_ReadFile (path : string) : pprog (result errno string) :=
  observe (fun e h =>
    match pe_err e with
    | Some err => Err err
    | None => match h_names h !! path ≫= fun i => h_inodes h !! i with
              | Some x => Ok (ino_content x)
              | None => Err ENOENT
              end
    end).

Definition os_Remove (path : string) : pprog unit :=
  update (fun e h =>
    match pe_err e with
    | Some _ => (tt, h)
    | None => (tt, set_h_names (delete path (h_names h)) h)
    end).

(** ** The PID file *)

Record PIDFile : Type := mkPIDFile {
  PIDFile_file : option nat;
  PIDFile_path : string;
  PIDFile_pid : Z
}.

Definition errno_message (err : errno) : string :=
  match err with
  | EWOULDBLOCK => "resource temporarily unavailable"
  | ENOENT => "no such file or directory"
  | EPERM => "operation not permitted"
  | ESRCH => "no such process"
  | EOTHER msg => msg
  end.

Definition wrapped (msg : string) (err : errno) : goerror := EWrap (ENew (errno_message err)) msg.

(** errors.Join(unlockErr, closeErr) *)
Definition releaseFile (pid : Z) (file : nat) : pprog (option errno * option errno) :=
  unlockErr ← flock_unlock file;
  closeErr ← file_Close pid file;
  mret (unlockErr, closeErr).

Definition pid_line (pid : Z) : string := Itoa pid +:+ str1 ch_newline.

(** The steps after the lock was taken; each may fail. *)
Definition record_pid (pid : Z) (path : string) (file : nat) : pprog (option goerror) :=
  err ← file_Truncate file;
  match err with
  | Some err => releaseFile pid file;; mret (Some (wrapped ("truncate pid file " +:+ Quote path) err))
  | None =>
      err ← simple_call;
      match err with
      | Some err => releaseFile pid file;; mret (Some (wrapped ("seek pid file " +:+ Quote path) err))
      | None =>
          err ← file_write file (pid_line pid);
          match err with
          | Some err => releaseFile pid file;; mret (Some (wrapped ("write pid file " +:+ Quote path) err))
          | None =>
              err ← simple_call;
              match err with
              | Some err => releaseFile pid file;; mret (Some (wrapped ("sync pid file " +:+ Quote path) err))
              | None => mret None
              end
          end
      end
  end.

(** [pid] is os.Getpid() of the calling process. *)
Definition AcquirePIDFile (pid : Z) (path : string) : pprog (result goerror PIDFile) :=
  if String.eqb (TrimSpace path) EmptyString then mret (Err (ENew "pid file path cannot be empty"))
  else
    err ← simple_call;
    match err with
    | Some err => mret (Err (wrapped ("create pid directory for " +:+ Quote path) err))
    | None =>
        opened ← os_OpenFile path;
        match opened with
        | Err err => mret (Err (wrapped ("open pid file " +:+ Quote path) err))
        | Ok file =>
            err ← flock_exclusive pid file;
            match err with
            | Some EWOULDBLOCK =>
                file_Close pid file;;
                mret (Err (ENew ("irodsfsd is already running (pid file: " +:+ path +:+ ")")))
            | Some err =>
                file_Close pid file;;
                mret (Err (wrapped ("lock pid file " +:+ Quote path) err))
            | None =>
                err ← record_pid pid path file;
                match err with
                | Some err => mret (Err err)
                | None => mret (Ok (mkPIDFile (Some file) path pid))
                end
            end
        end
    end.

Definition read_own_pid (data : result errno string) : option Z :=
  match data with
  | Ok content => Atoi (TrimSpace content)
  | Err _ => None
  end.

(** The result is the error of releaseFile and the file afterwards. *)
Definition PIDFile_Close (p : option PIDFile) : pprog (option (option errno * option errno) * option PIDFile) :=
  match p with
  | None => mret (None, None)
  | Some f =>
      match PIDFile_file f with
      | None => mret (None, p)
      | Some file =>
          data ← os_ReadFile (PIDFile_path f);
          (if bool_decide (read_own_pid data = Some (PIDFile_pid f)) then os_Remove (PIDFile_path f) else mret tt);;
          err ← releaseFile (PIDFile_pid f) file;
          mret (Some err, Some (mkPIDFile None (PIDFile_path f) (PIDFile_pid f)))
      end
  end.

Definition read_pid (path : string) (data : result errno string) : result goerror Z :=
  match data with
  | Err ENOENT => Err (ENew ("irodsfsd is not running: pid file " +:+ Quote path +:+ " does not exist"))
  | Err err => Err (wrapped ("read pid file " +:+ Quote path) err)
  | Ok content =>
      match Atoi (TrimSpace content) with
      | Some pid => if pid <=? 1 then Err (ENew ("pid file " +:+ Quote path +:+ " contains an invalid pid")) else Ok pid
      | None => Err (ENew ("pid file " +:+ Quote path +:+ " contains an invalid pid"))
      end
  end.

Definition ReadPID (path : string) : pprog (result goerror Z) :=
  data ← os_ReadFile path; mret (read_pid path data).

(** kill(pid, 0): a live process, or one that may not be signalled. *)
Definition process_signal (pid : Z) : pprog (option errno) :=
  observe (fun e h =>
    match pe_err e with
    | Some err => Some err
    | None => if bool_decide (pid ∈ h_live h) then None else Some ESRCH
    end).

Definition ProcessRunning (pid : Z) : pprog bool :=
  err ← process_signal pid;
  mret (match err with None | Some EPERM => true | _ => false end).

Definition SignalPID (pid : Z) : pprog (option goerror) :=
  err ← process_signal pid;
  mret (match err with
        | None => None
        | Some ESRCH => Some (ENew ("irodsfsd is not running (stale pid " +:+ Itoa pid +:+ ")"))
        | Some err => Some (wrapped ("signal process " +:+ Itoa pid) err)
        end).

(** ** Daemons *)

(** A new process gets a pid that no live process has. *)
Definition process_starts : pprog Z :=
  perform (fun e h =>
    if bool_decide (pe_pid e ∈ h_live h) || negb (1 <? pe_pid e) || negb (pe_pid e <? two63) then Waits
    else Goes (pe_pid e) (set_h_live (pe_pid e :: h_live h) h) []).

Definition process_exits (pid : Z) : pprog unit :=
  modify (fun h => set_h_live (filter (fun p => p <> pid) (h_live h)) h).

Definition leave (pid : Z) (h : host) : host :=
  set_h_serving (filter (fun s => serving_pid s <> pid) (h_serving h)) h.

Definition begin_serving (pid : Z) (path : string) (file : nat) : pprog unit :=
  modify (fun h => set_h_serving (mkServing pid path file (bool_decide (h_names h !! path = Some file)) :: h_serving h) h).

(** Serving ends by a signal, or the process is killed and the host closes
    its files. *)
Definition serve_until_stopped (pid : Z) (file : nat) : pprog bool :=
  update (fun e h =>
    if pe_killed e then (true, close_file pid file (leave pid h)) else (false, leave pid h)).

(** runDaemonManaged (cmd/main.go) as far as the PID file is concerned. *)
Definition daemon_process (path : string) : pprog unit :=
  pid ← process_starts;
  r ← AcquirePIDFile pid path;
  match r with
  | Err _ => process_exits pid
  | Ok f =>
      match PIDFile_file f with
      | None => process_exits pid
      | Some file =>
          begin_serving pid path file;;
          killed ← serve_until_stopped pid file;
          if killed : bool then process_exits pid
          else PIDFile_Close (Some f);; process_exits pid
      end
  end.

Definition pid_body (t : pid_thread) : pprog unit := match t with TDaemon path => daemon_process path end.
