(* ===== verification/PidFileFacts.v ===== *)
(** * What a PID file guarantees

    Every process owns one token, its pid and how far it has come.  The
    invariant says who holds which lock, what the locked files contain and
    who may remove a name. *)

From S2P Require Import Prelude GoStrings GoPath GoErrors GoDigits Threads PidFile.

Inductive phase : Type :=
| Started
| Opened (p : string) (i : nat)            (* has the file open *)
| Locked (p : string) (i : nat)            (* holds its lock *)
| Recorded (p : string) (i : nat)          (* has written its pid *)
| Serving (p : string) (i : nat) (b : bool)
| Removing (p : string) (i : nat).         (* has read its own pid at the path *)

#[export] Instance phase_eq_dec : EqDecision phase.
Proof. solve_decision. Defined.

Notation ptoken := (Z * phase)%type (only parsing).

(** The file a process has open, and the one whose lock it holds. *)
Definition open_file (ph : phase) : option (string * nat) :=
  match ph with
  | Started => None
  | Opened p i | Locked p i | Recorded p i | Serving p i _ | Removing p i => Some (p, i)
  end.

Definition held (ph : phase) : option nat :=
  match ph with
  | Started | Opened _ _ => None
  | Locked _ i | Recorded _ i | Serving _ i _ | Removing _ i => Some i
  end.

(** The file that contains the pid of the process. *)
Definition written (ph : phase) : option nat :=
  match ph with
  | Recorded _ i | Serving _ i _ | Removing _ i => Some i
  | _ => None
  end.

(** The path that is known to lead to the file. *)
Definition in_place (ph : phase) : option (string * nat) :=
  match ph with
  | Serving p i true | Removing p i => Some (p, i)
  | _ => None
  end.

Definition content_at (h : host) (i : nat) : option string := ino_content <$> h_inodes h !! i.
Definition lock_at (h : host) (i : nat) : option Z := h_inodes h !! i ≫= ino_lock.
Definition names_pid (content : string) (q : Z) : Prop := Atoi (TrimSpace content) = Some q.

Record phase_ok (h : host) (q : Z) (ph : phase) : Prop := {
  ph_pid : 1 < q < two63;
  ph_held : forall i, held ph = Some i -> lock_at h i = Some q;
  ph_written : forall i, written ph = Some i -> content_at h i = Some (pid_line q);
  ph_place : forall p i, in_place ph = Some (p, i) -> h_names h !! p = Some i;
  (** another file at the path does not carry the pid of the process *)
  ph_other : forall p i k c, open_file ph = Some (p, i) -> h_names h !! p = Some k -> k <> i ->
    content_at h k = Some c -> ~ names_pid c q;
  ph_exists : forall p i, open_file ph = Some (p, i) -> (i < length (h_inodes h))%nat
}.

Record pid_inv (h : host) (T : list ptoken) : Prop := {
  pi_pids : NoDup T.*1;
  pi_live : forall q, q ∈ h_live h <-> q ∈ T.*1;
  pi_phases : forall q ph, (q, ph) ∈ T -> phase_ok h q ph;
  pi_locks : forall i q, lock_at h i = Some q -> exists ph, (q, ph) ∈ T /\ held ph = Some i;
  pi_names : forall p i, h_names h !! p = Some i -> (i < length (h_inodes h))%nat;
  pi_distinct : forall p p' i, h_names h !! p = Some i -> h_names h !! p' = Some i -> p = p';
  pi_serving : forall s, s ∈ h_serving h ->
    (serving_pid s, Serving (serving_path s) (serving_inode s) (serving_in_place s)) ∈ T
}.

Lemma pid_inv_perm h : Proper ((≡ₚ) ==> iff) (pid_inv h).
Proof.
  assert (forall T U, T ≡ₚ U -> pid_inv h T -> pid_inv h U) as Hp.
  { intros T U HTU [i1 i2 i3 i4 i5 i6 i7].
    split; [by rewrite <- HTU|intros q; by rewrite <- HTU|..|done|done|]; setoid_rewrite <- HTU; done. }
  intros T U HTU. split; apply Hp; [done|by symmetry].
Qed.

(** A step of one process that keeps the processes and what the others
    know. *)
Lemma pid_inv_step h h' q ph ph' F :
  pid_inv h ((q, ph) :: F) ->
  h_live h' = h_live h ->
  phase_ok h' q ph' ->
  (forall q' x, q' <> q -> (q', x) ∈ F -> phase_ok h q' x -> phase_ok h' q' x) ->
  (forall i q', lock_at h' i = Some q' -> lock_at h i = Some q' \/ q' = q) ->
  (forall i, lock_at h' i = Some q -> held ph' = Some i) ->
  (forall p i, h_names h' !! p = Some i -> (i < length (h_inodes h'))%nat) ->
  (forall p p' i, h_names h' !! p = Some i -> h_names h' !! p' = Some i -> p = p') ->
  (forall s, s ∈ h_serving h' ->
     (serving_pid s <> q /\ s ∈ h_serving h) \/
     (serving_pid s, Serving (serving_path s) (serving_inode s) (serving_in_place s)) = (q, ph')) ->
  pid_inv h' ((q, ph') :: F).
Proof.
  intros [i1 i2 i3 i4 i5 i6 i7] Hlive Hph Hothers Hlocks Hown Hnames Hdist Hserv. simpl in i1. apply NoDup_cons in i1 as [Hq Hn].
  assert (forall q' x, (q', x) ∈ F -> q' <> q) as Hne.
  { intros q' x Hx ->. apply Hq. apply list_elem_of_fmap. by exists (q, x). }
  split; simpl.
  - by apply NoDup_cons.
  - intros q'. rewrite Hlive. apply i2.
  - intros q' x [[= -> ->]|Hx]%elem_of_cons; [done|]. apply Hothers; [by eapply Hne|done|]. apply i3. by right.
  - intros i q' Hl. destruct (decide (q' = q)) as [->|Hne'].
    + exists ph'. split; [left|auto].
    + destruct (Hlocks i q' Hl) as [Hl'|]; [|done]. destruct (i4 i q' Hl') as (x & [[= ? ?]|Hx]%elem_of_cons & Hh); [done|].
      exists x. split; [by right|done].
  - done.
  - done.
  - intros s Hs. destruct (Hserv s Hs) as [[Hsq Hs']|E]; [|rewrite E; left].
    specialize (i7 s Hs'). apply elem_of_cons in i7 as [[= E1 E2]|Hx]; [done|]. by right.
Qed.

(** What a process knows survives the steps of others. *)
Lemma phase_ok_frame h h' q ph :
  (forall i, held ph = Some i -> lock_at h' i = lock_at h i) ->
  (forall i, written ph = Some i -> content_at h' i = content_at h i) ->
  (forall p i, in_place ph = Some (p, i) -> h_names h' !! p = h_names h !! p) ->
  (forall p k c, h_names h' !! p = Some k -> content_at h' k = Some c ->
     (h_names h !! p = Some k /\ content_at h k = Some c) \/ ~ names_pid c q) ->
  (length (h_inodes h) <= length (h_inodes h'))%nat ->
  phase_ok h q ph -> phase_ok h' q ph.
Proof.
  intros Hl Hc Hp Ho Hlen [p1 p2 p3 p4 p5 p6]. split; [done|..].
  - intros i Hi. rewrite Hl by done. auto.
  - intros i Hi. rewrite Hc by done. auto.
  - intros p i Hi. rewrite (Hp p i) by done. auto.
  - intros p i k c Hi Hk Hne Hck. destruct (Ho p k c Hk Hck) as [[Hk' Hc']|]; [|done]. by eapply p5.
  - intros p i Hi. specialize (p6 p i Hi). lia.
Qed.

Lemma written_held ph i : written ph = Some i -> held ph = Some i.
Proof. by destruct ph. Qed.

Lemma in_place_held ph p i : in_place ph = Some (p, i) -> held ph = Some i.
Proof. destruct ph as [| | | |? ? []|]; simpl; intros [=]; by subst. Qed.

Lemma names_pid_line q q' : 1 < q < two63 -> names_pid (pid_line q) q' -> q' = q.
Proof. intros Hq. unfold names_pid, pid_line. rewrite Atoi_Itoa_line by lia. congruence. Qed.

Lemma names_pid_empty q : ~ names_pid EmptyString q.
Proof. done. Qed.

(** Looking at an inode after a change of one. *)
Lemma lock_at_on_inode f i h k :
  lock_at (on_inode f i h) k = if decide (i = k) then h_inodes h !! i ≫= (fun x => ino_lock (f x)) else lock_at h k.
Proof.
  unfold lock_at. destruct h as [a b c d]. simpl. rewrite list_lookup_alter. case_decide; [|done]. subst.
  by destruct (b !! k).
Qed.

Lemma content_at_on_inode f i h k :
  content_at (on_inode f i h) k = if decide (i = k) then (fun x => ino_content (f x)) <$> h_inodes h !! i else content_at h k.
Proof.
  unfold content_at. destruct h as [a b c d]. simpl. rewrite list_lookup_alter. case_decide; [|done]. subst.
  by destruct (b !! k).
Qed.

Lemma on_inode_same f i h :
  h_names (on_inode f i h) = h_names h /\ length (h_inodes (on_inode f i h)) = length (h_inodes h) /\
  h_live (on_inode f i h) = h_live h /\ h_serving (on_inode f i h) = h_serving h.
Proof. destruct h. simpl. by rewrite length_alter. Qed.

Section Owning.
Implicit Types (h : host) (F : list ptoken).

Definition at_start (t : pid_thread) (r : list ptoken) : Prop := r = [].
Local Notation owning := (owning pid_inv at_start (fun _ _ => True) never).

(** The lock of a file belongs to one process. *)
Lemma pid_inv_lock_unique h T q q' ph ph' i :
  pid_inv h T -> (q, ph) ∈ T -> (q', ph') ∈ T -> held ph = Some i -> held ph' = Some i -> q = q'.
Proof.
  intros Hi Hq Hq' Hh Hh'. pose proof (ph_held _ _ _ (pi_phases _ _ Hi _ _ Hq) i Hh).
  pose proof (ph_held _ _ _ (pi_phases _ _ Hi _ _ Hq') i Hh'). congruence.
Qed.

(** A process has one phase. *)
Lemma pid_inv_own h q ph F x : pid_inv h ((q, ph) :: F) -> (q, x) ∈ (q, ph) :: F -> x = ph.
Proof.
  intros Hi [[= ->]|Hx]%elem_of_cons; [done|]. pose proof (pi_pids _ _ Hi) as Hn. apply NoDup_cons in Hn as [Hn _].
  destruct Hn. apply list_elem_of_fmap. by exists (q, x).
Qed.

Lemma pid_inv_own_lock h q ph F i : pid_inv h ((q, ph) :: F) -> lock_at h i = Some q -> held ph = Some i.
Proof. intros Hi Hl. destruct (pi_locks _ _ Hi i q Hl) as (x & Hx & Hh). by rewrite (pid_inv_own _ _ _ _ _ Hi Hx) in Hh. Qed.

(** Who is not serving is not among those who serve. *)
Lemma pid_inv_not_serving h q ph F s :
  pid_inv h ((q, ph) :: F) -> (forall p i b, ph <> Serving p i b) -> s ∈ h_serving h -> serving_pid s <> q.
Proof.
  intros Hi Hph Hs <-. pose proof (pi_serving _ _ Hi s Hs) as Hp.
  apply (pid_inv_own _ _ _ _ _ Hi) in Hp. exact (Hph _ _ _ (eq_sym Hp)).
Qed.

(** A change of the content by the process that holds the lock. *)
Lemma pid_inv_content h q F p i c ph' :
  pid_inv h ((q, Locked p i) :: F) -> (c = EmptyString \/ c = pid_line q) ->
  ph' = Locked p i \/ (ph' = Recorded p i /\ c = pid_line q) ->
  pid_inv (on_inode (set_content c) i h) ((q, ph') :: F).
Proof.
  intros Hi Hc Hph'. destruct (on_inode_same (set_content c) i h) as (En & Elen & Elive & Eserv).
  assert (forall k, lock_at (on_inode (set_content c) i h) k = lock_at h k) as Elock.
  { intros k. rewrite lock_at_on_inode. case_decide; [|done]. subst. unfold lock_at. by destruct (h_inodes h !! k). }
  pose proof (pi_phases _ _ Hi q (Locked p i) ltac:(left)) as Hok.
  assert (forall q', q' <> q -> ~ names_pid c q') as Hother.
  { intros q' Hne Hn. destruct Hc as [->| ->]; [done|]. apply Hne. by eapply names_pid_line, Hn; apply Hok. }
  assert (held ph' = Some i /\ open_file ph' = Some (p, i) /\ in_place ph' = None) as (Eh & Eo & Ep)
    by (by destruct Hph' as [->|[-> _]]).
  apply (pid_inv_step h _ q (Locked p i)); rewrite ?En, ?Elen, ?Elive, ?Eserv; [done|done|..|apply Hi|apply Hi|].
  - destruct Hok as [p1 p2 p3 p4 p5 p6]. split; rewrite ?Eh, ?Eo, ?Ep, ?En, ?Elen; [done| | |done| |auto].
    + intros j [= <-]. rewrite Elock. auto.
    + intros j Hj. destruct Hph' as [->|[-> ->]]; [done|]. injection Hj as <-. rewrite content_at_on_inode, decide_True by done.
      pose proof (p6 p i eq_refl) as Hlt. by destruct (lookup_lt_is_Some_2 _ _ Hlt) as [x ->].
    + intros p' j k x [= <- <-] Hk Hne. rewrite content_at_on_inode, decide_False by done. by apply (p5 p i k x eq_refl Hk).
  - intros q' x Hne Hin Hx. apply (phase_ok_frame h); rewrite ?En, ?Elen; [done| |done| |done|done].
    + intros j Hj. rewrite content_at_on_inode. case_decide; [|done]. subst. destruct Hne.
      apply (pid_inv_lock_unique h _ q' q x (Locked p j) j Hi); [by right|left|by apply written_held|done].
    + intros p' k y Hk. rewrite content_at_on_inode. case_decide; [|by left]. subst.
      destruct (h_inodes h !! k); simpl; [|done]. intros [= <-]. right. by apply Hother.
  - intros j q'. rewrite Elock. by left.
  - intros j. rewrite Elock, Eh. apply (pid_inv_own_lock _ _ _ _ _ Hi).
  - intros s Hs. left. split; [|done]. by apply (pid_inv_not_serving _ _ _ _ _ Hi).
Qed.

(** Forgetting, with the host unchanged. *)
Lemma pid_inv_weaken h q ph ph' F :
  pid_inv h ((q, ph) :: F) -> held ph' = held ph -> (forall p i b, ph <> Serving p i b) -> (forall p i b, ph' <> Serving p i b) ->
  (open_file ph' = open_file ph \/ open_file ph' = None) -> (written ph' = written ph \/ written ph' = None) ->
  (in_place ph' = in_place ph \/ in_place ph' = None) -> pid_inv h ((q, ph') :: F).
Proof.
  intros Hi Eh Hs Hs' Ho Hw Hp. pose proof (pi_phases _ _ Hi q ph ltac:(left)) as [p1 p2 p3 p4 p5 p6].
  apply (pid_inv_step h h q ph); try done; [|auto|rewrite Eh; apply (fun i => pid_inv_own_lock _ _ _ _ i Hi)|apply Hi|apply Hi|].
  - split; [done|by rewrite Eh|..]; [destruct Hw as [->| ->]|destruct Hp as [->| ->]|destruct Ho as [->| ->]..]; done.
  - intros s Hin. left. split; [|done]. by apply (pid_inv_not_serving _ _ _ _ _ Hi).
Qed.

(** Taking a lock that is free, and giving it up. *)
Lemma pid_inv_lock h q p i F :
  pid_inv h ((q, Opened p i) :: F) -> lock_at h i = None -> (i < length (h_inodes h))%nat ->
  pid_inv (on_inode (set_lock (Some q)) i h) ((q, Locked p i) :: F).
Proof.
  intros Hi Hfree Hlt. destruct (on_inode_same (set_lock (Some q)) i h) as (En & Elen & Elive & Eserv).
  pose proof (pi_phases _ _ Hi q _ ltac:(left)) as Hok.
  assert (forall k, content_at (on_inode (set_lock (Some q)) i h) k = content_at h k) as Ec.
  { intros k. rewrite content_at_on_inode. case_decide; [|done]. subst. unfold content_at. by destruct (h_inodes h !! k). }
  assert (lock_at (on_inode (set_lock (Some q)) i h) i = Some q) as El.
  { rewrite lock_at_on_inode, decide_True by done. by destruct (lookup_lt_is_Some_2 _ _ Hlt) as [x ->]. }
  assert (forall k, k <> i -> lock_at (on_inode (set_lock (Some q)) i h) k = lock_at h k) as El'
    by (intros k Hk; by rewrite lock_at_on_inode, decide_False by done).
  apply (pid_inv_step h _ q (Opened p i)); rewrite ?En, ?Elen, ?Elive, ?Eserv; [done|done|..|apply Hi|apply Hi|].
  - destruct Hok as [p1 p2 p3 p4 p5 p6]. split; simpl; rewrite ?En, ?Elen; [done|by intros ? [= <-]|done|done| |done].
    intros p' j k x Hj Hk Hne. rewrite Ec. by eapply p5.
  - intros q' x Hne Hin Hx. apply (phase_ok_frame h); rewrite ?En, ?Elen; [|intros; by rewrite Ec|done| |done|done].
    + intros j Hj. apply El'. intros ->. rewrite (ph_held _ _ _ Hx i Hj) in Hfree. done.
    + intros p' k y Hk. rewrite Ec. by left.
  - intros j q'. destruct (decide (j = i)) as [->|Hne]; [rewrite El; intros [= ->]; by right|rewrite El' by done; by left].
  - intros j. destruct (decide (j = i)) as [->|Hne]; [done|rewrite El' by done].
    intros Hl. by apply (pid_inv_own_lock _ _ _ _ _ Hi) in Hl.
  - intros s Hs. left. split; [|done]. by apply (pid_inv_not_serving _ _ _ _ _ Hi).
Qed.

Lemma pid_inv_unlock h q ph p i F :
  pid_inv h ((q, ph) :: F) -> held ph = Some i -> open_file ph = Some (p, i) -> (forall p i b, ph <> Serving p i b) ->
  pid_inv (on_inode (set_lock None) i h) ((q, Opened p i) :: F).
Proof.
  intros Hi Hh Ho Hns. destruct (on_inode_same (set_lock None) i h) as (En & Elen & Elive & Eserv).
  pose proof (pi_phases _ _ Hi q _ ltac:(left)) as Hok.
  assert (forall k, content_at (on_inode (set_lock None) i h) k = content_at h k) as Ec.
  { intros k. rewrite content_at_on_inode. case_decide; [|done]. subst. unfold content_at. by destruct (h_inodes h !! k). }
  assert (lock_at (on_inode (set_lock None) i h) i = None) as El.
  { rewrite lock_at_on_inode, decide_True by done. by destruct (h_inodes h !! i). }
  assert (forall k, k <> i -> lock_at (on_inode (set_lock None) i h) k = lock_at h k) as El'
    by (intros k Hk; by rewrite lock_at_on_inode, decide_False by done).
  apply (pid_inv_step h _ q ph); rewrite ?En, ?Elen, ?Elive, ?Eserv; [done|done|..|apply Hi|apply Hi|].
  - destruct Hok as [p1 p2 p3 p4 p5 p6]. split; simpl; rewrite ?En, ?Elen; [done|done|done|done| |intros p' j [= <- <-]; by eapply p6].
    intros p' j k x [= <- <-] Hk Hne. rewrite Ec. by eapply p5.
  - intros q' x Hne Hin Hx. apply (phase_ok_frame h); rewrite ?En, ?Elen; [|intros; by rewrite Ec|done| |done|done].
    + intros j Hj. apply El'. intros ->. destruct Hne.
      by apply (pid_inv_lock_unique h _ q' q x ph i Hi); [right|left|..].
    + intros p' k y Hk. rewrite Ec. by left.
  - intros j q'. destruct (decide (j = i)) as [->|Hne]; [by rewrite El|rewrite El' by done; by left].
  - intros j. destruct (decide (j = i)) as [->|Hne]; [by rewrite El|rewrite El' by done].
    intros Hl. apply (pid_inv_own_lock _ _ _ _ _ Hi) in Hl. congruence.
  - intros s Hs. left. split; [|done]. by apply (pid_inv_not_serving _ _ _ _ _ Hi).
Qed.

Lemma pid_inv_close h q ph p i F :
  pid_inv h ((q, ph) :: F) -> open_file ph = Some (p, i) -> (forall p i b, ph <> Serving p i b) ->
  pid_inv (close_file q i h) ((q, Started) :: F).
Proof.
  intros Hi Ho Hns. unfold close_file. case_bool_decide as Hl.
  - apply (pid_inv_weaken _ _ (Opened p i)); [|by auto..]. apply (pid_inv_unlock h q ph); try done.
    by apply (pid_inv_own_lock _ _ _ _ _ Hi).
  - apply (pid_inv_weaken _ _ ph); [done| |done|done|by right..].
    pose proof (ph_held _ _ _ (pi_phases _ _ Hi q ph ltac:(left))) as Hh. destruct ph; simpl in *; try done;
      injection Ho as -> ->; by destruct Hl; apply Hh.
Qed.

(** Opening a file that exists, or creating it. *)
Lemma pid_inv_open h q p i F :
  pid_inv h ((q, Started) :: F) -> h_names h !! p = Some i -> pid_inv h ((q, Opened p i) :: F).
Proof.
  intros Hi Hp. pose proof (pi_phases _ _ Hi q _ ltac:(left)) as [p1 _ _ _ _ _].
  apply (pid_inv_step h h q Started); try done; [|auto|intros j Hl; by apply (pid_inv_own_lock _ _ _ _ _ Hi) in Hl|apply Hi|apply Hi|].
  - split; try done; simpl; [intros p' j k x [= <- <-]; congruence|]. intros p' j [= <- <-]. by apply (pi_names _ _ Hi p).
  - intros s Hin. left. split; [|done]. by apply (pid_inv_not_serving _ _ _ _ _ Hi).
Qed.

Definition create_file (p : string) (h : host) : host :=
  set_h_names (<[p := length (h_inodes h)]> (h_names h)) (set_h_inodes (h_inodes h ++ [mkInode EmptyString None]) h).

Lemma create_file_names p h p' : h_names (create_file p h) !! p' = if decide (p = p') then Some (length (h_inodes h)) else h_names h !! p'.
Proof. destruct h as [a b c d]. simpl. case_decide; [subst; apply lookup_insert_eq | by apply lookup_insert_ne]. Qed.

Lemma create_file_inode p h k :
  h_inodes (create_file p h) !! k = if decide (k = length (h_inodes h)) then Some (mkInode EmptyString None) else h_inodes h !! k.
Proof.
  destruct h as [a b c d]. simpl. case_decide; [subst; by rewrite lookup_app_r, Nat.sub_diag by done|].
  destruct (decide (k < length b)%nat); [by rewrite lookup_app_l by done|].
  rewrite !lookup_ge_None_2 by (rewrite ?length_app; simpl; lia). done.
Qed.

Lemma pid_inv_create h q p F :
  pid_inv h ((q, Started) :: F) -> h_names h !! p = None ->
  pid_inv (create_file p h) ((q, Opened p (length (h_inodes h))) :: F).
Proof.
  intros Hi Hp. set (n := length (h_inodes h)).
  assert (length (h_inodes (create_file p h)) = S n) as Elen by (unfold n; destruct h; simpl; rewrite length_app; simpl; lia).
  assert (forall k, lock_at (create_file p h) k = lock_at h k) as El.
  { intros k. unfold lock_at. rewrite create_file_inode. case_decide; [|done]. subst. by rewrite lookup_ge_None_2. }
  assert (forall k, k <> n -> content_at (create_file p h) k = content_at h k) as Ec.
  { intros k Hk. unfold content_at. by rewrite create_file_inode, decide_False. }
  pose proof (pi_phases _ _ Hi q _ ltac:(left)) as [p1 _ _ _ _ _].
  apply (pid_inv_step h _ q Started); [done|by destruct h|..].
  - split; try done; simpl.
    + intros p' j k x [= <- <-]. rewrite create_file_names, decide_True by done. by intros [= <-] Hne.
    + intros p' j [= <- <-]. rewrite Elen. lia.
  - intros q' x Hne Hin Hx. apply (phase_ok_frame h); [by intros; rewrite El|..|rewrite Elen; lia|done].
    + intros j Hj. apply Ec. intros ->. apply written_held in Hj. pose proof (ph_held _ _ _ Hx _ Hj) as Hl.
      unfold lock_at in Hl. by rewrite lookup_ge_None_2 in Hl.
    + intros p' j Hj. pose proof (ph_place _ _ _ Hx p' j Hj) as Hn. rewrite create_file_names, decide_False; [done|].
      intros <-. congruence.
    + intros p' k c. rewrite create_file_names. case_decide as E; [subst p'; intros [= <-]|].
      * unfold content_at. rewrite create_file_inode, decide_True by done. intros [= <-]. by right.
      * intros Hk. rewrite Ec; [by left|]. pose proof (pi_names _ _ Hi p' k Hk). lia.
  - intros j q'. rewrite El. by left.
  - intros j. rewrite El. intros Hl. by apply (pid_inv_own_lock _ _ _ _ _ Hi) in Hl.
  - intros p' j. rewrite create_file_names, Elen. case_decide; [intros [= <-]; lia|].
    intros Hj. pose proof (pi_names _ _ Hi p' j Hj). lia.
  - intros p' p'' j. rewrite !create_file_names. pose proof (pi_names _ _ Hi) as Hlt.
    repeat case_decide; intros E1 E2; simplify_eq; try done; [by apply Hlt in E2; lia|by apply Hlt in E1; lia|].
    by eapply (pi_distinct _ _ Hi).
  - intros s Hs. left. assert (s ∈ h_serving h) as Hs' by (by destruct h).
    split; [|done]. by apply (pid_inv_not_serving _ _ _ _ _ Hi).
Qed.

(** Reading the own pid at the path: the path leads to the own file. *)
Lemma pid_inv_read h q p i k c F :
  pid_inv h ((q, Recorded p i) :: F) -> h_names h !! p = Some k -> content_at h k = Some c -> names_pid c q ->
  pid_inv h ((q, Removing p i) :: F).
Proof.
  intros Hi Hp Hc Hn. pose proof (pi_phases _ _ Hi q _ ltac:(left)) as [p1 p2 p3 p4 p5 p6].
  assert (k = i) as -> by (destruct (decide (k = i)); [done|]; exfalso; by eapply p5).
  apply (pid_inv_step h h q (Recorded p i)); try done; [|auto|intros j; apply (pid_inv_own_lock _ _ _ _ _ Hi)|apply Hi|apply Hi|].
  - split; try done. simpl. by intros p' j [= <- <-].
  - intros s Hin. left. split; [|done]. by apply (pid_inv_not_serving _ _ _ _ _ Hi).
Qed.

(** Removing the name of the own file. *)
Lemma pid_inv_remove h q p i F :
  pid_inv h ((q, Removing p i) :: F) -> pid_inv (set_h_names (delete p (h_names h)) h) ((q, Recorded p i) :: F).
Proof.
  intros Hi. pose proof (pi_phases _ _ Hi q _ ltac:(left)) as [p1 p2 p3 p4 p5 p6].
  set (h' := set_h_names (delete p (h_names h)) h).
  assert (forall p' k, h_names h' !! p' = Some k -> p' <> p /\ h_names h !! p' = Some k) as En.
  { intros p' k. unfold h'. destruct h. simpl. by intros [? ?]%lookup_delete_Some. }
  assert (h_inodes h' = h_inodes h /\ h_live h' = h_live h /\ h_serving h' = h_serving h) as (Ei & El & Es) by (by destruct h).
  assert (forall k, lock_at h' k = lock_at h k) as Elo by (intros k; unfold lock_at; by rewrite Ei).
  assert (forall k, content_at h' k = content_at h k) as Ec by (intros k; unfold content_at; by rewrite Ei).
  apply (pid_inv_step h h' q (Removing p i)); rewrite ?El, ?Es, ?Ei; try done.
  - split; simpl; rewrite ?Ei; try done.
    + intros j Hj. rewrite Elo. auto.
    + intros j Hj. rewrite Ec. auto.
    + intros p' j k x [= <- <-] Hk Hne. rewrite Ec. apply En in Hk as [? _]. done.
  - intros q' x Hne Hin Hx. apply (phase_ok_frame h); rewrite ?Ei; [done|done| | |done|done].
    + intros p' j Hj. replace (h_names h') with (delete p (h_names h)) by (by unfold h'; destruct h).
      rewrite lookup_delete_ne; [done|]. intros <-. destruct Hne.
      pose proof (ph_place _ _ _ Hx p j Hj) as Hpj. rewrite (p4 p i eq_refl) in Hpj. injection Hpj as <-.
      by apply (pid_inv_lock_unique _ _ q' q x (Removing p i) i Hi); [right|left|eapply in_place_held|].
    + intros p' k y Hk. rewrite Ec. left. split; [by apply En|done].
  - intros j q'. rewrite Elo. by left.
  - intros j. rewrite Elo. apply (pid_inv_own_lock _ _ _ _ _ Hi).
  - intros p' j [_ Hj]%En. by eapply pi_names.
  - intros p' p'' j [_ Hj]%En [_ Hj']%En. by eapply (pi_distinct _ _ Hi).
  - intros s Hs. left. split; [|done]. by apply (pid_inv_not_serving _ _ _ _ _ Hi).
Qed.

(** Changes that leave files and names alone. *)
Lemma phase_ok_same h h' q ph :
  h_names h' = h_names h -> h_inodes h' = h_inodes h -> phase_ok h q ph -> phase_ok h' q ph.
Proof. intros En Ei [p1 p2 p3 p4 p5 p6]. unfold lock_at, content_at in *. split; unfold lock_at, content_at; rewrite ?En, ?Ei; done. Qed.

Lemma pid_inv_serve h q p i F :
  pid_inv h ((q, Recorded p i) :: F) ->
  let b := bool_decide (h_names h !! p = Some i) in
  pid_inv (set_h_serving (mkServing q p i b :: h_serving h) h) ((q, Serving p i b) :: F).
Proof.
  intros Hi b. set (h' := set_h_serving _ h).
  assert (h_names h' = h_names h /\ h_inodes h' = h_inodes h /\ h_live h' = h_live h) as (En & Ei & El) by (by destruct h).
  assert (h_serving h' = mkServing q p i b :: h_serving h) as Es by (by destruct h).
  assert (forall k, lock_at h' k = lock_at h k) as Elo by (intros k; unfold lock_at; by rewrite Ei).
  pose proof (pi_phases _ _ Hi q _ ltac:(left)) as Hok.
  apply (pid_inv_step h h' q (Recorded p i)); rewrite ?En, ?Ei, ?El, ?Es; [done|done|..|apply Hi|apply Hi|].
  - apply (phase_ok_same h); [done..|]. destruct Hok as [p1 p2 p3 p4 p5 p6]. split; try done. simpl.
    destruct b eqn:Eb; [|done]. intros p' j [= <- <-]. by apply bool_decide_eq_true in Eb.
  - intros q' x _ _. by apply phase_ok_same.
  - intros j q'. rewrite Elo. by left.
  - intros j. rewrite Elo. apply (pid_inv_own_lock _ _ _ _ _ Hi).
  - intros s [->|Hs]%elem_of_cons; [by right|]. left. split; [|done].
    by apply (pid_inv_not_serving _ _ _ _ _ Hi).
Qed.

Lemma pid_inv_leave h q p i b F :
  pid_inv h ((q, Serving p i b) :: F) -> pid_inv (leave q h) ((q, Recorded p i) :: F).
Proof.
  intros Hi. set (h' := leave q h).
  assert (h_names h' = h_names h /\ h_inodes h' = h_inodes h /\ h_live h' = h_live h) as (En & Ei & El) by (by destruct h).
  assert (h_serving h' = filter (fun s => serving_pid s <> q) (h_serving h)) as Es by (by destruct h).
  assert (forall k, lock_at h' k = lock_at h k) as Elo by (intros k; unfold lock_at; by rewrite Ei).
  pose proof (pi_phases _ _ Hi q _ ltac:(left)) as Hok.
  apply (pid_inv_step h h' q (Serving p i b)); rewrite ?En, ?Ei, ?El, ?Es; [done|done|..|apply Hi|apply Hi|].
  - apply (phase_ok_same h); [done..|]. by destruct Hok as [p1 p2 p3 p4 p5 p6].
  - intros q' x _ _. by apply phase_ok_same.
  - intros j q'. rewrite Elo. by left.
  - intros j. rewrite Elo. apply (pid_inv_own_lock _ _ _ _ _ Hi).
  - intros s [Hq Hs]%list_elem_of_filter. by left.
Qed.

(** Processes come and go. *)
Lemma pid_inv_start h q F :
  pid_inv h F -> q ∉ h_live h -> 1 < q < two63 -> pid_inv (set_h_live (q :: h_live h) h) ((q, Started) :: F).
Proof.
  intros [i1 i2 i3 i4 i5 i6 i7] Hq Hb. set (h' := set_h_live _ h).
  assert (h_names h' = h_names h /\ h_inodes h' = h_inodes h /\ h_serving h' = h_serving h) as (En & Ei & Es) by (by destruct h).
  assert (h_live h' = q :: h_live h) as El by (by destruct h). unfold lock_at in *.
  split; unfold lock_at; rewrite ?En, ?Ei, ?Es, ?El; try done.
  - simpl. constructor; [by rewrite <- i2|done].
  - intros q'. simpl. by rewrite !elem_of_cons, i2.
  - intros q' x [[= -> ->]|Hx]%elem_of_cons; [by split|]. apply (phase_ok_same h); auto.
  - intros i q' Hl. destruct (i4 i q' Hl) as (x & Hx & Hh). exists x. split; [by right|done].
  - intros s Hs. right. auto.
Qed.

Lemma pid_inv_exit h q F :
  pid_inv h ((q, Started) :: F) -> pid_inv (set_h_live (filter (fun x => x <> q) (h_live h)) h) F.
Proof.
  intros Hi. pose proof Hi as [i1 i2 i3 i4 i5 i6 i7]. set (h' := set_h_live _ h).
  assert (h_names h' = h_names h /\ h_inodes h' = h_inodes h /\ h_serving h' = h_serving h) as (En & Ei & Es) by (by destruct h).
  assert (h_live h' = filter (fun x => x <> q) (h_live h)) as El by (by destruct h).
  simpl in i1. apply NoDup_cons in i1 as [Hq Hn]. unfold lock_at in *.
  split; unfold lock_at; rewrite ?En, ?Ei, ?Es, ?El; try done.
  - intros q'. rewrite list_elem_of_filter, i2. simpl. rewrite elem_of_cons. split; [intros [? [?|?]]; done|].
    intros Hx. split; [|by right]. by intros ->.
  - intros q' x Hx. apply (phase_ok_same h); [done..|]. apply i3. by right.
  - intros i q' Hl. destruct (i4 i q' Hl) as (x & [[= -> ->]|Hx]%elem_of_cons & Hh); [done|]. by exists x.
  - intros s Hs. specialize (i7 s Hs). apply elem_of_cons in i7 as [E|Hx]; [by simplify_eq|done].
Qed.

(** ** Programs *)

(** A failing call leaves everything as it is. *)
Lemma owning_attempted {A} r (f : host -> A * host) (fail : errno -> A) (Q : A -> list ptoken -> Prop) :
  (forall err, Q (fail err) r) ->
  (forall h F, pid_inv h (r ++ F) -> exists r', pid_inv (f h).2 (r' ++ F) /\ Q (f h).1 r') ->
  owning r (update (fun e h => match pe_err e with Some err => (fail err, h) | None => f h end)) Q.
Proof.
  intros Hfail Hf. apply owning_perform. intros e h F Hi. destruct (pe_err e) as [err|].
  - split; [done|]. exists r. auto.
  - specialize (Hf h F Hi). destruct (f h) as [a h']. split; [done|]. done.
Qed.

Lemma owning_simple_call r : owning r simple_call (fun _ x => x = r).
Proof. by apply owning_observe. Qed.

Lemma owning_file_Close q ph p i :
  open_file ph = Some (p, i) -> (forall p i b, ph <> Serving p i b) ->
  owning [(q, ph)] (file_Close q i) (fun _ x => x = [(q, Started)]).
Proof.
  intros Ho Hns. apply owning_perform. intros e h F Hi. split; [done|]. eexists. split; [|done].
  by apply (pid_inv_close h q ph p).
Qed.

Lemma owning_releaseFile q ph p i :
  open_file ph = Some (p, i) -> held ph = Some i -> (forall p i b, ph <> Serving p i b) ->
  owning [(q, ph)] (releaseFile q i) (fun _ x => x = [(q, Started)]).
Proof.
  intros Ho Hh Hns. unfold releaseFile. apply owning_bind.
  apply (owning_mono _ _ _ _ _ _ (fun err x => x = [(q, ph)] \/ x = [(q, Opened p i)])).
  - intros err x [->| ->]; (eapply owning_then; [by eapply owning_file_Close|]); by intros.
  - apply (owning_attempted _ (fun h => (None, on_inode (set_lock None) i h)) Some); [by left|].
    intros h F Hi. exists [(q, Opened p i)]. split; [|by right]. by apply (pid_inv_unlock h q ph).
Qed.

(** A failure after the lock was taken gives it back. *)
Lemma owning_fail_locked {A} q ph p i (a : A) (Q : A -> list ptoken -> Prop) :
  open_file ph = Some (p, i) -> held ph = Some i -> (forall p i b, ph <> Serving p i b) -> Q a [(q, Started)] ->
  owning [(q, ph)] (releaseFile q i;; mret a) Q.
Proof. intros Ho Hh Hns HQ. eapply owning_then; [by eapply owning_releaseFile|]. by intros. Qed.

Lemma owning_record_pid q p i :
  owning [(q, Locked p i)] (record_pid q p i)
    (fun err x => x = match err with None => [(q, Recorded p i)] | Some _ => [(q, Started)] end).
Proof.
  unfold record_pid. apply owning_bind.
  apply (owning_mono _ _ _ _ _ _ (fun _ x => x = [(q, Locked p i)]));
  [|apply (owning_attempted _ (fun h => (None, on_inode (set_content EmptyString) i h)) Some)].
  - intros [err|] x ->; [by eapply owning_fail_locked|]. eapply owning_then; [apply owning_simple_call|].
    intros [err|]; [by eapply owning_fail_locked|]. apply owning_bind.
    apply (owning_mono _ _ _ _ _ _ (fun err x => x = match err with None => [(q, Recorded p i)] | Some _ => [(q, Locked p i)] end));
      [|apply (owning_attempted _ (fun h => (None, on_inode (set_content (pid_line q)) i h)) Some)].
    + intros [err|] x ->; [by eapply owning_fail_locked|]. eapply owning_then; [apply owning_simple_call|].
      intros [err|]; [by eapply owning_fail_locked|done].
    + done.
    + intros h F Hi. exists [(q, Recorded p i)]. split; [|done]. eapply pid_inv_content; [exact Hi|by right|by right].
  - done.
  - intros h F Hi. exists [(q, Locked p i)]. split; [|done]. eapply pid_inv_content; [exact Hi|by left|by left].
Qed.

Lemma owning_os_OpenFile q p :
  owning [(q, Started)] (os_OpenFile p)
    (fun r x => x = match r with Ok i => [(q, Opened p i)] | Err _ => [(q, Started)] end).
Proof.
  apply (owning_attempted _ (fun h => match h_names h !! p with
    | Some i => (Ok i, h) | None => (Ok (length (h_inodes h)), create_file p h) end) Err); [done|].
  intros h F Hi. destruct (h_names h !! p) as [i|] eqn:Ep.
  - exists [(q, Opened p i)]. split; [|done]. by apply pid_inv_open.
  - exists [(q, Opened p (length (h_inodes h)))]. split; [|done]. by apply pid_inv_create.
Qed.

Lemma owning_flock_exclusive q p i :
  owning [(q, Opened p i)] (flock_exclusive q i)
    (fun err x => x = match err with None => [(q, Locked p i)] | Some _ => [(q, Opened p i)] end).
Proof.
  apply (owning_attempted _ (fun h => match ino_lock <$> h_inodes h !! i with
    | Some None => (None, on_inode (set_lock (Some q)) i h) | _ => (Some EWOULDBLOCK, h) end) Some); [done|].
  intros h F Hi. destruct (h_inodes h !! i) as [[c [l|]]|] eqn:Ex; simpl; [by eexists| |by eexists].
  exists [(q, Locked p i)]. split; [|done]. apply pid_inv_lock; [done| |by eapply lookup_lt_Some].
  unfold lock_at. by rewrite Ex.
Qed.

Lemma owning_AcquirePIDFile q p :
  owning [(q, Started)] (AcquirePIDFile q p) (fun r x =>
    match r with
    | Ok f => exists i, f = mkPIDFile (Some i) p q /\ x = [(q, Recorded p i)]
    | Err _ => x = [(q, Started)]
    end).
Proof.
  unfold AcquirePIDFile. destruct (String.eqb (TrimSpace p) EmptyString); [done|].
  eapply owning_then; [apply owning_simple_call|]. intros [err|]; [done|].
  apply owning_bind. eapply owning_mono; [|apply owning_os_OpenFile]. intros [i|err] x ->; [|done].
  apply owning_bind. eapply owning_mono; [|apply owning_flock_exclusive]. intros [err|] x ->.
  - assert (forall g, owning [(q, Opened p i)] (file_Close q i;; mret (Err g)) (fun (r : result goerror PIDFile) x =>
      match r with Ok f => exists i, f = mkPIDFile (Some i) p q /\ x = [(q, Recorded p i)] | Err _ => x = [(q, Started)] end)) as Hg.
    { intros g. eapply owning_then; [by eapply owning_file_Close|]. done. }
    by destruct err; apply Hg.
  - apply owning_bind. eapply owning_mono; [|apply owning_record_pid]. intros [err|] x ->; [done|]. by exists i.
Qed.

(** Removing the own file, whether or not the host allows it. *)
Lemma owning_os_Remove q p i : owning [(q, Removing p i)] (os_Remove p) (fun _ x => x = [(q, Recorded p i)]).
Proof.
  apply owning_perform. intros e h F Hi. destruct (pe_err e); (split; [done|]); eexists; (split; [|done]).
  - by apply (pid_inv_weaken _ _ (Removing p i)); [|by auto..].
  - by apply pid_inv_remove.
Qed.

(** What was read decides whether the file may be removed. *)
Lemma owning_read_own q p i :
  owning [(q, Recorded p i)] (os_ReadFile p)
    (fun data x => x = if bool_decide (read_own_pid data = Some q) then [(q, Removing p i)] else [(q, Recorded p i)]).
Proof.
  apply owning_perform. intros e h F Hi. split; [done|]. eexists. split; [|done].
  case_bool_decide as Hr; [|done]. destruct (pe_err e); [done|].
  destruct (h_names h !! p) as [k|] eqn:Ek; [|done]. simpl in Hr. destruct (h_inodes h !! k) as [x|] eqn:Ex; [|done].
  apply (pid_inv_read h q p i k (ino_content x)); [done|done| |done]. unfold content_at. by rewrite Ex.
Qed.

Lemma owning_PIDFile_Close q p i :
  owning [(q, Recorded p i)] (PIDFile_Close (Some (mkPIDFile (Some i) p q))) (fun _ x => x = [(q, Started)]).
Proof.
  unfold PIDFile_Close. cbn [PIDFile_file PIDFile_path PIDFile_pid]. apply owning_bind.
  eapply owning_mono; [|apply owning_read_own]. intros data x ->. eapply (owning_then _ _ _ _ _ [(q, Recorded p i)]).
  - case_bool_decide; [apply owning_os_Remove|done].
  - intros _. eapply owning_then; [by apply (owning_releaseFile q (Recorded p i) p i)|]. done.
Qed.

Lemma owning_process_exits q : owning [(q, Started)] (process_exits q) (fun _ x => x = []).
Proof. apply owning_modify. intros h F Hi. by apply pid_inv_exit. Qed.

Lemma owning_daemon_process p : owning [] (daemon_process p) (fun _ x => x = []).
Proof.
  unfold daemon_process. apply owning_bind, owning_perform. intros e h F Hi.
  destruct (_ || _) eqn:Eb; [done|]. apply orb_false_iff in Eb as [[Hq H1%negb_false_iff]%orb_false_iff H2%negb_false_iff]. bools.
  apply bool_decide_eq_false in Hq. split; [done|]. exists [(pe_pid e, Started)]. split; [by apply pid_inv_start|].
  apply owning_bind. eapply owning_mono; [|apply owning_AcquirePIDFile].
  intros [f|err] x; [intros (i & -> & ->)|intros ->; apply owning_process_exits]. cbn [PIDFile_file].
  apply owning_bind, owning_perform. intros e2 h2 F2 Hi2. split; [done|].
  exists [(pe_pid e, Serving p i (bool_decide (h_names h2 !! p = Some i)))]. split; [by apply (pid_inv_serve h2 _ p i)|].
  apply owning_bind, owning_perform. intros e3 h3 F3 Hi3. simpl app in Hi3. apply pid_inv_leave in Hi3.
  destruct (pe_killed e3); (split; [done|]).
  - exists [(pe_pid e, Started)]. split; [by eapply pid_inv_close|]. apply owning_process_exits.
  - exists [(pe_pid e, Recorded p i)]. split; [done|].
    eapply owning_then; [apply owning_PIDFile_Close|]. intros _. apply owning_process_exits.
Qed.

Lemma pid_body_owning t r : at_start t r -> owning r (pid_body t) (fun _ x => x = []).
Proof. intros ->. destruct t. apply owning_daemon_process. Qed.

(** ** All interleavings of daemons *)

(** A host on which no daemon runs; files may be left over. *)
Definition quiet_host (h : host) : Prop :=
  h_live h = [] /\ h_serving h = [] /\ Forall (fun x => ino_lock x = None) (h_inodes h) /\
  (forall p i, h_names h !! p = Some i -> (i < length (h_inodes h))%nat) /\
  (forall p p' i, h_names h !! p = Some i -> h_names h !! p' = Some i -> p = p').

Lemma quiet_host_inv h : quiet_host h -> pid_inv h [].
Proof.
  intros (Hl & Hs & Hn & Hlt & Hd). split; try done; rewrite ?Hl, ?Hs; [constructor|intros; set_solver|intros; set_solver| |intros; set_solver].
  intros i q. unfold lock_at. destruct (h_inodes h !! i) as [x|] eqn:Ex; [|done]. rewrite Forall_lookup in Hn.
  simpl. by rewrite (Hn _ _ Ex).
Qed.

(** A program that runs without errors of the host. *)
Definition fine : pid_env := mkPidEnv 0 None false.
Definition outcome_of {A} (n : nat) (p : pprog A) (h : host) : option A :=
  snd <$> alone (fun _ _ _ => @nil unit) (replicate n fine) p h.

Lemma refused h p i : h_names h !! p = Some i -> is_Some (lock_at h i) ->
  forall q', exists err, outcome_of 4 (AcquirePIDFile q' p) h = Some (Err err).
Proof.
  intros Hp [l Hl] q'. unfold outcome_of, AcquirePIDFile. destruct (String.eqb (TrimSpace p) EmptyString); [by eexists|].
  simpl. rewrite Hp. simpl. unfold lock_at in Hl. destruct (h_inodes h !! i) as [x|] eqn:Ex; [|done]. simpl in *.
  rewrite Hl. simpl. by eexists.
Qed.

(** C19: However daemons with PID files are started, stopped and killed on a
    host: a daemon that serves holds the lock of its file and the file
    contains its pid; two daemons never share a file.  A daemon whose file
    was at its path when it began to serve keeps it there: until it stops,
    nobody replaces or removes the file, its pid is what ReadPID returns,
    and every other daemon is refused. *)
Theorem daemons_keep_their_pid_file h cs s :
  quiet_host h -> pool_run pid_body (mkPool h []) cs = Ran s ->
  forall d, d ∈ h_serving (pool_world s) ->
    lock_at (pool_world s) (serving_inode d) = Some (serving_pid d) /\
    content_at (pool_world s) (serving_inode d) = Some (pid_line (serving_pid d)) /\
    (forall d', d' ∈ h_serving (pool_world s) -> serving_inode d' = serving_inode d -> serving_pid d' = serving_pid d) /\
    (serving_in_place d = true ->
       h_names (pool_world s) !! serving_path d = Some (serving_inode d) /\
       outcome_of 1 (ReadPID (serving_path d)) (pool_world s) = Some (Ok (serving_pid d)) /\
       forall pid, exists err, outcome_of 4 (AcquirePIDFile pid (serving_path d)) (pool_world s) = Some (Err err)).
Proof.
  intros Hq Hrun d Hd. set (w := pool_world s) in *.
  assert (accounted pid_inv at_start (fun _ _ => True) never (mkPool h [] : pool host pid_env pid_thread)) as H0
    by (exists []; split; [constructor|]; by apply quiet_host_inv).
  pose proof (accounted_run pid_inv at_start (fun _ _ => True) never pid_inv_perm pid_body
    pid_body_owning _ cs H0 (fun t _ => eq_refl)) as Hacc.
  rewrite Hrun in Hacc. destruct Hacc as (rs & _ & Hi). fold w in Hi. set (T := mjoin rs) in *.
  pose proof (pi_serving _ _ Hi d Hd) as Ht. pose proof (pi_phases _ _ Hi _ _ Ht) as [p1 p2 p3 p4 p5 p6].
  split_and!; [by apply p2|by apply p3| |].
  - intros d' Hd' E. pose proof (pi_serving _ _ Hi d' Hd') as Ht'.
    by eapply (pid_inv_lock_unique w T); [exact Hi|exact Ht'|exact Ht|by simpl; rewrite E|].
  - intros Hb. rewrite Hb in *. pose proof (p4 _ _ eq_refl) as Hp. split_and!; [done| |].
    + unfold outcome_of, ReadPID. simpl. rewrite Hp. simpl. pose proof (p3 _ eq_refl) as Hc. unfold content_at in Hc.
      destruct (h_inodes w !! serving_inode d) as [x|]; [|done]. injection Hc as Hc. simpl. rewrite Hc.
      unfold pid_line. rewrite Atoi_Itoa_line by lia. by rewrite (proj2 (Z.leb_gt _ _)) by lia.
    + eapply refused; [exact Hp|]. eexists. by apply p2.
Qed.
End Owning.

(** ** Concrete runs *)

Definition clean_host : host := mkHost ∅ [] [] [].
Definition born (pid : Z) : pid_env := mkPidEnv pid None false.
Definition pid_steps (i n : nat) : list (scheduled pid_env pid_thread) := replicate n (Runs i fine).
Definition pid_path : string := "/run/irodsfsd/irodsfsd.pid".

(** A daemon starts and serves, and a second one is refused. *)
Definition two_daemons : list (scheduled pid_env pid_thread) :=
  [Arrives (TDaemon pid_path); Runs 0 (born 100)] ++ pid_steps 0 8 ++
  [Arrives (TDaemon pid_path); Runs 1 (born 101)] ++ pid_steps 1 5.

Definition who_serves (r : pool_result host pid_env pid_thread) : option (list serving) :=
  match r with Ran s => Some (h_serving (pool_world s)) | _ => None end.

Definition the_daemon : serving := mkServing 100 pid_path 0 true.

Lemma daemons_keep_their_pid_file_witness :
  exists s, quiet_host clean_host /\ pool_run pid_body (mkPool clean_host []) two_daemons = Ran s /\
    h_serving (pool_world s) = [the_daemon] /\
    outcome_of 1 (ReadPID pid_path) (pool_world s) = Some (Ok 100).
Proof.
  assert (quiet_host clean_host) as Hq by (repeat split; try done; constructor).
  assert (who_serves (pool_run pid_body (mkPool clean_host []) two_daemons) = Some [the_daemon]) as Hw
    by (vm_compute; reflexivity).
  destruct (pool_run pid_body (mkPool clean_host []) two_daemons) as [| |s] eqn:Es; [discriminate..|].
  injection Hw as Hs.
  exists s. split_and!; [done|done|done|].
  destruct (daemons_keep_their_pid_file clean_host two_daemons s Hq Es the_daemon) as (_ & _ & _ & Hp);
    [rewrite Hs; left|]. destruct (Hp eq_refl) as (_ & Hr & _). exact Hr.
Defined.

(** The name is removed before the lock is released: a daemon that opened
    the old file in between gets its lock, and a third one creates a new
    file.  Two daemons serve at the same time, and the second is not in
    place. *)
Definition removal_race : list (scheduled pid_env pid_thread) :=
  [Arrives (TDaemon pid_path); Runs 0 (born 100)] ++ pid_steps 0 8 ++
  [Arrives (TDaemon pid_path); Runs 1 (born 101)] ++ pid_steps 1 2 ++      (* has opened the file *)
  pid_steps 0 4 ++                                                         (* stops: removes, unlocks *)
  pid_steps 1 6 ++                                                         (* locks the old file and serves *)
  [Arrives (TDaemon pid_path); Runs 2 (born 102)] ++ pid_steps 2 8.        (* creates a new file and serves *)

Lemma two_daemons_after_removal_race :
  who_serves (pool_run pid_body (mkPool clean_host []) removal_race) =
  Some [mkServing 102 pid_path 1 true; mkServing 101 pid_path 0 false].
Proof. vm_compute. reflexivity. Qed.
