(* ===== verification/Total.v ===== *)
(** * Total correctness of goroutines that are left to run

    [completes]: run without interruption in environments that satisfy
    [ok], a program never blocks or panics and ends in [Q].  [alone] is the
    run itself. *)

From S2P Require Import Prelude GoStrings GoPath GoErrors Api ProtoJson Redact Config Policy Repository RepositoryFacts Runtime.
From S2P Require Import Command Manager.

Section Completes.
Variable ok : env -> Prop.

Fixpoint completes {A} (p : prog A) (w : World) (Q : A -> World -> Prop) : Prop :=
  match p with
  | Ret a => Q a w
  | Act f k => forall e, ok e ->
      match f e w with
      | Next x w' => completes (k x) w' Q
      | Blocked | Panics => False
      end
  end.

Lemma completes_bind {A B} (p : prog A) (k : A -> prog B) w Q :
  completes p w (fun a w' => completes (k a) w' Q) -> completes (p ≫= k) w Q.
Proof.
  revert w. induction p as [a|X f g IH]; intros w Hp; simpl in *; [done|]. intros e He. specialize (Hp e He).
  destruct (f e w); [done..|]. by apply IH.
Qed.

Lemma completes_mono {A} (p : prog A) w (Q Q' : A -> World -> Prop) :
  (forall a w', Q a w' -> Q' a w') -> completes p w Q -> completes p w Q'.
Proof.
  intros HQ. revert w. induction p as [a|X f g IH]; intros w Hp; simpl in *; [auto|]. intros e He. specialize (Hp e He).
  destruct (f e w); [done..|]. by apply IH.
Qed.

Lemma completes_then {A B} (p : prog A) (k : A -> prog B) w P Q :
  completes p w P -> (forall a w', P a w' -> completes (k a) w' Q) -> completes (p ≫= k) w Q.
Proof. intros Hp Hk. apply completes_bind. eapply completes_mono; [|exact Hp]. auto. Qed.

(** The run of a program left alone. *)
Fixpoint run_alone {A} (es : nat -> env) (p : prog A) (w : World) : option (A * World) :=
  match p with
  | Ret a => Some (a, w)
  | Act f k =>
      match f (es 0%nat) w with
      | Next x w' => run_alone (fun n => es (S n)) (k x) w'
      | Blocked | Panics => None
      end
  end.

Lemma completes_run {A} (p : prog A) w Q es :
  completes p w Q -> (forall n, ok (es n)) -> exists a w', run_alone es p w = Some (a, w') /\ Q a w'.
Proof.
  revert w es. induction p as [a|X f k IH]; intros w es Hp Hes; simpl in *; [by exists a, w|].
  specialize (Hp (es 0%nat) (Hes 0%nat)). destruct (f (es 0%nat) w); [done..|]. apply IH; auto.
Qed.
End Completes.

(** ** A goroutine that works on one entry *)

(** What is known of the world while a goroutine works on the entry [e]. *)
Record focus `{RecordCodec} (e : entry_id) (m : managedMount) (M : gmap string entry_id) (C : list bool) (R : repo) (ts : list thread) (w : World) : Prop := {
  fc_entry : w_entries w !! e = Some m;
  fc_mounts : w_mounts w = M;
  fc_chans : w_chans w = C;
  fc_rep : rep (w_db w) R;
  fc_mutex : w_eventMutex w = false;
  fc_ready : w_ready w = ts
}.

(** The system is well, its clock shows a year between 1 and 9999, and the
    request is not cancelled. *)
Record helpful (ctx : context) (e : env) : Prop := {
  hp_err : env_err e = None;
  hp_ctx : ctx_Err ctx e = None;
  hp_case : env_case e = CaseExit;
  hp_faults : env_faults e = [];
  hp_clock : valid_timestamp (env_now e 0%nat) = true;
  hp_probe : forall path, exists b, isMountPoint (env_fs e) path = Ok b
}.

(** A record of the mount that an entry describes. *)
Definition recorded (R : repo) (i : MountInfo) : Prop :=
  exists r, R !! MountInfo_MountId i = Some r /\ Clean (record_path r) = Clean (GetMountPath i).

Definition storable (i : MountInfo) : Prop :=
  MountInfo_MountId i <> EmptyString /\ IsAbs (GetMountPath i) = true /\ encodable i = true.

Lemma storable_config i : storable i -> is_Some (MountInfo_Config i).
Proof. intros (_ & Ha & _). unfold GetMountPath in Ha. destruct (MountInfo_Config i); [by eexists|done]. Qed.

Section Rules.
Context `{ErrorLib} `{RecordCodec}.
Variable ok : env -> Prop.
Variable ctx : context.
Hypothesis ok_helpful : forall e, ok e -> helpful ctx e.
Implicit Types (e : entry_id) (m : managedMount) (M : gmap string entry_id) (C : list bool) (R : repo) (w : World).

Local Notation completes := (completes ok).

Lemma completes_act {A} (f : action A) w (Q : A -> World -> Prop) :
  (forall en, ok en -> exists x w', f en w = Next x w' /\ Q x w') -> completes (act f) w Q.
Proof. intros Hf en Hen. simpl. destruct (Hf en Hen) as (x & w' & -> & HQ). done. Qed.

Lemma completes_asks {A} (f : env -> A) w (Q : A -> World -> Prop) :
  (forall en, ok en -> Q (f en) w) -> completes (asks f) w Q.
Proof. intros HQ. apply completes_act. eauto. Qed.

Lemma completes_gets {A} (f : World -> A) w (Q : A -> World -> Prop) : Q (f w) w -> completes (gets f) w Q.
Proof. intros HQ. apply completes_act. eauto. Qed.

(** Actions on parts of the world outside the focus. *)
Definition aside (g : World -> World) : Prop := forall w,
  w_entries (g w) = w_entries w /\ w_mounts (g w) = w_mounts w /\ w_chans (g w) = w_chans w /\ w_db (g w) = w_db w /\
  w_eventMutex (g w) = w_eventMutex w /\ w_ready (g w) = w_ready w.

Lemma focus_aside e m M C R ts w g : aside g -> focus e m M C R ts w -> focus e m M C R ts (g w).
Proof. intros Hg [f1 f2 f3 f4 f5 f6]. destruct (Hg w) as (E1 & E2 & E3 & E4 & E5 & E6). split; congruence. Qed.

Lemma focus_entry e m m' M C R ts w :
  focus e m M C R ts w -> focus e m' M C R ts (set_w_entries (<[e := m']> (w_entries w)) w).
Proof.
  intros [f1 f2 f3 f4 f5 f6]. destruct w. simpl in *. split; simpl; try done.
  apply list_lookup_insert_eq. by eapply lookup_lt_Some.
Qed.

Lemma completes_locked {A} e m M C R ts w (f : env -> managedMount -> A * managedMount) (Q : A -> World -> Prop) :
  focus e m M C R ts w ->
  (forall en w', ok en -> focus e (f en m).2 M C R ts w' -> Q (f en m).1 w') -> completes (locked e f) w Q.
Proof.
  intros Hf HQ. apply completes_act. intros en Hen. rewrite (fc_entry _ _ _ _ _ _ _ Hf).
  specialize (HQ en (set_w_entries (<[e := (f en m).2]> (w_entries w)) w) Hen (focus_entry _ _ _ _ _ _ _ _ Hf)).
  destruct (f en m) as [r m'] eqn:Ef. eexists _, _. split; [reflexivity|done].
Qed.

Lemma completes_reading {A} e m M C R ts w (f : managedMount -> A) (Q : A -> World -> Prop) :
  focus e m M C R ts w -> (forall w', focus e m M C R ts w' -> Q (f m) w') -> completes (reading e f) w Q.
Proof. intros Hf HQ. eapply completes_locked; [exact Hf|]. intros en w' _. apply HQ. Qed.

Lemma completes_config_path e m M C R ts w (Q : string -> World -> Prop) :
  focus e m M C R ts w -> is_Some (MountInfo_Config (mm_info m)) ->
  (forall w', focus e m M C R ts w' -> Q (GetMountPath (mm_info m)) w') -> completes (config_path e) w Q.
Proof.
  intros Hf [c Hc] HQ. apply completes_bind. eapply completes_reading; [exact Hf|]. intros w' Hf'. rewrite Hc.
  specialize (HQ w' Hf'). unfold GetMountPath in HQ. by rewrite Hc in HQ.
Qed.

Lemma completes_operation_Lock e m M C R ts w (Q : unit -> World -> Prop) :
  focus e m M C R ts w -> mm_operation m = false ->
  (forall w', focus e (set_mm_operation true m) M C R ts w' -> Q tt w') -> completes (operation_Lock e) w Q.
Proof.
  intros Hf Hm HQ. apply completes_act. intros en Hen. rewrite (fc_entry _ _ _ _ _ _ _ Hf), Hm. eexists _, _. split; [reflexivity|].
  by apply HQ, focus_entry with m.
Qed.

Lemma completes_operation_Unlock e m M C R ts w (Q : unit -> World -> Prop) :
  focus e m M C R ts w -> mm_operation m = true ->
  (forall w', focus e (set_mm_operation false m) M C R ts w' -> Q tt w') -> completes (operation_Unlock e) w Q.
Proof.
  intros Hf Hm HQ. apply completes_act. intros en Hen. rewrite (fc_entry _ _ _ _ _ _ _ Hf), Hm. eexists _, _. split; [reflexivity|].
  by apply HQ, focus_entry with m.
Qed.

Lemma completes_aside e m M C R ts w {A} (f : action A) (Q : A -> World -> Prop) :
  focus e m M C R ts w ->
  (forall en, ok en -> exists x g, f en w = Next x (g w) /\ aside g /\ forall w', focus e m M C R ts w' -> Q x w') ->
  completes (act f) w Q.
Proof.
  intros Hf HQ. apply completes_act. intros en Hen. destruct (HQ en Hen) as (x & g & Hx & Hg & HQ').
  exists x, (g w). split; [done|]. by apply HQ', focus_aside.
Qed.

Ltac aside := intros w0; by destruct w0.

Lemma completes_publish e m M C R ts w t i (Q : unit -> World -> Prop) :
  focus e m M C R ts w -> (forall w', focus e m M C R ts w' -> Q tt w') -> completes (publishMountEvent t (Some i)) w Q.
Proof.
  intros Hf HQ. eapply completes_aside; [exact Hf|]. intros en _. rewrite (fc_mutex _ _ _ _ _ _ _ Hf).
  exists tt, (fun w => record_effect (FxPublish (mkMountEvent t i)) (set_w_subscribers (deliver (mkMountEvent t i) <$> w_subscribers w) w)).
  split_and!; [done|aside|auto].
Qed.

Lemma completes_publish_updated e m M C R ts w (Q : unit -> World -> Prop) :
  focus e m M C R ts w -> (forall w', focus e m M C R ts w' -> Q tt w') -> completes (publish_updated e) w Q.
Proof.
  intros Hf HQ. unfold publish_updated, snapshot. apply completes_bind. eapply completes_reading; [exact Hf|].
  intros w' Hf'. by eapply completes_publish.
Qed.

Lemma completes_system_call e m M C R ts w d (Q : option goerror -> World -> Prop) :
  focus e m M C R ts w -> (forall w', focus e m M C R ts w' -> Q None w') -> completes (system_call d) w Q.
Proof.
  intros Hf HQ. eapply completes_aside; [exact Hf|]. intros en Hen. rewrite (hp_err _ _ (ok_helpful en Hen)).
  exists None, (record_effect (d true)). split_and!; [done|aside|auto].
Qed.

Lemma completes_with_metrics e m M C R ts w g (Q : unit -> World -> Prop) :
  focus e m M C R ts w -> (forall w', focus e m M C R ts w' -> Q tt w') -> completes (with_metrics g) w Q.
Proof.
  intros Hf HQ. eapply completes_aside; [exact Hf|]. intros en Hen.
  exists tt, (fun w => set_w_metrics (g en <$> w_metrics w) w). split_and!; [done|aside|auto].
Qed.

(** ** The repository *)

(** protojson encodes what its documentation says it can. *)
Hypothesis encodes : forall i t, encodable i = true -> exists data, encodeRecord i t = Ok data.

Lemma Update_completes db R i t :
  rep db R -> storable i -> recorded R i ->
  exists db' f, Update None (Some (mkMountRecord (Some i) t)) db [] = (None, db', f) /\
    rep db' (<[MountInfo_MountId i := mkMountRecord (Some i) t]> R).
Proof.
  intros HR (Hid & Habs & Henc) (r & Hr & Hp). destruct (encodes i t Henc) as [data Hd]. unfold Update.
  rewrite validateRecordForWrite_ok by done. simpl. rewrite Hd.
  pose proof (update_txn_no_faults db (MountInfo_MountId i) data) as Ht.
  destruct (rep_stored _ _ HR _ _ Hr) as (_ & d0 & Hd0 & _). rewrite Hd0 in Ht.
  rewrite (updateWithConflictRetry_no_faults _ _ _ _ Ht) by done. eexists _, _. split; [reflexivity|].
  eapply rep_replace; [done|exact Hr| |done|by apply decode_encode_record].
  exists i. simpl. auto.
Qed.

Lemma Delete_completes db R id r :
  rep db R -> id <> EmptyString -> R !! id = Some r ->
  exists db' f, Delete None id db [] = (None, db', f) /\ rep db' (base.delete id R).
Proof.
  intros HR Hid Hr. unfold Delete. apply String.eqb_neq in Hid as ->.
  pose proof (delete_txn_no_faults db id) as Ht. destruct (rep_stored _ _ HR _ _ Hr) as (_ & d0 & Hd0 & Hdec).
  rewrite Hd0, Hdec in Ht. rewrite (updateWithConflictRetry_no_faults _ _ _ _ Ht) by done.
  eexists _, _. split; [reflexivity|]. by apply rep_delete.
Qed.

Lemma focus_db e m M C R R' ts w db x :
  rep db R' -> focus e m M C R ts w -> focus e m M C R' ts (record_effect x (set_w_db db w)).
Proof. intros HR [f1 f2 f3 f4 f5 f6]. destruct w. by split. Qed.

Lemma completes_Update e m M C R ts w c i t (Q : option goerror -> World -> Prop) :
  (c = ctx \/ c = Background) -> focus e m M C R ts w -> storable i -> recorded R i ->
  (forall w', focus e m M C (<[MountInfo_MountId i := mkMountRecord (Some i) t]> R) ts w' -> Q None w') ->
  completes (repository_Update c (mkMountRecord (Some i) t)) w Q.
Proof.
  intros Hc Hf Hs Hr HQ. apply completes_act. intros en Hen.
  assert (ctx_Err c en = None) as -> by (destruct Hc as [->| ->]; [apply (ok_helpful en Hen)|done]).
  rewrite (hp_faults _ _ (ok_helpful en Hen)).
  destruct (Update_completes (w_db w) R i t (fc_rep _ _ _ _ _ _ _ Hf) Hs Hr) as (db' & f & -> & HR').
  eexists _, _. split; [reflexivity|]. by eapply HQ, focus_db.
Qed.

Lemma completes_Delete e m M C R ts w id r (Q : option goerror -> World -> Prop) :
  focus e m M C R ts w -> id <> EmptyString -> R !! id = Some r ->
  (forall w', focus e m M C (base.delete id R) ts w' -> Q None w') -> completes (repository_Delete ctx id) w Q.
Proof.
  intros Hf Hid Hr HQ. apply completes_act. intros en Hen. rewrite (hp_ctx _ _ (ok_helpful en Hen)).
  rewrite (hp_faults _ _ (ok_helpful en Hen)).
  destruct (Delete_completes (w_db w) R id r (fc_rep _ _ _ _ _ _ _ Hf) Hid Hr) as (db' & f & -> & HR').
  eexists _, _. split; [reflexivity|]. by eapply HQ, focus_db.
Qed.
End Rules.
