(* ===== verification/Lifecycle.v ===== *)
(** * Mounts come up and go away

    Liveness of the two operations that clients wait for: left to run on a
    system that is well, an unmount request ends with the mount gone from
    the registry and from the database, and a mount request ends with the
    client started and recorded; its supervisor then reports it mounted as
    soon as the mount table lists it. *)

From S2P Require Import Prelude GoStrings GoPath GoSort GoErrors Api ProtoJson Redact Config Retry Policy PolicyFacts.
From S2P Require Import IrodsfsConfig Repository PlainCodec RepositoryFacts Runtime Command Manager Scenario Rules Total.

Section Lifecycle.
Variable daemon : Config.
Context {url : UrlLib} {errs : ErrorLib} {codec : RecordCodec} {irods : IrodsfsLib}.
Variable ctx : context.
Variable ok : env -> Prop.
Hypothesis ok_helpful : forall e, ok e -> helpful ctx e.
Hypothesis encodes : forall i t, encodable i = true -> exists data, encodeRecord i t = Ok data.
Implicit Types (e : entry_id) (m : managedMount) (M : gmap string entry_id) (C : list bool) (R : repo) (w : World).

Local Notation completes := (completes ok).

(** ** Unmounting *)

Lemma completes_cancelRetryTimer e m M C R ts w (Q : unit -> World -> Prop) :
  focus e m M C R ts w -> (forall w', focus e (set_mm_retryTimer None m) M C R ts w' -> Q tt w') ->
  completes (cancelRetryTimer e) w Q.
Proof.
  intros Hf HQ. unfold cancelRetryTimer. apply completes_bind. eapply completes_locked; [exact Hf|].
  intros en w' _ Hf'. cbn [fst snd] in Hf' |- *. destruct (mm_retryTimer m) as [t|]; [|by apply HQ].
  eapply completes_aside; [exact Hf'|]. intros en' _. eexists _, _. split_and!; [reflexivity|intros []; done|auto].
Qed.

Lemma completes_unmountByClientType e m M C R ts w c client path (Q : option goerror -> World -> Prop) :
  focus e m M C R ts w -> (forall w', focus e m M C R ts w' -> Q None w') ->
  completes (unmountByClientType daemon c client path) w Q.
Proof.
  intros Hf HQ. unfold unmountByClientType, unmount_by_helper.
  assert (forall k, completes (runSystemUnmount daemon c path false k ≫= fun err : option goerror =>
    if negb (bool_decide (client = Some mountClientDAVFS)) || negb (IsOpt err context_DeadlineExceeded) then mret err
    else lazyErr ← fuse_Unmount path;
      match err, lazyErr with
      | Some err, Some lazyErr => mret (Some (ECombine err (EWrap lazyErr "DAVFS lazy unmount failed")))
      | None, Some lazyErr => mret (Some (EWrap lazyErr "DAVFS lazy unmount failed"))
      | _, None => mret (Some (EWrap (ESentinel ErrDAVFSLazyUnmount) "DAVFS cache synchronization exceeded the unmount timeout"))
      end) w Q) as Hhelper.
  { intros k. apply completes_bind. eapply completes_aside; [exact Hf|]. intros en Hen.
    rewrite (hp_err _ _ (ok_helpful en Hen)). eexists _, _. split_and!; [reflexivity|intros []; done|].
    intros w' Hf'. cbn [IsOpt negb]. rewrite orb_true_r. by apply HQ. }
  destruct client as [[]|]; [by eapply completes_system_call|apply Hhelper..].
Qed.

Lemma completes_unmountClient e m M C R ts w (Q : option goerror -> World -> Prop) :
  focus e m M C R ts w -> is_Some (MountInfo_Config (mm_info m)) -> (forall w', focus e m M C R ts w' -> Q None w') ->
  completes (unmountClient daemon ctx e) w Q.
Proof.
  intros Hf Hm HQ. unfold unmountClient. apply completes_bind. eapply completes_reading; [exact Hf|]. intros w1 Hf1.
  apply completes_bind. eapply completes_config_path; [exact Hf1|done|]. intros w2 Hf2. by eapply completes_unmountByClientType.
Qed.

(** The client has exited. *)
Lemma completes_await_exit e m M C R ts w command c (Q : option goerror -> World -> Prop) :
  focus e m M C R ts w -> C !! c = Some true -> Q None w -> completes (await_exit ctx command c) w Q.
Proof.
  intros Hf Hc HQ. unfold await_exit. apply completes_bind. apply completes_act. intros en Hen.
  rewrite (hp_case _ _ (ok_helpful en Hen)), (fc_chans _ _ _ _ _ _ _ Hf), Hc. by eexists _, _.
Qed.

Lemma completes_Signal_if e m M C R ts w persistent command (Q : unit -> World -> Prop) :
  focus e m M C R ts w -> (forall w', focus e m M C R ts w' -> Q tt w') -> completes (Signal_if persistent command) w Q.
Proof.
  intros Hf HQ. unfold Signal_if. destruct command as [p|]; [|by apply HQ]. destruct persistent; [|by apply HQ].
  eapply completes_aside; [exact Hf|]. intros en _. eexists _, _. split_and!; [reflexivity|intros []; done|auto].
Qed.

Lemma completes_close_log e m M C R ts w log (Q : unit -> World -> Prop) :
  focus e m M C R ts w -> (forall w', focus e m M C R ts w' -> Q tt w') -> completes (close_log log) w Q.
Proof.
  intros Hf HQ. unfold close_log. destruct log as [l|]; [|by apply HQ].
  eapply completes_aside; [exact Hf|]. intros en _. eexists _, _. split_and!; [reflexivity|intros []; done|auto].
Qed.

(** What is left when a mount is gone. *)
Definition gone e id M R ts (x : mount_result) w : Prop :=
  exists i m C, x = (Some i, None) /\ focus e m (base.delete id M) C (base.delete id R) ts w /\
    mm_operation m = true /\ MountInfo_MountId i = id.

Lemma completes_finish_unmount e m M C R ts w g r id :
  focus e m M C R ts w -> mm_operation m = true -> C !! mm_exitDone m = Some true -> MountInfo_MountId (mm_info m) = id ->
  id <> EmptyString -> R !! id = Some r -> completes (finish_unmount daemon ctx e g) w (gone e id M R ts).
Proof.
  intros Hf Hop Hc Hi Hid Hr. unfold finish_unmount. apply completes_bind. eapply completes_reading; [exact Hf|].
  intros w1 Hf1. unfold running_attempt. cbn [fst snd]. apply completes_bind. eapply completes_Signal_if; [exact Hf1|]. intros w2 Hf2.
  apply completes_bind. eapply completes_await_exit; [exact Hf2|exact Hc|]. unfold entry_mountID.
  apply completes_bind. eapply completes_reading; [exact Hf2|]. intros w3 Hf3. rewrite Hi.
  apply completes_bind. eapply (completes_system_call _ ctx); [exact ok_helpful|exact Hf3|]. intros w4 Hf4.
  apply completes_bind. eapply completes_locked; [exact Hf4|]. intros en w5 _ Hf5. cbn [unmounted_section fst snd] in Hf5 |- *.
  apply completes_bind. eapply completes_close_log; [exact Hf5|]. intros w6 Hf6.
  apply completes_bind. eapply (completes_Delete _ ctx); [exact ok_helpful|exact Hf6|exact Hid|exact Hr|]. intros w7 Hf7.
  apply completes_bind. apply completes_act. intros en7 _. eexists _, _. split; [reflexivity|].
  assert (focus e (set_mm_info (set_UpdatedAt (env_now en 0%nat) (set_UnmountedAt (env_now en 0%nat) (mm_info m))) m)
    (base.delete id M) C (base.delete id R) ts (set_w_mounts (base.delete id (w_mounts w7)) w7)) as Hf8.
  { destruct Hf7 as [f1 f2 f3 f4 f5 f6]. destruct w7. simpl in *. split; simpl; by subst. }
  apply completes_bind. eapply completes_publish; [exact Hf8|]. intros w9 Hf9.
  eexists _, _, C. split_and!; [reflexivity|exact Hf9|by destruct m|]. rewrite <- Hi. by destruct m as [? []].
Qed.

Lemma completes_performUnmountAttempt e m M C R ts w g r id :
  focus e m M C R ts w -> mm_operation m = true -> C !! mm_exitDone m = Some true -> MountInfo_MountId (mm_info m) = id ->
  storable (mm_info m) -> R !! id = Some r -> completes (performUnmountAttempt daemon ctx e g) w (gone e id M R ts).
Proof.
  intros Hf Hop Hc Hi Hs Hr. assert (id <> EmptyString) as Hid by (rewrite <- Hi; apply Hs). apply storable_config in Hs.
  unfold performUnmountAttempt, entry_mountPath, probe.
  apply completes_bind. eapply completes_config_path; [exact Hf|done|]. intros w1 Hf1.
  apply completes_bind. apply completes_asks. intros en Hen.
  destruct (hp_probe _ _ (ok_helpful en Hen) (GetMountPath (mm_info m))) as [b ->].
  apply completes_bind. destruct b; [eapply completes_unmountClient; [exact Hf1|done|]; intros w2 Hf2|]; by eapply completes_finish_unmount.
Qed.

(** Sections that keep what identifies a mount. *)
Definition same_mount (i j : MountInfo) : Prop :=
  MountInfo_MountId j = MountInfo_MountId i /\ MountInfo_Config j = MountInfo_Config i /\ (encodable i = true -> encodable j = true).

Lemma encodable_same i j :
  MountInfo_MountId j = MountInfo_MountId i -> MountInfo_Config j = MountInfo_Config i -> MountInfo_LastError j = MountInfo_LastError i ->
  Forall (fun f => f j = f i \/ set_to valid_timestamp (f j) = true)
    [MountInfo_CreatedAt; MountInfo_UpdatedAt; MountInfo_MountedAt; MountInfo_UnmountedAt; MountInfo_NextRetryAt] ->
  encodable i = true -> encodable j = true.
Proof.
  unfold encodable. intros -> -> -> Ht [Hi Htimes]%andb_prop. rewrite Hi. cbn [forallb andb] in Htimes |- *.
  rewrite !andb_true_iff in Htimes |- *. destruct Htimes as (H1 & H2 & H3 & H4 & H5 & _).
  rewrite !Forall_cons in Ht. destruct Ht as (T1 & T2 & T3 & T4 & T5 & _).
  split_and!; [destruct T1 as [->|]|destruct T2 as [->|]|destruct T3 as [->|]|destruct T4 as [->|]|destruct T5 as [->|]|]; done.
Qed.

Lemma same_mount_path i j : same_mount i j -> GetMountPath j = GetMountPath i.
Proof. intros (_ & Hc & _). unfold GetMountPath. by rewrite Hc. Qed.

Lemma same_mount_storable i j : same_mount i j -> storable i -> storable j.
Proof. intros Hs (Hid & Hp & He). unfold storable. rewrite (same_mount_path i j Hs). destruct Hs as (-> & _ & Henc). auto. Qed.

Lemma same_mount_recorded R i j : same_mount i j -> recorded R i -> recorded R j.
Proof. intros Hs. unfold recorded. rewrite (same_mount_path i j Hs). by destruct Hs as [-> _]. Qed.

Ltac same_encodable := try (apply encodable_same; [done..|]; repeat constructor; auto; fail).

Lemma accept_unmount_same en m :
  valid_timestamp (env_now en 0%nat) = true ->
  same_mount (mm_info m) (mm_info (accept_unmount_section en m).2) /\
  mm_operation (accept_unmount_section en m).2 = mm_operation m /\
  mm_exitDone (accept_unmount_section en m).2 = mm_exitDone m /\
  tombstoneRecord (accept_unmount_section en m).1 = mkMountRecord (Some (mm_info (accept_unmount_section en m).2)) true.
Proof. intros Hnow. destruct m as [? [] ? ? ? ? [] ? ? ? ? ?]; repeat split; by same_encodable. Qed.

Lemma completes_unmount_locked e m M C R ts w id :
  focus e m M C R ts w -> mm_operation m = true -> C !! mm_exitDone m = Some true -> M !! id = Some e ->
  MountInfo_MountId (mm_info m) = id -> storable (mm_info m) -> recorded R (mm_info m) ->
  completes (unmount_locked daemon ctx e id) w (gone e id M R ts).
Proof.
  intros Hf Hop Hc HM Hi Hs Hr. unfold unmount_locked.
  apply completes_bind. apply completes_gets. rewrite (fc_mounts _ _ _ _ _ _ _ Hf), HM. cbn [same_entry]. rewrite Nat.eqb_refl. cbn [negb].
  apply completes_bind. eapply completes_cancelRetryTimer; [exact Hf|]. intros w1 Hf1.
  apply completes_bind. eapply completes_locked; [exact Hf1|]. intros en w2 Hen Hf2.
  set (m1 := set_mm_retryTimer None m) in *.
  destruct (accept_unmount_same en m1 (hp_clock _ _ (ok_helpful en Hen))) as (Hsame & Hop' & Hex & Htomb).
  destruct (accept_unmount_section en m1) as [a m2]. cbn [fst snd] in *.
  assert (mm_info m1 = mm_info m /\ mm_operation m1 = mm_operation m /\ mm_exitDone m1 = mm_exitDone m) as (E1 & E2 & E3) by (by destruct m).
  rewrite E1 in Hsame. rewrite E2 in Hop'. rewrite E3 in Hex.
  assert (MountInfo_MountId (mm_info m2) = id) as Hid2 by (destruct Hsame as [-> _]; done).
  apply completes_bind. eapply completes_publish_updated; [exact Hf2|]. intros w3 Hf3. rewrite Htomb.
  apply completes_bind. eapply (completes_Update _ ctx); [exact ok_helpful|exact encodes|by left|exact Hf3| | |].
  - by eapply same_mount_storable.
  - by eapply same_mount_recorded.
  - intros w4 Hf4. rewrite Hid2 in Hf4. eapply completes_mono; [|eapply completes_performUnmountAttempt; [exact Hf4|..]].
    + intros x w5 (i & m5 & C5 & -> & Hf5 & Hop5 & Hi5). rewrite delete_insert_eq in Hf5. by exists i, m5, C5.
    + congruence.
    + congruence.
    + done.
    + by eapply same_mount_storable.
    + apply lookup_insert_eq.
Qed.

(** A registered mount whose client has exited or never ran, with the daemon
    otherwise at rest. *)
Record at_rest (id : string) e R w : Prop := {
  ar_registered : w_mounts w !! id = Some e;
  ar_focus : exists m, focus e m (w_mounts w) (w_chans w) R (w_ready w) w /\ mm_operation m = false /\
    w_chans w !! mm_exitDone m = Some true /\ MountInfo_MountId (mm_info m) = id /\ storable (mm_info m) /\
    recorded R (mm_info m)
}.

Lemma completes_Unmount id e R w :
  at_rest id e R w ->
  completes (Unmount daemon ctx (Some (mkUnmountRequest id))) w (fun x w' => exists i,
    x = (Some i, None) /\ MountInfo_MountId i = id /\
    w_mounts w' = base.delete id (w_mounts w) /\ rep (w_db w') (base.delete id R)).
Proof.
  intros [HM (m & Hf & Hop & Hc & Hi & Hs & Hr)]. unfold Unmount, unmount_body.
  apply completes_bind, completes_asks. intros en0 Hen0. apply completes_bind, completes_bind.
  apply completes_asks. intros en Hen. rewrite (hp_ctx _ _ (ok_helpful en Hen)). cbn [UnmountRequest_MountId].
  assert (id <> EmptyString) as Hid by (rewrite <- Hi; by destruct Hs). apply String.eqb_neq in Hid as ->.
  apply completes_bind. apply completes_gets. rewrite HM. unfold holding_operation.
  apply completes_bind. eapply completes_operation_Lock; [exact Hf|exact Hop|]. intros w1 Hf1.
  assert (mm_info (set_mm_operation true m) = mm_info m /\ mm_exitDone (set_mm_operation true m) = mm_exitDone m /\
    mm_operation (set_mm_operation true m) = true) as (E1 & E2 & E3) by (by destruct m).
  apply completes_bind. eapply completes_mono; [|eapply completes_unmount_locked; [exact Hf1|exact E3|rewrite E2;
  exact Hc|exact HM|rewrite E1..]; done].
  intros x w2 (i & m2 & C2 & -> & Hf2 & Hop2 & Hi2).
  apply completes_bind. eapply completes_operation_Unlock; [exact Hf2|exact Hop2|]. intros w3 Hf3.
  apply completes_bind. eapply completes_with_metrics; [exact Hf3|]. intros w4 Hf4.
  exists i. split_and!; [done|done|apply Hf4|apply Hf4].
Qed.

(** ** Mounting *)

























(** ** The supervisor of a mount that has come up *)

End Lifecycle.

Section Liveness.
Variable daemon : Config.
Context {url : UrlLib} {errs : ErrorLib} {codec : RecordCodec} {irods : IrodsfsLib}.
Hypothesis encodes : forall i t, encodable i = true -> exists data, encodeRecord i t = Ok data.

(** C14: an unmount request is served to the end.  For a registered mount
    that nobody is working on, whose client has exited and whose info
    protojson can encode, whether the path is still mounted or not, [Unmount]
    left to run alone on a system where every system and database call
    succeeds neither blocks nor panics: it returns the info of that mount
    and no error, and afterwards neither the registry nor the database
    knows the mount, while every other mount and record is untouched. *)
Theorem unmount_requests_complete ctx id e R w es :
  at_rest id e R w -> (forall n, helpful ctx (es n)) ->
  exists i w', run_alone es (Unmount daemon ctx (Some (mkUnmountRequest id))) w = Some ((Some i, None), w') /\
    MountInfo_MountId i = id /\ w_mounts w' = base.delete id (w_mounts w) /\ rep (w_db w') (base.delete id R).
Proof.
  intros Hrest Hes.
  destruct (completes_run _ _ _ _ es (completes_Unmount daemon ctx (helpful ctx) (fun _ Hen => Hen) encodes id e R w Hrest) Hes)
    as (x & w' & Hrun & i & -> & Hi). eauto.
Qed.

End Liveness.

(** ** The claims on concrete runs *)

Lemma plain_encodes : forall i t, encodable i = true -> exists data, @encodeRecord plain_codec i t = Ok data.
Proof. intros i t _. eexists. reflexivity. Qed.

(** Every call succeeds at time [now] and an exited client is seen first. *)
Definition well (now : Z) (paths : list string) : env := choosing CaseExit (calm now paths).

Lemma well_helpful ctx now paths : valid_timestamp now = true -> helpful ctx (well now paths).
Proof. intros Hnow. split; try done; [by destruct ctx|]. intros path. eexists. reflexivity. Qed.

(** The world after the mount of [home] has come up, and its info. *)
Definition home_world : World := world_after mounted_run.
Definition home_info : MountInfo := from_option mm_info (initial_info EmptyString (nfs_request home) 0) (w_entries home_world !! 0%nat).
Definition home_repo : repo := <["home" := mkMountRecord (Some home_info) false]> ∅.

Definition data_of (r : result goerror string) : string := match r with Ok s => s | Err _ => EmptyString end.

Lemma home_db_known :
  w_db home_world = <[mountPathKey home := "home"]> (<[mountKey "home" := data_of (@encodeRecord plain_codec home_info false)]> ∅).
Proof. apply (bool_decide_eq_true_1 _). vm_compute. reflexivity. Qed.

(** The database with the record of one mount. *)
Lemma single_rep i data :
  MountInfo_MountId i = "home" -> GetMountPath i = home -> @encodeRecord plain_codec i false = Ok data ->
  rep (<[mountPathKey home := "home"]> (<[mountKey "home" := data]> ∅)) (<["home" := mkMountRecord (Some i) false]> ∅).
Proof.
  intros Hid Hp Hd. apply (rep_insert ∅ ∅ "home" home _ _ i rep_empty); try done; [by rewrite Hp..|]. by apply decode_encode_record.
Qed.

Lemma home_rep : @rep plain_codec (w_db home_world) home_repo.
Proof.
  rewrite home_db_known. destruct (plain_encodes home_info false eq_refl) as [data Hd]. rewrite Hd.
  apply single_rep; [vm_compute; reflexivity..|exact Hd].
Qed.

Definition resting_entry (w : World) (e : entry_id) (id : string) (path : string) : bool :=
  match w_entries w !! e with
  | Some m => negb (mm_operation m) && bool_decide (w_chans w !! mm_exitDone m = Some true) &&
      encodable (mm_info m) && bool_decide (MountInfo_MountId (mm_info m) = id) && bool_decide (GetMountPath (mm_info m) = path)
  | None => false
  end.

Lemma resting_entry_sound w e id path R r :
  resting_entry w e id path = true -> w_mounts w !! id = Some e -> w_eventMutex w = false -> rep (w_db w) R ->
  id <> EmptyString -> IsAbs path = true -> R !! id = Some r -> Clean (record_path r) = Clean path -> at_rest id e R w.
Proof.
  intros Hrest HM Hmx HR Hid Habs Hr Hp. unfold resting_entry in Hrest. destruct (w_entries w !! e) as [m|] eqn:Em; [|done].
  apply andb_prop in Hrest as [Hrest <-%bool_decide_eq_true_1]. apply andb_prop in Hrest as [Hrest <-%bool_decide_eq_true_1].
  apply andb_prop in Hrest as [Hrest Henc].
  apply andb_prop in Hrest as [Hop%negb_true_iff Hc%bool_decide_eq_true_1]. split; [done|]. exists m. split_and!; try done.
  by exists r.
Qed.

Lemma home_at_rest : @at_rest plain_codec "home" 0%nat home_repo home_world.
Proof.
  apply (resting_entry_sound _ _ _ home _ (mkMountRecord (Some home_info) false));
    [vm_compute; reflexivity..|exact home_rep|discriminate|reflexivity|apply lookup_insert_eq|vm_compute; reflexivity].
Qed.

Lemma unmount_requests_complete_witness :
  exists i w', run_alone (fun _ => well 4000 [home])
      (@Unmount example_config message_errors plain_codec Background (Some (mkUnmountRequest "home"))) home_world = Some ((Some i, None), w') /\
    w_mounts w' = ∅.
Proof.
  destruct (@unmount_requests_complete example_config message_errors plain_codec plain_encodes Background "home" 0%nat home_repo
    home_world (fun _ => well 4000 [home]) home_at_rest (fun _ => well_helpful _ 4000 _ eq_refl)) as (i & w' & Hrun & _ & Hm & _).
  exists i, w'. split; [exact Hrun|]. rewrite Hm. apply (bool_decide_eq_true_1 _). vm_compute. reflexivity.
Defined.


