(* ===== verification/Service.v ===== *)
(** * The service and the daemon around it (service/service.go, cmd/main.go)

    The service owns the gRPC and the REST server, the database and the
    periodic reconciliation, and the daemon's main goroutine builds it,
    starts it, waits for a signal and takes it down.  The mount manager is a
    part of the state, a whole [system] of the manager's own goroutines: a
    method of the manager is one of its threads, which the service starts
    and waits for, and all other threads of the manager run interleaved with
    the service.

    Of the servers of google.golang.org/grpc and net/http the model has what
    their documentation promises: a server that was stopped accepts no
    calls and closes the listener it is given, and GracefulStop and Shutdown
    return when no call is in progress. *)

From S2P Require Import Prelude GoStrings GoPath GoErrors Api Config Policy Repository IrodsfsConfig Runtime Manager.
From S2P Require Import Threads.

(** ** State *)

Inductive server : Type := GRPC | REST.

#[export] Instance server_eq_dec : EqDecision server.
Proof. solve_decision. Defined.

Record server_state : Type := mkServer {
  srv_listener : option nat;     (* the listener it accepts calls from *)
  srv_stopped : bool;
  srv_calls : nat                (* calls in progress *)
}.

(** The fields of Service that change; [svc_manager] and [svc_dataStore] say
    whether they are not nil. *)
Record Service : Type := mkService {
  svc_mutex : bool;
  svc_started : bool;
  svc_listener : option nat;
  svc_restListener : option nat;
  svc_cancel : option nat;
  svc_reconcileDone : option nat;
  svc_manager : bool;
  svc_dataStore : bool
}.

(** What the daemon does to the file system, and tells its parent. *)
Inductive service_effect : Type :=
| SxMkdirAll (path : string) (ok : bool)
| SxRemove (path : string) (ok : bool)
| SxReady (err : option goerror).

Record service_world : Type := mkServiceWorld {
  sw_service : Service;
  sw_grpc : server_state;
  sw_rest : server_state;
  sw_listeners : list bool;              (* which listeners are open *)
  sw_contexts : list bool;               (* which contexts are cancelled *)
  sw_chans : list bool;                  (* which channels are closed *)
  sw_waits : list nat;                   (* WaitGroups *)
  sw_disk : DB;                          (* the database directory *)
  sw_open : bool;                        (* the database is open *)
  sw_daemon : Config;                    (* the manager's configuration *)
  sw_manager : system;
  sw_schedule : list choice;             (* what the manager has done *)
  sw_invoked : list (nat * thread);      (* the methods called and their threads *)
  sw_effects : list service_effect;
  sw_exited : bool                       (* the main goroutine has returned *)
}.

Definition set_sw_service (v : Service) (w : service_world) : service_world :=
  let '(mkServiceWorld _ b c d e f g h i j k l m n o) := w in mkServiceWorld v b c d e f g h i j k l m n o.
Definition set_sw_grpc (v : server_state) (w : service_world) : service_world :=
  let '(mkServiceWorld a _ c d e f g h i j k l m n o) := w in mkServiceWorld a v c d e f g h i j k l m n o.
Definition set_sw_rest (v : server_state) (w : service_world) : service_world :=
  let '(mkServiceWorld a b _ d e f g h i j k l m n o) := w in mkServiceWorld a b v d e f g h i j k l m n o.
Definition set_sw_listeners (v : list bool) (w : service_world) : service_world :=
  let '(mkServiceWorld a b c _ e f g h i j k l m n o) := w in mkServiceWorld a b c v e f g h i j k l m n o.
Definition set_sw_contexts (v : list bool) (w : service_world) : service_world :=
  let '(mkServiceWorld a b c d _ f g h i j k l m n o) := w in mkServiceWorld a b c d v f g h i j k l m n o.
Definition set_sw_chans (v : list bool) (w : service_world) : service_world :=
  let '(mkServiceWorld a b c d e _ g h i j k l m n o) := w in mkServiceWorld a b c d e v g h i j k l m n o.
Definition set_sw_waits (v : list nat) (w : service_world) : service_world :=
  let '(mkServiceWorld a b c d e f _ h i j k l m n o) := w in mkServiceWorld a b c d e f v h i j k l m n o.
Definition set_sw_disk (v : DB) (w : service_world) : service_world :=
  let '(mkServiceWorld a b c d e f g _ i j k l m n o) := w in mkServiceWorld a b c d e f g v i j k l m n o.
Definition set_sw_open (v : bool) (w : service_world) : service_world :=
  let '(mkServiceWorld a b c d e f g h _ j k l m n o) := w in mkServiceWorld a b c d e f g h v j k l m n o.
Definition set_sw_daemon (v : Config) (w : service_world) : service_world :=
  let '(mkServiceWorld a b c d e f g h i _ k l m n o) := w in mkServiceWorld a b c d e f g h i v k l m n o.
Definition set_sw_manager (s : system) (cs : list choice) (w : service_world) : service_world :=
  let '(mkServiceWorld a b c d e f g h i j _ _ m n o) := w in mkServiceWorld a b c d e f g h i j s cs m n o.
Definition set_sw_invoked (v : list (nat * thread)) (w : service_world) : service_world :=
  let '(mkServiceWorld a b c d e f g h i j k l _ n o) := w in mkServiceWorld a b c d e f g h i j k l v n o.
Definition set_sw_effects (v : list service_effect) (w : service_world) : service_world :=
  let '(mkServiceWorld a b c d e f g h i j k l m _ o) := w in mkServiceWorld a b c d e f g h i j k l m v o.

Definition set_sw_exited (v : bool) (w : service_world) : service_world :=
  let '(mkServiceWorld a b c d e f g h i j k l m n _) := w in mkServiceWorld a b c d e f g h i j k l m n v.

Definition server_of (s : server) (w : service_world) : server_state :=
  match s with GRPC => sw_grpc w | REST => sw_rest w end.
Definition set_server (s : server) (v : server_state) (w : service_world) : service_world :=
  match s with GRPC => set_sw_grpc v w | REST => set_sw_rest v w end.

Definition happens (x : service_effect) (w : service_world) : service_world := set_sw_effects (sw_effects w ++ [x]) w.

Record service_env : Type := mkServiceEnv {
  se_err : option goerror;         (* result of the call to the system *)
  se_fs : FS;                      (* the file system at this moment *)
  se_faults : faults;              (* faults of the database *)
  se_fuse : option goerror;        (* what fuse.Check answers *)
  se_tick : bool;                  (* the ticker is ready *)
  se_go : bool                     (* a signal arrived *)
}.

Inductive service_thread : Type :=
| TRun (config : Config) (managed : bool)       (* the main goroutine; a managed daemon reports to its parent *)
| TServe (s : server) (listener : nat)
| TStopServer (s : server) (wait : nat)
| TPeriodicReconcile (ctx : nat)
| TReconcileRound (ctx done : nat)
| TRequest (s : server) (methods : list thread)  (* a call of a client: methods of the manager *)
| TManagerStep (c : choice).

Notation sprog := (program service_world service_env service_thread).

(** ** Calls to the system *)

Definition sys_err : sprog (option goerror) := observe (fun e _ => se_err e).

Definition recorded_call (x : bool -> service_effect) : sprog (option goerror) :=
  update (fun e w => (se_err e, happens (x (match se_err e with None => true | Some _ => false end)) w)).

Definition os_Stat (path : string) : sprog stat_result := observe (fun e _ => Stat (se_fs e) path).

Section Service.
Context {url : UrlLib} {errs : ErrorLib} {codec : RecordCodec} {irods : IrodsfsLib}.

(** ** Directories (commons/config.go) *)

Definition owner_writable (perm : Z) : bool := Z.land perm 128 =? 128.

Definition makeDir (path : string) : sprog (option goerror) :=
  if String.eqb path EmptyString then mret (Some (ENew "failed to create a dir with empty path"))
  else
    st ← os_Stat path;
    match st with
    | StatNotExist =>
        err ← recorded_call (SxMkdirAll path);
        mret (WrapOpt err ("making a dir " +:+ Quote path +:+ " error"))
    | StatFailed err => mret (Some (EWrap err ("stating a dir " +:+ Quote path +:+ " error")))
    | StatOk isDir perm =>
        if negb isDir then mret (Some (ENew ("a file " +:+ Quote path +:+ " exist, not a directory")))
        else if negb (owner_writable perm)
        then mret (Some (ENew ("a dir " +:+ Quote path +:+ " exist, but does not have the write permission")))
        else mret None
    end.

(** The directory of the socket. *)
Definition make_socket_parent (parentDir : string) : sprog (option goerror) :=
  st ← os_Stat parentDir;
  match st with
  | StatNotExist =>
      err ← recorded_call (SxMkdirAll parentDir);
      mret (WrapOpt err ("failed to make a directory for unix socket " +:+ Quote parentDir))
  | StatFailed err => mret (Some (EWrap err ("unix socket directory " +:+ Quote parentDir +:+ " error")))
  | StatOk _ perm =>
      if negb (owner_writable perm)
      then mret (Some (ENew ("unix socket directory " +:+ Quote parentDir +:+ " must have write permission")))
      else mret None
  end.

Definition makeUnixSocketDir (endpoint : string) : sprog (option goerror) :=
  st ← os_Stat endpoint;
  match st with
  | StatFailed err => mret (Some (EWrap err ("service unix socket file " +:+ Quote endpoint +:+ " error")))
  | StatNotExist => make_socket_parent (Dir endpoint)
  | StatOk _ _ =>
      err ← recorded_call (SxRemove endpoint);
      match err with
      | Some err => mret (Some (EWrap err ("failed to remove the existing unix socket file " +:+ Quote endpoint)))
      | None => make_socket_parent (Dir endpoint)
      end
  end.

Definition MakeLogDir (config : Config) : sprog (option goerror) := makeDir (GetLogRootPath config).

Definition MakeWorkDirs (config : Config) : sprog (option goerror) :=
  err ← makeDir (GetDataRootPath config);
  match err with
  | Some err => mret (Some err)
  | None =>
      err ← makeDir (GetMountRootPath config);
      match err with
      | Some err => mret (Some err)
      | None =>
          match ParseServiceEndpoint (GetServiceEndpoint config) with
          | Err err => mret (Some err)
          | Ok (scheme, endpoint) =>
              if String.eqb scheme "unix" then makeUnixSocketDir endpoint else mret None
          end
      end
  end.

(** ** The manager *)

Definition manager_step (c : choice) (w : service_world) : step_result :=
  sys_step (body (sw_daemon w)) (sw_manager w) c.

(** A method of the manager begins to run; the result is its thread. *)
Definition invoked (t : thread) (w : service_world) : step_outcome service_world service_thread nat :=
  match manager_step (Arrive t) w with
  | Stepped s =>
      let i := length (sys_threads (sw_manager w)) in
      Goes i (set_sw_invoked (sw_invoked w ++ [(i, t)]) (set_sw_manager s (sw_schedule w ++ [Arrive t]) w)) []
  | Crashed => Dies
  | Impossible => Waits
  end.

Definition invoke (t : thread) : sprog nat := perform (fun _ => invoked t).

Definition returned (s : system) (i : nat) : bool :=
  match sys_threads s !! i with Some (Ret _) => true | _ => false end.

Definition await (i : nat) : sprog unit :=
  perform (fun _ w => if returned (sw_manager w) i then Goes tt w [] else Waits).

Definition call (t : thread) : sprog unit := i ← invoke t; await i.

Fixpoint calls (ts : list thread) : sprog unit :=
  match ts with
  | [] => mret tt
  | t :: rest => call t;; calls rest
  end.

(** The error that the method called last has returned; used where no
    client can call. *)
Definition last_error : sprog (option goerror) :=
  observe (fun _ w => match rev (w_replies (sys_world (sw_manager w))) with r :: _ => reply_err r | [] => None end).

(** A goroutine or a timer of the manager makes a step. *)
Definition internal (c : choice) : bool := match c with Arrive _ => false | _ => true end.

Definition manager_runs (c : choice) : sprog unit :=
  perform (fun _ w =>
    match manager_step c w with
    | Stepped s => Goes tt (set_sw_manager s (sw_schedule w ++ [c]) w) []
    | Crashed => Dies
    | Impossible => Waits
    end).

(** ** Servers *)

Definition close_listener (l : nat) (w : service_world) : service_world := set_sw_listeners (<[l := false]> (sw_listeners w)) w.

(** net.Listen *)
Definition listen : sprog (result goerror nat) :=
  update (fun e w =>
    match se_err e with
    | Some err => (Err err, w)
    | None => (Ok (length (sw_listeners w)), set_sw_listeners (sw_listeners w ++ [true]) w)
    end).

Definition listener_Close (l : nat) : sprog unit := modify (close_listener l).

(** Serve: accepts calls from the listener until the server is stopped. *)
Definition Serve (s : server) (l : nat) : sprog unit :=
  modify (fun w =>
    let v := server_of s w in
    if srv_stopped v then close_listener l w
    else set_server s (mkServer (Some l) false (srv_calls v)) w).

Definition close_served (s : server) (w : service_world) : service_world :=
  match srv_listener (server_of s w) with Some l => close_listener l w | None => w end.

(** GracefulStop of the gRPC server, Shutdown of the REST server without a
    deadline. *)
Definition graceful_stop (s : server) : sprog unit :=
  modify (fun w => set_server s (mkServer None true (srv_calls (server_of s w))) (close_served s w));;
  perform (fun _ w => match srv_calls (server_of s w) with O => Goes tt w [] | S _ => Waits end).

(** A client calls: the server accepts while it serves. *)
Definition accept (s : server) : sprog bool :=
  update (fun _ w =>
    let v := server_of s w in
    match srv_listener v with
    | Some l => (true, set_server s (mkServer (Some l) (srv_stopped v) (S (srv_calls v))) w)
    | None => (false, w)
    end).

Definition call_done (s : server) : sprog unit :=
  perform (fun _ w =>
    let v := server_of s w in
    match srv_calls v with
    | O => Dies
    | S n => Goes tt (set_server s (mkServer (srv_listener v) (srv_stopped v) n) w) []
    end).

Definition serve_request (s : server) (methods : list thread) : sprog unit :=
  accepted ← accept s;
  if negb accepted then mret tt
  else
    calls methods;;
    call_done s.

(** ** Mutex, channels, contexts, WaitGroups *)

Definition on_service (f : Service -> Service) : sprog unit := modify (fun w => set_sw_service (f (sw_service w)) w).
Definition read_service {A} (f : Service -> A) : sprog A := observe (fun _ w => f (sw_service w)).

Definition set_mutex (b : bool) (s : Service) : Service :=
  let '(mkService _ x1 x2 x3 x4 x5 x6 x7) := s in mkService b x1 x2 x3 x4 x5 x6 x7.
Definition set_started (b : bool) (s : Service) : Service :=
  let '(mkService x0 _ x2 x3 x4 x5 x6 x7) := s in mkService x0 b x2 x3 x4 x5 x6 x7.
Definition set_listener (l : nat) (s : Service) : Service :=
  let '(mkService x0 x1 _ x3 x4 x5 x6 x7) := s in mkService x0 x1 (Some l) x3 x4 x5 x6 x7.
Definition set_restListener (l : nat) (s : Service) : Service :=
  let '(mkService x0 x1 x2 _ x4 x5 x6 x7) := s in mkService x0 x1 x2 (Some l) x4 x5 x6 x7.
Definition set_cancel (c : nat) (s : Service) : Service :=
  let '(mkService x0 x1 x2 x3 _ x5 x6 x7) := s in mkService x0 x1 x2 x3 (Some c) x5 x6 x7.
Definition set_reconcileDone (c : nat) (s : Service) : Service :=
  let '(mkService x0 x1 x2 x3 x4 _ x6 x7) := s in mkService x0 x1 x2 x3 x4 (Some c) x6 x7.

Definition mutex_Lock : sprog unit :=
  perform (fun _ w => if svc_mutex (sw_service w) then Waits
                      else Goes tt (set_sw_service (set_mutex true (sw_service w)) w) []).
Definition mutex_Unlock : sprog unit :=
  perform (fun _ w => if svc_mutex (sw_service w) then Goes tt (set_sw_service (set_mutex false (sw_service w)) w) []
                      else Dies).

Definition make_chan : sprog nat := update (fun _ w => (length (sw_chans w), set_sw_chans (sw_chans w ++ [false]) w)).
Definition close_chan (c : nat) : sprog unit :=
  perform (fun _ w => match sw_chans w !! c with
                      | Some false => Goes tt (set_sw_chans (<[c := true]> (sw_chans w)) w) []
                      | _ => Dies
                      end).
Definition receive_closed (c : nat) : sprog unit :=
  perform (fun _ w => match sw_chans w !! c with Some true => Goes tt w [] | _ => Waits end).

Definition new_context : sprog nat := update (fun _ w => (length (sw_contexts w), set_sw_contexts (sw_contexts w ++ [false]) w)).
Definition cancel_context (c : nat) : sprog unit := modify (fun w => set_sw_contexts (<[c := true]> (sw_contexts w)) w).

Definition new_wait : sprog nat := update (fun _ w => (length (sw_waits w), set_sw_waits (sw_waits w ++ [0%nat]) w)).
Definition wait_Add1 (g : nat) : sprog unit := modify (fun w => set_sw_waits (alter S g (sw_waits w)) w).
Definition wait_Done1 (g : nat) : sprog unit :=
  perform (fun _ w => match sw_waits w !! g with
                      | Some (S n) => Goes tt (set_sw_waits (<[g := n]> (sw_waits w)) w) []
                      | _ => Dies
                      end).
Definition wait_Wait1 (g : nat) : sprog unit :=
  perform (fun _ w => match sw_waits w !! g with Some O => Goes tt w [] | _ => Waits end).

(** ** The store (service/store/store.go) *)

(** Open; the manager will work on what was opened. *)
Definition store_Open (dataDir encryptionKey : string) : sprog (option goerror) :=
  if String.eqb encryptionKey EmptyString then mret (Some (ENew "mount database encryption key is required"))
  else
    err ← sys_err;
    match err with
    | Some err => mret (Some (EWrap err ("failed to open mount database at " +:+ Quote dataDir)))
    | None =>
        update (fun e w =>
          let '(err, db, _) := ensureSchema (sw_disk w) (se_faults e) in
          match err with
          | Some err => (Some err, set_sw_disk db w)
          | None => (None, set_sw_open true (set_sw_disk db (set_sw_manager (initial_system db None) [] w)))
          end)
    end.

Definition store_Close : sprog unit :=
  modify (fun w => set_sw_open false (set_sw_disk (w_db (sys_world (sw_manager w))) w)).

(** ** The service *)

Definition empty_service (manager dataStore : bool) : Service := mkService false false None None None None manager dataStore.

(** newService; [manager] says whether it is not nil. *)
Definition newService (config : option Config) (manager : bool) : result goerror Service :=
  match config with
  | None => Err (ENew "config is required")
  | Some _ => if negb manager then Err (ENew "mount manager is required") else Ok (empty_service false false)
  end.

(** Reconciliation at startup. *)
Definition startup_reconcile (config : Config) : sprog (option goerror) :=
  call (if RestoreMountsOnRestart config then TReconcile Background else TReconcileTombstones Background);;
  last_error.

Definition NewService (config : Config) : sprog (option goerror) :=
  match GetRecoveryEncryptionKey config with
  | Err err => mret (Some err)
  | Ok key =>
      err ← store_Open (GetMountDatabasePath config) key;
      match err with
      | Some err => mret (Some (EWrap err "failed to open mount database"))
      | None =>
          made ← update (fun e w =>
            match NewMountManager (Some config) true (se_fuse e) (se_fs e) with
            | Err err => (Some err, w)
            | Ok c => (None, set_sw_daemon c w)
            end);
          match made with
          | Some err => store_Close;; mret (Some (EWrap err "failed to create mount manager"))
          | None =>
              reconcileErr ← startup_reconcile config;
              match reconcileErr with
              | Some err => store_Close;; mret (Some (EWrap err "failed to reconcile mount state at startup"))
              | None =>
                  match newService (Some config) true with
                  | Err err => store_Close;; mret (Some err)
                  | Ok svc =>
                      on_service (fun _ => empty_service true true);;
                      call TSetMetrics;;
                      mret None
                  end
              end
          end
      end
  end.

Definition reconcile_interval (config : Config) : Z :=
  if ReconcileInterval config <=? 0 then ReconcileIntervalDefault else ReconcileInterval config.

(** [defer close(svc.reconcileDone)] evaluates the channel at the start. *)
Definition runPeriodicReconcile (ctx : nat) : sprog unit :=
  done ← read_service svc_reconcileDone;
  match done with
  | None => perform (fun _ _ => Dies)
  | Some c => start (TReconcileRound ctx c)
  end.

(** One round of the loop; the next one is a goroutine of the same name. *)
Definition reconcile_round (ctx done : nat) : sprog unit :=
  tick ← perform (fun e w =>
    if se_tick e then Goes true w []
    else match sw_contexts w !! ctx with Some true => Goes false w [] | _ => Waits end);
  if tick : bool then call (TReconcileTombstones RequestContext);; start (TReconcileRound ctx done)
  else close_chan done.

(** From the opened listeners to the running goroutines. *)
Definition start_serving (l : nat) (restListener : option nat) : sprog (option goerror) :=
  on_service (set_listener l);;
  on_service (set_started true);;
  start (TServe GRPC l);;
  (match restListener with Some r => start (TServe REST r) | None => mret tt end);;
  manager ← read_service svc_manager;
  (if manager : bool then
     ctx ← new_context;
     on_service (set_cancel ctx);;
     done ← make_chan;
     on_service (set_reconcileDone done);;
     start (TPeriodicReconcile ctx)
   else mret tt);;
  mret None.

Definition start_locked (config : Config) : sprog (option goerror) :=
  started ← read_service svc_started;
  if started : bool then mret (Some (ENew "service is already started"))
  else match ParseServiceEndpoint (GetServiceEndpoint config) with
  | Err err => mret (Some err)
  | Ok (scheme, endpoint) =>
      listener ← listen;
      match listener with
      | Err err => mret (Some (EWrap err ("failed to listen on " +:+ scheme +:+ " endpoint " +:+ Quote endpoint)))
      | Ok l =>
          match ParseManagementServiceEndpoint (ManagementServiceEndpoint config) with
          | Err err => listener_Close l;; mret (Some err)
          | Ok restEndpoint =>
              if String.eqb restEndpoint EmptyString then start_serving l None
              else
                restListener ← listen;
                match restListener with
                | Err err =>
                    listener_Close l;;
                    mret (Some (EWrap err ("failed to listen on REST endpoint " +:+ Quote restEndpoint)))
                | Ok r => on_service (set_restListener r);; start_serving l (Some r)
                end
          end
      end
  end.

Definition Start (config : Config) : sprog (option goerror) :=
  mutex_Lock;;
  err ← start_locked config;
  mutex_Unlock;;
  mret err.

Definition removeUnixSocket (config : Config) : sprog unit :=
  match ParseServiceEndpoint (GetServiceEndpoint config) with
  | Ok (scheme, endpoint) =>
      if String.eqb scheme "unix" then err ← recorded_call (SxRemove endpoint); mret tt else mret tt
  | Err _ => mret tt
  end.

(** Both servers stop, at the same time. *)
Definition drain : sprog unit :=
  wait ← new_wait;
  restListener ← read_service svc_restListener;
  (match restListener with
   | Some _ => wait_Add1 wait;; start (TStopServer REST wait)
   | None => mret tt
   end);;
  wait_Add1 wait;;
  start (TStopServer GRPC wait);;
  wait_Wait1 wait.

Definition Stop (config : Config) : sprog unit :=
  mutex_Lock;;
  started ← read_service svc_started;
  if negb started then mutex_Unlock
  else
    on_service (set_started false);;
    cancel ← read_service svc_cancel;
    reconcileDone ← read_service svc_reconcileDone;
    manager ← read_service svc_manager;
    mutex_Unlock;;
    drain;;
    (match cancel with Some ctx => cancel_context ctx | None => mret tt end);;
    (match reconcileDone with Some c => receive_closed c | None => mret tt end);;
    (if manager : bool then call (TShutdown Background) else mret tt);;
    removeUnixSocket config.

Definition Release (config : Config) : sprog unit :=
  Stop config;;
  removeUnixSocket config;;
  dataStore ← read_service svc_dataStore;
  if dataStore : bool then store_Close else mret tt.

(** ** The daemon *)

Definition run_service (config : Config) : sprog (option goerror) :=
  err ← MakeWorkDirs config;
  match err with
  | Some err => mret (Some (EWrap err "make work dir error"))
  | None =>
      match Validate config with
      | Some err => mret (Some (EWrap err "invalid configuration"))
      | None =>
          err ← NewService config;
          match err with
          | Some err => mret (Some (EWrap err "failed to create the service"))
          | None =>
              err ← Start config;
              match err with
              | Some err => Release config;; mret (Some (EWrap err "failed to start the service"))
              | None => mret None
              end
          end
      end
  end.

Definition reportReady (managed : bool) (err : option goerror) : sprog unit :=
  if managed then modify (happens (SxReady err)) else mret tt.

Definition waitForShutdown : sprog unit := perform (fun e w => if se_go e then Goes tt w [] else Waits).

Definition shutdown (config : Config) : sprog unit := Stop config;; Release config.

Definition runUntilShutdown (config : Config) (managed : bool) : sprog unit :=
  err ← run_service config;
  match err with
  | Some err => reportReady managed (Some err)
  | None => reportReady managed None;; waitForShutdown;; shutdown config
  end.

(** The main goroutine; the process ends with it. *)
Definition daemon_main (config : Config) (managed : bool) : sprog unit :=
  runUntilShutdown config managed;; modify (set_sw_exited true).

Definition service_body (t : service_thread) : sprog unit :=
  match t with
  | TRun config managed => daemon_main config managed
  | TServe s l => Serve s l
  | TStopServer s wait => graceful_stop s;; wait_Done1 wait
  | TPeriodicReconcile ctx => runPeriodicReconcile ctx
  | TReconcileRound ctx done => reconcile_round ctx done
  | TRequest s r => serve_request s r
  | TManagerStep c => manager_runs c
  end.

(** A daemon process that has just been started. *)
Definition new_process (disk : DB) (config : Config) : service_world := {|
  sw_service := empty_service false false;
  sw_grpc := mkServer None false 0;
  sw_rest := mkServer None false 0;
  sw_listeners := [];
  sw_contexts := [];
  sw_chans := [];
  sw_waits := [];
  sw_disk := disk;
  sw_open := false;
  sw_daemon := config;
  sw_manager := initial_system ∅ None;
  sw_schedule := [];
  sw_invoked := [];
  sw_effects := [];
  sw_exited := false
|}.

Definition daemon_pool (disk : DB) (config : Config) (managed : bool) : pool service_world service_env service_thread :=
  mkPool (new_process disk config) [daemon_main config managed].
End Service.
