(* ===== verification/ServiceFacts.v ===== *)
(** * How the daemon comes up and goes down

    The main goroutine owns a token that says how far it has come; the
    goroutines that serve, stop a server, reconcile or handle a call own
    one each.  The invariant relates them to the state of the service and
    says that the manager inside is in a state that its own goroutines can
    reach. *)

From S2P Require Import Prelude GoStrings GoPath GoErrors GoFloat Api Config Policy PolicyFacts Repository PlainCodec Durable.
From S2P Require Import IrodsfsConfig Runtime Manager Scenario Invariant Rules ManagerSafe Concurrency Threads Service.

(** ** Tokens *)

(** What the main goroutine knows of a server. *)
Inductive use : Type := Unused | Live | StoppedBy (g : nat) | Drained.

(** And of the periodic reconciliation. *)
Inductive loop : Type := NoLoop | Loop (ctx done : nat) | Over (done : nat).

(** The manager has not been called, restores its mounts in a thread, or
    is called by requests. *)
Inductive phase : Type := Idle | Restoring (i : nat) | Called.

Record known : Type := mkKnown {
  k_service : Service;
  k_open : bool;
  k_grpc : use;
  k_rest : use;
  k_loop : loop;
  k_fresh : bool;                  (* no request is served *)
  k_asked : option nat;            (* the thread of Shutdown *)
  k_down : bool;                   (* it has returned *)
  k_chan : option nat;             (* a new channel *)
  k_group : option nat;            (* the WaitGroup of Stop *)
  k_phase : phase                  (* how the manager was called *)
}.

Definition k_idle (k : known) : bool := match k_phase k with Idle => true | _ => false end.

Definition k_use (k : known) (s : server) : use := match s with GRPC => k_grpc k | REST => k_rest k end.

(** How far a server has been stopped. *)
Inductive stage : Type := Asked | Refusing | Empty.

Inductive stoken : Type :=
| Main (k : known)
| ServeTok (s : server)
| StopTok (s : server) (g : nat) (d : stage)
| LoopTok (ctx done : nat)
| CallTok (s : server).

#[export] Instance use_eq_dec : EqDecision use.
Proof. solve_decision. Defined.
#[export] Instance phase_eq_dec : EqDecision phase.
Proof. solve_decision. Defined.
#[export] Instance loop_eq_dec : EqDecision loop.
Proof. solve_decision. Defined.
#[export] Instance Service_eq_dec : EqDecision Service.
Proof. solve_decision. Defined.
#[export] Instance known_eq_dec : EqDecision known.
Proof. solve_decision. Defined.
#[export] Instance stage_eq_dec : EqDecision stage.
Proof. solve_decision. Defined.
#[export] Instance stoken_eq_dec : EqDecision stoken.
Proof. solve_decision. Defined.

Definition is_main (t : stoken) : bool := match t with Main _ => true | _ => false end.
Definition is_loop (t : stoken) : bool := match t with LoopTok _ _ => true | _ => false end.
Definition stops (g : nat) (t : stoken) : bool := match t with StopTok _ h _ => bool_decide (g = h) | _ => false end.
Definition calling (s : server) (t : stoken) : bool := match t with CallTok s' => bool_decide (s = s') | _ => false end.

(** The tokens of a kind, and their number. *)
Definition those (f : stoken -> bool) (T : list stoken) : list stoken := filter (fun t => f t = true) T.
Definition counted (f : stoken -> bool) (T : list stoken) : nat := length (those f T).

(** ** The invariant *)

Definition drained (s : server) (w : service_world) : Prop :=
  srv_stopped (server_of s w) = true /\ srv_calls (server_of s w) = 0%nat.

Definition stage_ok (d : stage) (v : server_state) : Prop :=
  match d with
  | Asked => True
  | Refusing => srv_stopped v = true
  | Empty => srv_stopped v = true /\ srv_calls v = 0%nat
  end.

Definition use_ok (s : server) (u : use) (w : service_world) (T : list stoken) : Prop :=
  match u with
  | Unused => server_of s w = mkServer None false 0 /\ ServeTok s ∉ T
  | Live => True
  | StoppedBy g => (exists d, StopTok s g d ∈ T) \/ drained s w
  | Drained => drained s w
  end.

Definition loop_ok (l : loop) (w : service_world) (T : list stoken) : Prop :=
  match l with
  | NoLoop => those is_loop T = []
  | Loop ctx done =>
      (those is_loop T = [LoopTok ctx done] /\ sw_chans w !! done = Some false) \/
      (those is_loop T = [] /\ sw_chans w !! done = Some true)
  | Over done => those is_loop T = [] /\ sw_chans w !! done = Some true
  end.

(** Nothing that uses the database is going on. *)
Definition at_peace (k : known) : Prop :=
  (forall s, k_use k s = Unused \/ k_use k s = Drained) /\
  match k_loop k with
  | NoLoop => True
  | Loop _ _ => False
  | Over _ => k_asked k <> None /\ k_down k = true
  end.

(** The manager is within the steps that its counters allow. *)
Definition within_limit (w : service_world) : Prop := Z.of_nat (length (sw_schedule w)) <= limit.

(** A program that cannot end without an answer. *)
Fixpoint ends_replying {A} (p : prog A) : Prop :=
  match p with
  | Ret _ => False
  | Act f k => forall e w x w', f e w = Next x w' -> w_replies w' <> [] \/ ends_replying (k x)
  end.

Lemma replying_ends {A} (p : prog A) (rep : A -> reply) : ends_replying (p ≫= fun a => replying (rep a)).
Proof.
  induction p as [a|R f k IH]; intros e w x w' Hf; simpl in *; [|right; apply IH].
  left. injection Hf as _ <-. destruct w. simpl. by destruct w_replies.
Qed.

Section Facts.
Context {url : UrlLib} {errs : ErrorLib} {codec : RecordCodec} {irods : IrodsfsLib}.
(** Whether the daemon restores mounts, and the attempts its records count. *)
Context (restoring : bool) (attempts : Z).
Implicit Types (w : service_world) (k : known) (T r : list stoken).

Record svc_inv k w T : Prop := {
  si_service : sw_service w = k_service k;
  si_open : sw_open w = k_open k;
  si_uses : forall s, use_ok s (k_use k s) w T;
  si_calls : forall s, srv_calls (server_of s w) = counted (calling s) T;
  si_stopped : forall s, srv_stopped (server_of s w) = true -> srv_listener (server_of s w) = None;
  si_waits : forall g n, sw_waits w !! g = Some n -> n = counted (stops g) T;
  si_stops : forall s g d, StopTok s g d ∈ T ->
    (g < length (sw_waits w))%nat /\ k_use k s = StoppedBy g /\ stage_ok d (server_of s w);
  si_loop : loop_ok (k_loop k) w T;
  si_done : match k_loop k with NoLoop => svc_reconcileDone (k_service k) = None
            | Loop _ c | Over c => svc_reconcileDone (k_service k) = Some c end;
  si_manager : exists db, run (body (sw_daemon w)) (initial_system db None) (sw_schedule w) = Stepped (sw_manager w) /\
    (within_limit w -> admissible (sw_daemon w) db None (sw_schedule w) attempts);
  si_fresh : k_fresh k = true -> k_grpc k = Unused /\ k_rest k = Unused /\ k_loop k = NoLoop;
  si_idle : k_idle k = true -> k_fresh k = true /\ sw_schedule w = [] /\ sw_invoked w = [] /\
    (restoring = true -> sound attempts (sw_disk w) /\ sound attempts (w_db (sys_world (sw_manager w))));
  si_ready : k_fresh k = false -> within_limit w ->
    restores (sw_schedule w) = false \/ w_replies (sys_world (sw_manager w)) <> [];
  si_replying : forall i ctx, (i, TReconcile ctx) ∈ sw_invoked w -> within_limit w ->
    w_replies (sys_world (sw_manager w)) <> [] \/
    exists p, sys_threads (sw_manager w) !! i = Some p /\ ends_replying p;
  si_restoring : forall i, k_phase k = Restoring i -> exists ctx, (i, TReconcile ctx) ∈ sw_invoked w;
  si_down : forall i, k_asked k = Some i -> (i, TShutdown Background) ∈ sw_invoked w /\
    (k_down k = true -> returned (sw_manager w) i = true);
  si_closed : k_open k = false -> at_peace k;
  si_chan : forall c, k_chan k = Some c -> k_loop k = NoLoop /\ sw_chans w !! c = Some false;
  si_group : forall g, k_group k = Some g -> (g < length (sw_waits w))%nat
}.

Definition service_inv w T : Prop :=
  exists k rest, (T ≡ₚ Main k :: rest \/ (T ≡ₚ rest /\ sw_exited w = true)) /\
    those is_main rest = [] /\ svc_inv k w rest.

Lemma service_inv_perm w : Proper ((≡ₚ) ==> iff) (service_inv w).
Proof. intros T T' HT. unfold service_inv. by setoid_rewrite HT. Qed.

Lemma those_perm f T T' : T ≡ₚ T' -> those f T ≡ₚ those f T'.
Proof. apply filter_Permutation. Qed.

Lemma those_perm_nil f T T' : T ≡ₚ T' -> those f T = [] -> those f T' = [].
Proof. intros HT Hf. apply Permutation_nil_r. rewrite <- Hf. by apply those_perm. Qed.

Lemma those_perm_one f T T' t : T ≡ₚ T' -> those f T = [t] -> those f T' = [t].
Proof. intros HT Hf. apply Permutation_singleton_r. rewrite <- Hf. symmetry. by apply those_perm. Qed.

Lemma counted_perm f T T' : T ≡ₚ T' -> counted f T = counted f T'.
Proof. intros HT. apply Permutation_length. by apply those_perm. Qed.

Lemma those_app f T T' : those f (T ++ T') = those f T ++ those f T'.
Proof. apply filter_app. Qed.

Lemma svc_inv_perm k w T T' : T ≡ₚ T' -> svc_inv k w T -> svc_inv k w T'.
Proof.
  intros HT []. split; try done.
  - intros s. specialize (si_uses0 s). unfold use_ok in *. destruct (k_use k s); rewrite <- ?HT; try done.
    destruct si_uses0 as [[d Hd]|]; [left; exists d; by rewrite <- HT|by right].
  - intros s. by rewrite <- (counted_perm _ _ _ HT).
  - intros g n Hn. rewrite <- (counted_perm _ _ _ HT). auto.
  - intros s g b. rewrite <- HT. apply si_stops0.
  - unfold loop_ok in *. destruct (k_loop k); [by eapply those_perm_nil| |].
    + destruct si_loop0 as [[H1 H2]|[H1 H2]]; [left|right]; split; try done; [by eapply those_perm_one|by eapply those_perm_nil].
    + destruct si_loop0. split; [by eapply those_perm_nil|done].
Qed.

Lemma those_main_in T k : those is_main T = [] -> Main k ∉ T.
Proof. intros Hn Hk. assert (Main k ∈ those is_main T) as Hin by (by apply list_elem_of_filter). rewrite Hn in Hin.
by apply not_elem_of_nil in Hin. Qed.

(** The main goroutine holds the only token of its kind. *)
Lemma inv_main k r F w :
  service_inv w (Main k :: r ++ F) ->
  svc_inv k w (r ++ F) /\ forall k' r' w' F', those is_main r' = [] -> svc_inv k' w' (r' ++ F) -> F' ≡ₚ F ->
    service_inv w' (Main k' :: r' ++ F').
Proof.
  intros (k0 & rest & HT & Hm & Hi).
  assert (k0 = k /\ rest ≡ₚ r ++ F) as [-> HR].
  { destruct HT as [HT|[HT _]].
    - assert (Main k ∈ Main k0 :: rest) as Hin by (rewrite <- HT; left).
      apply elem_of_cons in Hin as [[= ->]|Hin]; [|by eapply those_main_in in Hin]. split; [done|].
      symmetry. by eapply Permutation_cons_inv.
    - assert (Main k ∈ rest) as Hin by (rewrite <- HT; left). by eapply those_main_in in Hin. }
  split; [by eapply svc_inv_perm|]. intros k' r' w' F' Hr' Hi' HF. exists k', (r' ++ F). split_and!; [left; by rewrite HF| |done].
  assert (those is_main (r ++ F) = []) as Hn by (by eapply those_perm_nil). rewrite those_app in *.
  apply app_eq_nil in Hn as [_ ->]. by rewrite Hr'.
Qed.

(** Other goroutines do not see it. *)
Lemma inv_side r F w :
  service_inv w (r ++ F) -> those is_main r = [] ->
  exists k F0, svc_inv k w (r ++ F0) /\ forall r' w' F', those is_main r' = [] -> sw_exited w' = sw_exited w ->
    svc_inv k w' (r' ++ F0) -> F' ≡ₚ F -> service_inv w' (r' ++ F').
Proof.
  intros (k & rest & HT & Hm & Hi) Hr. destruct HT as [HT|[HT Hx]].
  - assert (Main k ∈ r ++ F) as Hin by (rewrite HT; left). apply elem_of_app in Hin as [Hin|Hin]; [by eapply those_main_in in Hin|].
    apply elem_of_Permutation in Hin as [F0 HF]. exists k, F0.
    assert (rest ≡ₚ r ++ F0) as HR.
    { apply (Permutation_cons_inv (a := Main k)). rewrite <- HT, HF. symmetry. apply Permutation_middle. }
    split; [by eapply svc_inv_perm|]. intros r' w' F' Hr' He Hi' HF'. exists k, (r' ++ F0). split_and!; [left| |done].
    + rewrite HF', HF. symmetry. apply Permutation_middle.
    + assert (those is_main (r ++ F0) = []) as Hn by (by eapply those_perm_nil). rewrite those_app in *.
      apply app_eq_nil in Hn as [_ ->]. by rewrite Hr'.
  - exists k, F. split; [by eapply svc_inv_perm|]. intros r' w' F' Hr' He Hi' HF'. exists k, (r' ++ F). split_and!; [right| |done].
    + split; [by rewrite HF'|congruence].
    + assert (those is_main (r ++ F) = []) as Hn by (by eapply those_perm_nil). rewrite those_app in *.
      apply app_eq_nil in Hn as [_ ->]. by rewrite Hr'.
Qed.

(** ** Rules *)

(** The calls of clients. *)
Definition client_call (t : thread) : bool :=
  match t with
  | TMount _ _ | TUnmount _ _ | TGetMount _ _ | TListMounts _ _ | TWatch _ _ _ | TReady _ => true
  | _ => false
  end.

Definition client_request (methods : list thread) : bool := forallb client_call methods.

(** What a goroutine owns when it begins. *)
Definition service_pre (t : service_thread) r : Prop :=
  match t with
  | TRun _ _ => False
  | TServe s _ => r = [ServeTok s]
  | TStopServer s g => r = [StopTok s g Asked]
  | TPeriodicReconcile ctx => exists done, r = [LoopTok ctx done]
  | TReconcileRound ctx done => r = [LoopTok ctx done]
  | TRequest _ q => r = [] /\ client_request q = true
  | TManagerStep c => r = [] /\ internal c = true
  end.

(** The manager has made as many steps as its counters allow. *)
Definition exhausted (e : service_env) w : Prop := limit <= Z.of_nat (length (sw_schedule w)).

Local Notation owning := (owning service_inv service_pre (fun _ _ => True) exhausted).
Local Notation gives p r r' := (owning r p (fun _ x => x = r')).

Lemma owning_main {A} k r (f : service_env -> service_world -> step_outcome service_world service_thread A) Q :
  those is_main r = [] ->
  (forall e w F, svc_inv k w (r ++ F) ->
     match f e w with
     | Waits => True
     | Dies => exhausted e w
     | Goes x w' ts => ts = [] /\ exists k' r', those is_main r' = [] /\ svc_inv k' w' (r' ++ F) /\ Q x (Main k' :: r')
     end) -> owning (Main k :: r) (perform f) Q.
Proof.
  intros Hr Hf. apply owning_perform. intros e w F Hi. destruct (inv_main k r F w Hi) as [Hk Hback]. specialize (Hf e w F Hk).
  destruct (f e w) as [| |x w' ts]; [done..|]. destruct Hf as (-> & k' & r' & Hr' & Hi' & HQ). split; [done|].
  exists (Main k' :: r'). split; [|done]. by apply Hback.
Qed.

Lemma owning_side {A} r (f : service_env -> service_world -> step_outcome service_world service_thread A) Q :
  those is_main r = [] ->
  (forall e w F k, svc_inv k w (r ++ F) ->
     match f e w with
     | Waits => True
     | Dies => exhausted e w
     | Goes x w' ts => ts = [] /\ sw_exited w' = sw_exited w /\
         exists r', those is_main r' = [] /\ svc_inv k w' (r' ++ F) /\ Q x r'
     end) -> owning r (perform f) Q.
Proof.
  intros Hr Hf. apply owning_perform. intros e w F Hi. destruct (inv_side r F w Hi Hr) as (k & F0 & Hk & Hback).
  specialize (Hf e w F0 k Hk). destruct (f e w) as [| |x w' ts]; [done..|]. destruct Hf as (-> & Hx & r' & Hr' & Hi' & HQ).
  split; [done|]. exists r'. split; [|done]. by apply Hback.
Qed.

(** *** The manager *)

Lemma run_snoc B s cs c :
  run B s (cs ++ [c]) = match run B s cs with Stepped s' => sys_step B s' c | x => x end.
Proof. revert s. induction cs as [|d cs IH]; intros s; simpl; [by destruct (sys_step B s c)|]. destruct (sys_step B s d); auto. Qed.

Lemma returned_step B s c s' i : sys_step B s c = Stepped s' -> returned s i = true -> returned s' i = true.
Proof.
  unfold returned, sys_step. intros Hs Hr. destruct (sys_threads s !! i) as [[[]|]|] eqn:Ei; [|done..].
  assert (forall l : list (prog unit), (sys_threads s ++ l) !! i = Some (Ret tt)) as Happ by (intros l; by apply lookup_app_l_Some).
  destruct c as [j e| |t|t].
  - destruct (sys_threads s !! j) as [[|X f k]|] eqn:Ej; [done| |done]. destruct (f e (sys_world s)); [done..|].
    injection Hs as <-. simpl. rewrite list_lookup_insert_ne by congruence. by rewrite Ei.
  - destruct (w_ready (sys_world s)); [done|]. injection Hs as <-. simpl. by rewrite Happ.
  - destruct (w_timers (sys_world s) !! t) as [[[] f]|]; [|done..]. injection Hs as <-. simpl. by rewrite Happ.
  - injection Hs as <-. simpl. by rewrite Happ.
Qed.

(** A step of the manager keeps what is known of its calls. *)
Lemma replying_step B s c s' i :
  sys_step B s c = Stepped s' -> (w_replies (sys_world s) <> [] -> w_replies (sys_world s') <> []) ->
  w_replies (sys_world s) <> [] \/ (exists p, sys_threads s !! i = Some p /\ ends_replying p) ->
  w_replies (sys_world s') <> [] \/ (exists p, sys_threads s' !! i = Some p /\ ends_replying p).
Proof.
  intros Hs Hg [Hr|(p & Hp & He)]; [left; auto|].
  assert (forall l : list (prog unit), (sys_threads s ++ l) !! i = Some p) as Happ by (intros l; by apply lookup_app_l_Some).
  destruct c as [j e| |t|t]; simpl in Hs.
  - destruct (sys_threads s !! j) as [[|X f k]|] eqn:Ej; [done| |done]. destruct (f e (sys_world s)) as [| |x w'] eqn:Ef; [done..|].
    injection Hs as <-. simpl in *. destruct (decide (j = i)) as [->|Hne].
    + rewrite Hp in Ej. injection Ej as ->. destruct (He _ _ _ _ Ef) as [?|?]; [by left|right]. exists (k x). split; [|done].
      apply list_lookup_insert_eq. by eapply lookup_lt_Some.
    + right. exists p. by rewrite list_lookup_insert_ne.
  - destruct (w_ready (sys_world s)); [done|]. injection Hs as <-. right. exists p. simpl. by rewrite Happ.
  - destruct (w_timers (sys_world s) !! t) as [[[] f]|]; [|done..]. injection Hs as <-. right. exists p. simpl. by rewrite Happ.
  - injection Hs as <-. right. exists p. simpl. by rewrite Happ.
Qed.

Lemma within_limit_snoc w s c : within_limit (set_sw_manager s (sw_schedule w ++ [c]) w) ->
  within_limit w /\ Z.of_nat (length (sw_schedule w)) < limit.
Proof. unfold within_limit. destruct w. simpl. rewrite length_app. simpl. lia. Qed.

Lemma manager_moves k w T c :
  svc_inv k w T -> k_idle k = false \/ internal c = true ->
  match c with Arrive t => api_request t = true /\ k_fresh k = false | _ => True end ->
  match manager_step c w with
  | Impossible => True
  | Crashed => limit <= Z.of_nat (length (sw_schedule w))
  | Stepped s => svc_inv k (set_sw_manager s (sw_schedule w ++ [c]) w) T
  end.
Proof.
  intros Hi Hidle Hc. destruct (si_manager _ _ _ Hi) as (db & Hrun & Hadm). unfold manager_step.
  assert (run (body (sw_daemon w)) (initial_system db None) (sw_schedule w ++ [c]) = sys_step (body (sw_daemon w)) (sw_manager w) c) as Hsnoc
    by (by rewrite run_snoc, Hrun).
  assert (within_limit w -> Z.of_nat (length (sw_schedule w)) < limit ->
    admissible (sw_daemon w) db None (sw_schedule w ++ [c]) attempts /\ restores (sw_schedule w ++ [c]) = restores (sw_schedule w)) as Hnext.
  { intros Hw Hlt. destruct (Hadm Hw) as [Hl Ho Hs].
    assert (welcome (restores (sw_schedule w)) (sys_world (sw_manager w)) c) as Hwel.
    { destruct c as [| | |t]; try done. destruct Hc as [Ht Hf]. split; [done|]. by apply (si_ready _ _ _ Hi). }
    destruct (orderly_snoc _ _ _ _ _ _ Ho Hrun Hwel) as [Ho' Er]. split; [|done]. split; [rewrite length_app; simpl; lia|done|by rewrite Er]. }
  destruct (sys_step _ _ c) as [| |s] eqn:Es; [done| |].
  - destruct (Z.le_gt_cases limit (Z.of_nat (length (sw_schedule w)))) as [|Hlt]; [done|exfalso].
    destruct (Hnext ltac:(unfold within_limit; lia) Hlt) as [Ha _].
    pose proof (run_Inv (sw_daemon w) db None _ _ Ha) as Hn. by rewrite Hsnoc in Hn.
  - assert (within_limit (set_sw_manager s (sw_schedule w ++ [c]) w) ->
      w_replies (sys_world (sw_manager w)) <> [] -> w_replies (sys_world s) <> []) as Hgrow.
    { intros [Hw Hlt]%within_limit_snoc Hr. destruct (mono_replies _ _ (run_step_mono _ _ _ _ _ _ _ _ (Hadm Hw) Hlt Hrun Es)) as [l ->].
      by destruct (w_replies _). }
    pose proof (within_limit_snoc w s c) as Hsn. destruct Hi. destruct w. simpl in *. split; simpl; try done.
    + exists db. split; [done|]. intros Hw. by apply Hnext; apply Hsn.
    + intros Hk. destruct (si_idle0 Hk) as (_ & -> & _). injection Hrun as <-. destruct Hidle as [Hidle|Hin]; [congruence|].
      by destruct c as [[|]| |[|]|].
    + intros Hk Hw. destruct (Hsn Hw) as [Hw' Hlt]. destruct (Hnext Hw' Hlt) as [_ ->]. destruct (si_ready0 Hk Hw'); [by left|right; auto].
    + intros i ctx Hin Hw. eapply replying_step; [exact Es|auto|]. apply (si_replying0 i ctx Hin). by apply Hsn.
    + intros i Hd. destruct (si_down0 i Hd) as [Hin Hret]. split; [done|]. intros Hk. eapply returned_step; eauto.
Qed.

(** Knowledge that changes. *)
Definition set_k_service (v : Service) (k : known) : known :=
  let '(mkKnown _ b c d e f g h i j l) := k in mkKnown v b c d e f g h i j l.
Definition set_k_open (v : bool) (k : known) : known :=
  let '(mkKnown a _ c d e f g h i j l) := k in mkKnown a v c d e f g h i j l.
Definition set_k_grpc (v : use) (k : known) : known :=
  let '(mkKnown a b _ d e f g h i j l) := k in mkKnown a b v d e f g h i j l.
Definition set_k_rest (v : use) (k : known) : known :=
  let '(mkKnown a b c _ e f g h i j l) := k in mkKnown a b c v e f g h i j l.
Definition set_k_loop (v : loop) (k : known) : known :=
  let '(mkKnown a b c d _ f g h i j l) := k in mkKnown a b c d v f g h i j l.
Definition set_k_fresh (v : bool) (k : known) : known :=
  let '(mkKnown a b c d e _ g h i j l) := k in mkKnown a b c d e v g h i j l.
Definition set_k_asked (v : option nat) (k : known) : known :=
  let '(mkKnown a b c d e f _ h i j l) := k in mkKnown a b c d e f v h i j l.
Definition set_k_down (v : bool) (k : known) : known :=
  let '(mkKnown a b c d e f g _ i j l) := k in mkKnown a b c d e f g v i j l.
Definition set_k_chan (v : option nat) (k : known) : known :=
  let '(mkKnown a b c d e f g h _ j l) := k in mkKnown a b c d e f g h v j l.
Definition set_k_phase (v : phase) (k : known) : known :=
  let '(mkKnown a b c d e f g h i j _) := k in mkKnown a b c d e f g h i j v.
Definition set_k_group (v : option nat) (k : known) : known :=
  let '(mkKnown a b c d e f g h i _ l) := k in mkKnown a b c d e f g h i v l.

(** The manager is about to be called. *)
Definition called (k : known) : known := set_k_phase Called (set_k_fresh false k).

Lemma svc_inv_begun k w T : (k_fresh k = true -> k_idle k = true) -> svc_inv k w T -> svc_inv (called k) w T.
Proof.
  intros Hf []. destruct k. simpl in *. split; try done. simpl. intros _ Hw. destruct k_fresh0; [|by apply si_ready0].
  left. by destruct (si_idle0 (Hf eq_refl)) as (_ & -> & _).
Qed.

Lemma svc_inv_invoked k w T i t :
  svc_inv k w T -> k_idle k = false ->
  match t with TReconcile _ => exists p, sys_threads (sw_manager w) !! i = Some p /\ ends_replying p | _ => True end ->
  svc_inv k (set_sw_invoked (sw_invoked w ++ [(i, t)]) w) T.
Proof.
  intros [] Hk Ht. destruct w. simpl in *. split; simpl; try done.
  - by rewrite Hk.
  - intros j ctx [Hj|Hj%list_elem_of_singleton]%elem_of_app Hw; [by apply (si_replying0 j ctx)|]. injection Hj as -> <-. by right.
  - intros j Hj. destruct (si_restoring0 j Hj) as [ctx Hin]. exists ctx. apply elem_of_app. by left.
  - intros j Hi. destruct (si_down0 j Hi). split; [|done]. apply elem_of_app. by left.
Qed.

Lemma invoke_spec k w T t e :
  svc_inv k w T -> api_request t = true -> k_fresh k = false -> k_idle k = false ->
  match invoked t w with
  | Waits => True
  | Dies => exhausted e w
  | Goes i w' ts => ts = [] /\ sw_exited w' = sw_exited w /\ svc_inv k w' T /\ (i, t) ∈ sw_invoked w'
  end.
Proof.
  intros Hi Ht Hk Hd. pose proof (manager_moves k w T (Arrive t) Hi (or_introl Hd) (conj Ht Hk)) as Hm. unfold invoked.
  destruct (manager_step (Arrive t) w) as [| |s]; [done..|]. split_and!; [done|by destruct w| |].
  - apply (svc_inv_invoked _ _ _ (length (sys_threads (sw_manager w))) t) in Hm; [by destruct w|done|by destruct t].
  - destruct w. simpl. set_solver.
Qed.

Lemma own_invoke k r t :
  those is_main r = [] -> api_request t = true -> (k_fresh k = true -> k_idle k = true) ->
  gives (invoke t) (Main k :: r) (Main (called k) :: r).
Proof.
  intros Hr Ht Hf. apply owning_main; [done|]. intros e w F Hi. apply svc_inv_begun in Hi; [|done].
  pose proof (invoke_spec _ w _ t e Hi Ht ltac:(by destruct k) ltac:(by destruct k)) as Hs.
  destruct (invoked t w); [done..|]. destruct Hs as (-> & _ & Hs & _). split; [done|].
  by exists (called k), r.
Qed.

Lemma own_invoke_shutdown k r :
  those is_main r = [] -> k_open k = true -> (k_fresh k = true -> k_idle k = true) ->
  owning (Main k :: r) (invoke (TShutdown Background))
    (fun i x => x = Main (set_k_down false (set_k_asked (Some i) (called k))) :: r).
Proof.
  intros Hr Hk Hf. apply owning_main; [done|]. intros e w F Hi. apply svc_inv_begun in Hi; [|done].
  pose proof (invoke_spec _ w _ (TShutdown Background) e Hi eq_refl ltac:(by destruct k) ltac:(by destruct k)) as Hs.
  destruct (invoked _ w) as [| |i w' ts]; [done..|]. destruct Hs as (-> & _ & Hs & Hin). split; [done|].
  eexists _, r. split_and!; [done| |reflexivity]. destruct Hs. destruct k; simpl in *. subst. split; simpl; try done.
  intros j [= <-]. done.
Qed.

Lemma own_await k r i : those is_main r = [] -> gives (await i) (Main k :: r) (Main k :: r).
Proof.
  intros Hr. apply owning_main; [done|]. intros e w F Hi. destruct (returned _ i); [|done]. split; [done|]. by exists k, r.
Qed.

Lemma own_await_shutdown k r i :
  those is_main r = [] -> k_asked k = Some i -> k_open k = true -> gives (await i) (Main k :: r) (Main (set_k_down true k) :: r).
Proof.
  intros Hr Ha Ho. apply owning_main; [done|]. intros e w F Hi. destruct (returned _ i) eqn:Er; [|done]. split; [done|].
  eexists _, r. split_and!; [done| |reflexivity]. destruct Hi. destruct k; simpl in *. subst. split; simpl; try done.
  intros j [= <-]. split; [|done]. by apply si_down0.
Qed.

Lemma own_call k r t :
  those is_main r = [] -> api_request t = true -> (k_fresh k = true -> k_idle k = true) ->
  gives (call t) (Main k :: r) (Main (called k) :: r).
Proof. intros Hr Ht Hf. unfold call. eapply owning_then; [by apply own_invoke|]. intros i. by apply own_await. Qed.

(** The call that restores the mounts is the first one, and nothing is
    served until it has returned. *)
Lemma restore_invoked k w T ctx e :
  svc_inv k w T -> restoring = true -> k_fresh k = true -> k_idle k = true ->
  match invoked (TReconcile ctx) w with
  | Waits => True
  | Dies => exhausted e w
  | Goes i w' ts => ts = [] /\ svc_inv (set_k_phase (Restoring i) k) w' T
  end.
Proof.
  intros Hi Hres Hf Hd. destruct (si_manager _ _ _ Hi) as (db & Hrun & _).
  destruct (si_idle _ _ _ Hi Hd) as (_ & Hs & Hv & Hso). destruct (Hso Hres) as [_ Hdb].
  unfold invoked, manager_step. cbn [sys_step]. split; [done|].
  destruct Hi. destruct k, w. simpl in *. subst. injection Hrun as <-. simpl in *. split; simpl; try done.
  - exists db. split; [done|]. intros _. split; [by vm_compute|done|done].
  - intros i ctx' Hin%list_elem_of_singleton _. injection Hin as -> ->. right. eexists. split; [done|].
    exact (replying_ends (Reconcile sw_daemon ctx) (fun err => mkReply [] err)).
  - intros i [= <-]. exists ctx. by left.
  - intros i Hi. by destruct (si_down0 i Hi) as [Hin%not_elem_of_nil _].
Qed.

Lemma own_restore k r ctx :
  those is_main r = [] -> restoring = true -> k_fresh k = true -> k_idle k = true ->
  gives (call (TReconcile ctx)) (Main k :: r) (Main (called k) :: r).
Proof.
  intros Hr Hres Hf Hd. unfold call. apply owning_bind.
  apply (owning_mono _ _ _ _ _ _ (fun i x => x = Main (set_k_phase (Restoring i) k) :: r)).
  - intros i x ->. apply owning_main; [done|]. intros e w F Hi. destruct (returned _ i) eqn:Er; [|done]. split; [done|].
    exists (called k), r. split_and!; [done| |done]. destruct Hi. destruct k, w. simpl in *. subst. split; simpl; try done.
    intros _ Hw. right. destruct (si_restoring0 i eq_refl) as [ctx' Hin]. destruct (si_replying0 i ctx' Hin Hw) as [?|(p & Hp & He)]; [done|].
    unfold returned in Er. rewrite Hp in Er. by destruct p.
  - apply owning_main; [done|]. intros e w F Hi. pose proof (restore_invoked k w _ ctx e Hi Hres Hf Hd) as Hs.
    destruct (invoked _ w) as [| |i w' ts]; [done..|]. destruct Hs as [-> Hs]. split; [done|]. by eexists _, r.
Qed.

(** *** Side goroutines *)

Lemma elem_of_those f T t : t ∈ T -> f t = true -> t ∈ those f T.
Proof. intros Ht Hf. by apply list_elem_of_filter. Qed.

Lemma fresh_calls k w T s : svc_inv k w (CallTok s :: T) -> k_fresh k = false.
Proof.
  intros Hi. destruct (k_fresh k) eqn:Ek; [exfalso|done]. destruct (si_fresh _ _ _ Hi Ek) as (Hg & Hr & _).
  pose proof (si_uses _ _ _ Hi s) as Hu. assert (k_use k s = Unused) as E by (by destruct s). rewrite E in Hu. destruct Hu as [Hu _].
  pose proof (si_calls _ _ _ Hi s) as Hc. rewrite Hu in Hc. unfold counted, those in Hc. rewrite filter_cons_True in Hc; [done|].
  simpl. by rewrite bool_decide_eq_true_2.
Qed.

Lemma loop_token k w T ctx done :
  svc_inv k w (LoopTok ctx done :: T) -> k_loop k = Loop ctx done /\ sw_chans w !! done = Some false /\ those is_loop T = [].
Proof.
  intros Hi. pose proof (si_loop _ _ _ Hi) as Hl. assert (those is_loop (LoopTok ctx done :: T) = LoopTok ctx done :: those is_loop T) as E
    by (by unfold those; rewrite filter_cons_True).
  unfold loop_ok in Hl. rewrite E in Hl. destruct (k_loop k) as [|c d|d]; [done| |by destruct Hl].
  destruct Hl as [[[= <- <- Hn] Hc]|[[=] _]]. done.
Qed.

Lemma fresh_loop k w T ctx done : svc_inv k w (LoopTok ctx done :: T) -> k_fresh k = false.
Proof.
  intros Hi. destruct (loop_token _ _ _ _ _ Hi) as (Hl & _). destruct (k_fresh k) eqn:Ek; [|done].
  destruct (si_fresh _ _ _ Hi Ek) as (_ & _ & Hn). congruence.
Qed.

(** A call of the manager by a goroutine that exists only while the service
    runs. *)
Lemma own_side_call t0 t :
  is_main t0 = false -> (forall k w F, svc_inv k w (t0 :: F) -> k_fresh k = false) -> api_request t = true -> gives (call t) [t0] [t0].
Proof.
  intros Hm Hf Ht. assert (those is_main [t0] = []) as Hr by (by unfold those; rewrite filter_cons_False, filter_nil by congruence).
  unfold call. eapply (owning_then _ _ _ _ _ [t0]).
  - apply owning_side; [done|]. intros e w F k Hi. pose proof (Hf _ _ _ Hi) as Hk.
    assert (k_idle k = false) as Hd by (destruct (k_idle k) eqn:E; [destruct (si_idle _ _ _ Hi E); congruence|done]).
    pose proof (invoke_spec _ w _ t e Hi Ht Hk Hd) as Hs.
    destruct (invoked t w) as [| |i w' ts]; [done..|]. destruct Hs as (-> & Hx & Hs & _). split_and!; [done|done|]. by exists [t0].
  - intros i. apply owning_side; [done|]. intros e w F k Hi. destruct (returned _ i); [|done]. split_and!; [done|done|]. by exists [t0].
Qed.

Lemma own_calls s ts : forallb client_call ts = true -> gives (calls ts) [CallTok s] [CallTok s].
Proof.
  induction ts as [|t ts IH]; [done|]. cbn [calls forallb]. intros [Ht Hts]%andb_true_iff. eapply owning_then; [|intros _; auto].
  apply own_side_call; [done|intros k w F; apply fresh_calls|by destruct t].
Qed.

(** How counts change. *)
Lemma counted_cons f t T : counted f (t :: T) = ((if f t then 1 else 0) + counted f T)%nat.
Proof.
  unfold counted, those. destruct (f t) eqn:Ef; [by rewrite filter_cons_True|]. by rewrite filter_cons_False by congruence.
Qed.

Lemma those_cons_other f t T : f t = false -> those f (t :: T) = those f T.
Proof. intros Hf. unfold those. by rewrite filter_cons_False by congruence. Qed.

(** A token that matters only for the calls of a server. *)
Lemma server_set_same s v w : server_of s (set_server s v w) = v.
Proof. by destruct s, w. Qed.

Lemma server_set_other s s' v w : s <> s' -> server_of s' (set_server s v w) = server_of s' w.
Proof. by destruct s, s', w. Qed.

Definition same_rest w w' : Prop :=
  sw_service w' = sw_service w /\ sw_open w' = sw_open w /\ sw_waits w' = sw_waits w /\ sw_chans w' = sw_chans w /\
  sw_daemon w' = sw_daemon w /\ sw_manager w' = sw_manager w /\ sw_schedule w' = sw_schedule w /\ sw_invoked w' = sw_invoked w /\
  sw_disk w' = sw_disk w.

Lemma set_server_same_rest s v w : same_rest w (set_server s v w) /\ sw_exited (set_server s v w) = sw_exited w.
Proof. by destruct s, w. Qed.

(** A change of servers and of tokens that concern servers only. *)
Lemma svc_inv_servers k w w' T T' :
  svc_inv k w T -> same_rest w w' -> those is_loop T' = those is_loop T ->
  (forall s, use_ok s (k_use k s) w' T') -> (forall s, srv_calls (server_of s w') = counted (calling s) T') ->
  (forall s, srv_stopped (server_of s w') = true -> srv_listener (server_of s w') = None) ->
  (forall g, counted (stops g) T' = counted (stops g) T) ->
  (forall s g b, StopTok s g b ∈ T' -> k_use k s = StoppedBy g /\ stage_ok b (server_of s w') /\ (exists b', StopTok s g b' ∈ T)) ->
  svc_inv k w' T'.
Proof.
  intros [] (E1 & E2 & E3 & E4 & E5 & E6 & E7 & E8 & E9) Hl Hu Hc Hs Hg Ht.
  split; unfold within_limit in *; rewrite ?E1, ?E2, ?E3, ?E4, ?E5, ?E6, ?E7, ?E8, ?E9; try done.
  - intros g n Hn. rewrite Hg. auto.
  - intros s g b Hin. destruct (Ht _ _ _ Hin) as (H1 & H2 & b' & H3). split_and!; [|done|done]. by eapply si_stops0.
  - unfold loop_ok in *. by rewrite Hl, E4.
Qed.

(** Tokens that concern the other server. *)
Definition about (s : server) (t : stoken) : bool :=
  match t with ServeTok s' | StopTok s' _ _ => bool_decide (s = s') | _ => false end.

Lemma svc_inv_server k w T T' s v :
  svc_inv k w T -> those is_loop T' = those is_loop T ->
  (forall s' t, s' <> s -> about s' t = true -> t ∈ T' <-> t ∈ T) ->
  (forall s', s' <> s -> counted (calling s') T' = counted (calling s') T) ->
  use_ok s (k_use k s) (set_server s v w) T' -> srv_calls v = counted (calling s) T' ->
  (srv_stopped v = true -> srv_listener v = None) ->
  (forall g, counted (stops g) T' = counted (stops g) T) ->
  (forall g b, StopTok s g b ∈ T' -> stage_ok b v /\ exists b', StopTok s g b' ∈ T) ->
  svc_inv k (set_server s v w) T'.
Proof.
  intros Hi Hl Ho Hcs Hu Hc Hs Hg Ht. destruct (set_server_same_rest s v w) as [Hrest _].
  eapply svc_inv_servers; [exact Hi|exact Hrest|exact Hl| | | |exact Hg|].
  - intros s'. destruct (decide (s' = s)) as [->|Hne]; [done|]. pose proof (si_uses _ _ _ Hi s') as Hu'. unfold use_ok, drained in *.
    rewrite server_set_other by done. destruct (k_use k s'); [|done| |done].
    + rewrite (Ho s') by first [done|by apply bool_decide_eq_true_2]. done.
    + destruct Hu' as [[d Hd]|]; [|by right]. left. exists d. rewrite (Ho s') by first [done|by apply bool_decide_eq_true_2]. done.
  - intros s'. destruct (decide (s' = s)) as [->|Hne]; [by rewrite server_set_same|].
    rewrite server_set_other, Hcs by done. apply Hi.
  - intros s'. destruct (decide (s' = s)) as [->|Hne]; [by rewrite server_set_same|]. rewrite server_set_other by done. apply Hi.
  - intros s' g b Hin. destruct (decide (s' = s)) as [->|Hne].
    + destruct (Ht _ _ Hin) as [Hb [b' Hin']]. destruct (si_stops _ _ _ Hi _ _ _ Hin') as (_ & H1 & _).
      split_and!; [done| |eauto]. by rewrite server_set_same.
    + rewrite (Ho s') in Hin by first [done|by apply bool_decide_eq_true_2]. destruct (si_stops _ _ _ Hi _ _ _ Hin) as (_ & H1 & H2).
      split_and!; [done| |eauto]. by rewrite server_set_other.
Qed.

Lemma elem_cons_other (t t0 : stoken) T : t0 <> t -> t ∈ t0 :: T <-> t ∈ T.
Proof. set_solver. Qed.

Lemma svc_inv_app k w t F : svc_inv k w ([t] ++ F) = svc_inv k w (t :: F).
Proof. done. Qed.

Lemma own_accept s : owning [] (accept s) (fun b x => x = if b : bool then [CallTok s] else []).
Proof.
  apply owning_side; [done|]. intros e w F k Hi. unfold update. cbv zeta. destruct (srv_listener (server_of s w)) as [l|] eqn:El.
  2:{ split_and!; [done|done|]. by exists []. }
  split_and!; [done|apply set_server_same_rest|]. exists [CallTok s]. split_and!; [done| |done]. rewrite svc_inv_app. simpl in Hi.
  assert (srv_stopped (server_of s w) = false) as Hst.
  { destruct (srv_stopped (server_of s w)) eqn:E; [|done]. apply (si_stopped _ _ _ Hi) in E. congruence. }
  eapply svc_inv_server; [exact Hi|by apply those_cons_other| | | | | | |].
  - intros s' t Hs' Ha. apply elem_cons_other. by intros <-.
  - intros s' Hs'. rewrite counted_cons. simpl. by rewrite bool_decide_eq_false_2.
  - pose proof (si_uses _ _ _ Hi s) as Hu. unfold use_ok, drained in *. rewrite server_set_same. simpl.
    destruct (k_use k s); [destruct Hu as [Hu _]; by rewrite Hu in El|done| |destruct Hu; congruence].
    destruct Hu as [Hu|[? _]]; [left; set_solver|congruence].
  - rewrite counted_cons, <- (si_calls _ _ _ Hi s). simpl. by rewrite bool_decide_eq_true_2.
  - simpl. congruence.
  - intros g. by rewrite counted_cons.
  - intros g b Hin. apply elem_of_cons in Hin as [[=]|Hin]. destruct (si_stops _ _ _ Hi _ _ _ Hin) as (_ & H1 & H2).
    split; [|eauto]. destruct b; simpl in *; [done|congruence|destruct H2; congruence].
Qed.

Lemma own_call_done s : gives (call_done s) [CallTok s] [].
Proof.
  apply owning_side; [done|]. intros e w F k Hi. cbv zeta. rewrite svc_inv_app in Hi.
  pose proof (si_calls _ _ _ Hi s) as Hc. rewrite counted_cons in Hc. simpl in Hc. rewrite bool_decide_eq_true_2 in Hc by done.
  rewrite Hc. simpl plus. cbn match. split_and!; [done|apply set_server_same_rest|]. exists []. split_and!; [done| |done]. simpl app.
  eapply svc_inv_server; [exact Hi|by symmetry; apply those_cons_other| | | | | | |].
  - intros s' t Hs' Ha. symmetry. apply elem_cons_other. by intros <-.
  - intros s' Hs'. rewrite counted_cons. simpl. by rewrite bool_decide_eq_false_2.
  - pose proof (si_uses _ _ _ Hi s) as Hu. unfold use_ok, drained in *. rewrite server_set_same. simpl. rewrite Hc in Hu.
    destruct (k_use k s); [destruct Hu as [Hu _]; rewrite Hu in Hc; simpl in Hc; lia|done| |destruct Hu; lia].
    destruct Hu as [Hu|[_ ?]]; [left; set_solver|lia].
  - done.
  - simpl. apply Hi.
  - intros g. by rewrite counted_cons.
  - intros g b Hin. assert (StopTok s g b ∈ CallTok s :: F) as Hin' by set_solver. destruct (si_stops _ _ _ Hi _ _ _ Hin') as (_ & H1 & H2).
    split; [|eauto]. destruct b; simpl in *; [done|done|destruct H2; lia].
Qed.

Lemma own_serve_request s q : client_request q = true -> gives (serve_request s q) [] [].
Proof.
  intros Hq. unfold serve_request. apply owning_bind. eapply owning_mono; [|apply own_accept].
  intros [] x ->; cbn [negb]; [|done]. eapply owning_then; [by apply own_calls|intros _]. apply own_call_done.
Qed.

(** Changes outside what the invariant speaks of. *)
Lemma svc_inv_same k w w' T :
  svc_inv k w T -> same_rest w w' -> sw_grpc w' = sw_grpc w -> sw_rest w' = sw_rest w -> svc_inv k w' T.
Proof.
  intros Hi Hrest Eg Er. assert (forall s, server_of s w' = server_of s w) as Es by (by intros []).
  eapply svc_inv_servers; [exact Hi|exact Hrest|done| | | |done|]; intros s; unfold use_ok, drained; rewrite ?Es; [apply Hi..|].
  intros g b Hin. destruct (si_stops _ _ _ Hi _ _ _ Hin) as (_ & H1 & H2). eauto.
Qed.

Lemma close_listener_same l w :
  same_rest w (close_listener l w) /\ sw_grpc (close_listener l w) = sw_grpc w /\ sw_rest (close_listener l w) = sw_rest w /\
  sw_exited (close_listener l w) = sw_exited w.
Proof. by destruct w. Qed.

Lemma svc_inv_close_listener k l w T : svc_inv k w T -> svc_inv k (close_listener l w) T.
Proof. intros Hi. destruct (close_listener_same l w) as (H1 & H2 & H3 & _). by eapply svc_inv_same. Qed.

(** A token that nobody asks for any more. *)
Lemma svc_inv_drop_serve k w s T : svc_inv k w (ServeTok s :: T) -> svc_inv k w T.
Proof.
  intros Hi. eapply svc_inv_servers; [exact Hi|done|by symmetry; apply those_cons_other| | |apply Hi| |].
  - intros s'. pose proof (si_uses _ _ _ Hi s') as Hu. unfold use_ok in *. destruct (k_use k s'); set_solver.
  - intros s'. rewrite (si_calls _ _ _ Hi s'), counted_cons. done.
  - intros g. by rewrite counted_cons.
  - intros s' g b Hin. assert (StopTok s' g b ∈ ServeTok s :: T) as Hin' by set_solver.
    destruct (si_stops _ _ _ Hi _ _ _ Hin') as (_ & H1 & H2). eauto.
Qed.

Lemma own_Serve s l : gives (Serve s l) [ServeTok s] [].
Proof.
  apply owning_side; [done|]. intros e w F k Hi. rewrite svc_inv_app in Hi. cbv zeta. destruct (srv_stopped (server_of s w)) eqn:Est.
  - split_and!; [done|apply close_listener_same|]. exists []. split_and!; [done| |done].
    by apply svc_inv_close_listener, (svc_inv_drop_serve _ _ s).
  - split_and!; [done|apply set_server_same_rest|]. exists []. split_and!; [done| |done]. simpl app.
    assert (ServeTok s ∈ ServeTok s :: F) as Hin by left. pose proof (si_uses _ _ _ Hi s) as Hu.
    apply svc_inv_drop_serve in Hi. eapply svc_inv_server; [exact Hi|done|done|done| | |done|done|].
    + unfold use_ok, drained in *. rewrite server_set_same. simpl.
      destruct (k_use k s); [by destruct Hu|done| |destruct Hu; congruence]. destruct Hu as [Hu|[? _]]; [left; set_solver|congruence].
    + apply Hi.
    + intros g b Hb. destruct (si_stops _ _ _ Hi _ _ _ Hb) as (_ & H1 & H2). split; [|eauto].
      destruct b; simpl in *; [done|congruence|destruct H2; congruence].
Qed.

Lemma close_served_same s w :
  same_rest w (close_served s w) /\ sw_grpc (close_served s w) = sw_grpc w /\ sw_rest (close_served s w) = sw_rest w /\
  sw_exited (close_served s w) = sw_exited w.
Proof. unfold close_served. destruct (srv_listener _); [apply close_listener_same|done]. Qed.

(** The goroutine that stops a server advances. *)
Lemma svc_inv_stage k w s g d d' v F :
  svc_inv k w (StopTok s g d :: F) -> srv_calls v = srv_calls (server_of s w) -> (srv_stopped v = true -> srv_listener v = None) ->
  stage_ok d' v -> (srv_stopped (server_of s w) = true -> srv_stopped v = true) -> svc_inv k (set_server s v w) (StopTok s g d' :: F).
Proof.
  intros Hi Hc Hl Hd Hst. destruct (si_stops _ _ _ Hi s g d ltac:(left)) as (_ & Hk & _).
  assert (forall s' t, about s' t = true -> s' <> s -> forall d, StopTok s g d <> t) as Hne.
  { intros s' t Ha Hs d0 <-. simpl in Ha. by apply bool_decide_eq_true in Ha. }
  eapply svc_inv_server; [exact Hi| | | | | |done| |].
  - by rewrite !those_cons_other.
  - intros s' t Hs Ha. rewrite !elem_cons_other by (by eapply Hne). done.
  - intros s' Hs'. by rewrite !counted_cons.
  - rewrite Hk. left. exists d'. left.
  - rewrite Hc, (si_calls _ _ _ Hi s). by rewrite !counted_cons.
  - intros g'. by rewrite !counted_cons.
  - intros g' b Hin. apply elem_of_cons in Hin as [[= -> ->]|Hin]; [split; [done|]; exists d; left|].
    assert (StopTok s g' b ∈ StopTok s g d :: F) as Hin' by set_solver. destruct (si_stops _ _ _ Hi _ _ _ Hin') as (_ & _ & Hb).
    split; [|eauto]. rewrite <- Hc in Hb || idtac. destruct b; simpl in *; [done|auto|]. destruct Hb. split; [auto|congruence].
Qed.

Lemma set_server_id s w : set_server s (server_of s w) w = w.
Proof. by destruct s, w. Qed.

Lemma own_graceful_stop s g : gives (graceful_stop s) [StopTok s g Asked] [StopTok s g Empty].
Proof.
  unfold graceful_stop. eapply (owning_then _ _ _ _ _ [StopTok s g Refusing]).
  - apply owning_side; [done|]. intros e w F k Hi. rewrite svc_inv_app in Hi.
    destruct (close_served_same s w) as (H1 & H2 & H3 & H4). split_and!; [done| |].
    { rewrite <- H4. apply set_server_same_rest. }
    exists [StopTok s g Refusing]. split_and!; [done| |done]. rewrite svc_inv_app.
    assert (server_of s (close_served s w) = server_of s w) as Es by (by destruct s).
    apply svc_inv_stage with Asked; [by eapply svc_inv_same|simpl; by rewrite Es|done|done|done].
  - intros _. apply owning_side; [done|]. intros e w F k Hi. rewrite svc_inv_app in Hi.
    destruct (srv_calls (server_of s w)) eqn:Ec; [|done]. split_and!; [done|done|]. exists [StopTok s g Empty]. split_and!; [done| |done].
    rewrite svc_inv_app. destruct (si_stops _ _ _ Hi s g Refusing ltac:(left)) as (_ & _ & Hst). simpl in Hst.
    rewrite <- (set_server_id s w). apply svc_inv_stage with Refusing; [done|done|apply Hi|done|done].
Qed.

Lemma own_wait_Done s g : gives (wait_Done1 g) [StopTok s g Empty] [].
Proof.
  apply owning_side; [done|]. intros e w F k Hi. rewrite svc_inv_app in Hi.
  destruct (si_stops _ _ _ Hi s g Empty ltac:(left)) as (Hg & Hk & Hd). simpl in Hd.
  destruct (sw_waits w !! g) as [n|] eqn:En; [|by apply lookup_ge_None in En; lia].
  pose proof (si_waits _ _ _ Hi g n En) as Hn. rewrite counted_cons in Hn. simpl in Hn. rewrite bool_decide_eq_true_2 in Hn by done.
  destruct n as [|n]; [lia|]. split_and!; [done|by destruct w|]. exists []. split_and!; [done| |done]. simpl app.
  assert (forall s', server_of s' (set_sw_waits (<[g := n]> (sw_waits w)) w) = server_of s' w) as Es by (by destruct w; intros []).
  destruct Hi. split; try (by destruct w).
  - intros s'. specialize (si_uses0 s'). unfold use_ok, drained in *. rewrite Es. destruct (k_use k s') eqn:Ek; [set_solver|done| |done].
    destruct si_uses0 as [[d Hd']|]; [|by right]. apply elem_of_cons in Hd' as [[= -> -> ->]|]; [by right|left; eauto].
  - intros h m. replace (sw_waits (set_sw_waits (<[g := n]> (sw_waits w)) w)) with (<[g := n]> (sw_waits w)) by (by destruct w).
    destruct (decide (g = h)) as [->|Hne].
    + rewrite list_lookup_insert_eq by done. intros [= <-]. lia.
    + rewrite list_lookup_insert_ne by done. intros Hm. specialize (si_waits0 h m Hm). rewrite counted_cons in si_waits0. simpl in si_waits0.
      by rewrite bool_decide_eq_false_2 in si_waits0.
  - intros s' h d Hin. rewrite Es. replace (sw_waits (set_sw_waits (<[g := n]> (sw_waits w)) w)) with (<[g := n]> (sw_waits w)) by (by destruct w).
    rewrite length_insert. eapply si_stops0. set_solver.
  - intros h Hh. replace (sw_waits (set_sw_waits (<[g := n]> (sw_waits w)) w)) with (<[g := n]> (sw_waits w)) by (by destruct w).
    rewrite length_insert. auto.
Qed.

(** *** The periodic reconciliation *)

Lemma own_close_done ctx done : gives (close_chan done) [LoopTok ctx done] [].
Proof.
  apply owning_side; [done|]. intros e w F k Hi. rewrite svc_inv_app in Hi. destruct (loop_token _ _ _ _ _ Hi) as (Hl & Hc & Hn). rewrite Hc.
  split_and!; [done|by destruct w|]. exists []. split_and!; [done| |done]. simpl app.
  assert (forall s', server_of s' (set_sw_chans (<[done := true]> (sw_chans w)) w) = server_of s' w) as Es by (by destruct w; intros []).
  destruct Hi. split; try (by destruct w).
  - intros s'. specialize (si_uses0 s'). unfold use_ok, drained in *. rewrite Es. destruct (k_use k s') eqn:Ek; set_solver.
  - intros s' h d Hin. rewrite Es. replace (sw_waits _) with (sw_waits w) by (by destruct w). eapply si_stops0. set_solver.
  - rewrite Hl. right. split; [done|]. destruct w. simpl in *. apply list_lookup_insert_eq. by eapply lookup_lt_Some.
  - intros c Hk. destruct (si_chan0 c Hk). congruence.
Qed.

Lemma own_round ctx done : gives (reconcile_round ctx done) [LoopTok ctx done] [].
Proof.
  unfold reconcile_round. eapply (owning_then _ _ _ _ _ [LoopTok ctx done]).
  - apply owning_side; [done|]. intros e w F k Hi. destruct (se_tick e).
    { split_and!; [done|done|]. by exists [LoopTok ctx done]. }
    destruct (sw_contexts w !! ctx) as [[]|]; [|done..]. split_and!; [done|done|]. by exists [LoopTok ctx done].
  - intros []; [|apply own_close_done]. eapply owning_then; [apply own_side_call|intros _].
    + done.
    + intros k w F. apply fresh_loop.
    + done.
    + by apply (owning_start _ _ _ _ service_inv_perm [] [LoopTok ctx done]).
Qed.

Lemma own_periodic ctx done : gives (runPeriodicReconcile ctx) [LoopTok ctx done] [].
Proof.
  unfold runPeriodicReconcile. apply owning_bind. eapply (owning_mono _ _ _ _ _ _ (fun x r => x = Some done /\ r = [LoopTok ctx done])).
  - intros x r [-> ->]. by apply (owning_start _ _ _ _ service_inv_perm [] [LoopTok ctx done]).
  - apply owning_side; [done|]. intros e w F k Hi. split_and!; [done|done|]. exists [LoopTok ctx done]. split_and!; [done|done| |done].
    rewrite svc_inv_app in Hi. destruct (loop_token _ _ _ _ _ Hi) as (Hl & _). pose proof (si_done _ _ _ Hi) as Hd. rewrite Hl in Hd.
    by rewrite (si_service _ _ _ Hi).
Qed.

Lemma own_manager_runs c : internal c = true -> gives (manager_runs c) [] [].
Proof.
  intros Hc. apply owning_side; [done|]. intros e w F k Hi.
  pose proof (manager_moves k w F c Hi (or_intror Hc) ltac:(by destruct c)) as Hm.
  destruct (manager_step c w) as [| |s]; [done..|]. split_and!; [done|by destruct w|]. by exists [].
Qed.

(** *** The main goroutine *)

Lemma own_aside {A} k (f : service_env -> service_world -> A * service_world) :
  (forall e w, same_rest w (f e w).2 /\ sw_grpc (f e w).2 = sw_grpc w /\ sw_rest (f e w).2 = sw_rest w) ->
  gives (update f) [Main k] [Main k].
Proof.
  intros Hf. apply (owning_main k []); [done|]. intros e w F Hi. destruct (Hf e w) as (H1 & H2 & H3).
  destruct (f e w) as [x w']. split; [done|]. exists k, []. split_and!; [done| |done]. by eapply svc_inv_same.
Qed.

Lemma own_observe {A} k (f : service_env -> service_world -> A) : gives (observe f) [Main k] [Main k].
Proof. apply (owning_main k []); [done|]. intros e w F Hi. split; [done|]. by exists k, []. Qed.

Lemma own_modify_aside k (f : service_world -> service_world) :
  (forall w, same_rest w (f w) /\ sw_grpc (f w) = sw_grpc w /\ sw_rest (f w) = sw_rest w) -> gives (modify f) [Main k] [Main k].
Proof. intros Hf. apply (own_aside k (fun _ w => (tt, f w))). intros _ w. apply Hf. Qed.

Lemma own_recorded_call k x : gives (recorded_call x) [Main k] [Main k].
Proof. apply own_aside. intros e w. by destruct w. Qed.

Lemma own_listen k : gives listen [Main k] [Main k].
Proof. apply own_aside. intros e w. by destruct (se_err e), w. Qed.

Lemma own_listener_Close k l : gives (listener_Close l) [Main k] [Main k].
Proof. apply own_modify_aside. intros w. by destruct w. Qed.

Lemma own_new_context k : gives new_context [Main k] [Main k].
Proof. apply own_aside. intros e w. by destruct w. Qed.

Lemma own_cancel_context k c : gives (cancel_context c) [Main k] [Main k].
Proof. apply own_modify_aside. intros w. by destruct w. Qed.

Lemma own_happens k x : gives (modify (happens x)) [Main k] [Main k].
Proof. apply own_modify_aside. intros w. by destruct w. Qed.

Lemma own_wait_signal k : gives waitForShutdown [Main k] [Main k].
Proof. apply (owning_main k []); [done|]. intros e w F Hi. destruct (se_go e); [|done]. split; [done|]. by exists k, []. Qed.

Create HintDb svc discriminated.
Hint Resolve own_observe own_recorded_call own_listen own_listener_Close own_new_context own_cancel_context own_happens own_wait_signal : svc.
Hint Extern 0 (Threads.owning _ _ _ _ _ sys_err _) => apply own_observe : svc.
Hint Extern 0 (Threads.owning _ _ _ _ _ (os_Stat _) _) => apply own_observe : svc.
Hint Extern 0 (Threads.owning _ _ _ _ _ last_error _) => apply own_observe : svc.
Hint Extern 0 (Threads.owning _ _ _ _ _ (mret _) _) => exact eq_refl : svc.

(** Runs the next step of a program that leaves the tokens alone. *)
Ltac own := first
  [ solve [auto with svc]
  | eapply owning_then; [solve [auto with svc]|]; intros ?
  | case_match ].

Lemma own_makeDir k path : gives (makeDir path) [Main k] [Main k].
Proof. unfold makeDir. repeat own. Qed.
Hint Resolve own_makeDir : svc.

Lemma own_make_socket_parent k path : gives (make_socket_parent path) [Main k] [Main k].
Proof. unfold make_socket_parent. repeat own. Qed.
Hint Resolve own_make_socket_parent : svc.

Lemma own_makeUnixSocketDir k path : gives (makeUnixSocketDir path) [Main k] [Main k].
Proof. unfold makeUnixSocketDir. repeat own. Qed.
Hint Resolve own_makeUnixSocketDir : svc.

Lemma own_MakeWorkDirs k config : gives (MakeWorkDirs config) [Main k] [Main k].
Proof. unfold MakeWorkDirs. repeat own. Qed.
Hint Resolve own_MakeWorkDirs : svc.

Lemma own_removeUnixSocket k config : gives (removeUnixSocket config) [Main k] [Main k].
Proof. unfold removeUnixSocket. repeat own. Qed.
Hint Resolve own_removeUnixSocket : svc.

Lemma own_reportReady k managed err : gives (reportReady managed err) [Main k] [Main k].
Proof. unfold reportReady. repeat own. Qed.
Hint Resolve own_reportReady : svc.

Lemma own_read {A} k (f : Service -> A) :
  owning [Main k] (read_service f) (fun x y => x = f (k_service k) /\ y = [Main k]).
Proof.
  apply (owning_main k []); [done|]. intros e w F Hi. split; [done|]. exists k, []. split_and!; [done|done| |done].
  by rewrite (si_service _ _ _ Hi).
Qed.

Lemma own_reads {A B} k (f : Service -> A) (p : A -> sprog B) Q :
  owning [Main k] (p (f (k_service k))) Q -> owning [Main k] (read_service f ≫= p) Q.
Proof. intros Hp. apply owning_bind. eapply owning_mono; [|apply own_read]. intros x y [-> ->]. exact Hp. Qed.

(** A change of the service's fields, the channel apart. *)
Lemma svc_inv_service k w T g :
  svc_inv k w T -> svc_reconcileDone (g (k_service k)) = svc_reconcileDone (k_service k) ->
  svc_inv (set_k_service (g (k_service k)) k) (set_sw_service (g (sw_service w)) w) T.
Proof.
  intros [] Hd. rewrite si_service0. assert (forall s, server_of s (set_sw_service (g (k_service k)) w) = server_of s w) as Es by (by destruct w; intros []).
  destruct k, w. simpl in *. split; simpl; try done; try (intros [|]; auto); [..|by rewrite Hd]; try (by intros s;
  specialize (si_uses0 s); destruct s).
Qed.

Lemma own_on_service k g :
  svc_reconcileDone (g (k_service k)) = svc_reconcileDone (k_service k) ->
  gives (on_service g) [Main k] [Main (set_k_service (g (k_service k)) k)].
Proof.
  intros Hg. apply (owning_main k []); [done|]. intros e w F Hi. split; [done|]. eexists _, []. split_and!; [done| |reflexivity].
  by apply svc_inv_service.
Qed.

Lemma own_mutex_Lock k :
  svc_mutex (k_service k) = false -> gives mutex_Lock [Main k] [Main (set_k_service (set_mutex true (k_service k)) k)].
Proof.
  intros Hm. apply (owning_main k []); [done|]. intros e w F Hi.
  rewrite <- (si_service _ _ _ Hi) in Hm. rewrite Hm. split; [done|]. eexists _, []. split_and!; [done| |reflexivity].
  by apply svc_inv_service; [|destruct (k_service k)].
Qed.

Lemma own_mutex_Unlock k :
  svc_mutex (k_service k) = true -> gives mutex_Unlock [Main k] [Main (set_k_service (set_mutex false (k_service k)) k)].
Proof.
  intros Hm. apply (owning_main k []); [done|]. intros e w F Hi.
  rewrite <- (si_service _ _ _ Hi) in Hm. rewrite Hm. split; [done|]. eexists _, []. split_and!; [done| |reflexivity].
  by apply svc_inv_service; [|destruct (k_service k)].
Qed.

(** Facts about each server that did not change. *)
Ltac servers := try match goal with
  |- forall _ : server, _ =>
      let s := fresh "s" in intros s;
      repeat match goal with H : forall _ : server, _ |- _ => specialize (H s) end; by destruct s
  end.

(** The database. *)
Definition unopened (k : known) : Prop :=
  k_open k = false /\ k_fresh k = true /\ k_asked k = None /\ k_idle k = true.

Lemma own_store_Open k dir key :
  unopened k -> owning [Main k] (store_Open dir key) (fun err x => x = [Main (set_k_open (succeeded err) k)]).
Proof.
  intros (Ho & Hf & Ha & Hd). assert (set_k_open false k = k) as Ek by (destruct k; simpl in *; by subst).
  unfold store_Open. destruct (String.eqb key EmptyString); [by cbn; rewrite Ek|].
  eapply owning_then; [solve [auto with svc]|]. intros [err|]; [by cbn; rewrite Ek|].
  apply (owning_main k []); [done|]. intros e w F Hi. destruct (si_idle _ _ _ Hi Hd) as (_ & Hs & Hv & Hso).
  pose proof (stores_ensureSchema (good_info attempts) (sw_disk w) (se_faults e)) as Hens.
  destruct (ensureSchema (sw_disk w) (se_faults e)) as [[[err|] db] f]; simpl in Hens.
  - split; [done|]. exists k, []. split_and!; [done| |by cbn; rewrite Ek].
    destruct Hi. destruct w. simpl in *. split; simpl; try done; servers.
    intros _. split_and!; [done..|]. intros Hres. destruct (Hso Hres) as [H1 H2]. split; [by apply Hens|done].
  - split; [done|]. exists (set_k_open true k), []. split_and!; [done| |done]. destruct Hi. destruct k, w. simpl in *. subst.
    split; simpl; try done; servers.
    + exists db. split; [done|]. intros _. split; [by vm_compute|done|done].
    + intros _. split_and!; [done..|]. intros Hres. destruct (Hso Hres) as [H1 _]. split; by apply Hens.
    + by intros i ctx Hin%not_elem_of_nil.
Qed.

Lemma own_set_daemon k config :
  k_idle k = true ->
  gives (update (fun e w => match NewMountManager (Some config) true (se_fuse e) (se_fs e) with
    | Err err => (Some err, w) | Ok c => (None, set_sw_daemon c w) end)) [Main k] [Main k].
Proof.
  intros Hf. apply (owning_main k []); [done|]. intros e w F Hi. destruct (NewMountManager _ _ _ _) as [c|err].
  2: { split; [done|]. by exists k, []. }
  split; [done|]. exists k, []. split_and!; [done| |done]. destruct (si_idle _ _ _ Hi Hf) as (_ & Hs & _). destruct Hi. destruct w. simpl in *. subst.
  split; simpl; try done; servers. destruct si_manager0 as (db & Hrun & _). exists db. split; [done|]. intros _. split; [by vm_compute|done|done].
Qed.

Lemma own_store_Close k : at_peace k -> gives store_Close [Main k] [Main (set_k_open false k)].
Proof.
  intros Hp. apply (owning_main k []); [done|]. intros e w F Hi. split; [done|]. eexists _, []. split_and!; [done| |reflexivity].
  destruct Hi. destruct k, w. simpl in *. split; simpl; try done; servers.
  intros Hd. destruct (si_idle0 Hd) as (H1 & H2 & H3 & H4). split_and!; [done..|]. intros Hres. by destruct (H4 Hres).
Qed.

(** A goroutine is started and gets a token. *)
Lemma own_spawn k k' r r' t tok :
  service_pre t [tok] -> is_main tok = false -> those is_main r' = [] ->
  (forall w F, svc_inv k w (r ++ F) -> svc_inv k' w (tok :: r' ++ F)) -> gives (start t) (Main k :: r) (Main k' :: r').
Proof.
  intros Hp Hm Hr' Hf e w F Hi. destruct (inv_main k r F w Hi) as [Hk Hback].
  exists (Main k' :: r'), [[tok]]. split_and!; [|by repeat constructor|done]. simpl.
  assert (Main k' :: r' ++ tok :: F ≡ₚ Main k' :: (tok :: r') ++ F) as HT by (simpl; f_equiv; by rewrite <- Permutation_middle).
  apply (service_inv_perm w _ _ HT). apply Hback; [by rewrite those_cons_other|by apply Hf|done].
Qed.

(** A new channel, and the loop that will close it. *)
Lemma own_make_chan k :
  k_loop k = NoLoop -> owning [Main k] make_chan (fun c x => x = [Main (set_k_chan (Some c) k)]).
Proof.
  intros Hl. apply (owning_main k []); [done|]. intros e w F Hi. split; [done|]. eexists _, []. split_and!; [done| |reflexivity].
  destruct Hi. destruct k, w. simpl in *. subst. split; simpl; try done;
    servers.
  intros c [= <-]. split; [done|]. rewrite lookup_app_r, Nat.sub_diag by lia. done.
Qed.

Lemma own_set_done k ctx c :
  k_chan k = Some c -> k_fresh k = false -> k_open k = true ->
  gives (on_service (set_reconcileDone c)) [Main k]
    [Main (set_k_chan None (set_k_loop (Loop ctx c) (set_k_service (set_reconcileDone c (k_service k)) k))); LoopTok ctx c].
Proof.
  intros Hc Hf Ho. apply (owning_main k []); [done|]. intros e w F Hi. split; [done|].
  eexists _, [LoopTok ctx c]. split_and!; [done| |reflexivity]. destruct Hi. destruct (si_chan0 c Hc) as [Hn Hopen].
  destruct k, w. simpl in *. subst. simpl in *. split; simpl; try done.
  - intros s. specialize (si_uses0 s). unfold use_ok, drained in *. destruct s; simpl in *; repeat case_match; set_solver.
  - intros s g d Hin. assert (StopTok s g d ∈ F) as Hin' by set_solver. specialize (si_stops0 s g d Hin'). by destruct s.
  - left. split; [|done]. unfold those in *. rewrite filter_cons_True by done. by rewrite si_loop0.
  - by destruct k_service0.
Qed.

Lemma own_receive k ctx done :
  k_loop k = Loop ctx done -> k_open k = true -> gives (receive_closed done) [Main k] [Main (set_k_loop (Over done) k)].
Proof.
  intros Hl Ho. apply (owning_main k []); [done|]. intros e w F Hi. destruct (sw_chans w !! done) as [[]|] eqn:Ec; [|done..]. split; [done|].
  eexists _, []. split_and!; [done| |reflexivity]. destruct Hi. destruct k, w. simpl in *. subst. split; simpl; try done;
    servers.
  - destruct si_loop0 as [[_ Hx]|]; [simpl in Hx; congruence|done].
  - intros Hf. by destruct (si_fresh0 Hf) as (_ & _ & [=]).
  - intros c Hk. by destruct (si_chan0 c Hk).
Qed.

(** The WaitGroup of Stop. *)
Lemma counted_none f T : (forall t, t ∈ T -> f t = false) -> counted f T = 0%nat.
Proof.
  intros Hf. induction T as [|t T IH]; [done|]. rewrite counted_cons, (Hf t) by left. apply IH. intros t' Ht'. apply Hf. by right.
Qed.

Lemma own_new_wait k : owning [Main k] new_wait (fun g x => x = [Main (set_k_group (Some g) k)]).
Proof.
  apply (owning_main k []); [done|]. intros e w F Hi. split; [done|]. eexists _, []. split_and!; [done| |reflexivity].
  destruct Hi. destruct k, w. simpl in *. split; simpl; try done; servers.
  - intros g n Hg. apply lookup_app_Some in Hg as [Hg|[Hlen Hg]]; [auto|]. destruct (g - length sw_waits)%nat eqn:Eg; [|done]. injection Hg as <-.
    symmetry. apply counted_none. intros [| |s h d| |] Ht; try done. destruct (si_stops0 _ _ _ Ht) as (Hlt & _). apply bool_decide_eq_false. lia.
  - intros s g d Hin. rewrite length_app. destruct (si_stops0 _ _ _ Hin) as (? & ? & ?). split_and!; [lia|by destruct s|by destruct s].
  - intros g [= <-]. rewrite length_app. simpl. lia.
Qed.

(** What the main goroutine knows after it has asked a server to stop. *)
Definition set_k_use (s : server) (u : use) (k : known) : known :=
  match s with GRPC => set_k_grpc u k | REST => set_k_rest u k end.

Lemma set_k_use_facts s u k :
  k_service (set_k_use s u k) = k_service k /\ k_open (set_k_use s u k) = k_open k /\ k_loop (set_k_use s u k) = k_loop k /\
  k_fresh (set_k_use s u k) = k_fresh k /\ k_asked (set_k_use s u k) = k_asked k /\ k_down (set_k_use s u k) = k_down k /\
  k_chan (set_k_use s u k) = k_chan k /\ k_group (set_k_use s u k) = k_group k /\ k_phase (set_k_use s u k) = k_phase k /\
  k_idle (set_k_use s u k) = k_idle k /\ forall s', k_use (set_k_use s u k) s' = if decide (s' = s) then u else k_use k s'.
Proof. destruct s, k; repeat split; by intros []. Qed.

Lemma own_wait_Add k s g :
  k_group k = Some g -> k_use k s = Live -> k_open k = true -> k_fresh k = false ->
  gives (wait_Add1 g) [Main k] [Main (set_k_use s (StoppedBy g) k); StopTok s g Asked].
Proof.
  intros Hg Hu Ho Hf. apply (owning_main k []); [done|]. intros e w F Hi. split; [done|]. eexists _, [StopTok s g Asked].
  split_and!; [done| |reflexivity]. destruct (set_k_use_facts s (StoppedBy g) k) as (E1 & E2 & E3 & E4 & E5 & E6 & E7 & E8 & Ep & Ei & E9).
  assert (forall s', server_of s' (set_sw_waits (alter S g (sw_waits w)) w) = server_of s' w) as Es by (by destruct w; intros []).
  assert (sw_waits (set_sw_waits (alter S g (sw_waits w)) w) = alter S g (sw_waits w)) as Ew by (by destruct w).
  simpl app in *. destruct Hi. split; rewrite ?E1, ?E2, ?E3, ?E4, ?E5, ?E6, ?E7, ?E8, ?Ep, ?Ei, ?Ew, ?length_alter;
  try (by destruct w); try congruence.
  - intros s'. rewrite E9. specialize (si_uses0 s'). unfold use_ok, drained in *. rewrite Es.
    destruct (decide (s' = s)) as [->|Hne]; [left; exists Asked; left|].
    destruct (k_use k s'); set_solver.
  - intros h m. destruct (decide (g = h)) as [->|Hne].
    + rewrite list_lookup_alter_eq. destruct (sw_waits w !! h) as [n|] eqn:En; [|done]. intros [= <-]. rewrite (si_waits0 h n En), counted_cons.
      simpl. by rewrite bool_decide_eq_true_2.
    + rewrite list_lookup_alter_ne by done. intros Hm. rewrite (si_waits0 h m Hm), counted_cons. simpl. by rewrite bool_decide_eq_false_2.
  - intros s' h d Hin. rewrite E9, Es. apply elem_of_cons in Hin as [[= -> -> ->]|Hin].
    + rewrite decide_True by done. split_and!; [auto|done|done].
    + destruct (si_stops0 _ _ _ Hin) as (H1 & H2 & H3). rewrite decide_False by congruence. done.
Qed.

Lemma own_wait_Wait k g :
  k_group k = Some g -> k_open k = true -> k_fresh k = false -> k_grpc k = StoppedBy g -> (k_rest k = StoppedBy g \/ k_rest k = Unused) ->
  gives (wait_Wait1 g) [Main k]
    [Main (set_k_grpc Drained (set_k_rest (match k_rest k with StoppedBy _ => Drained | u => u end) k))].
Proof.
  intros Hg Ho Hf Hu Hr. apply (owning_main k []); [done|]. intros e w F Hi. destruct (sw_waits w !! g) as [[|n]|] eqn:En; [|done..].
  split; [done|]. eexists _, []. split_and!; [done| |reflexivity].
  assert (forall s d, StopTok s g d ∉ F) as Hnone.
  { intros s d Hin. pose proof (si_waits _ _ _ Hi g 0 En) as Hc. unfold counted in Hc. symmetry in Hc. apply length_zero_iff_nil in Hc.
    assert (StopTok s g d ∈ those (stops g) F) as Hx by (apply elem_of_those; [done|by apply bool_decide_eq_true]). simpl app in Hc.
    rewrite Hc in Hx. by apply not_elem_of_nil in Hx. }
  assert (forall s, k_use k s = StoppedBy g -> drained s w) as Hd.
  { intros s Hs. pose proof (si_uses _ _ _ Hi s) as Hx. rewrite Hs in Hx. destruct Hx as [[d Hx]|]; [by destruct (Hnone s d)|done]. }
  pose proof (Hd GRPC Hu) as HdG. pose proof (Hd REST) as HdR. simpl app in *. destruct Hi. destruct k. simpl in *. subst.
  split; simpl; try done.
  - intros [|]; simpl; [done|]. destruct Hr as [-> | ->]; simpl; [auto|]. apply (si_uses0 REST).
  - intros s h d Hin. destruct (si_stops0 _ _ _ Hin) as (H1 & H2 & H3). exfalso. apply (Hnone s d).
    assert (h = g) as ->; [|done]. destruct s; simpl in H2; [congruence|]. destruct Hr; congruence.
Qed.

(** ** The daemon from start to end *)

(** The stages: a new process, a service that was built, one that runs, and
    one that was stopped. *)
Definition booting : known := mkKnown (empty_service false false) false Unused Unused NoLoop true None false None None Idle.
Definition built : known := mkKnown (empty_service true true) true Unused Unused NoLoop false None false None None Called.
Definition rest_use (rl : option nat) (u : use) : use := match rl with Some _ => u | None => Unused end.
Definition running (l : nat) (rl : option nat) (ctx done : nat) : known :=
  mkKnown (mkService false true (Some l) rl (Some ctx) (Some done) true true) true Live (rest_use rl Live) (Loop ctx done)
    false None false None None Called.
Definition ended (l : nat) (rl : option nat) (ctx done i g : nat) : known :=
  mkKnown (mkService false false (Some l) rl (Some ctx) (Some done) true true) true Drained (rest_use rl Drained) (Over done)
    false (Some i) true None (Some g) Called.

Lemma own_then_eq {A B} k k' (p : sprog A) (q : A -> sprog B) Q :
  gives p [Main k] [Main k'] -> (forall a, owning [Main k'] (q a) Q) -> owning [Main k] (p ≫= q) Q.
Proof. intros Hp Hq. by eapply owning_then. Qed.

Lemma own_startup_reconcile config :
  RestoreMountsOnRestart config = restoring ->
  gives (startup_reconcile config) [Main (set_k_open true booting)] [Main (called (set_k_open true booting))].
Proof.
  intros Hres. unfold startup_reconcile. rewrite Hres. eapply own_then_eq; [|intros _; apply own_observe].
  destruct restoring eqn:E; [by apply (own_restore _ [])|by apply (own_call _ [])].
Qed.

Lemma own_NewService config :
  RestoreMountsOnRestart config = restoring ->
  owning [Main booting] (NewService config) (fun err x =>
    match err with None => x = [Main built] | Some _ => exists k, x = [Main k] end).
Proof.
  intros Hres. unfold NewService. destruct (GetRecoveryEncryptionKey config) as [key|err]; [|by eexists].
  apply owning_bind. eapply owning_mono; [|by apply own_store_Open]. intros [err|] x ->; [by eexists|].
  eapply own_then_eq; [by apply own_set_daemon|]. intros [err|].
  { eapply own_then_eq; [apply own_store_Close; by split; [intros []; left|]|]. intros _. by eexists. }
  eapply own_then_eq; [by apply own_startup_reconcile|]. intros [err|].
  { eapply own_then_eq; [apply own_store_Close; by split; [intros []; left|]|]. intros _. by eexists. }
  cbn [newService negb]. eapply own_then_eq; [by apply own_on_service|]. intros _.
  eapply own_then_eq; [by apply (own_call _ [])|]. intros _. done.
Qed.

Lemma svc_inv_serve k w F s :
  svc_inv k w F -> k_fresh k = false -> k_open k = true -> k_use k s = Unused -> svc_inv (set_k_use s Live k) w (ServeTok s :: F).
Proof.
  intros [] Hf Ho Hu. destruct (set_k_use_facts s Live k) as (E1 & E2 & E3 & E4 & E5 & E6 & E7 & E8 & Ep & Ei & E9).
  split; rewrite ?E1, ?E2, ?E3, ?E4, ?E5, ?E6, ?E7, ?E8, ?Ep, ?Ei; try done; try congruence.
  - intros s'. rewrite E9. specialize (si_uses0 s'). unfold use_ok in *. destruct (decide (s' = s)) as [->|Hne]; [done|].
    destruct (k_use k s'); set_solver.
  - intros s' g d Hin. rewrite E9. assert (StopTok s' g d ∈ F) as Hin' by set_solver. destruct (si_stops0 _ _ _ Hin') as (H1 & H2 & H3).
    rewrite decide_False by congruence. done.
Qed.

Lemma own_start_serve k s l :
  k_fresh k = false -> k_open k = true -> k_use k s = Unused -> gives (start (TServe s l)) [Main k] [Main (set_k_use s Live k)].
Proof.
  intros Hf Ho Hu. apply (own_spawn k _ [] [] _ (ServeTok s)); [done..|]. intros w F Hi. by apply svc_inv_serve.
Qed.

Lemma own_start_token k t tok : service_pre t [tok] -> is_main tok = false -> gives (start t) [Main k; tok] [Main k].
Proof. intros Hp Hm. by apply (own_spawn k k [tok] [] _ tok). Qed.

Lemma own_start_serving l rl :
  owning [Main (set_k_service (mkService true false None rl None None true true) built)] (start_serving l rl)
    (fun err x => err = None /\ exists ctx done,
       x = [Main (set_k_service (set_mutex true (k_service (running l rl ctx done))) (running l rl ctx done))]).
Proof.
  unfold start_serving.
  eapply own_then_eq; [by apply own_on_service|]. intros _. eapply own_then_eq; [by apply own_on_service|]. intros _.
  eapply own_then_eq; [by apply own_start_serve|]. intros _.
  set (k := mkKnown (mkService true true (Some l) rl None None true true) true Live (rest_use rl Live) NoLoop false None false None None Called).
  eapply (own_then_eq _ k); [destruct rl as [r|]; [by apply own_start_serve|done]|]. intros _.
  apply own_reads. cbn [k k_service svc_manager].
  apply owning_bind. eapply own_then_eq; [apply own_new_context|]. intros ctx.
  eapply own_then_eq; [by apply own_on_service|]. intros _.
  apply owning_bind. eapply owning_mono; [|by apply own_make_chan]. intros done x ->.
  eapply owning_then; [by apply (own_set_done _ ctx)|]. intros _.
  eapply owning_mono; [|apply own_start_token; [by exists done|done]]. intros [] x ->. split; [done|]. by exists ctx, done.
Qed.

Lemma own_Start config :
  owning [Main built] (Start config) (fun err x =>
    match err with None => exists l rl ctx done, x = [Main (running l rl ctx done)] | Some _ => x = [Main built] end).
Proof.
  unfold Start. eapply own_then_eq; [by apply own_mutex_Lock|]. intros _. apply owning_bind.
  set (k := set_k_service (mkService true false None None None None true true) built).
  apply (owning_mono _ _ _ _ _ _ (fun err x => match err with
    | None => exists l rl ctx done, x = [Main (set_k_service (set_mutex true (k_service (running l rl ctx done))) (running l rl ctx done))]
    | Some _ => x = [Main k] end)).
  - intros [err|] x.
    + intros ->. eapply own_then_eq; [by apply own_mutex_Unlock|]. done.
    + intros (l & rl & ctx & done & ->). eapply own_then_eq; [by apply own_mutex_Unlock|]. intros _. by exists l, rl, ctx, done.
  - unfold start_locked. apply own_reads. cbn [k k_service svc_started].
    assert (forall l rl, owning [Main (set_k_service (mkService true false None rl None None true true) built)] (start_serving l rl) (fun err x => match err with
      | None => exists l rl ctx done, x = [Main (set_k_service (set_mutex true (k_service (running l rl ctx done))) (running l rl ctx done))]
      | Some _ => x = [Main k] end)) as Hserve.
    { intros l rl. eapply owning_mono; [|apply own_start_serving]. intros err x (-> & ctx & done & ->). by exists l, rl, ctx, done. }
    destruct (ParseServiceEndpoint _) as [[scheme endpoint]|err]; [|done].
    eapply own_then_eq; [apply own_listen|]. intros [l|err]; [|done].
    destruct (ParseManagementServiceEndpoint _) as [rest|err].
    2: { eapply own_then_eq; [apply own_listener_Close|]. done. }
    destruct (String.eqb rest EmptyString); [apply Hserve|].
    eapply own_then_eq; [apply own_listen|]. intros [r|err].
    + eapply own_then_eq; [by apply own_on_service|]. intros _. apply Hserve.
    + eapply own_then_eq; [apply own_listener_Close|]. done.
Qed.

Lemma own_Stop_idle k config :
  svc_mutex (k_service k) = false -> svc_started (k_service k) = false -> gives (Stop config) [Main k] [Main k].
Proof.
  intros Hm Hs. unfold Stop. eapply own_then_eq; [by apply own_mutex_Lock|]. intros _. apply own_reads.
  replace (svc_started _) with false by (destruct k as [[] ? ? ? ? ? ? ? ? ? ?]; by simpl in *). cbn [negb].
  eapply owning_mono; [|apply own_mutex_Unlock; by destruct k as [[] ? ? ? ? ? ? ? ? ? ?]]. intros [] x ->.
  destruct k as [[] ? ? ? ? ? ? ? ? ? ?]. simpl in *. by subst.
Qed.

Lemma own_drain l rl ctx done :
  let svc := mkService false false (Some l) rl (Some ctx) (Some done) true true in
  owning [Main (set_k_service svc (running l rl ctx done))] drain (fun _ x => exists g,
    x = [Main (mkKnown svc true Drained (rest_use rl Drained) (Loop ctx done) false None false None (Some g) Called)]).
Proof.
  intros svc. unfold drain. apply owning_bind. eapply owning_mono; [|apply own_new_wait]. intros g x ->.
  apply own_reads. cbn [set_k_group running set_k_service k_service svc_restListener svc].
  set (k u := mkKnown svc true u (rest_use rl (StoppedBy g)) (Loop ctx done) false None false None (Some g) Called).
  eapply (own_then_eq _ (k Live)).
  { destruct rl as [r|]; [|done]. eapply owning_then; [by apply (own_wait_Add _ REST)|]. intros _. by apply own_start_token. }
  intros _. eapply owning_then; [by apply (own_wait_Add _ GRPC)|]. intros _.
  eapply owning_then; [by apply own_start_token|]. intros _.
  eapply owning_mono; [|apply own_wait_Wait; [done..|by destruct rl; [left|right]]]. intros [] x ->. exists g. by destruct rl.
Qed.

Lemma own_Stop config l rl ctx done :
  owning [Main (running l rl ctx done)] (Stop config) (fun _ x => exists i g, x = [Main (ended l rl ctx done i g)]).
Proof.
  unfold Stop. eapply own_then_eq; [by apply own_mutex_Lock|]. intros _. apply own_reads.
  cbn [k_service set_k_service running set_mutex svc_started negb].
  eapply own_then_eq; [by apply own_on_service|]. intros _. do 3 apply own_reads.
  cbn [k_service set_k_service set_started svc_cancel svc_reconcileDone svc_manager].
  eapply own_then_eq; [by apply own_mutex_Unlock|]. intros _.
  apply owning_bind. eapply owning_mono; [|apply own_drain]. intros _ x (g & ->).
  eapply own_then_eq; [apply own_cancel_context|]. intros _.
  eapply own_then_eq; [by eapply own_receive|]. intros _.
  apply owning_bind. unfold call. apply owning_bind. eapply owning_mono; [|by apply (own_invoke_shutdown _ [])]. intros i x ->.
  eapply owning_mono; [|by apply (own_await_shutdown _ [])]. intros _ x ->.
  eapply owning_mono; [|apply own_removeUnixSocket]. intros _ x ->. by exists i, g.
Qed.

Lemma own_Release k config :
  svc_mutex (k_service k) = false -> svc_started (k_service k) = false -> svc_dataStore (k_service k) = true -> at_peace k ->
  gives (Release config) [Main k] [Main (set_k_open false k)].
Proof.
  intros Hm Hs Hd Hp. unfold Release. eapply own_then_eq; [by apply own_Stop_idle|]. intros _.
  eapply own_then_eq; [apply own_removeUnixSocket|]. intros _. apply own_reads. rewrite Hd. by apply own_store_Close.
Qed.

Lemma own_run_service config :
  RestoreMountsOnRestart config = restoring ->
  owning [Main booting] (run_service config) (fun err x =>
    match err with None => exists l rl ctx done, x = [Main (running l rl ctx done)] | Some _ => exists k, x = [Main k] end).
Proof.
  intros Hres. unfold run_service. eapply own_then_eq; [apply own_MakeWorkDirs|]. intros [err|]; [by eexists|].
  destruct (Validate config); [by eexists|]. apply owning_bind. eapply owning_mono; [|by apply own_NewService].
  intros [err|] x; [intros [k ->]; by eexists|intros ->]. apply owning_bind. eapply owning_mono; [|apply own_Start].
  intros [err|] x; [intros ->|intros (l & rl & ctx & done & ->); by exists l, rl, ctx, done].
  eapply own_then_eq; [apply own_Release; [done..|by split; [intros []; left|]]|]. intros _. by eexists.
Qed.

Lemma own_shutdown config l rl ctx done :
  owning [Main (running l rl ctx done)] (shutdown config) (fun _ x => exists k, x = [Main k]).
Proof.
  unfold shutdown. apply owning_bind. eapply owning_mono; [|apply own_Stop]. intros _ x (i & g & ->).
  eapply owning_mono; [|apply own_Release]; [by intros _ x ->; eexists|done..|].
  split; [intros []; simpl; [by right|destruct rl; simpl; auto]|done].
Qed.

Lemma own_exit k : gives (modify (set_sw_exited true)) [Main k] [].
Proof.
  apply owning_modify. intros w F Hi. destruct (inv_main k [] F w Hi) as [Hk Hback]. simpl in *.
  exists k, F. split_and!; [right; split; [done|by destruct w]| |].
  - destruct Hi as (k0 & rest & [HT|[HT _]] & Hm & _).
    + assert (Main k ∈ Main k0 :: rest) as Hin by (rewrite <- HT; left). apply elem_of_cons in Hin as [[= ->]|Hin]; [|by eapply those_main_in in Hin].
      apply Permutation_cons_inv in HT. by eapply those_perm_nil.
    + assert (Main k ∈ rest) as Hin by (rewrite <- HT; left). by eapply those_main_in in Hin.
  - eapply svc_inv_same; [exact Hk|by destruct w..].
Qed.

Lemma own_daemon_main config managed :
  RestoreMountsOnRestart config = restoring -> gives (daemon_main config managed) [Main booting] [].
Proof.
  intros Hres. unfold daemon_main, runUntilShutdown. apply owning_bind, owning_bind.
  eapply owning_mono; [|by apply own_run_service]. intros [err|] x.
  - intros [k ->]. eapply owning_mono; [|apply own_reportReady]. intros _ x ->. apply own_exit.
  - intros (l & rl & ctx & done & ->). eapply own_then_eq; [apply own_reportReady|]. intros _.
    eapply own_then_eq; [apply own_wait_signal|]. intros _. eapply owning_mono; [|apply own_shutdown]. intros _ x [k ->]. apply own_exit.
Qed.

Lemma service_body_owning t r : service_pre t r -> owning r (service_body t) (fun _ x => x = []).
Proof.
  destruct t; simpl service_pre; cbn [service_body]; [done|intros ->..|intros [done ->]|intros ->|intros [-> Hq]|intros [-> Hc]].
  - apply own_Serve.
  - eapply owning_then; [apply own_graceful_stop|]. intros _. apply own_wait_Done.
  - apply own_periodic.
  - apply own_round.
  - by apply own_serve_request.
  - by apply own_manager_runs.
Qed.

(** What arrives from outside: calls of clients and steps of the manager's
    own goroutines. *)
Definition outside (c : scheduled service_env service_thread) : bool :=
  match c with
  | Runs _ _ => true
  | Arrives (TRequest _ q) => client_request q
  | Arrives (TManagerStep c) => internal c
  | Arrives _ => false
  end.

Lemma outside_pre c t : outside c = true -> c = Arrives t -> service_pre t [].
Proof. intros Ho ->. by destruct t. Qed.

Lemma daemon_accounted disk config managed cs :
  RestoreMountsOnRestart config = restoring -> (restoring = true -> sound attempts disk) -> forallb outside cs = true ->
  match pool_run service_body (daemon_pool disk config managed) cs with
  | Ran s => accounted service_inv service_pre (fun _ _ => True) exhausted s
  | _ => True
  end.
Proof.
  intros Hres Hsound Hcs.
  assert (accounted service_inv service_pre (fun _ _ => True) exhausted (daemon_pool disk config managed)) as H0.
  { exists [[Main booting]]. split; [constructor; [by apply own_daemon_main|constructor]|]. exists booting, []. split_and!; [by left|done|].
    split; simpl; try done; servers; try (by intros [|]).
    - intros [|]; by split; [|apply not_elem_of_nil].
    - by intros s g d Hin%not_elem_of_nil.
    - exists ∅. split; [done|]. intros _. split; [by vm_compute|done|done].
    - intros _. split_and!; [done..|]. intros Hr. split; [auto|]. by apply blank_stores.
    - by intros i ctx Hin%not_elem_of_nil.
    - intros _. by split; [intros []; left|]. }
  pose proof (accounted_run service_inv service_pre (fun _ _ => True) exhausted service_inv_perm service_body service_body_owning _ cs H0) as Hr.
  destruct (pool_run _ _ cs) as [| |s]; [done..|]. apply Hr. intros t Ht. eapply outside_pre; [|done].
  rewrite forallb_forall in Hcs. by apply Hcs, list_elem_of_In.
Qed.

End Facts.

Section Order.
Context {url : UrlLib} {errs : ErrorLib} {codec : RecordCodec} {irods : IrodsfsLib}.

(** C12: however the main goroutine of the daemon, its servers, the calls of
    clients, the periodic reconciliation and the goroutines of the mount
    manager interleave, the service brings itself up and down in order,
    whether it restores the mounts of its database at startup (which then
    holds sound records only) or not.  No action of it panics before the
    manager has made 2^64-2 steps; the manager inside is always in a state
    that its own goroutines reach from a start on some database by a run
    that its theorems are about, so that nothing is served before the
    restoring has ended; and whenever the database is closed, no call of a
    client is in progress or can begin, and if the service had been started
    (it has the channel of the reconciliation), the reconciliation has ended
    and the manager's Shutdown has returned.  A daemon whose Start failed
    closes its database without a Shutdown ([failed_start_skips_shutdown]). *)
Theorem daemon_goes_down_in_order disk config managed cs s a :
  (RestoreMountsOnRestart config = true -> sound a disk) -> forallb outside cs = true ->
  pool_run service_body (daemon_pool disk config managed) cs = Ran s ->
  let w := pool_world s in
  (forall c, outside c = true -> pool_step service_body s c = Dead -> limit <= Z.of_nat (length (sw_schedule w))) /\
  (exists db, run (body (sw_daemon w)) (initial_system db None) (sw_schedule w) = Stepped (sw_manager w) /\
     (Z.of_nat (length (sw_schedule w)) <= limit -> admissible (sw_daemon w) db None (sw_schedule w) a)) /\
  (sw_open w = false ->
     (forall srv, srv_calls (server_of srv w) = 0%nat /\ srv_listener (server_of srv w) = None) /\
     forall c, svc_reconcileDone (sw_service w) = Some c -> sw_chans w !! c = Some true /\
       exists i, (i, TShutdown Background) ∈ sw_invoked w /\ returned (sw_manager w) i = true).
Proof.
  intros Hsound Hcs Hrun w.
  pose proof (daemon_accounted (RestoreMountsOnRestart config) a disk config managed cs eq_refl Hsound Hcs) as Ha. rewrite Hrun in Ha.
  split.
  { intros c Hc Hd. pose proof (accounted_step _ service_pre (fun _ _ => True) exhausted (service_inv_perm _ _) service_body
      (service_body_owning _ _) s c Ha (fun t => outside_pre c t Hc)) as Hs. rewrite Hd in Hs. by destruct Hs. }
  destruct Ha as (rs & _ & k & rest & _ & _ & Hi). fold w in Hi. destruct Hi. split; [done|].
  intros Ho. rewrite Ho in si_open0. destruct (si_closed0 (eq_sym si_open0)) as [Huse Hloop]. split.
  - intros srv. specialize (si_uses0 srv). destruct (Huse srv) as [E|E]; rewrite E in si_uses0; simpl in si_uses0.
    + destruct si_uses0 as [-> _]. done.
    + destruct si_uses0 as [Hst Hcalls]. split; [done|]. by apply si_stopped0.
  - intros c Hc. rewrite si_service0 in Hc. destruct (k_loop k) as [|ctx d|d]; [congruence|done|]. assert (d = c) as -> by congruence.
    split; [apply si_loop0|]. destruct Hloop as [Hasked Hdown]. destruct (k_asked k) as [i|] eqn:Ei; [|done].
    exists i. destruct (si_down0 i eq_refl). auto.
Qed.
End Order.

(** ** Concrete runs *)

Notation service_pool := (pool service_world service_env service_thread).
Notation service_choices := (list (scheduled service_env service_thread)).

Definition example_service_body : service_thread -> sprog unit :=
  @service_body plain_urls message_errors plain_codec plain_irodsfs.

(** A goroutine runs as far as it can, a thread of the manager does, every
    goroutine does, or something arrives. *)
Inductive move : Type :=
| Forward (i : nat) (e : service_env)
| Within (j : nat) (en : env)
| Everyone (e : service_env)
| Comes (t : service_thread).

Section Moves.
Variable idle : service_env.

Fixpoint forward (fuel : nat) (i : nat) (e : service_env) (s : service_pool) : service_choices * service_pool :=
  match fuel with
  | O => ([], s)
  | S fuel =>
      match pool_step example_service_body s (Runs i e) with
      | Ran s' => let '(cs, s'') := forward fuel i e s' in (Runs i e :: cs, s'')
      | _ => ([], s)
      end
  end.

Fixpoint manager_forward (fuel : nat) (j : nat) (en : env) (s : service_pool) : service_choices * service_pool :=
  match fuel with
  | O => ([], s)
  | S fuel =>
      let cs := [Arrives (TManagerStep (Run j en)); Runs (length (pool_threads s)) idle] in
      match pool_run example_service_body s cs with
      | Ran s' => let '(cs', s'') := manager_forward fuel j en s' in (cs ++ cs', s'')
      | _ => ([], s)
      end
  end.

Fixpoint everyone (n : nat) (e : service_env) (s : service_pool) : service_choices * service_pool :=
  match n with
  | O => ([], s)
  | S n =>
      let '(cs, s') := everyone n e s in
      let '(cs', s'') := forward 200 n e s' in
      (cs ++ cs', s'')
  end.

Definition moves_of (m : move) (s : service_pool) : service_choices * service_pool :=
  match m with
  | Forward i e => forward 200 i e s
  | Within j en => manager_forward 200 j en s
  | Everyone e => everyone (length (pool_threads s)) e s
  | Comes t => ([Arrives t], mkPool (pool_world s) (pool_threads s ++ [example_service_body t]))
  end.

Fixpoint moving (ms : list move) (s : service_pool) : service_choices :=
  match ms with
  | [] => []
  | m :: rest => let '(cs, s') := moves_of m s in cs ++ moving rest s'
  end.
End Moves.

(** A host with the programs of the example configuration. *)
Definition example_host : FS := {|
  EvalSymlinks := fun p => Some p;
  Stat := fun p => StatOk (negb (HasPrefix p "/usr/")) 493;
  ReadFile := ReadFile (mountinfo_fs []);
  Geteuid := 0
|}.

Definition waiting_env : service_env := mkServiceEnv None example_host [] None false false.
Definition signal_env : service_env := mkServiceEnv None example_host [] None false true.

(** The example configuration, with mounts restored at startup. *)
Definition restoring_config : Config :=
  let c := example_config in
  mkConfig (ServiceEndpoint c) (IRODSFSExecutablePath c) (MountExecutablePath c) (UnmountExecutablePath c) (DataRootPath c) (PIDFile c)
    (RecoveryEncryptionKey c) (AllowedMountRootPaths c) (AllowFuseAllowOther c) (AutoRemount c) true (Retry c) (MountTimeout c)
    (UnmountTimeout c) (DAVFSUnmountTimeout c) (ReconcileInterval c) (MaxConcurrentMounts c) (ManagementServiceEndpoint c)
    (Debug c) (LogRootPath c) (MountRootPath c).

Definition example_daemon : service_pool := @daemon_pool plain_urls message_errors plain_codec plain_irodsfs ∅ restoring_config true.

Definition coming_up : list move :=
  [Forward 0 waiting_env; Within 0 (calm 1000 []); Forward 0 waiting_env; Within 1 (calm 1000 []);
   Forward 0 waiting_env; Everyone waiting_env].

Definition whole_life : service_choices :=
  moving waiting_env (coming_up ++
    [Forward 0 signal_env; Everyone waiting_env; Forward 0 waiting_env; Everyone waiting_env; Forward 0 waiting_env;
     Within 2 (calm 2000 []); Forward 0 waiting_env]) example_daemon.

Record view : Type := mkView {
  view_open : bool;
  view_exited : bool;
  view_started : bool;
  view_listening : bool * bool;
  view_calls : nat * nat;
  view_main_done : bool
}.

Definition view_of (r : pool_result service_world service_env service_thread) : option view :=
  match r with
  | Ran s =>
      let w := pool_world s in
      Some (mkView (sw_open w) (sw_exited w) (svc_started (sw_service w))
        (bool_decide (is_Some (srv_listener (sw_grpc w))), bool_decide (is_Some (srv_listener (sw_rest w))))
        (srv_calls (sw_grpc w), srv_calls (sw_rest w))
        (match pool_threads s !! 0%nat with Some p => finished p | None => false end))
  | _ => None
  end.

Lemma daemon_goes_down_in_order_witness :
  exists s i, pool_run example_service_body example_daemon whole_life = Ran s /\ sw_exited (pool_world s) = true /\
    (i, TShutdown Background) ∈ sw_invoked (pool_world s) /\ returned (sw_manager (pool_world s)) i = true.
Proof.
  assert (RestoreMountsOnRestart restoring_config = true -> sound 0 ∅) as Hcold by (intros _; apply blank_stores; exact (fun id => lookup_empty _)).
  assert (forallb outside whole_life = true) as Hout by (vm_compute; reflexivity).
  assert (view_of (pool_run example_service_body example_daemon whole_life) = Some (mkView false true false (false, false) (0%nat, 0%nat) true)) as Hv
    by (vm_compute; reflexivity).
  assert (match pool_run example_service_body example_daemon whole_life with
          | Ran s => svc_reconcileDone (sw_service (pool_world s)) = Some 0%nat | _ => False end) as Hdone by (vm_compute; reflexivity).
  destruct (pool_run example_service_body example_daemon whole_life) as [| |s] eqn:Es; [discriminate..|].
  injection Hv as Hopen Hexit _ _ _ _ _ _.
  destruct (@daemon_goes_down_in_order plain_urls message_errors plain_codec plain_irodsfs ∅ restoring_config true whole_life s 0 Hcold Hout Es)
    as (_ & _ & Hclosed). destruct (Hclosed Hopen) as [_ Hloop]. destruct (Hloop 0%nat Hdone) as (_ & i & Hin & Hret).
  exists s, i. exact (conj eq_refl (conj Hexit (conj Hin Hret))).
Defined.

(** A daemon whose Start fails: the gRPC endpoint cannot be opened after the
    mounts of the database have been restored.  Release closes the database
    although the manager was never told to shut down. *)
Definition failing_env : service_env := mkServiceEnv (Some (ENew "address already in use")) example_host [] None false false.

Definition failed_start : service_choices :=
  moving waiting_env [Forward 0 waiting_env; Within 0 (calm 1000 []); Forward 0 waiting_env; Within 1 (calm 1000 []);
  Forward 0 failing_env] example_daemon.

Definition asks_shutdown (it : nat * thread) : bool := match it.2 with TShutdown _ => true | _ => false end.

Lemma failed_start_skips_shutdown :
  match pool_run example_service_body example_daemon failed_start with
  | Ran s => sw_open (pool_world s) = false /\ sw_exited (pool_world s) = true /\
             length (sw_invoked (pool_world s)) = 2%nat /\ existsb asks_shutdown (sw_invoked (pool_world s)) = false
  | _ => False
  end.
Proof. vm_compute. repeat split. Qed.

(** A client that watches mount events keeps the daemon from stopping: the
    gRPC server no longer listens, and the main goroutine waits for the
    stream to end, with every mount still in place. *)
Definition watching : service_choices :=
  moving waiting_env (coming_up ++
    [Comes (TRequest GRPC [TWatch 10 RequestContext None]); Everyone waiting_env;
     Within 2 (calm 1500 []); Everyone waiting_env;
     Forward 0 signal_env; Everyone waiting_env; Forward 0 waiting_env]) example_daemon.

Lemma stop_waits_for_watchers :
  view_of (pool_run example_service_body example_daemon watching) = Some (mkView true false false (false, false) (1%nat, 0%nat) false) /\
  match pool_run example_service_body example_daemon watching with
  | Ran s => forall e, pool_step example_service_body s (Runs 0 e) = Stuck
  | _ => False
  end.
Proof. split; vm_compute; reflexivity. Qed.
