(* ===== verification/Commands.v ===== *)
(** * The command line (cmd/main.go, cmd/commons/args.go, commons/config.go)

    How a command gets its configuration, where a foreground daemon puts its
    files, and the commands that ask for a running daemon and stop it.

    Parsing JSON and YAML into a configuration is an operation of the class
    [ConfigLib]; flags are a record, since Cobra parses them.  Logging is
    left out. *)

From S2P Require Import Prelude GoStrings GoPath GoErrors GoFloat Base64 Config Policy PolicyFacts GoDigits Threads PidFile PidFileFacts.

(** ** Configuration files *)

Inductive DataFormat : Type := FormatJSON | FormatYAML | FormatUnknown.

(** The root of a YAML document. *)
Inductive yaml_root : Type := MappingNode | SequenceNode | OtherNode.

Class ConfigLib : Type := mkConfigLib {
  json_Valid : string -> bool;
  yaml_document : string -> option yaml_root;                    (* [None]: an error or an empty document *)
  json_Unmarshal : Config -> string -> result goerror Config;    (* overwrites the fields given *)
  yaml_Unmarshal : Config -> string -> result goerror Config
}.

(** Config{} *)
Definition zero_config : Config := {|
  ServiceEndpoint := ""; IRODSFSExecutablePath := ""; MountExecutablePath := ""; UnmountExecutablePath := "";
  DataRootPath := ""; Config.PIDFile := ""; RecoveryEncryptionKey := ""; AllowedMountRootPaths := [];
  AllowFuseAllowOther := false; AutoRemount := false; RestoreMountsOnRestart := false;
  Retry := {| MaxAttempts := 0; InitialDelay := 0; MaxDelay := 0; Multiplier := f64_zero; Jitter := f64_zero |};
  MountTimeout := 0; UnmountTimeout := 0; DAVFSUnmountTimeout := 0; ReconcileInterval := 0; MaxConcurrentMounts := 0;
  ManagementServiceEndpoint := ""; Debug := false; LogRootPath := ""; MountRootPath := ""
|}.

Definition set_Debug (b : bool) (c : Config) : Config :=
  let '(mkConfig x1 x2 x3 x4 x5 x6 x7 x8 x9 x10 x11 x12 x13 x14 x15 x16 x17 x18 _ x20 x21) := c in
  mkConfig x1 x2 x3 x4 x5 x6 x7 x8 x9 x10 x11 x12 x13 x14 x15 x16 x17 x18 b x20 x21.
Definition set_DataRootPath (p : string) (c : Config) : Config :=
  let '(mkConfig x1 x2 x3 x4 _ x6 x7 x8 x9 x10 x11 x12 x13 x14 x15 x16 x17 x18 x19 x20 x21) := c in
  mkConfig x1 x2 x3 x4 p x6 x7 x8 x9 x10 x11 x12 x13 x14 x15 x16 x17 x18 x19 x20 x21.
Definition set_MountRootPath (p : string) (c : Config) : Config :=
  let '(mkConfig x1 x2 x3 x4 x5 x6 x7 x8 x9 x10 x11 x12 x13 x14 x15 x16 x17 x18 x19 x20 _) := c in
  mkConfig x1 x2 x3 x4 x5 x6 x7 x8 x9 x10 x11 x12 x13 x14 x15 x16 x17 x18 x19 x20 p.

Section Commands.
Context `{UrlLib} `{ConfigLib}.

Definition DetectFormat (data : string) : DataFormat :=
  let trimmed := TrimSpace data in
  if String.eqb trimmed EmptyString then FormatUnknown
  else if json_Valid trimmed then FormatJSON
  else match yaml_document trimmed with
       | Some MappingNode | Some SequenceNode => FormatYAML
       | _ => FormatUnknown
       end.

Definition WrapErr {A} (r : result goerror A) (msg : string) : result goerror A :=
  match r with Ok a => Ok a | Err err => Err (EWrap err msg) end.

Definition NewConfigFromYAML (config : option Config) (yamlBytes : string) : result goerror Config :=
  WrapErr (yaml_Unmarshal (default zero_config config) yamlBytes) "failed to unmarshal yaml into config".

Definition NewConfigFromJSON (config : option Config) (jsonBytes : string) : result goerror Config :=
  WrapErr (json_Unmarshal (default zero_config config) jsonBytes) "failed to unmarshal json into config".

Definition read_file (fs : FS) (path what : string) : result goerror string :=
  match ReadFile fs path with
  | ReadOk data => Ok data
  | ReadNotExist => Err (EWrap (ENew "no such file or directory") ("failed to read " +:+ what +:+ " " +:+ Quote path))
  | ReadFailed err => Err (EWrap err ("failed to read " +:+ what +:+ " " +:+ Quote path))
  end.

Definition NewConfigFromYAMLFile (fs : FS) (config : option Config) (yamlPath : string) : result goerror Config :=
  let? yamlBytes := read_file fs yamlPath "YAML file" in
  WrapErr (yaml_Unmarshal (default zero_config config) yamlBytes)
    ("failed to unmarshal YAML file " +:+ Quote yamlPath +:+ " to config").

Definition NewConfigFromJSONFile (fs : FS) (config : option Config) (jsonPath : string) : result goerror Config :=
  let? jsonBytes := read_file fs jsonPath "JSON file" in
  WrapErr (json_Unmarshal (default zero_config config) jsonBytes)
    ("failed to unmarshal JSON file " +:+ Quote jsonPath +:+ " to config").

(** The file is read twice; [fs] and [fs'] are the file system at these
    moments. *)
Definition NewConfigFromFile (fs fs' : FS) (config : option Config) (filePath : string) : result goerror Config :=
  match Stat fs filePath with
  | StatNotExist => Err (ENew ("stat " +:+ filePath +:+ ": no such file or directory"))
  | StatFailed err => Err (EWrap err ("failed to stat file " +:+ Quote filePath))
  | StatOk isDir _ =>
      if isDir then Err (ENew ("configuration must be a file " +:+ Quote filePath))
      else
        let? dataBytes := read_file fs filePath "file" in
        match DetectFormat dataBytes with
        | FormatJSON => NewConfigFromJSONFile fs' config filePath
        | FormatYAML => NewConfigFromYAMLFile fs' config filePath
        | FormatUnknown => Err (ENew "unknown file format")
        end
  end.

(** ** Flags *)

Record Flags : Type := mkFlags {
  flag_debug : bool;
  flag_config : string
}.

Definition ProcessCommonFlags (fs fs' : FS) (flags : Flags) : result goerror Config :=
  let? config := (if negb (String.eqb (flag_config flags) EmptyString)
                  then NewConfigFromFile fs fs' (Some NewDefaultConfig) (flag_config flags)
                  else Ok NewDefaultConfig) in
  let config := if flag_debug flags then set_Debug true config else config in
  match Validate config with
  | Some err => Err err
  | None => Ok config
  end.

(** [getwd] is what os.Getwd answers. *)
Definition configureForegroundPaths (getwd : result goerror string) (config : Config) : result goerror Config :=
  let? workingDirectory := WrapErr getwd "get current working directory" in
  let oldDefaultMountRootPath := PathJoin [DataRootPath config; MountRootPathDefault] in
  let config := set_DataRootPath workingDirectory config in
  Ok (if String.eqb (MountRootPath config) EmptyString
         || String.eqb (Clean (MountRootPath config)) (Clean oldDefaultMountRootPath)
      then set_MountRootPath (PathJoin [workingDirectory; MountRootPathDefault]) config
      else config).

(** The configuration of the run command. *)
Definition foreground_config (fs fs' : FS) (getwd : result goerror string) (flags : Flags) : result goerror Config :=
  let? config := WrapErr (ProcessCommonFlags fs fs' flags) "process command flags" in
  WrapErr (configureForegroundPaths getwd config) "configure foreground paths".

(** ** Asking for the daemon *)

Definition not_running (pid : Z) : goerror := ENew ("irodsfsd is not running (stale pid " +:+ Itoa pid +:+ ")").

Definition status_command (config : result goerror Config) : pprog (result goerror Z) :=
  match WrapErr config "process command flags" with
  | Err err => mret (Err err)
  | Ok c =>
      r ← ReadPID (Config.PIDFile c);
      match r with
      | Err err => mret (Err err)
      | Ok pid =>
          alive ← ProcessRunning pid;
          if negb alive then mret (Err (not_running pid)) else mret (Ok pid)
      end
  end.

(** The stop command up to the signal. *)
Definition signal_daemon (config : result goerror Config) : pprog (result goerror Z) :=
  r ← status_command config;
  match r with
  | Err err => mret (Err err)
  | Ok pid =>
      err ← SignalPID pid;
      match err with
      | Some err => mret (Err err)
      | None => mret (Ok pid)
      end
  end.

Definition defaultStopWait : Z := 10 * Second.
Definition stop_tick : Z := 100 * Millisecond.

(** What one round of its loop sees. *)
Record stop_round : Type := mkStopRound {
  round_running : bool;            (* ProcessRunning(pid) *)
  round_now : Z;                   (* time.Now() *)
  round_cancelled : option goerror (* command.Context() *)
}.

(** The loop, with the rounds seen so far; [None]: it is still waiting. *)
Fixpoint await_stopped (pid deadline : Z) (rounds : list stop_round) : option (option goerror) :=
  match rounds with
  | [] => None
  | r :: rest =>
      if negb (round_running r) then Some None
      else if deadline <? round_now r
      then Some (Some (ENew ("timed out waiting for irodsfsd process " +:+ Itoa pid +:+ " to stop")))
      else match round_cancelled r with
           | Some err => Some (Some err)
           | None => await_stopped pid deadline rest
           end
  end.

(** ** Facts *)

Lemma set_Debug_Validate b c : Validate (set_Debug b c) = Validate c.
Proof. by destruct c. Qed.

Lemma Debug_set c : Debug (set_Debug true c) = true.
Proof. by destruct c. Qed.

(** Paths that are absolute. *)
Lemma first_relative_absolute paths : first_relative paths = None <-> Forall (fun p => IsAbs p.2 = true) paths.
Proof.
  induction paths as [|[n p] paths IH]; simpl; [done|]. rewrite Forall_cons, <- IH. simpl. by destruct (IsAbs p); simpl; intuition.
Qed.

(** [Validate] after the data root and the mount root were replaced by
    absolute paths, with an endpoint that parses. *)
Lemma Validate_moved c p q r :
  Validate c = None -> ParseServiceEndpoint (GetServiceEndpoint (set_MountRootPath p (set_DataRootPath q c))) = Ok r ->
  IsAbs q = true -> IsAbs p = true -> Validate (set_MountRootPath p (set_DataRootPath q c)) = None.
Proof.
  intros Hv Hs Hq Hp. assert (String.eqb q EmptyString = false) as Eq by (apply String.eqb_neq; intros E; by rewrite E in Hq).
  assert (String.eqb p EmptyString = false) as Ep by (apply String.eqb_neq; intros E; by rewrite E in Hp).
  unfold Validate in *. rewrite Hs. cbn [error_of].
  destruct (error_of (ParseServiceEndpoint (GetServiceEndpoint c))); [done|].
  destruct c as [x1 x2 x3 x4 x5 x6 x7 x8 x9 x10 x11 x12 x13 x14 x15 x16 x17 x18 x19 x20 x21].
  unfold GetMountRootPath, GetRecoveryEncryptionKey in *. cbn -[first_relative ParseServiceEndpoint] in *.
  destruct (ParseManagementServiceEndpoint x18); [|done].
  destruct (first_relative _) eqn:Ef in Hv; [done|]. apply first_relative_absolute in Ef.
  repeat (apply Forall_cons in Ef as [? Ef]). cbn [snd] in *.
  rewrite (proj2 (first_relative_absolute _)); [rewrite Eq; destruct (String.eqb x5 EmptyString); [done|exact Hv]|].
  unfold GetLogRootPath in *. cbn -[IsAbs] in *. rewrite Ep. cbn [negb].
  repeat (apply Forall_cons; split; [cbn [snd]; try done|]); [|constructor]. by destruct (negb (String.eqb x20 EmptyString)).
Qed.


Lemma GetMountRootPath_absolute c : Validate c = None -> IsAbs (GetMountRootPath c) = true.
Proof.
  unfold Validate. destruct (error_of _); [done|]. destruct (ParseManagementServiceEndpoint _); [|done].
  destruct (first_relative _) eqn:Ef; [done|]. intros _. apply first_relative_absolute in Ef.
  repeat (apply Forall_cons in Ef as [? Ef]). done.
Qed.

(** Without a file there is no recovery key. *)
Lemma defaults_refused b : Validate (if b : bool then set_Debug true NewDefaultConfig else NewDefaultConfig) <> None.
Proof.
  assert (Validate NewDefaultConfig <> None) as Hd; [|by destruct b; rewrite ?set_Debug_Validate].
  unfold Validate. destruct (error_of _); [done|]. destruct (ParseManagementServiceEndpoint _); [|done]. vm_compute. done.
Qed.

(** What a command can rely on. *)
Record usable_config (c : Config) : Prop := {
  uc_valid : valid_config c;
  uc_key : exists key, GetRecoveryEncryptionKey c = Ok key /\ Z.of_nat (String.length key) = 32;
  uc_endpoint : exists scheme address, ParseServiceEndpoint (GetServiceEndpoint c) = Ok (scheme, address) /\ scheme ∈ ["tcp"; "unix"];
  uc_management : exists address, ParseManagementServiceEndpoint (ManagementServiceEndpoint c) = Ok address
}.

Lemma ParseServiceEndpoint_scheme e scheme address : ParseServiceEndpoint e = Ok (scheme, address) -> scheme ∈ ["tcp"; "unix"].
Proof.
  unfold ParseServiceEndpoint. destruct (parseRawURL e) as [[[s h] p]|]; [|done]. cbn [result_bind]. intros E.
  repeat case_go_in E; injection E as <- _; apply (bool_decide_eq_true_1 _); reflexivity.
Qed.

Lemma recovery_key_size c key : GetRecoveryEncryptionKey c = Ok key -> Z.of_nat (String.length key) = 32.
Proof.
  unfold GetRecoveryEncryptionKey. destruct (String.eqb _ _); [done|]. destruct (StdDecode _) as [k|]; [|done].
  destruct (_ =? _) eqn:E; [|done]. intros [= <-]. by bools.
Qed.

Lemma Validate_usable c : Validate c = None -> usable_config c.
Proof.
  intros Hv. pose proof (Validate_valid c Hv) as Hvalid. destruct (vc_key _ Hvalid) as [key Hkey]. split; [done|..].
  - exists key. split; [done|]. by eapply recovery_key_size.
  - unfold Validate in Hv. destruct (ParseServiceEndpoint _) as [[scheme address]|] eqn:E; [|done]. exists scheme, address. split; [done|].
    by eapply ParseServiceEndpoint_scheme.
  - unfold Validate in Hv. destruct (error_of _); [done|]. destruct (ParseManagementServiceEndpoint _); [by eexists|done].
Qed.

(** The bytes that RFC 3986 leaves as they are in a path. *)
Definition unreserved (c : ascii) : bool :=
  in_range "a" "z" c || in_range "A" "Z" c || is_digit c || existsb (Ascii.eqb c) ["-"; "."; "_"; "~"; "/"]%char.

(** url.ParseRequestURI on a URL of a plain absolute path: no host, and the
    path as it is. *)
Definition unix_url_law : Prop := forall p, IsAbs p = true -> string_forallb unreserved p = true ->
  exists u, ParseRequestURI ("unix://" +:+ p) = Ok u /\ URL_Scheme u = "unix" /\ URL_Host u = EmptyString /\ URL_Path u = p.

Lemma PathJoin_root p : IsAbs p = true -> PathJoin [sep; TrimPrefix p sep] = Clean p.
Proof.
  intros Hp. destruct (proj1 (HasPrefix_spec p sep) Hp) as [t ->]. unfold TrimPrefix. rewrite HasPrefix_app.
  change (drop_string (String.length sep) (sep +:+ t)) with t. unfold PathJoin. cbn [drop_empty].
  change (String.eqb sep EmptyString) with false. cbv iota. rewrite Join_cons by done. change (Join sep [t]) with t.
  rewrite !Clean_abs by done. reflexivity.
Qed.

Lemma default_endpoint_parses wd :
  unix_url_law -> IsAbs wd = true -> string_forallb unreserved wd = true ->
  ParseServiceEndpoint ("unix://" +:+ wd +:+ "/comm.sock") = Ok ("unix", Clean (wd +:+ "/comm.sock")).
Proof.
  intros Hlaw Hwd Hu. assert (IsAbs (wd +:+ "/comm.sock") = true) as Habs.
  { destruct (proj1 (HasPrefix_spec wd sep) Hwd) as [t ->]. rewrite <- string_app_assoc. apply HasPrefix_app. }
  destruct (Hlaw (wd +:+ "/comm.sock")) as (u & Hok & Hs & Hh & Hp); [done|by rewrite string_forallb_app, Hu|].
  unfold ParseServiceEndpoint, parseRawURL.
  assert (String.eqb (TrimSpace ("unix://" +:+ wd +:+ "/comm.sock")) EmptyString = false) as ->.
  { apply String.eqb_neq. unfold TrimSpace. intros E. simpl in E. by destruct (TrimRightFunc is_space _). }
  assert (String.eqb (wd +:+ "/comm.sock") EmptyString = false) as Hnp.
  { apply String.eqb_neq. intros [_ ?]%string_app_nil_inv. done. }
  rewrite Hok, Hs, Hh, Hp, Hnp. change (ToLower "unix") with "unix". cbn -[PathJoin TrimPrefix sep ToLower].
  change (ToLower "unix") with "unix". cbn -[PathJoin TrimPrefix sep]. do 2 f_equal. by apply PathJoin_root.
Qed.

(** The endpoint of a foreground daemon. *)
Lemma moved_endpoint wd p c :
  unix_url_law -> Validate c = None -> IsAbs wd = true -> string_forallb unreserved wd = true ->
  ParseServiceEndpoint (GetServiceEndpoint (set_MountRootPath p (set_DataRootPath wd c))) =
    if String.eqb (ServiceEndpoint c) EmptyString then Ok ("unix", Clean (wd +:+ "/comm.sock"))
    else ParseServiceEndpoint (ServiceEndpoint c).
Proof.
  intros Hlaw Hv Hwd Hu. unfold GetServiceEndpoint.
  replace (ServiceEndpoint (set_MountRootPath p (set_DataRootPath wd c))) with (ServiceEndpoint c) by (by destruct c).
  destruct (String.eqb (ServiceEndpoint c) EmptyString); cbn [negb]; [|done].
  replace (DataRootPath (set_MountRootPath p (set_DataRootPath wd c))) with wd by (by destruct c). by apply default_endpoint_parses.
Qed.

(** Moving to the working directory with the mount root at [p]. *)
Lemma moved_works c wd p :
  unix_url_law -> Validate c = None -> IsAbs wd = true -> string_forallb unreserved wd = true -> IsAbs p = true ->
  let c' := set_MountRootPath p (set_DataRootPath wd c) in
  Validate c' = None /\ usable_config c' /\ GetMountDatabasePath c' = PathJoin [wd; MountDatabasePathDefault] /\
  GetMountRootPath c' = p /\
  ParseServiceEndpoint (GetServiceEndpoint c') =
    (if String.eqb (ServiceEndpoint c) EmptyString then Ok ("unix", Clean (wd +:+ "/comm.sock"))
     else ParseServiceEndpoint (GetServiceEndpoint c)).
Proof.
  intros Hlaw Ev Hwd Hu Hp c'. pose proof (moved_endpoint wd p c Hlaw Ev Hwd Hu) as He. fold c' in He.
  assert (String.eqb (ServiceEndpoint c) EmptyString = false -> GetServiceEndpoint c = ServiceEndpoint c) as Hown
    by (unfold GetServiceEndpoint; by intros ->).
  assert (exists r, ParseServiceEndpoint (GetServiceEndpoint c') = Ok r) as [r Hr].
  { rewrite He. destruct (String.eqb (ServiceEndpoint c) EmptyString); [by eexists|]. rewrite <- Hown by done.
    destruct (uc_endpoint _ (Validate_usable c Ev)) as (scheme & address & -> & _). by eexists. }
  assert (Validate c' = None) as Hv by (by eapply Validate_moved).
  split_and!; [done|by apply Validate_usable|by destruct c| |].
  - unfold GetMountRootPath. replace (MountRootPath c') with p by (by destruct c).
    assert (String.eqb p EmptyString = false) as ->; [|done]. apply String.eqb_neq. intros E. by rewrite E in Hp.
  - rewrite He. destruct (String.eqb (ServiceEndpoint c) EmptyString); [done|]. by rewrite Hown.
Qed.

Lemma foreground_works c wd :
  unix_url_law -> Validate c = None -> IsAbs wd = true -> string_forallb unreserved wd = true ->
  exists c', configureForegroundPaths (Ok wd) c = Ok c' /\ Validate c' = None /\ usable_config c' /\
    GetMountDatabasePath c' = PathJoin [wd; MountDatabasePathDefault] /\
    GetMountRootPath c' =
      (if String.eqb (Clean (GetMountRootPath c)) (Clean (PathJoin [DataRootPath c; MountRootPathDefault]))
       then PathJoin [wd; MountRootPathDefault] else GetMountRootPath c) /\
    ParseServiceEndpoint (GetServiceEndpoint c') =
      (if String.eqb (ServiceEndpoint c) EmptyString then Ok ("unix", Clean (wd +:+ "/comm.sock"))
       else ParseServiceEndpoint (GetServiceEndpoint c)).
Proof.
  intros Hlaw Ev Hwd Hu. unfold configureForegroundPaths. cbn [WrapErr result_bind]. cbv zeta.
  replace (MountRootPath (set_DataRootPath wd c)) with (MountRootPath c) by (by destruct c).
  pose proof (GetMountRootPath_absolute c Ev) as Habs. eexists. split; [reflexivity|].
  pose proof (moved_works c wd (PathJoin [wd; MountRootPathDefault]) Hlaw Ev Hwd Hu ltac:(by apply PathJoin_IsAbs)) as Hmoved.
  destruct (String.eqb (MountRootPath c) EmptyString) eqn:Em; cbn [orb].
  { replace (GetMountRootPath c) with (PathJoin [DataRootPath c; MountRootPathDefault]) by (unfold GetMountRootPath; by rewrite Em).
    rewrite String.eqb_refl. exact Hmoved. }
  assert (GetMountRootPath c = MountRootPath c) as Eg by (unfold GetMountRootPath; by rewrite Em).
  rewrite Eg in *. destruct (String.eqb (Clean (MountRootPath c)) _); [exact Hmoved|].
  pose proof (moved_works c wd (MountRootPath c) Hlaw Ev Hwd Hu Habs) as Hstay. cbv zeta in Hstay.
  by replace (set_MountRootPath (MountRootPath c) (set_DataRootPath wd c)) with (set_DataRootPath wd c) in Hstay by (by destruct c).
Qed.

(** C20: what the commands work with.  A command that gets a configuration
    gets one with absolute paths, at least one allowed mount root and none
    of them the file system's root, a recovery key of 32 bytes, endpoints
    that parse (the service at a TCP address or a Unix socket), at least one
    attempt and one mount, and positive delays and timeouts, with debugging
    on if the flag asks for it; it has come from a file, since the defaults
    alone have no recovery key and are refused.  A foreground daemon in a
    working directory of unreserved bytes moves its database there, takes
    the mount root with it exactly when that was the default one, listens at
    the endpoint of the configuration or, by default, at the socket comm.sock
    in the working directory, and its configuration is as good as before. *)
Theorem commands_work_on_valid_configurations fs fs' flags c :
  unix_url_law -> ProcessCommonFlags fs fs' flags = Ok c ->
  usable_config c /\ flag_config flags <> EmptyString /\ (flag_debug flags = true -> Debug c = true) /\
  forall wd, IsAbs wd = true -> string_forallb unreserved wd = true ->
    exists c', configureForegroundPaths (Ok wd) c = Ok c' /\ Validate c' = None /\ usable_config c' /\
      GetMountDatabasePath c' = PathJoin [wd; MountDatabasePathDefault] /\
      GetMountRootPath c' =
        (if String.eqb (Clean (GetMountRootPath c)) (Clean (PathJoin [DataRootPath c; MountRootPathDefault]))
         then PathJoin [wd; MountRootPathDefault] else GetMountRootPath c) /\
      ParseServiceEndpoint (GetServiceEndpoint c') =
        (if String.eqb (ServiceEndpoint c) EmptyString then Ok ("unix", Clean (wd +:+ "/comm.sock"))
         else ParseServiceEndpoint (GetServiceEndpoint c)).
Proof.
  intros Hlaw Hp. unfold ProcessCommonFlags in Hp.
  destruct (if negb (String.eqb (flag_config flags) EmptyString) then _ else _) as [c0|err] eqn:Ec; [|done].
  cbv zeta in Hp. cbn [result_bind] in Hp. set (c1 := if flag_debug flags then set_Debug true c0 else c0) in *.
  destruct (Validate c1) eqn:Ev; [done|]. injection Hp as <-.
  split_and!; [by apply Validate_usable| |intros Hd; unfold c1; rewrite Hd; apply Debug_set|].
  { intros E. rewrite E in Ec. injection Ec as <-. exact (defaults_refused (flag_debug flags) Ev). }
  clear Ec. generalize dependent c1. clear c0. intros c Ev wd Hwd Hu. apply (foreground_works c wd Hlaw Ev Hwd Hu).
Qed.

(** The stop command ends.  With a round at least every tenth of a
    second, its loop is over after the waiting time and two more rounds at
    the latest.  It reports success only if the process was seen gone, and
    an error only if the process was seen running after the deadline or the
    command was cancelled. *)
Theorem stop_command_ends pid start wait rounds :
  0 <= wait -> (forall i r, rounds !! i = Some r -> start + Z.of_nat i * stop_tick <= round_now r) ->
  (wait / stop_tick + 2 <= Z.of_nat (length rounds) -> is_Some (await_stopped pid (start + wait) rounds)) /\
  (await_stopped pid (start + wait) rounds = Some None -> exists r, r ∈ rounds /\ round_running r = false) /\
  (forall err, await_stopped pid (start + wait) rounds = Some (Some err) ->
     exists r, r ∈ rounds /\ round_running r = true /\ (start + wait < round_now r \/ round_cancelled r = Some err)).
Proof.
  intros Hw Ht. split_and!.
  - intros Hlen. destruct (await_stopped pid (start + wait) rounds) eqn:Ea; [by eexists|exfalso].
    assert (forall r, r ∈ rounds -> round_now r <= start + wait) as Hall.
    { clear Ht Hlen. induction rounds as [|r rounds IH]; intros r' Hr'; [by apply not_elem_of_nil in Hr'|]. simpl in Ea.
      destruct (round_running r); [|done]. cbn [negb] in Ea. destruct (start + wait <? round_now r) eqn:El; [done|].
      destruct (round_cancelled r); [done|]. apply elem_of_cons in Hr' as [->|Hr']; [lia|by apply IH]. }
    assert (0 < stop_tick) as Htick by done. pose proof (Z.div_pos wait stop_tick Hw Htick) as Hdiv.
    destruct (lookup_lt_is_Some_2 rounds (Z.to_nat (wait / stop_tick + 1))) as [r Hr]; [lia|].
    pose proof (Ht _ _ Hr) as Hnow. pose proof (Hall r (list_elem_of_lookup_2 _ _ _ Hr)) as Hle. rewrite Z2Nat.id in Hnow by lia.
    pose proof (Z.mul_succ_div_gt wait stop_tick Htick). nia.
  - clear Ht. induction rounds as [|r rounds IH]; simpl; [done|]. destruct (round_running r) eqn:Er; cbn [negb]; [|exists r; split; [left|done]].
    destruct (_ <? _); [done|]. destruct (round_cancelled r); [done|]. intros [r' [Hr' Hx]]%IH. exists r'. split; [by right|done].
  - clear Ht. induction rounds as [|r rounds IH]; simpl; [done|]. intros err. destruct (round_running r) eqn:Er; cbn [negb]; [|done].
    destruct (start + wait <? round_now r) eqn:El; [intros _; exists r; split_and!; [left|done|left; lia]|].
    destruct (round_cancelled r) eqn:Ec; [intros [= <-]; exists r; split_and!; [left|done|by right]|].
    intros (r' & Hr' & Hx)%IH. exists r'. split; [by right|done].
Qed.
End Commands.

(** ** Concrete runs *)

(** Two keys of a configuration, in place of a full parser. *)
Definition tiny_config : ConfigLib := {|
  json_Valid := fun s => HasPrefix s "{";
  yaml_document := fun s => if Contains s ":" then Some MappingNode else None;
  json_Unmarshal := fun c _ => Ok c;
  yaml_Unmarshal := fun c s =>
    let key := TrimSpace (TrimPrefix s "recovery_encryption_key:") in
    Ok (mkConfig (ServiceEndpoint c) (IRODSFSExecutablePath c) (MountExecutablePath c) (UnmountExecutablePath c)
      (DataRootPath c) (Config.PIDFile c) key (AllowedMountRootPaths c) (AllowFuseAllowOther c) (AutoRemount c) (RestoreMountsOnRestart c)
      (Retry c) (MountTimeout c) (UnmountTimeout c) (DAVFSUnmountTimeout c) (ReconcileInterval c) (MaxConcurrentMounts c)
      (ManagementServiceEndpoint c) (Debug c) (LogRootPath c) (MountRootPath c))
|}.

Definition config_host : FS := {|
  EvalSymlinks := fun p => Some p;
  Stat := fun p => StatOk false 420;
  ReadFile := fun _ => ReadOk ("recovery_encryption_key: AAAAAAAAAAAAAAAAAAAAAAAAAAAAAAAAAAAAAAAAAAA=" +:+ str1 ch_newline);
  Geteuid := 0
|}.

Definition loaded : result goerror Config :=
  @ProcessCommonFlags plain_urls tiny_config config_host config_host (mkFlags true "/etc/irodsfsd/config.yaml").

Lemma lacks_unreserved c p : unreserved c = false -> string_forallb unreserved p = true -> lacks c p = true.
Proof.
  intros Hc Hp. unfold lacks. eapply string_forallb_impl; [|exact Hp]. simpl. intros d Hd. destruct (Ascii.eqb_spec d c) as [->|]; [congruence|done].
Qed.

Lemma plain_unix_urls : @unix_url_law plain_urls.
Proof.
  intros p Habs Hp. destruct (proj1 (HasPrefix_spec p sep) Habs) as [t ->]. unfold ParseRequestURI, plain_urls.
  change ("unix://" +:+ sep +:+ t) with ("unix" +:+ String ":" ("//" +:+ sep +:+ t)). rewrite Split_app_sep by done.
  rewrite Split_lacks_id by (unfold lacks; cbn [String.append string_forallb]; apply (lacks_unreserved ":" (sep +:+ t)); done).
  change (drop_string 2 ("//" +:+ sep +:+ t)) with (sep +:+ t). change (Split ch_slash (sep +:+ t)) with (EmptyString :: Split ch_slash t).
  pose proof (Split_nonempty ch_slash t) as Hne. pose proof (Join_Split ch_slash t) as Hj.
  destruct (Split ch_slash t) as [|x l] eqn:E; [done|]. eexists. split; [reflexivity|]. cbn [URL_Scheme URL_Host URL_Path].
  split_and!; [done..|]. change sep with (str1 ch_slash). by rewrite Hj.
Qed.

Lemma commands_work_on_valid_configurations_witness :
  exists c c', loaded = Ok c /\ Debug c = true /\ ServiceEndpoint c = EmptyString /\ configureForegroundPaths (Ok "/srv/irods") c = Ok c' /\
    GetMountRootPath c' = "/srv/irods/mounts" /\ @ParseServiceEndpoint plain_urls (GetServiceEndpoint c') = Ok ("unix", "/srv/irods/comm.sock").
Proof.
  assert (exists c, loaded = Ok c) as [c Hc] by (eexists; vm_compute; reflexivity).
  destruct (@commands_work_on_valid_configurations plain_urls tiny_config config_host config_host
    (mkFlags true "/etc/irodsfsd/config.yaml") c plain_unix_urls Hc) as (_ & _ & Hd & Hfg).
  assert (ServiceEndpoint c = EmptyString /\
    String.eqb (Clean (GetMountRootPath c)) (Clean (PathJoin [DataRootPath c; MountRootPathDefault])) = true) as [Hs Hm].
  { vm_compute in Hc. injection Hc as <-. split; [reflexivity|vm_compute; reflexivity]. }
  destruct (Hfg "/srv/irods" eq_refl eq_refl) as (c' & Hc' & _ & _ & _ & Hroot & Hend). exists c, c'. rewrite Hm in Hroot. rewrite Hs in Hend.
  split_and!; [exact Hc|by apply Hd|exact Hs|exact Hc'|rewrite Hroot; vm_compute; reflexivity|rewrite Hend; vm_compute; reflexivity].
Defined.

Definition stop_rounds : list stop_round :=
  [mkStopRound true 1000 None; mkStopRound true 100001000 None; mkStopRound true 200001000 None; mkStopRound true 300001000 None].

Lemma stop_command_ends_witness : exists x, await_stopped 4242 (0 + 2 * stop_tick) stop_rounds = Some x.
Proof.
  destruct (stop_command_ends 4242 0 (2 * stop_tick) stop_rounds ltac:(vm_compute; discriminate)) as [Hend _].
  - intros i r Hr. destruct i as [|[|[|[|i]]]]; simpl in Hr; [injection Hr as <-; vm_compute; discriminate..|done].
  - destruct Hend as [x Hx]; [vm_compute; discriminate|]. exists x. exact Hx.
Defined.
