(* ===== verification/Startup.v ===== *)
(** * Starting the daemon (cmd/main.go) and its log (commons/config.go)

    The commands start and run, the daemon process that start launches, and
    the writers that the daemon logs to.

    github.com/cyverse/go-daemonizer starts the background process and
    carries the configuration to it and the outcome back; what its calls
    answer is part of [startup], like the answers of the parts that other
    files model (the flags, the working directory, the PID file, the
    service).  A command is the list of what it does and its error.
    lumberjack.Logger is a file with a rotation policy; whether a write or a
    close succeeds is up to the environment. *)

From S2P Require Import Prelude GoStrings GoPath GoErrors GoFloat Config Duration Policy PolicyFacts Threads PidFile Commands.

(** ** Log writers *)

Record lumberjack_Logger : Type := mkLogger {
  Filename : string;
  MaxSize : Z;      (* megabytes *)
  MaxBackups : Z;
  MaxAge : Z;       (* days *)
  Compress : bool
}.

(** Where bytes end up. *)
Inductive sink : Type :=
| Stderr
| LogFile (l : lumberjack_Logger).

#[export] Instance lumberjack_eq_dec : EqDecision lumberjack_Logger.
Proof. solve_decision. Defined.
#[export] Instance sink_eq_dec : EqDecision sink.
Proof. solve_decision. Defined.

(** An io.Writer: a sink, or one whose Close is hidden. *)
Inductive io_Writer : Type :=
| Closer (s : sink)
| nonClosingWriter (s : sink).

Definition sink_of (w : io_Writer) : sink := match w with Closer s | nonClosingWriter s => s end.

Inductive WriteCloser : Type :=
| Single (s : sink)
| MultiWriteCloser (writers : list io_Writer).

(** What was written and what was closed, in order. *)
Record log_state : Type := mkLogState {
  log_written : list (sink * string);
  log_closed : list sink
}.

Section Writers.
Variable write_answer : sink -> Z * option goerror.   (* bytes taken and the error *)
Variable close_answer : sink -> option goerror.

Definition sink_Write (s : sink) (p : string) (st : log_state) : Z * option goerror * log_state :=
  let '(n, err) := write_answer s in
  (n, err, mkLogState (log_written st ++ [(s, String.substring 0 (Z.to_nat n) p)]) (log_closed st)).

Fixpoint multi_Write (writers : list io_Writer) (p : string) (st : log_state) : Z * option goerror * log_state :=
  match writers with
  | [] => (Z.of_nat (String.length p), None, st)
  | w :: rest =>
      let '(n, err, st) := sink_Write (sink_of w) p st in
      match err with
      | Some e => (n, Some e, st)
      | None => multi_Write rest p st
      end
  end.

Definition writer_Write (w : WriteCloser) (p : string) (st : log_state) : Z * option goerror * log_state :=
  match w with
  | Single s => sink_Write s p st
  | MultiWriteCloser writers => multi_Write writers p st
  end.

Definition sink_Close (s : sink) (st : log_state) : option goerror * log_state :=
  (close_answer s, mkLogState (log_written st) (log_closed st ++ [s])).

Fixpoint multi_Close (writers : list io_Writer) (firstErr : option goerror) (st : log_state) : option goerror * log_state :=
  match writers with
  | [] => (firstErr, st)
  | Closer s :: rest =>
      let '(err, st) := sink_Close s st in
      multi_Close rest (match err, firstErr with Some _, None => err | _, _ => firstErr end) st
  | nonClosingWriter _ :: rest => multi_Close rest firstErr st
  end.

Definition writer_Close (w : WriteCloser) (st : log_state) : option goerror * log_state :=
  match w with
  | Single s => sink_Close s st
  | MultiWriteCloser writers => multi_Close writers None st
  end.

End Writers.

Definition getLogWriterForForegroundProcess (logPath : string) : sink := LogFile {|
  Filename := logPath +:+ ".fg";
  MaxSize := 50;
  MaxBackups := 5;
  MaxAge := 30;
  Compress := false
|}.

Definition getLogWriterForDaemonProcess (logPath : string) : sink := LogFile {|
  Filename := logPath;
  MaxSize := 50;
  MaxBackups := 10;
  MaxAge := 365;
  Compress := false
|}.

(** [logDirErr] is what MakeLogDir answers. *)
Definition GetLogWriter (config : Config) (foregroundProcess : bool) (logDirErr : option goerror) : result goerror WriteCloser :=
  let logFilePath := GetLogFilePath config in
  if String.eqb logFilePath "-" || String.eqb logFilePath EmptyString then Ok (Single Stderr)
  else match logDirErr with
       | Some err => Err err
       | None =>
           Ok (if foregroundProcess
               then MultiWriteCloser [nonClosingWriter Stderr; Closer (getLogWriterForForegroundProcess logFilePath)]
               else Single (getLogWriterForDaemonProcess logFilePath))
       end.

(** ** The commands start and run *)

Record startup : Type := mkStartup {
  su_isDaemon : bool;                       (* d.IsDaemon() *)
  su_flags : result goerror Config;         (* loadConfig *)
  su_getwd : result goerror string;         (* os.Getwd *)
  su_parent : result goerror Config;        (* d.WaitForParent *)
  su_logDir : option goerror;               (* MakeLogDir *)
  su_daemonize : option goerror;            (* d.Daemonize *)
  su_pidFile : option goerror;              (* AcquirePIDFile *)
  su_run : option goerror                   (* run *)
}.

Inductive startup_effect : Type :=
| SuLogTo (w : WriteCloser)                 (* log.SetOutput *)
| SuLogClose (w : WriteCloser)
| SuDaemonize (config : Config)
| SuPrint (line : string)
| SuReady (err : option goerror)            (* the answer to the parent *)
| SuAcquire (path : string)
| SuRelease (path : string)                 (* pidFile.Close *)
| SuServe (config : Config)                 (* run has succeeded *)
| SuShutdown.

Definition command_run : Type := list startup_effect * option goerror.

Definition doing (xs : list startup_effect) (r : command_run) : command_run := (xs ++ fst r, snd r).

(** [defer x] around the rest of a function. *)
Definition deferring (x : startup_effect) (r : command_run) : command_run := (fst r ++ [x], snd r).

Definition failing_with (err : goerror) : command_run := ([], Some err).

Definition runUntilShutdown_command (su : startup) (config : Config) (managed : bool) : command_run :=
  let report err := if managed then [SuReady err] else [] in
  match su_run su with
  | Some err => doing (report (Some err)) (failing_with err)
  | None => doing (SuServe config :: report None) ([SuShutdown], None)
  end.

Definition runForeground (su : startup) (config : Config) : command_run := runUntilShutdown_command su config false.

Definition runDaemonManaged (su : startup) (config : Config) : command_run :=
  let path := Config.PIDFile config in
  match su_pidFile su with
  | Some err => doing [SuReady (Some err)] (failing_with err)
  | None => doing [SuAcquire path] (deferring (SuRelease path) (runUntilShutdown_command su config true))
  end.

Definition logging_to (w : WriteCloser) (rest : command_run) : command_run :=
  doing [SuLogTo w] (deferring (SuLogClose w) rest).

Definition runDaemonChild (su : startup) : command_run :=
  match su_parent su with
  | Err err => failing_with (EWrap err "receive daemon startup parameters")
  | Ok config =>
      match GetLogWriter config false (su_logDir su) with
      | Err err => doing [SuReady (Some err)] (failing_with (EWrap err "get daemon log writer"))
      | Ok logWriter => logging_to logWriter (runDaemonManaged su config)
      end
  end.

Definition start_command (su : startup) : command_run :=
  if su_isDaemon su then runDaemonChild su
  else match su_flags su with
       | Err err => failing_with (EWrap err "process command flags")
       | Ok config =>
           match GetLogWriter config true (su_logDir su) with
           | Err err => failing_with (EWrap err "get parent log writer")
           | Ok logWriter =>
               logging_to logWriter (doing [SuDaemonize config]
                 (match su_daemonize su with
                  | Some err => failing_with (EWrap err "daemonize irodsfsd")
                  | None => ([SuPrint ("irodsfsd started (pid file: " +:+ Config.PIDFile config +:+ ")" +:+ str1 ch_newline)], None)
                  end))
           end
       end.

Definition run_command (su : startup) : command_run :=
  match su_flags su with
  | Err err => failing_with (EWrap err "process command flags")
  | Ok config =>
      match configureForegroundPaths (su_getwd su) config with
      | Err err => failing_with (EWrap err "configure foreground paths")
      | Ok config =>
          match GetLogWriter config true (su_logDir su) with
          | Err err => failing_with (EWrap err "get foreground log writer")
          | Ok logWriter => logging_to logWriter (runForeground su config)
          end
      end
  end.

(** main: the exit status and what is printed on standard error *)
Definition main_exit (r : command_run) : Z * string :=
  match snd r with
  | None => (0, EmptyString)
  | Some err => (1, "irodsfsd: " +:+ Error err +:+ str1 ch_newline)
  end.

(** ** Log entries with stack traces (commons/stacktrace.go) *)

Definition log_ErrorLevel : Z := 2.

(** [base] is what logrus's TextFormatter answers, [stack] the verb %+v of
    the error in the entry, if there is one. *)
Definition StacktraceTextFormatter_Format (base : result goerror string) (level : Z) (stack : option string) : result goerror string :=
  match base with
  | Err err => Err err
  | Ok baseBytes =>
      match stack with
      | Some stackTrace =>
          if level <=? log_ErrorLevel
          then Ok (baseBytes +:+ "--- Stack Trace ---" +:+ str1 ch_newline +:+ stackTrace
                   +:+ str1 ch_newline +:+ "-------------------" +:+ str1 ch_newline)
          else Ok baseBytes
      | None => Ok baseBytes
      end
  end.

(** ** Version (commons/version.go, cmd/commons/args.go) *)

Record VersionInfo : Type := mkVersionInfo {
  ServiceVersion : string;
  GitCommit : string;
  BuildDate : string;
  GoVersion : string;
  Compiler : string;
  Platform : string
}.

(** The linker sets the first three, Go's runtime answers the others. *)
Definition GetVersion (serviceVersion gitCommit buildDate version compiler goos goarch : string) : VersionInfo := {|
  ServiceVersion := serviceVersion;
  GitCommit := gitCommit;
  BuildDate := buildDate;
  GoVersion := version;
  Compiler := compiler;
  Platform := goos +:+ "/" +:+ goarch
|}.

(** json.MarshalIndent of the record, with two blanks of indentation. *)
Definition json_field `{JsonLib} (name value : string) : result goerror string :=
  let? v := json_Marshal_string value in
  Ok ("  " +:+ String ch_quote (name +:+ String ch_quote (": " +:+ v))).

Fixpoint json_fields `{JsonLib} (fields : list (string * string)) : result goerror (list string) :=
  match fields with
  | [] => Ok []
  | (name, value) :: rest =>
      let? field := json_field name value in
      let? fields := json_fields rest in
      Ok (field :: fields)
  end.

Definition GetVersionJSON `{JsonLib} (info : VersionInfo) : result goerror string :=
  let? fields := json_fields
    [("serviceVersion", ServiceVersion info); ("gitCommit", GitCommit info); ("buildDate", BuildDate info);
     ("goVersion", GoVersion info); ("compiler", Compiler info); ("platform", Platform info)] in
  Ok ("{" +:+ str1 ch_newline +:+ Join ("," +:+ str1 ch_newline) fields +:+ str1 ch_newline +:+ "}").

(** The line that the version command prints, or its error. *)
Definition PrintVersion `{JsonLib} (info : VersionInfo) : result goerror string :=
  let? text := GetVersionJSON info in Ok (text +:+ str1 ch_newline).

(** ** Facts *)

(** The io.Writer contract: no error means that everything was taken. *)
Definition takes_all (write_answer : sink -> Z * option goerror) (p : string) : Prop :=
  forall s n, write_answer s = (n, None) -> n = Z.of_nat (String.length p).

Lemma substring_all p : String.substring 0 (String.length p) p = p.
Proof. induction p as [|c p IH]; [done|]. simpl. by rewrite IH. Qed.

(** A write that succeeds has reached every sink, in order; one that fails
    has reached the sinks before the one that refused it. *)
Lemma multi_Write_reaches wa writers p st :
  takes_all wa p ->
  let '(n, err, st') := multi_Write wa writers p st in
  match err with
  | None => n = Z.of_nat (String.length p) /\ log_written st' = log_written st ++ map (fun w => (sink_of w, p)) writers
  | Some e => exists before w after part, writers = before ++ w :: after /\ wa (sink_of w) = (n, Some e) /\
      log_written st' = log_written st ++ map (fun w => (sink_of w, p)) before ++ [(sink_of w, part)]
  end /\ log_closed st' = log_closed st.
Proof.
  intros Hc. revert st. induction writers as [|w ws IH]; intros st; simpl; [by rewrite app_nil_r|].
  unfold sink_Write. destruct (wa (sink_of w)) as [n [e|]] eqn:Ew; simpl.
  - split; [|done]. exists [], w, ws. eexists. split_and!; [done|done|]. done.
  - rewrite (Hc _ _ Ew), Nat2Z.id, substring_all. specialize (IH (mkLogState (log_written st ++ [(sink_of w, p)]) (log_closed st))).
    destruct (multi_Write wa ws p _) as [[n' [e|]] st']; simpl in *; destruct IH as [IH Hcl]; (split; [|done]).
    + destruct IH as (before & w' & after & part & -> & Hw & Hst). exists (w :: before), w', after, part. split_and!; [done|done|].
      by rewrite Hst, <- app_assoc.
    + destruct IH as [-> Hst]. split; [done|]. by rewrite Hst, <- app_assoc.
Qed.

(** Close closes every sink it owns once and no other. *)
Definition owned_sinks (writers : list io_Writer) : list sink := omap (fun w => match w with Closer s => Some s | _ => None end) writers.

Lemma multi_Close_owned ca writers first st :
  let '(err, st') := multi_Close ca writers first st in
  log_closed st' = log_closed st ++ owned_sinks writers /\ log_written st' = log_written st /\
  err = match first with Some e => Some e | None => head (omap ca (owned_sinks writers)) end.
Proof.
  revert first st. induction writers as [|[s|s] ws IH]; intros first st; simpl.
  - rewrite app_nil_r. by destruct first.
  - specialize (IH (match ca s, first with Some _, None => ca s | _, _ => first end) (mkLogState (log_written st) (log_closed st ++ [s]))).
    destruct (multi_Close ca ws _ _) as [err st']. destruct IH as (Hc & Hw & He). simpl in *. split_and!; [by rewrite Hc, <- app_assoc|done|].
    rewrite He. by destruct (ca s), first.
  - apply IH.
Qed.

Lemma GetLogFilePath_named config : IsAbs (GetLogRootPath config) = true ->
  String.eqb (GetLogFilePath config) "-" || String.eqb (GetLogFilePath config) EmptyString = false.
Proof.
  intros Ha. pose proof (PathJoin_IsAbs _ ["irodsfsd.log"] Ha) as Hp. fold (GetLogFilePath config) in Hp.
  apply orb_false_iff. split; apply String.eqb_neq; intros E; by rewrite E in Hp.
Qed.

Definition is_ready (x : startup_effect) : bool := match x with SuReady _ => true | _ => false end.

(** The writers that are still set and open after [xs]. *)
Fixpoint open_logs (xs : list startup_effect) (opened : list WriteCloser) : list WriteCloser :=
  match xs with
  | [] => opened
  | SuLogTo w :: rest => open_logs rest (w :: opened)
  | SuLogClose w :: rest => open_logs rest (tail opened)
  | _ :: rest => open_logs rest opened
  end.

(** Closing [w] leaves standard error alone. *)
Definition spares_stderr (w : WriteCloser) : Prop :=
  forall ca st, Stderr ∈ log_closed (writer_Close ca w st).2 -> Stderr ∈ log_closed st.

Lemma GetLogWriter_spares config foreground dirErr w :
  IsAbs (GetLogRootPath config) = true -> GetLogWriter config foreground dirErr = Ok w -> spares_stderr w.
Proof.
  intros Ha. unfold GetLogWriter. rewrite GetLogFilePath_named by done. destruct dirErr; [done|]. intros [= <-] ca st.
  destruct foreground; simpl; rewrite elem_of_app, list_elem_of_singleton; by intros [?|?].
Qed.

(** C22: the process that start launches answers its parent exactly once,
    as soon as it has received its configuration, and says that all is well
    exactly if the service runs; a failure is reported as it is returned.
    While it runs it holds the PID file, from before it serves until after
    it was shut down.  Its log is open while it works and closed at the end,
    and standard error is never closed. *)
Theorem daemon_start_is_reported su config :
  su_isDaemon su = true -> su_parent su = Ok config -> IsAbs (GetLogRootPath config) = true ->
  let tr := fst (start_command su) in
  let err := snd (start_command su) in
  (exists answer before after, tr = before ++ SuReady answer :: after /\ forallb (negb ∘ is_ready) (before ++ after) = true /\
     (answer = None <-> err = None) /\
     (answer = None <-> SuServe config ∈ before) /\
     forall e, answer = Some e -> err = Some e \/ err = Some (EWrap e "get daemon log writer")) /\
  (SuServe config ∈ tr -> exists start stop, tr = start ++ SuServe config :: stop /\
     SuAcquire (Config.PIDFile config) ∈ start /\
     exists last, stop = SuReady None :: SuShutdown :: SuRelease (Config.PIDFile config) :: last) /\
  open_logs tr [] = [] /\
  (forall w, SuLogTo w ∈ tr \/ SuLogClose w ∈ tr -> spares_stderr w).
Proof.
  intros Hd Hp Ha. unfold start_command, runDaemonChild. rewrite Hd, Hp.
  destruct (GetLogWriter config false (su_logDir su)) as [w|e] eqn:Ew; cbn zeta.
  - pose proof (GetLogWriter_spares _ _ _ _ Ha Ew) as Hw. unfold logging_to, runDaemonManaged, runUntilShutdown_command.
    destruct (su_pidFile su) as [e|]; [|destruct (su_run su) as [e|]]; cbn [doing deferring failing_with fst snd app].
    + split_and!; [exists (Some e), [SuLogTo w], [SuLogClose w]; split_and!; [done|done|done|set_solver|naive_solver]|set_solver|done|set_solver].
    + split_and!; [|set_solver|done|set_solver].
      exists (Some e), [SuLogTo w; SuAcquire (Config.PIDFile config)], [SuRelease (Config.PIDFile config); SuLogClose w].
      split_and!; [done|done|done|set_solver|naive_solver].
    + split_and!; [| |done|set_solver].
      * exists None, [SuLogTo w; SuAcquire (Config.PIDFile config); SuServe config], [SuShutdown; SuRelease (Config.PIDFile config); SuLogClose w].
        split_and!; [done|done|done|set_solver|done].
      * intros _. exists [SuLogTo w; SuAcquire (Config.PIDFile config)],
          [SuReady None; SuShutdown; SuRelease (Config.PIDFile config); SuLogClose w]. split_and!; [done|set_solver|by eexists].
  - cbn [doing failing_with fst snd app]. split_and!; [|set_solver|done|set_solver].
    exists (Some e), [], []. split_and!; [done|done|done|set_solver|naive_solver].
Qed.

(** A start that goes well. *)
Definition good_start (config : Config) : startup := {|
  su_isDaemon := true;
  su_flags := Ok config;
  su_getwd := Ok "/";
  su_parent := Ok config;
  su_logDir := None;
  su_daemonize := None;
  su_pidFile := None;
  su_run := None
|}.

Lemma daemon_start_is_reported_witness :
  exists start stop, fst (start_command (good_start NewDefaultConfig)) = start ++ SuServe NewDefaultConfig :: stop /\
    SuAcquire PIDFilePathDefault ∈ start.
Proof.
  destruct (daemon_start_is_reported (good_start NewDefaultConfig) NewDefaultConfig eq_refl eq_refl eq_refl) as (_ & Hs & _).
  destruct Hs as (start & stop & Htr & Hacq & _); [|exists start, stop; exact (conj Htr Hacq)].
  apply elem_of_cons. right. apply elem_of_cons. right. left.
Defined.
