(* ===== verification/Examples.v ===== *)
(** * The example programs (client_examples/mount, mount_list, unmount)

    Three commands over the client library.  Each one reads its flags,
    connects, makes one call, disconnects by a deferred call and prints.  A
    program works on the world of [Client]; what it prints is part of its
    result, and writing to standard output is taken to succeed.  The file
    system and protojson are parameters.  The messages of the flag package
    itself are not part of the result. *)

From S2P Require Import Prelude GoStrings GoErrors GoPath Duration GoFlag Tabwriter Threads Grpc Api Config Policy Commands Client.

(** How run ends: it returns to main, or the flag package leaves the process. *)
Inductive run_end : Type :=
| Returned (stdout : string) (err : option client_error)
| Exits (code : Z).

Record process_end : Type := mkProcessEnd {
  exit_code : Z;
  end_stdout : string;
  end_stderr : string
}.

(** ** Output *)

(** mount.GetMountId() and mount.GetState() of a possibly nil mount. *)
Definition print_mount (mount : option MountInfo) : string :=
  "mount_id: " +:+ from_option MountInfo_MountId EmptyString mount +:+ str1 ch_newline +:+
  "state: " +:+ MountState_name (from_option MountInfo_State MOUNT_STATE_UNSPECIFIED mount) +:+ str1 ch_newline.

Definition list_header : string * string * string := ("MOUNT_ID", "STATE", "MOUNT_PATH").
Definition list_row (mount : MountInfo) : string * string * string :=
  (MountInfo_MountId mount, MountState_name (MountInfo_State mount), GetMountPath mount).

Definition print_mounts (mounts : list MountInfo) : string :=
  tabwriter (table_text (list_header :: (list_row <$> mounts))).

(** err.Error() *)
Definition client_Error `{GrpcLib} (err : client_error) : string :=
  match err with
  | CError err => rpc_Error err
  | CWrap err msg => msg +:+ ": " +:+ rpc_Error err
  end.

(** main of each program *)
Definition example_main `{GrpcLib} (name : string) (run : cprog run_end) : cprog process_end :=
  r ← run;
  mret (match r with
        | Returned out None => mkProcessEnd 0 out EmptyString
        | Returned out (Some err) => mkProcessEnd 1 out (name +:+ ": " +:+ client_Error err +:+ str1 ch_newline)
        | Exits code => mkProcessEnd code EmptyString EmptyString
        end).

(** ** Flags *)

Definition default_endpoint : string := "unix:///var/lib/irodsfsd/comm.sock".

Definition mount_flags : gmap string flag_value :=
  <["endpoint" := FlagString default_endpoint]> (<["timeout" := FlagDuration (5 * Minute)]>
  (<["mount-id" := FlagString EmptyString]> {["wait" := FlagBool false]})).
Definition unmount_flags : gmap string flag_value :=
  <["endpoint" := FlagString default_endpoint]> {["timeout" := FlagDuration (5 * Minute)]}.
Definition mount_list_flags : gmap string flag_value :=
  <["endpoint" := FlagString default_endpoint]> {["timeout" := FlagDuration (30 * Second)]}.

Section Examples.
Context `{UrlLib} `{GrpcLib}.
(** xid.New().String(), the file system and protojson *)
Variable clientID : string.
Variable fs : FS.
Variable Unmarshal_MountConfig : string -> result goerror MountConfig.

Definition LoadMountConfigJSONFile (path : string) : result goerror MountConfig :=
  if String.eqb (TrimSpace path) EmptyString then Err (ENew "mount config path is required")
  else
    let? data := read_file fs path "mount config file" in
    WrapErr (Unmarshal_MountConfig data) ("failed to parse mount config file " +:+ Quote path).

(** client.NewMountServiceClient(endpoint, timeout, true, logger) *)
Definition new_client (endpoint : string) (timeout : Z) : cprog unit :=
  modify (on_client (fun _ => NewMountServiceClient clientID endpoint timeout true)).

(** From the construction of the client to the end of run: the client is
    disconnected after the call, whether it failed or not. *)
Definition session {A} (flags : gmap string flag_value) (call : cprog (result client_error A)) (print : A -> string)
  : cprog run_end :=
  new_client (get_string flags "endpoint") (get_duration flags "timeout");;
  refused ← Connect;
  match refused with
  | Some err => mret (Returned EmptyString (Some (CError (RPlain err))))
  | None =>
      r ← call;
      Disconnect;;
      mret (match r with
            | Err err => Returned EmptyString (Some err)
            | Ok a => Returned (print a) None
            end)
  end.

Definition mount_run (args : list string) : cprog run_end :=
  match Parse mount_flags args with
  | FlagHelp => mret (Exits 0)
  | FlagError _ => mret (Exits 2)
  | Parsed flags [path] =>
      match LoadMountConfigJSONFile path with
      | Err err => mret (Returned EmptyString (Some (CError (RPlain err))))
      | Ok config =>
          let mountID := get_string flags "mount-id" in
          let wait := get_bool flags "wait" in
          session flags
            (if String.eqb mountID EmptyString then client_Mount (Some config) wait else MountWithID mountID (Some config) wait)
            print_mount
      end
  | Parsed _ _ => mret (Returned EmptyString (Some (plain "usage: mount [options] <mount-config.json>")))
  end.

Definition unmount_run (args : list string) : cprog run_end :=
  match Parse unmount_flags args with
  | FlagHelp => mret (Exits 0)
  | FlagError _ => mret (Exits 2)
  | Parsed flags [mountID] => session flags (client_Unmount mountID) print_mount
  | Parsed _ _ => mret (Returned EmptyString (Some (plain "usage: unmount [options] <mount-id>")))
  end.

Definition mount_list_run (args : list string) : cprog run_end :=
  match Parse mount_list_flags args with
  | FlagHelp => mret (Exits 0)
  | FlagError _ => mret (Exits 2)
  | Parsed flags [] => session flags (client_ListMounts None) print_mounts
  | Parsed _ _ => mret (Returned EmptyString (Some (plain "usage: mount_list [options]")))
  end.

Definition mount_main (args : list string) : cprog process_end := example_main "mount" (mount_run args).
Definition unmount_main (args : list string) : cprog process_end := example_main "unmount" (unmount_run args).
Definition mount_list_main (args : list string) : cprog process_end := example_main "mount_list" (mount_list_run args).
End Examples.
