(* ===== verification/ExamplesFacts.v ===== *)
(** * What the example programs do, from the command line to the daemon

    The programs of [Examples] in any environment: which requests they send
    and what they print.  With the handlers of the daemon behind the network,
    the output of mount speaks of a mount that is recorded and started.  A
    program that has ended leaves no connection open. *)

From S2P Require Import Prelude GoStrings GoErrors GoPath Duration DurationFacts GoFlag Tabwriter Threads Grpc Api Redact Config Policy PolicyFacts.
From S2P Require Import Repository PlainCodec IrodsfsConfig Runtime Manager Traces ManagerTraces Scenario Server Rest RestFacts.
From S2P Require Import Commands Client ClientFacts ClientCalls Examples.

(** ** Sessions *)

Section Programs.
Context `{UrlLib} {grpc : GrpcLib}.
Variable clientID : string.
Variable fs : FS.
Variable Unmarshal_MountConfig : string -> result goerror MountConfig.

Local Notation ends p Q := (ends sends p Q).
Local Notation load := (LoadMountConfigJSONFile fs Unmarshal_MountConfig).

(** What a run prints and returns, given the result of its call. *)
Definition outcome {A} (print : A -> string) (r : result client_error A) : run_end :=
  match r with
  | Err err => Returned EmptyString (Some err)
  | Ok a => Returned (print a) None
  end.

Lemma ends_session {A} flags (call : cprog (result client_error A)) print Q :
  ends call Q ->
  ends (session clientID flags call print) (fun os x =>
    (os = [] /\ exists err, x = Returned EmptyString (Some err)) \/ exists r, Q os r /\ x = outcome print r).
Proof.
  intros Hc. unfold session. apply ends_silently; [apply silent_perform; intros ? [] ? ? ? [= <- <- <-]; done|]. intros _.
  apply ends_silently; [apply silent_Connect|]. intros [err|]; [apply ends_ret; left; eauto|].
  eapply ends_bind; [exact Hc|]. intros os r Hr. apply ends_silently; [apply silent_Disconnect|]. intros _.
  apply ends_ret. rewrite app_nil_r. right. by exists r.
Qed.

(** ** Command lines *)

(** mount with all of its flags. *)
Definition mount_command_line (endpoint : string) (timeout : Z) (mountID : string) (wait : bool) (path : string) : list string :=
  [flag_arg "endpoint" (FlagString endpoint); flag_arg "timeout" (FlagDuration timeout);
   flag_arg "mount-id" (FlagString mountID); flag_arg "wait" (FlagBool wait); "--"; path].

Lemma mount_command_line_read endpoint timeout mountID wait path :
  - two63 <= timeout < two63 ->
  exists flags, Parse mount_flags (mount_command_line endpoint timeout mountID wait path) = Parsed flags [path] /\
    get_string flags "endpoint" = endpoint /\ get_duration flags "timeout" = timeout /\
    get_string flags "mount-id" = mountID /\ get_bool flags "wait" = wait.
Proof.
  intros Ht. eexists. split.
  - unfold mount_command_line. rewrite (Parse_flag_arg _ _ (FlagString default_endpoint)) by done.
    rewrite (Parse_flag_arg _ _ (FlagDuration (5 * Minute))) by (done || (simpl; lia)).
    rewrite (Parse_flag_arg _ _ (FlagString EmptyString)) by done. rewrite (Parse_flag_arg _ _ (FlagBool false)) by done.
    apply Parse_terminator.
  - done.
Qed.

(** ** The call of mount *)

(** The requests of a mount call and, when it returns a mount, the answer it
    comes from. *)
Definition mount_sent (mountID : string) (config : MountConfig) (wait : bool) (os : list (rpc * client_env))
    (m : option (option MountInfo)) : Prop :=
  exists requests watches, os = requests ++ watches /\
    Forall (fun x => fst x = RpcMount (mount_request mountID (Some config))) requests /\
    (length requests <= 2)%nat /\
    (forall x y, requests = [x; y] -> exists err, env_Mount (snd x) = Err err /\ isTransportError err = true) /\
    forall mount, m = Some mount -> exists q e answer, last requests = Some (q, e) /\
      env_answers e = true /\ env_Mount e = Ok answer /\
      from_option MountInfo_MountId EmptyString mount = from_option MountInfo_MountId EmptyString answer /\
      if wait : bool then exists i, mount = Some i /\ settled i = true else mount = answer.

Lemma ends_mount_call mountID config wait :
  ends (if String.eqb mountID EmptyString then client_Mount (Some config) wait else MountWithID mountID (Some config) wait)
    (fun os r => mount_sent mountID config wait os (match r with Ok m => Some m | Err _ => None end)).
Proof.
  assert ((if String.eqb mountID EmptyString then client_Mount (Some config) wait else MountWithID mountID (Some config) wait) =
    MountWithID mountID (Some config) wait) as ->.
  { destruct (String.eqb mountID EmptyString) eqn:E; [|done]. bools. by subst. }
  intros os r Hx. destruct (mount_call_is_faithful _ _ _ _ _ Hx) as (requests & watches & Hos & Hsame & Htwice & Hwhy & Hlast).
  exists requests, watches. split_and!; [done..|]. intros mount Hm. destruct r as [m|]; [|done]. injection Hm as ->.
  destruct (Hlast mount eq_refl) as (q & e & answer & Hl & Hans & He & Hw). exists q, e, answer. split_and!; [done..| |].
  - destruct wait; [destruct Hw as (i & e' & -> & _ & Hid & _)|destruct Hw as [-> _]]; done.
  - destruct wait; [destruct Hw as (i & e' & -> & Hs & _); eauto|by destruct Hw].
Qed.

(** How mount ends: without having sent anything when its arguments, its file
    or its connection are at fault; else with what the call returned. *)
Lemma ends_mount_run endpoint timeout mountID wait path :
  - two63 <= timeout < two63 ->
  ends (mount_run clientID fs Unmarshal_MountConfig (mount_command_line endpoint timeout mountID wait path)) (fun os x =>
    (os = [] /\ exists err, x = Returned EmptyString (Some err)) \/
    exists config r, load path = Ok config /\ x = outcome print_mount r /\
      mount_sent mountID config wait os (match r with Ok m => Some m | Err _ => None end)).
Proof.
  intros Ht. destruct (mount_command_line_read endpoint timeout mountID wait path Ht) as (flags & Hp & _ & _ & Hid & Hw).
  unfold mount_run. rewrite Hp, Hid, Hw. cbv zeta. destruct (load path) as [config|err]; [|apply ends_ret; left; eauto].
  eapply ends_mono; [|apply ends_session, ends_mount_call]. intros os x [Hx|(r & Hr & ->)]; [by left|right; eauto].
Qed.
(** *** The call of unmount *)

Definition unmount_command_line (endpoint : string) (timeout : Z) (mountID : string) : list string :=
  [flag_arg "endpoint" (FlagString endpoint); flag_arg "timeout" (FlagDuration timeout); "--"; mountID].

Lemma unmount_command_line_read endpoint timeout mountID :
  - two63 <= timeout < two63 ->
  exists flags, Parse unmount_flags (unmount_command_line endpoint timeout mountID) = Parsed flags [mountID] /\
    get_string flags "endpoint" = endpoint /\ get_duration flags "timeout" = timeout.
Proof.
  intros Ht. eexists. split.
  - unfold unmount_command_line. rewrite (Parse_flag_arg _ _ (FlagString default_endpoint)) by done.
    rewrite (Parse_flag_arg _ _ (FlagDuration (5 * Minute))) by (done || (simpl; lia)). apply Parse_terminator.
  - done.
Qed.

Lemma ends_unmount_run endpoint timeout mountID :
  - two63 <= timeout < two63 ->
  ends (unmount_run clientID (unmount_command_line endpoint timeout mountID)) (fun os x =>
    (os = [] /\ exists err, x = Returned EmptyString (Some err)) \/
    exists r, answered (RpcUnmount (mkUnmountRequest mountID)) env_Unmount os r /\ x = outcome print_mount r).
Proof.
  intros Ht. destruct (unmount_command_line_read endpoint timeout mountID Ht) as (flags & Hp & _).
  unfold unmount_run. rewrite Hp. apply ends_session, ends_Unmount.
Qed.

(** *** The listing *)

Lemma mount_list_command_line_read endpoint timeout :
  - two63 <= timeout < two63 ->
  exists flags, Parse mount_list_flags [flag_arg "endpoint" (FlagString endpoint); flag_arg "timeout" (FlagDuration timeout)] =
    Parsed flags [] /\ get_string flags "endpoint" = endpoint /\ get_duration flags "timeout" = timeout.
Proof.
  intros Ht. eexists. split.
  - rewrite (Parse_flag_arg _ _ (FlagString default_endpoint)) by done.
    rewrite (Parse_flag_arg _ _ (FlagDuration (30 * Second))) by (done || (simpl; lia)). reflexivity.
  - done.
Qed.

(** mount_list asks for all mounts and prints the last answer as a table
    with aligned columns, as long as no path holds a tab or a line break;
    with an error it prints nothing. *)
Theorem mount_list_prints_the_listing endpoint timeout os out :
  - two63 <= timeout < two63 ->
  execution sends (mount_list_main clientID [flag_arg "endpoint" (FlagString endpoint); flag_arg "timeout" (FlagDuration timeout)]) os out ->
  (exit_code out = 1 /\ end_stdout out = EmptyString) \/
  (exit_code out = 0 /\ exists e mounts, last os = Some (RpcListMounts (mkListMountsRequest [] None None), e) /\
     env_ListMounts e = Ok mounts /\
     (forallb one_cells (list_row <$> mounts) = true -> end_stdout out = aligned_table (list_header :: (list_row <$> mounts)))).
Proof.
  intros Ht Hx. destruct (mount_list_command_line_read endpoint timeout Ht) as (flags & Hp & _).
  unfold mount_list_main, example_main, mount_list_run in Hx. rewrite Hp in Hx.
  apply execution_bind in Hx as (os1 & os2 & x & -> & Hx & -> & ->). rewrite app_nil_r.
  apply (ends_session _ _ _ _ (ends_ListMounts None)) in Hx as [[_ [err ->]]|([mounts|err] & [_ _ _ Hl] & ->)]; [by left| |by left].
  right. split; [done|]. destruct (Hl mounts eq_refl) as (e & He & _ & Hm). exists e, mounts. split_and!; [done..|].
  intros Hc. cbn [outcome end_stdout]. unfold print_mounts. apply tabwriter_table. cbn [forallb]. by rewrite Hc.
Qed.
End Programs.

(** ** Connections at the end of a process *)

(** The goroutine that a client starts by itself. *)
Definition is_background (t : client_thread) : Prop := match t with TcBackgroundReconnect _ _ => True | _ => False end.

Section Disconnected.
Context `{UrlLib}.

(** No action makes a connected client of one that is not, or the other way
    round. *)
Fixpoint steady {A} (p : cprog A) : Prop :=
  match p with
  | Done _ => True
  | Do f k => forall e w x w' ts, f e w = Goes x w' ts ->
      connected (cw_client w') = connected (cw_client w) /\ Forall is_background ts /\ steady (k x)
  end.

Lemma steady_bind {A B} (p : cprog A) (k : A -> cprog B) : steady p -> (forall a, steady (k a)) -> steady (p ≫= k).
Proof.
  intros Hp Hk. induction p as [a|R f g IH]; simpl in *; [apply Hk|]. intros e w x w' ts Hx.
  destruct (Hp e w x w' ts Hx) as (Hc & Ht & Hg). split_and!; [done..|by apply IH].
Qed.

Lemma steady_perform {A} (f : client_env -> client_world -> step_outcome client_world client_thread A) :
  (forall e w x w' ts, f e w = Goes x w' ts -> connected (cw_client w') = connected (cw_client w) /\ Forall is_background ts) ->
  steady (perform f).
Proof. intros Hf e w x w' ts Hx. destruct (Hf e w x w' ts Hx). by split_and!. Qed.

Lemma steady_ret {A} (a : A) : steady (mret a).
Proof. done. Qed.

Create HintDb steadily discriminated.
#[local] Hint Resolve @steady_ret : steadily.

Ltac steadily := repeat first
  [ solve [auto with steadily]
  | apply steady_bind; [|intros ?]
  | progress case_match
  | apply steady_perform; intros ? [[] ? ? ? ?] ? ? ?; simpl; repeat case_match; intros ?; by simplify_eq/= ].

Lemma steady_close_if_some c : steady (close_if_some c).
Proof. destruct c; cbn [close_if_some]; steadily. Qed.
#[local] Hint Resolve steady_close_if_some : steadily.

Lemma steady_newConnection : steady newConnection.
Proof. unfold newConnection. steadily. Qed.
#[local] Hint Resolve steady_newConnection : steadily.

Lemma steady_start b s : steady (start (TcBackgroundReconnect b s)).
Proof. apply steady_perform. intros e w x w' ts [= <- <- <-]. by repeat constructor. Qed.
#[local] Hint Resolve steady_start : steadily.

Lemma steady_reconnect_now : steady reconnect_now.
Proof. unfold reconnect_now, WithTimeout. steadily. Qed.
#[local] Hint Resolve steady_reconnect_now : steadily.

Lemma steady_startBackgroundReconnect : steady startBackgroundReconnect.
Proof. unfold startBackgroundReconnect. steadily. Qed.
#[local] Hint Resolve steady_startBackgroundReconnect : steadily.

Lemma steady_attempt c i : steady (attempt c i).
Proof. unfold attempt, WithTimeout. steadily. Qed.
#[local] Hint Resolve steady_attempt : steadily.

Lemma steady_reconnect_loop n : forall c i, steady (reconnect_loop n c i).
Proof. induction n as [|n IH]; intros c i; cbn [reconnect_loop]; steadily. Qed.
#[local] Hint Resolve steady_reconnect_loop : steadily.

Lemma steady_backgroundReconnect b s : steady (backgroundReconnect b s).
Proof. unfold backgroundReconnect, WithTimeout, background_exit. steadily. Qed.

Lemma steady_doWithReconnect {A} (f : cprog (result rpcerror A)) : steady f -> steady (doWithReconnect f).
Proof. intros Hf. unfold doWithReconnect. steadily. Qed.

Lemma steady_call_rpc {A} c q (f : client_env -> result rpcerror A) : steady (call_rpc c q f).
Proof. unfold call_rpc, getAPIClient. steadily. Qed.
#[local] Hint Resolve @steady_call_rpc : steadily.

Lemma steady_getContextWithDeadline : steady getContextWithDeadline.
Proof. unfold getContextWithDeadline, WithTimeout. steadily. Qed.
#[local] Hint Resolve steady_getContextWithDeadline : steadily.
#[local] Hint Extern 1 (steady (doWithReconnect _)) => apply steady_doWithReconnect; steadily : steadily.

Lemma steady_MountWithID id config wait : steady (MountWithID id config wait).
Proof. unfold MountWithID, client_waitForMount, client_WatchMountEvents. steadily. Qed.

Lemma steady_Unmount id : steady (client_Unmount id).
Proof. unfold client_Unmount. steadily. Qed.

Lemma steady_ListMounts filter : steady (client_ListMounts filter).
Proof. unfold client_ListMounts. steadily. Qed.

(** A connected client is somebody's: main holds a token from Connect to
    Disconnect. *)
Definition held (w : client_world) (T : list unit) : Prop := connected (cw_client w) = true -> T <> [].

Lemma held_perm w : Proper ((≡ₚ) ==> iff) (held w).
Proof.
  intros T U E. unfold held. split; intros Hh Hc ->; specialize (Hh Hc).
  - by apply Permutation_nil_r in E.
  - by apply Permutation_nil_l in E.
Qed.

Definition background_pre (t : client_thread) (r : list unit) : Prop := is_background t /\ r = [].

Definition anywhere {X Y : Type} (_ : X) (_ : Y) : Prop := True.

Local Notation holding := (owning held background_pre anywhere anywhere).

Lemma holding_steady {A} r (p : cprog A) : steady p -> holding r p (fun _ x => x = r).
Proof.
  induction p as [a|R f k IH]; simpl; [done|]. intros Hs e w F Hw. destruct (f e w) as [| |x w' ts] eqn:E; [done..|].
  destruct (Hs e w x w' ts E) as (Hc & Ht & Hk). exists r, (replicate (length ts) []). split_and!.
  - unfold held in *. rewrite Hc. replace (mjoin (replicate (length ts) [])) with (@nil unit); [done|].
    clear. by induction ts.
  - clear -Ht. induction Ht; simpl; constructor; [done|done].
  - by apply IH.
Qed.

Lemma holding_Connect : holding [] Connect (fun err x => x = match err with None => [tt] | Some _ => [] end).
Proof.
  unfold Connect. eapply owning_then; [apply holding_steady, steady_newConnection|]. intros [[c d]|err]; [|done].
  apply owning_bind, owning_perform. intros e w F Hw. destruct (connected (cw_client w)) eqn:Ec; (split; [done|]).
  - exists []. split; [done|]. eapply owning_then; [apply holding_steady; steadily|]. by intros _.
  - exists [tt]. by split.
Qed.

Lemma holding_Disconnect : holding [tt] Disconnect (fun _ x => x = []).
Proof.
  unfold Disconnect. do 5 (eapply owning_then; [apply holding_steady; steadily|]; intros ?).
  unfold disconnectConn. apply owning_bind, owning_perform. intros e w F Hw. split; [done|]. exists []. split.
  - by destruct w as [[] ? ? ? ?].
  - apply holding_steady. steadily.
Qed.

Lemma background_holding t r : background_pre t r -> holding r (client_body t) (fun _ x => x = []).
Proof. intros [Hb ->]. destruct t; try done. apply holding_steady, steady_backgroundReconnect. Qed.

(** ** Processes *)

(** The process of a command: main, and the goroutines its client starts. *)
Definition process (main : cprog process_end) : pool client_world client_env client_thread :=
  mkPool (client_start EmptyString EmptyString 0 false) [main;; mret tt].

Definition only_runs (cs : list (scheduled client_env client_thread)) : bool :=
  forallb (fun c => match c with Runs _ _ => true | Arrives _ => false end) cs.

Lemma only_runs_arrives cs t : only_runs cs = true -> Arrives t ∈ cs -> False.
Proof. unfold only_runs. rewrite forallb_forall. intros Hcs Ht%list_elem_of_In. by specialize (Hcs _ Ht). Qed.

(** It does not die, and in the end no connection is open. *)
Definition leaves_no_connection (r : pool_result client_world client_env client_thread) : Prop :=
  match r with
  | Stuck => True
  | Dead => False
  | Ran s => forallb finished (pool_threads s) = true -> forall x, is_open (pool_world s) x = false
  end.

(** From a client of its own on: a program that accounts for its connections
    and gives back its hold on the client. *)
Lemma connected_process clientID endpoint timeout (p : cprog unit) cs :
  owning (client_inv timeout) (thread_pre false) (may_wait timeout false) never [] p (fun _ x => x = []) ->
  holding [] p (fun _ x => x = []) -> only_runs cs = true ->
  leaves_no_connection (pool_run client_body (mkPool (client_start clientID endpoint timeout true) [p]) cs).
Proof.
  intros Hp Hh Hcs. set (s0 := mkPool _ _).
  assert (accounted (client_inv timeout) (thread_pre false) (may_wait timeout false) never s0) as H1.
  { exists [[]]. split; [by constructor|]. split; simpl; [done|done| |constructor|by left|done|constructor|done]. intros c. set_solver. }
  assert (accounted held background_pre anywhere anywhere s0) as H2 by (exists [[]]; split; [by constructor|done]).
  pose proof (accounted_run (client_inv timeout) (thread_pre false) (may_wait timeout false) never (client_inv_perm timeout)
    client_body (client_body_owning timeout false (unbounded timeout)) s0 cs H1
    ltac:(intros t Ht; by destruct (only_runs_arrives cs t Hcs Ht))) as R1.
  pose proof (accounted_run held background_pre anywhere anywhere held_perm client_body background_holding s0 cs H2
    ltac:(intros t Ht; by destruct (only_runs_arrives cs t Hcs Ht))) as R2.
  destruct (pool_run client_body s0 cs) as [| |s]; [done|by destruct R1 as (? & ? & [])|]. intros Hf x.
  pose proof (accounted_finished _ _ _ _ s R1 Hf) as [_ Hc Ho _ _ _ _ _]. pose proof (accounted_finished _ _ _ _ s R2 Hf) as Hx.
  destruct (is_open (pool_world s) x) eqn:E; [|done]. apply Ho in E. unfold current in E. unfold held in Hx.
  destruct (grpcConnection (cw_client (pool_world s))); simpl in E; [by destruct (Hx Hc)|by apply elem_of_nil in E].
Qed.

Lemma session_process {A} clientID flags (call : cprog (result client_error A)) print (g : run_end -> process_end) cs :
  (forall r, owning (client_inv (get_duration flags "timeout")) (thread_pre false) (may_wait (get_duration flags "timeout") false)
     never r call (fun _ x => x = r)) ->
  steady call -> only_runs cs = true ->
  leaves_no_connection (pool_run client_body (process (r ← session clientID flags call print; mret (g r))) cs).
Proof.
  intros Ho Hs Hcs. destruct cs as [|c cs]; [done|]. cbn [only_runs forallb] in Hcs. destruct c as [i e|]; [|done].
  destruct i as [|i]; [|done].
  apply (connected_process clientID (get_string flags "endpoint") (get_duration flags "timeout")); [..|done].
  - eapply owning_then; [eapply owning_then; [eapply owning_then; [apply owning_Connect, unbounded|]|by intros r]|by intros r].
    intros [err|]; [done|]. eapply owning_then; [apply Ho|]. intros r. eapply owning_then; [apply owning_Disconnect, unbounded|]. by intros _.
  - eapply owning_then; [eapply owning_then; [apply owning_bind; eapply owning_mono; [|apply holding_Connect]|by intros r]|by intros r].
    intros [err|] x ->; [done|]. eapply owning_then; [by apply holding_steady|]. intros r.
    eapply owning_then; [apply holding_Disconnect|]. by intros _.
Qed.

Lemma returned_process (x : process_end) cs : only_runs cs = true ->
  leaves_no_connection (pool_run client_body (process (mret x)) cs).
Proof.
  intros Hcs. destruct cs as [|[i e|t] cs]; [done| |done]. simpl. by destruct i.
Qed.

(** Whatever their arguments, the network and the server: the commands do
    not die, and once they and the goroutines of their clients have ended, no
    connection is open. *)
Theorem commands_leave_no_connection {grpc : GrpcLib} clientID fs Unmarshal_MountConfig args cs :
  only_runs cs = true ->
  leaves_no_connection (pool_run client_body (process (mount_main clientID fs Unmarshal_MountConfig args)) cs) /\
  leaves_no_connection (pool_run client_body (process (unmount_main clientID args)) cs) /\
  leaves_no_connection (pool_run client_body (process (mount_list_main clientID args)) cs).
Proof.
  intros Hcs. unfold mount_main, unmount_main, mount_list_main, example_main, mount_run, unmount_run, mount_list_run. split_and!.
  - destruct (Parse mount_flags args) as [flags [|path [|]]| |]; try by apply returned_process.
    destruct (LoadMountConfigJSONFile _ _ _); [|by apply returned_process]. cbv zeta. apply session_process; [..|done].
    + intros r. unfold client_Mount. destruct (String.eqb _ _); apply owning_MountWithID, unbounded.
    + unfold client_Mount. destruct (String.eqb _ _); apply steady_MountWithID.
  - destruct (Parse unmount_flags args) as [flags [|id [|]]| |]; try by apply returned_process.
    apply session_process; [intros r; apply owning_Unmount, unbounded|apply steady_Unmount|done].
  - destruct (Parse mount_list_flags args) as [flags [|]| |]; try by apply returned_process.
    apply session_process; [intros r; apply owning_ListMounts, unbounded|apply steady_ListMounts|done].
Qed.
End Disconnected.

(** ** The daemon behind the network *)

Section EndToEnd.
Variable daemon : Config.
Context {url : UrlLib} {errs : ErrorLib} {codec : RecordCodec} {irods : IrodsfsLib} {grpc : GrpcLib}.
Variable id_of : entry_id -> string.

(** The handlers of the daemon answer these requests so. *)
Definition mount_handled (request : MountRequest) (t : trace) (answer : option MountInfo) : Prop :=
  exists c audit, traces (named id_of) (server_Mount (ops := manager_operations daemon) c (Some request)) t (Some (audit, Ok answer)).
Definition unmount_handled (request : UnmountRequest) (t : trace) (answer : option MountInfo) : Prop :=
  exists c audit, traces (named id_of) (server_Unmount (ops := manager_operations daemon) c (Some request)) t (Some (audit, Ok answer)).

(** What gRPC promises: the answer of a call that succeeds before its context
    ends is the answer of the handler to its request. *)
Record served (os : list (rpc * client_env)) : Prop := {
  served_mounts : forall request e answer, (RpcMount request, e) ∈ os -> env_answers e = true -> env_Mount e = Ok answer ->
    exists t, mount_handled request t answer;
  served_unmounts : forall request e answer, (RpcUnmount request, e) ∈ os -> env_answers e = true -> env_Unmount e = Ok answer ->
    exists t, unmount_handled request t answer
}.

(** A mount that a daemon recorded and started when it answered [request]. *)
Definition recorded_and_started (request : MountRequest) (id : string) : Prop :=
  exists t answer, mount_handled request t (Some answer) /\ MountInfo_MountId answer = id /\
    happened (did (creates id)) t /\ happened (did (starts id)) t.

(** An unmount that a daemon completed when it answered a request for [id]:
    the tombstone is in the database, the data is removed and subscribers are
    told. *)
Definition unmount_completed (id : string) : Prop :=
  exists t answer, unmount_handled (mkUnmountRequest id) t (Some answer) /\ MountInfo_MountId answer = id /\
    happened (did (tombstoned id)) t /\ happened (did (removes_data (mount_data_root daemon id))) t /\ happened (did (announces id)) t.

Lemma mount_handled_launched request t answer :
  mount_handled request t answer ->
  exists i, answer = Some i /\ happened (did (creates (MountInfo_MountId i))) t /\ happened (did (starts (MountInfo_MountId i))) t.
Proof.
  intros (c & audit & Htr).
  assert (always (named id_of) (fun _ => True) [] (server_Mount (ops := manager_operations daemon) c (Some request))
            (fun u x => forall m, snd x = Ok m -> exists i, m = Some i /\
              happened (did (creates (MountInfo_MountId i))) u /\ happened (did (starts (MountInfo_MountId i))) u)) as Hal.
  { apply always_bind. eapply always_mono; [|apply always_Mount_launched]. intros u [mount err] _ Hx.
    apply always_ret; [done|]. cbn [snd]. destruct err as [err|]; [by rewrite mountStatusError_plain|].
    intros m [= <-]. by apply Hx. }
  destruct (always_traces _ _ _ _ _ _ _ Hal Htr) as [_ Ha]. by apply (Ha (audit, Ok answer)).
Qed.

Lemma unmount_handled_completed id t answer :
  unmount_handled (mkUnmountRequest id) t answer -> exists i, answer = Some i /\ MountInfo_MountId i = id /\
    happened (did (tombstoned id)) t /\ happened (did (removes_data (mount_data_root daemon id))) t /\ happened (did (announces id)) t.
Proof.
  intros (c & audit & Htr).
  assert (always (named id_of) (fun _ => True) [] (server_Unmount (ops := manager_operations daemon) c (Some (mkUnmountRequest id)))
            (fun u x => forall m, snd x = Ok m -> completed daemon id u (m, None))) as Hal.
  { unfold server_Unmount. cbn [UnmountRequest_MountId]. destruct (String.eqb id EmptyString); [by apply always_ret|].
    apply always_bind. eapply always_mono; [|apply always_Unmount_completed]. intros u [mount err] _ Hx.
    apply always_ret; [done|]. cbn [snd]. destruct err as [err|]; [by rewrite mountStatusError_plain|].
    intros m [= <-]. exact Hx. }
  destruct (always_traces _ _ _ _ _ _ _ Hal Htr) as [_ Ha]. by apply (Ha (audit, Ok answer)).
Qed.

(** C15: the command mount, from its command line to the daemon.  Started
    with any values of its flags, it sends the configuration of its file
    with the mount ID it was given, at most twice, and a second time only
    after a transport error.  It exits with 0 or 1.  Exit code 1 comes with
    an error on standard error and nothing on standard output.  Exit code 0
    means that the daemon recorded the mount and started its client; the
    output is the ID of that mount and the state the daemon reported, which
    is final (mounted or failed) with -wait. *)
Theorem mount_command_end_to_end clientID fs Unmarshal_MountConfig endpoint timeout mountID wait path os out :
  - two63 <= timeout < two63 ->
  execution sends (mount_main clientID fs Unmarshal_MountConfig (mount_command_line endpoint timeout mountID wait path)) os out ->
  served os ->
  (os = [] \/ exists config requests watches, LoadMountConfigJSONFile fs Unmarshal_MountConfig path = Ok config /\
     os = requests ++ watches /\ Forall (fun x => fst x = RpcMount (mount_request mountID (Some config))) requests /\
     (length requests <= 2)%nat /\
     (forall x y, requests = [x; y] -> exists err, env_Mount (snd x) = Err err /\ isTransportError err = true)) /\
  ((exit_code out = 1 /\ end_stdout out = EmptyString /\ HasPrefix (end_stderr out) "mount: " = true) \/
   (exit_code out = 0 /\ end_stderr out = EmptyString /\ exists config mount,
     LoadMountConfigJSONFile fs Unmarshal_MountConfig path = Ok config /\
     end_stdout out = print_mount (Some mount) /\ (wait = true -> settled mount = true) /\
     recorded_and_started (mount_request mountID (Some config)) (MountInfo_MountId mount))).
Proof.
  intros Ht Hx Hs. unfold mount_main, example_main in Hx. apply execution_bind in Hx as (os1 & os2 & x & -> & Hx & -> & ->).
  rewrite app_nil_r in *. destruct (ends_mount_run _ _ _ _ _ _ _ _ Ht _ _ Hx) as [[-> [err ->]]|(config & r & Hl & -> & Hr)].
  { split; [by left|]. left. split_and!; [done..|]. apply (HasPrefix_app "mount: "). }
  destruct Hr as (requests & watches & Hos & Hsame & Htwice & Hwhy & Hm). split; [right; by exists config, requests, watches|].
  destruct r as [mount|err]; [|left; split_and!; [done..|apply (HasPrefix_app "mount: ")]]. right. split_and!; [done..|].
  destruct (Hm mount eq_refl) as (q & e & answer & Hlast & Hans & He & Hid & Hw).
  apply last_Some in Hlast as [requests' ->]. apply Forall_app in Hsame as [_ Hq]. inversion_clear Hq as [|? ? Eq _].
  simpl in Eq. subst q. destruct (served_mounts _ Hs (mount_request mountID (Some config)) e answer) as (t & Htr); [set_solver|done|done|].
  destruct (mount_handled_launched _ _ _ Htr) as (i & -> & Hc & Hst).
  assert (exists m, mount = Some m /\ (wait = true -> settled m = true)) as (m & -> & Hset).
  { destruct wait; [destruct Hw as (m & -> & Hset)|subst mount]; eauto. by exists i. }
  simpl in Hid. exists config, m. split_and!; [done..|]. exists t, i. by rewrite Hid.
Qed.

(** C16: the command unmount, from its command line to the daemon.  Started
    with any values of its flags, it asks for the unmount of its argument and
    nothing else, at most twice, and a second time only after a transport
    error.  It exits with 0 or 1.  Exit code 1 comes with an error on
    standard error and nothing on standard output.  Exit code 0 means that
    the daemon has written the tombstone of exactly this mount, removed its
    data and told its subscribers; the output names the mount. *)
Theorem unmount_command_end_to_end clientID endpoint timeout mountID os out :
  - two63 <= timeout < two63 ->
  execution sends (unmount_main clientID (unmount_command_line endpoint timeout mountID)) os out ->
  served os ->
  Forall (fun x => fst x = RpcUnmount (mkUnmountRequest mountID)) os /\ (length os <= 2)%nat /\
  (forall x y, os = [x; y] -> exists err, env_Unmount (snd x) = Err err /\ isTransportError err = true) /\
  ((exit_code out = 1 /\ end_stdout out = EmptyString /\ HasPrefix (end_stderr out) "unmount: " = true) \/
   (exit_code out = 0 /\ end_stderr out = EmptyString /\ exists mount,
     end_stdout out = print_mount (Some mount) /\ MountInfo_MountId mount = mountID /\ unmount_completed mountID)).
Proof.
  intros Ht Hx Hs. unfold unmount_main, example_main in Hx. apply execution_bind in Hx as (os1 & os2 & x & -> & Hx & -> & ->).
  rewrite app_nil_r in *. destruct (ends_unmount_run _ _ _ _ Ht _ _ Hx) as [[-> [err ->]]|(r & [Hsame Htwice Hwhy Hlast] & ->)].
  { split_and!; [constructor|simpl; lia|done|]. left. split_and!; [done..|]. apply (HasPrefix_app "unmount: "). }
  split_and!; [done..|]. destruct r as [mount|err]; [|left; split_and!; [done..|apply (HasPrefix_app "unmount: ")]].
  right. split_and!; [done..|]. destruct (Hlast mount eq_refl) as (e & Hl & Hans & He). apply last_Some in Hl as [os' ->].
  destruct (served_unmounts _ Hs (mkUnmountRequest mountID) e mount) as (t & Htr); [set_solver|done|done|].
  destruct (unmount_handled_completed _ _ _ Htr) as (i & -> & Hid & H1 & H2 & H3). exists i. split_and!; [done..|].
  by exists t, i.
Qed.
End EndToEnd.

(** ** A concrete command *)

Definition host_files : FS := {|
  EvalSymlinks p := Some p;
  Stat _ := StatOk false 420;
  ReadFile p := if String.eqb p "/etc/home.json" then ReadOk "home" else ReadNotExist;
  Geteuid := 0
|}.

Definition plain_mount_config (data : string) : result goerror MountConfig :=
  if String.eqb data "home" then Ok (nfs_request home) else Err (ENew "syntax error").

(** The handler of the examples' daemon answers a request for [home]. *)
Definition serve_home :=
  tracing (named (fun _ => "home")) (repeat (calm 1000 []) 60)
    (server_Mount (ops := @manager_operations example_config plain_urls message_errors plain_codec plain_irodsfs)
       (mkCall Background None None) (Some (mount_request "home" (Some (nfs_request home))))) (initial_world ∅ None).

Definition home_answer : result rpcerror (option MountInfo) :=
  match serve_home.2 with Some (_, r) => r | None => Err (RStatus codes_Internal "") end.

(** The network passes it on, and the mount becomes mounted. *)
Definition serving : client_env :=
  mkClientEnv 0 None [StateReady] false true home_answer (Ok None) (Ok []) (Ok None) (Ok tt) (Ok tt)
    (mkStream [mkReceived MOUNT_EVENT_TYPE_UPDATED
                 (match home_answer with Ok (Some m) => Some (set_State MOUNT_STATE_MOUNTED m) | _ => None end)] None).

Definition mount_home_command : cprog process_end :=
  @mount_main plain_urls plain_grpc "c" host_files plain_mount_config
    (mount_command_line "tcp://localhost:13020" (5 * Minute) "home" true "/etc/home.json").

(** The server is away at the first try. *)
Definition mount_home_process : option (list (rpc * client_env) * process_end) :=
  alone sends (replicate 10 down ++ replicate 60 serving) mount_home_command (client_start "" "" 0 false).

Lemma mount_home_execution os out : mount_home_process = Some (os, out) -> execution sends mount_home_command os out.
Proof. apply alone_execution. Qed.

Lemma home_served :
  exists audit, serve_home.2 = Some (audit, home_answer).
Proof.
  unfold home_answer. destruct serve_home.2 as [[audit r]|] eqn:E; [by exists audit|]. by vm_compute in E.
Qed.

(** What the concrete process sends and prints. *)
Definition mount_home_shape (p : option (list (rpc * client_env) * process_end)) : Prop :=
  match p with
  | Some ([(RpcMount r1, e1); (RpcMount r2, e2); (RpcWatchMountEvents _, _)], out) =>
      env_Mount e1 = Err (RStatus codes_Unavailable "") /\ r2 = mount_request "home" (Some (nfs_request home)) /\
      env_Mount e2 = home_answer /\ exit_code out = 0 /\
      end_stdout out = "mount_id: home" +:+ str1 ch_newline +:+ "state: MOUNT_STATE_MOUNTED" +:+ str1 ch_newline
  | _ => False
  end.

Lemma mount_home_runs : mount_home_shape mount_home_process.
Proof. vm_compute. by split_and!. Qed.

Lemma mount_home_served r1 e1 r2 e2 q e3 :
  env_Mount e1 = Err (RStatus codes_Unavailable "") -> r2 = mount_request "home" (Some (nfs_request home)) ->
  env_Mount e2 = home_answer ->
  @served example_config plain_urls message_errors plain_codec plain_irodsfs plain_grpc (fun _ => "home")
    [(RpcMount r1, e1); (RpcMount r2, e2); (RpcWatchMountEvents q, e3)].
Proof.
  intros H1 -> H2. split; intros request e answer Hin _ He.
  2: { rewrite !elem_of_cons, elem_of_nil in Hin. destruct Hin as [[=]|[[=]|[[=]|[]]]]. }
  assert (request = mount_request "home" (Some (nfs_request home)) /\ home_answer = Ok answer) as [-> Ha].
  { rewrite !elem_of_cons, elem_of_nil in Hin. destruct Hin as [[= -> ->]|[[= -> ->]|[[=]|[]]]]; split; congruence. }
  destruct home_served as [audit Hs]. rewrite Ha in Hs. exists (serve_home.1), (mkCall Background None None), audit.
  by apply tracing_result.
Qed.

Lemma mount_command_end_to_end_witness :
  match mount_home_process with
  | Some (os, out) => length os = 3%nat /\ exit_code out = 0 /\
      exists config mount, LoadMountConfigJSONFile host_files plain_mount_config "/etc/home.json" = Ok config /\
        settled mount = true /\
        @recorded_and_started example_config plain_urls message_errors plain_codec plain_irodsfs plain_grpc (fun _ => "home")
          (mount_request "home" (Some config)) (MountInfo_MountId mount)
  | None => False
  end.
Proof.
  pose proof mount_home_runs as H. destruct mount_home_process as [[os out]|] eqn:E; [|exact H].
  destruct os as [|[[r1| | | | |] e1] [|[[r2| | | | |] e2] [|[[| | | | |q] e3] [|]]]]; try destruct H.
  destruct H0 as (H2 & H3 & H4 & H5).
  assert (- two63 <= 5 * Minute < two63) as Htime by (unfold two63, Minute; lia).
  pose proof (mount_home_execution _ _ E) as Hx. unfold mount_home_command in Hx.
  pose proof (mount_home_served r1 e1 r2 e2 q e3 H H2 H3) as Hserved.
  destruct (@mount_command_end_to_end example_config plain_urls message_errors plain_codec plain_irodsfs plain_grpc (fun _ => "home")
    "c" host_files plain_mount_config "tcp://localhost:13020" (5 * Minute) "home" true "/etc/home.json" _ out
    Htime Hx Hserved) as [_ [[H1 _]|(_ & _ & config & mount & Hl & _ & Hset & Hr)]];
    [rewrite H4 in H1; discriminate H1|].
  split; [reflexivity|]. split; [exact H4|]. exists config, mount. exact (conj Hl (conj (Hset eq_refl) Hr)).
Defined.

(** The same daemon with [home] mounted, and the command that unmounts it. *)
Definition serve_unmount :=
  tracing (named (fun _ => "home")) (repeat unmounting_env 60)
    (server_Unmount (ops := @manager_operations example_config plain_urls message_errors plain_codec plain_irodsfs)
       (mkCall Background None None) (Some (mkUnmountRequest "home"))) (world_after mounted_run).

Definition unmount_answer : result rpcerror (option MountInfo) :=
  match serve_unmount.2 with Some (_, r) => r | None => Err (RStatus codes_Internal "") end.

Definition serving_unmount : client_env :=
  mkClientEnv 0 None [StateReady] false true (Ok None) unmount_answer (Ok []) (Ok None) (Ok tt) (Ok tt) (mkStream [] None).

Definition unmount_home_command : cprog process_end :=
  @unmount_main plain_urls plain_grpc "c" (unmount_command_line "tcp://localhost:13020" (5 * Minute) "home").

Definition unmount_home_process : option (list (rpc * client_env) * process_end) :=
  alone sends (replicate 40 serving_unmount) unmount_home_command (client_start "" "" 0 false).

Definition unmount_home_shape (p : option (list (rpc * client_env) * process_end)) : Prop :=
  match p with
  | Some ([(RpcUnmount r, e)], out) =>
      r = mkUnmountRequest "home" /\ env_Unmount e = unmount_answer /\ exit_code out = 0
  | _ => False
  end.

Lemma unmount_home_runs : unmount_home_shape unmount_home_process.
Proof. vm_compute. by split_and!. Qed.

Lemma unmount_home_execution os out : unmount_home_process = Some (os, out) -> execution sends unmount_home_command os out.
Proof. apply alone_execution. Qed.

Lemma unmount_served : exists audit, serve_unmount.2 = Some (audit, unmount_answer).
Proof.
  unfold unmount_answer. destruct serve_unmount.2 as [[audit r]|] eqn:E; [by exists audit|]. by vm_compute in E.
Qed.

Lemma unmount_home_served r e :
  r = mkUnmountRequest "home" -> env_Unmount e = unmount_answer ->
  @served example_config plain_urls message_errors plain_codec plain_irodsfs plain_grpc (fun _ => "home") [(RpcUnmount r, e)].
Proof.
  intros -> H2. split; intros request e' answer Hin _ He; apply list_elem_of_singleton in Hin; [discriminate Hin|].
  injection Hin as -> ->. rewrite H2 in He. destruct unmount_served as [audit Hs]. rewrite He in Hs.
  exists (serve_unmount.1), (mkCall Background None None), audit. by apply tracing_result.
Qed.

Lemma unmount_command_end_to_end_witness :
  match unmount_home_process with
  | Some (os, out) => length os = 1%nat /\ exit_code out = 0 /\
      @unmount_completed example_config plain_urls message_errors plain_codec plain_irodsfs plain_grpc (fun _ => "home") "home"
  | None => False
  end.
Proof.
  pose proof unmount_home_runs as H. destruct unmount_home_process as [[os out]|] eqn:E; [|exact H].
  destruct os as [|[[|r| | | |] e] [|]]; try destruct H. destruct H0 as [H1 H2].
  assert (- two63 <= 5 * Minute < two63) as Htime by (unfold two63, Minute; lia).
  pose proof (unmount_home_execution _ _ E) as Hx. unfold unmount_home_command in Hx.
  destruct (@unmount_command_end_to_end example_config plain_urls message_errors plain_codec plain_irodsfs plain_grpc (fun _ => "home")
    "c" "tcp://localhost:13020" (5 * Minute) "home" _ out Htime Hx (unmount_home_served r e H H1))
    as (_ & _ & _ & [[H3 _]|(_ & _ & mount & _ & _ & Hc)]); [rewrite H2 in H3; discriminate H3|].
  exact (conj eq_refl (conj H2 Hc)).
Defined.

(** The commands look for the daemon where it listens by default. *)
Example default_endpoints_agree : GetServiceEndpoint NewDefaultConfig = default_endpoint.
Proof. by vm_compute. Qed.
